(* ===== verification/_CoqProject ===== *)
-Q . S2P
Prelude.v
Utf8.v
Base64.v
Json.v
Decimal.v
Float.v
FloatText.v
Units.v
Config.v
GoJson.v
Codec.v
Fsm.v
Runtime.v
Loopback.v
RaftNode.v
Url.v
Lifecycle.v
Recovery.v
Logging.v
Http.v
Metrics.v
Collector.v
Store.v
Api.v
Cluster.v
Debug.v
Server.v
Harness.v
Examples.v
