(* ===== verification/Prelude.v ===== *)
(** * raft-meta: a verified model of the replicated metadata store

    The program is a replicated key-value store for cluster metadata. Every node
    runs a consensus instance of [hashicorp/raft], an in-memory state machine fed
    by it, and an HTTP API. A write is encoded as a command ([internal/fsm/codec.go]),
    proposed to the log by the leader ([internal/store], [internal/raftnode]) and
    applied by every node ([internal/fsm]); a read is answered by the local state
    machine; a follower redirects writes and consistent reads to the leader
    ([internal/api]). Nodes added at run time are themselves replicated entries, so
    that every node can redirect to them and ask for their status. Snapshots
    truncate the log, and a node can be wiped or reduced to a single voter after a
    disaster ([internal/raftnode/recover.go]).

    ** Files

    Bytes and text, on which the log entries, snapshots and HTTP bodies depend:
    - [Prelude]: bytes, slices with nil, results, errors, tactics;
    - [Utf8]: Go's UTF-8 decoding, validity, the coercion of [encoding/json];
    - [Decimal], [Float], [FloatText]: decimal texts, [float64] values with rounding,
      [strconv.ParseFloat] and [FormatFloat], and the proof that the text of a value
      reads back as the value;
    - [Base64], [Json], [GoJson]: the encoder and the decoder of [encoding/json],
      down to the bytes, and decoding into structs, maps and byte slices;
    - [Url]: escaping, [RequestURI], queries, path cleaning.

    The replicated state:
    - [Config]: [internal/config/config.go], records, validation, defaults; [Units]:
      [internal/config/types.go], sizes and durations;
    - [Codec]: [internal/fsm/codec.go], commands as log entries;
    - [Fsm]: [internal/fsm/fsm.go], the state machine ([Apply], [Get], [List],
      [Len], [FSM_Peers], [Snapshot], [Persist], [Restore]), the abstract key-value
      and member table it refines, and its well-formed states.

    The environment:
    - [Runtime]: the calls a node makes to the consensus library, to peers over
      HTTP, to the clock and to the operating system, as one type [call] with typed
      answers; the class [Env] that answers them and delivers events to the state
      machine; the monad [M] of the handlers, with panics and with the ordered
      trace of calls, metrics and response writes; and the logic [wp] in which
      their behaviour is stated;
    - [Loopback]: a concrete environment, in which the examples are evaluated.

    The components of a node:
    - [RaftNode]: [internal/raftnode/raftnode.go], operations and peer tables;
    - [Lifecycle]: construction and shutdown of a node, and the storage factories
      of [internal/raftstore] and [internal/snapshot];
    - [Recovery]: [internal/raftnode/recover.go];
    - [Logging]: [internal/logging], the options of the logger and the directory of
      its file;
    - [Http]: requests, response writers, replies, routing of [net/http];
    - [Metrics]: [internal/metrics/metrics.go], recording, status map, middleware;
      [Collector]: the instruments [New] registers and [internal/metrics/collector.go];
    - [Store]: [internal/store/store.go];
    - [Api]: the handlers of [internal/api/api.go] and the theorems on keys and
      values; [Cluster]: the theorems on the cluster endpoints;
    - [Debug]: [internal/debug], the routing of the profiling endpoints;
    - [Server]: [internal/server] and [cmd/raft-meta/main.go];
    - [Harness]: [testharness], several nodes in one process: construction, wiring of
      the in-memory transports, restarts, waiting for a leader;
    - [Examples]: concrete requests and runs.

    ** How the state is modelled

    The state machine is a record of two finite maps; its lock makes each operation
    one step. Iteration over a Go map visits a permutation of its entries, chosen
    by the class [MapOrder]: theorems hold for every choice. A handler is a function
    in [M]; each call may be accompanied by events (entries applied, snapshots
    restored) that the state machine receives before the call returns, which is
    how concurrent writers and replication interleave with a handler. A future of
    the consensus library is its error. A handler's trace contains everything a
    caller can observe of it; [serve] turns its response writes into the reply a
    client sees. [wp m f Q] says that every run of [m] from state machine [f], in
    every environment state, finishes with an outcome and a trace satisfying [Q],
    that the state machine has received exactly the events of the trace, and that
    the recorded answers are the environment's. The runs of the longer operations
    are also given as relations between the result and the trace ([submitted],
    [member_run], [new_run], [recovery_run], [server_run]), from which the theorems
    follow by cases. A resource (transport, store file, listening socket) is held
    from the call that opens it to the call that closes it ([Lifecycle.holds]). Of a
    response writer, [serve] follows [net/http]: informational headers are sent at
    once, the first other header is final.

    ** What the theorems show

    - The state machine refines its abstract specification, reaches only
      well-formed states, skips corrupted entries, and can be rebuilt from a
      snapshot and the later entries ([Fsm]); commands survive encoding exactly
      when their strings are UTF-8 ([Codec]).
    - A write is proposed once and only by the leader, its reply tells its result,
      and an acknowledged write is read back ([Store], [Api]): its own entry is in
      the log ([Store.committed]), and after every occurrence of it that no later
      write to the key follows the value is found. This rests on the library's
      documented promise [ApplyLaw]. Reads answer the state at the moment of the
      read. Redirects carry the same path and query; consistent reads are never served by a follower.
    - Membership changes are ordered, a peer that joined is known, the full status
      covers the cluster, listings and snapshots do what they say ([Cluster]).
    - The metrics middleware is transparent and counts what the client saw, for
      handlers that send no informational response; for the others it is not
      ([Metrics]); a scrape reports what the library and the state machine say, and
      observations fit the registered instruments ([Collector]); business and
      profiling traffic share no route ([Debug]).
    - Sizes and durations of the configuration are read exactly ([Units]); numbers
      relayed from a peer's status keep their value, and the rest of the status its
      content ([Api.peer_status_stable]).
    - A node holds what it opened and releases it on shutdown; a failed construction
      and a failed listener leave resources open, exactly those named. Recovery
      rewrites the cluster once, to this node alone, and closes its store; the
      command line erases data only on request, with the exit codes and texts
      stated ([Lifecycle], [Recovery], [Server]).
    - A test cluster keeps its running nodes connected and reconnects all of them
      when one is restarted, and waiting for a leader ends ([Harness]); the second
      rests on [ClockLaw], the documented behaviour of clock readings and sleeps.

    ** Bounds and fuel

    The JSON parser recurses with the fuel [json_fuel], twice the length of its
    input plus one; [Json.parse_value_fuel] shows that more fuel gives the same
    result. Nesting is limited to [max_depth], as in Go. [ParseDuration] runs its
    loop at most as often as its text is long, since each turn consumes a character:
    [Units.duration_loop_fuel] shows that more fuel gives the same result.
    [shortest] tries one decimal position per unit of fuel, down to the position of
    the last bit, where the value itself is a decimal ([FloatText.shortest_from_within]). [WaitForLeader] takes the number of
    sleeps as fuel; [WaitForLeader_terminates] shows that 250 are enough. All other
    recursion is structural. Integers are [Z]; [parseIntStat], [Megabytes],
    [ParseDuration] and [wrap64] write out the behaviour at 64 bits. A [float64] is
    an integer times a power of two, rounded to the nearest and ties to even.

    ** What is not modelled

    The consensus protocol, BoltDB, the YAML decoder, Prometheus, the HTTP server's
    transport and TLS are libraries: they are parameters, and so is a conversion of
    a [float64] to [int64] that is out of range, which the language leaves open.
    Texts of library errors are parameters. A response code below 100 or above 999,
    at which [net/http] panics, is not written by any handler here. The handlers
    that run while the server waits are modelled one by one, not interleaved with
    [Run]; what they share is the state machine, whose events may come at any call.
    [internal/raftstore/rocksdb.go] has no code. [e2e/helper.go] starts and signals processes of the operating system and
    polls them: there is no logic in it to model. Scripts and tests are not
    modelled. *)

From stdpp Require Export base tactics option list numbers strings gmap sorting pretty.
From Stdlib Require Export Ascii.

(** ** Bytes and strings

    A Go [string] is a [string] (a sequence of bytes, any bytes), a Go [[]byte]
    read as text is a [list ascii]; [to_bytes]/[of_bytes] are the conversions
    [[]byte(s)] and [string(b)]. *)
Abbreviation bytes := (list ascii).

Definition to_bytes (s : string) : bytes := String.list_ascii_of_string s.
Definition of_bytes (b : bytes) : string := String.string_of_list_ascii b.

(** The numeric value of a byte, and back. *)
Definition byte_val (c : ascii) : Z := Z.of_N (N_of_ascii c).
Definition byte_of (z : Z) : ascii := ascii_of_N (Z.to_N z).

(** A Go slice of bytes distinguishes [nil] from an empty, non-nil slice. *)
Abbreviation slice := (option (list ascii)).

(** [for range] over a slice, [len] and the conversion to a string see the
    contents only. *)
Definition contents (v : slice) : bytes :=
  match v with
  | Some l => l
  | None => []
  end.

(** [append([]byte(nil), v...)]: a fresh copy; copying no byte leaves [nil]. *)
Definition append_nil (v : slice) : slice :=
  match contents v with
  | [] => None
  | l => Some l
  end.

(** ** Results *)

(** A Go pair [(A, error)] used as a result: the value when [err == nil]. *)
Inductive result (E A : Type) : Type :=
| Ok (a : A)
| Err (e : E).
Arguments Ok {E A} a.
Arguments Err {E A} e.

Declare Scope rm_scope.
Delimit Scope rm_scope with rm.

Definition rbind {E A B : Type} (r : result E A) (f : A → result E B) : result E B :=
  match r with
  | Ok a => f a
  | Err e => Err e
  end.
Notation "'try' x := r 'in' k" := (rbind r (λ x, k))
  (at level 10, x pattern, r at level 100, k at level 200,
   format "'[v' 'try'  x  :=  r  'in' '/' k ']'") : rm_scope.

Definition is_ok {E A : Type} (r : result E A) : bool :=
  match r with Ok _ => true | Err _ => false end.

(** Go errors. [ErrText] is [errors.New] or a formatted [fmt.Errorf] without [%w],
    [ErrWrap] is [fmt.Errorf("prefix: %w", e)], [ErrJSON] an error of
    [encoding/json] (syntax error or type mismatch), [ErrNotLeader] the sentinel
    of package store, [ErrLib] an opaque error of a library or of the operating
    system. *)
Inductive error : Type :=
| ErrText (msg : string)
| ErrWrap (prefix : string) (e : error)
| ErrJSON
| ErrNotLeader
| ErrLib (what : string).

#[export] Instance error_eq_dec : EqDecision error.
Proof. solve_decision. Defined.

(** [errors.Is]: the error or one it wraps is the target. *)
Fixpoint errors_Is (e target : error) : bool :=
  bool_decide (e = target) ||
  match e with
  | ErrWrap _ e' => errors_Is e' target
  | _ => false
  end.

(** ** Automation *)

(** Split every match of the goal and discharge the branches that are closed by
    simplification. *)
Ltac split_matches := repeat (case_match; simplify_eq/=); try done.

(** Bring the boolean tests of the context to propositions. *)
Ltac bool_props :=
  repeat match goal with
  | H : bool_decide _ = true |- _ => apply bool_decide_eq_true_1 in H
  | H : bool_decide _ = false |- _ => apply bool_decide_eq_false_1 in H
  | H : negb _ = false |- _ => apply negb_false_iff in H
  | H : negb _ = true |- _ => apply negb_true_iff in H
  | H : (_ || _) = false |- _ => apply orb_false_iff in H as [? ?]
  | H : (_ || _) = true |- _ => apply orb_true_iff in H
  | H : (_ && _) = true |- _ => apply andb_true_iff in H as [? ?]
  | H : (_ <? _)%Z = true |- _ => apply Z.ltb_lt in H
  | H : (_ <? _)%Z = false |- _ => apply Z.ltb_ge in H
  | H : (_ <=? _)%Z = true |- _ => apply Z.leb_le in H
  | H : (_ <=? _)%Z = false |- _ => apply Z.leb_gt in H
  | H : (_ =? _)%Z = true |- _ => apply Z.eqb_eq in H
  | H : (_ =? _)%Z = false |- _ => apply Z.eqb_neq in H
  end.

(** Split the boolean tests of the goal, keeping them as propositions. *)
Ltac split_ifs :=
  repeat match goal with |- context [if ?b then _ else _] => destruct b eqn:? end; bool_props.

(** [lia] with division and modulo by constants. *)
Ltac divlia := Z.to_euclidean_division_equations; lia.

Create HintDb rm.
Create Rewrite HintDb rm.

(** ** Generic lemmas *)

Lemma byte_val_range c : (0 ≤ byte_val c < 256)%Z.
Proof. unfold byte_val. pose proof (N_ascii_bounded c). lia. Qed.

Lemma byte_of_val c : byte_of (byte_val c) = c.
Proof. unfold byte_of, byte_val. by rewrite N2Z.id, ascii_N_embedding. Qed.

Lemma byte_val_of z : (0 ≤ z < 256)%Z → byte_val (byte_of z) = z.
Proof.
  intros Hz. unfold byte_of, byte_val. rewrite N_ascii_embedding by lia. lia.
Qed.

#[export] Instance byte_val_inj : Inj (=) (=) byte_val.
Proof. intros a b H. by rewrite <-(byte_of_val a), H, byte_of_val. Qed.

(** Every fact about one byte that is decided by its 256 values. *)
Lemma byte_all (P : ascii → bool) :
  forallb (λ n, P (ascii_of_nat n)) (seq 0 256) = true → ∀ c, P c = true.
Proof.
  intros H c. rewrite forallb_forall in H.
  specialize (H (nat_of_ascii c)). rewrite ascii_nat_embedding in H.
  apply H, in_seq. pose proof (nat_ascii_bounded c). lia.
Qed.

Lemma of_to_bytes s : of_bytes (to_bytes s) = s.
Proof. apply String.string_of_list_ascii_of_string. Qed.

Lemma to_of_bytes b : to_bytes (of_bytes b) = b.
Proof. apply String.list_ascii_of_string_of_list_ascii. Qed.

Lemma to_bytes_app s t : to_bytes (s +:+ t) = to_bytes s ++ to_bytes t.
Proof. induction s as [|c s IH]; [done|]. simpl. by f_equal. Qed.

#[export] Instance to_bytes_inj : Inj (=) (=) to_bytes.
Proof. intros s t H. by rewrite <-(of_to_bytes s), H, of_to_bytes. Qed.

Lemma string_app_nil_r s : s +:+ "" = s.
Proof. apply (inj to_bytes). rewrite to_bytes_app. apply app_nil_r. Qed.

Lemma string_app_assoc s1 s2 s3 : s1 +:+ (s2 +:+ s3) = (s1 +:+ s2) +:+ s3.
Proof. apply (inj to_bytes). rewrite !to_bytes_app. apply app_assoc. Qed.

Lemma append_nil_contents v : contents (append_nil v) = contents v.
Proof. unfold append_nil. by destruct (contents v). Qed.

Lemma append_nil_never_empty v : append_nil v ≠ Some [].
Proof. unfold append_nil. by destruct (contents v). Qed.

Lemma append_nil_id v : v ≠ Some [] → append_nil v = v.
Proof. by destruct v as [[|c l]|]. Qed.

#[export] Hint Rewrite of_to_bytes to_of_bytes byte_of_val append_nil_contents : rm.
