(* ===== verification/Utf8.v ===== *)
(** * UTF-8 as Go's [unicode/utf8] reads and writes it

    The strings of the program are byte sequences; [encoding/json], through which
    every key, peer and request body passes, coerces them to valid UTF-8. This
    file models the two primitives it uses, [utf8.DecodeRune] and
    [utf8.EncodeRune], and the coercion they induce. *)

From S2P Require Import Prelude.
Local Open Scope Z_scope.

(** ** Definitions *)

(** [utf8.RuneError], U+FFFD. *)
Definition RuneError : Z := 65533.

(** Continuation byte ranges of the second byte, by first byte
    ([utf8.acceptRanges]). *)
Definition accept_lo (x : Z) : Z :=
  if x =? 0xE0 then 0xA0 else if x =? 0xF0 then 0x90 else 0x80.
Definition accept_hi (x : Z) : Z :=
  if x =? 0xED then 0x9F else if x =? 0xF4 then 0x8F else 0xBF.

Definition in_range (lo hi : Z) (c : ascii) : bool :=
  (lo <=? byte_val c) && (byte_val c <=? hi).

(** The low six bits of a continuation byte. *)
Definition low6 (c : ascii) : Z := Z.land (byte_val c) 0x3F.

(** [utf8.DecodeRune]: the first rune and its width; [(RuneError, 1)] on an
    invalid encoding, [(RuneError, 0)] on no input. *)
Definition decode_rune (p : bytes) : Z * nat :=
  match p with
  | [] => (RuneError, 0%nat)
  | b0 :: p1 =>
    let x := byte_val b0 in
    if x <? 0x80 then (x, 1%nat)
    else if (x <? 0xC2) || (0xF4 <? x) then (RuneError, 1%nat)
    else match p1 with
    | [] => (RuneError, 1%nat)
    | b1 :: p2 =>
      if negb (in_range (accept_lo x) (accept_hi x) b1) then (RuneError, 1%nat)
      else if x <? 0xE0 then (Z.lor (Z.shiftl (Z.land x 0x1F) 6) (low6 b1), 2%nat)
      else match p2 with
      | [] => (RuneError, 1%nat)
      | b2 :: p3 =>
        if negb (in_range 0x80 0xBF b2) then (RuneError, 1%nat)
        else if x <? 0xF0 then
          (Z.lor (Z.shiftl (Z.lor (Z.shiftl (Z.land x 0x0F) 6) (low6 b1)) 6) (low6 b2), 3%nat)
        else match p3 with
        | [] => (RuneError, 1%nat)
        | b3 :: _ =>
          if negb (in_range 0x80 0xBF b3) then (RuneError, 1%nat)
          else (Z.lor (Z.shiftl (Z.lor (Z.shiftl (Z.lor (Z.shiftl (Z.land x 0x07) 6)
                  (low6 b1)) 6) (low6 b2)) 6) (low6 b3), 4%nat)
        end
      end
    end
  end.

(** [0x80 | byte(r) & 0x3F]. *)
Definition cont6 (r : Z) : ascii := byte_of (Z.lor 0x80 (Z.land r 0x3F)).

Definition is_surrogate (r : Z) : bool := (0xD800 <=? r) && (r <=? 0xDFFF).

(** [utf8.EncodeRune]; an invalid rune is written as U+FFFD. *)
Definition encode_rune (r : Z) : bytes :=
  let enc3 r := [byte_of (Z.lor 0xE0 (Z.shiftr r 12)); cont6 (Z.shiftr r 6); cont6 r] in
  if (0 <=? r) && (r <=? 0x7F) then [byte_of r]
  else if (0 <=? r) && (r <=? 0x7FF) then [byte_of (Z.lor 0xC0 (Z.shiftr r 6)); cont6 r]
  else if (r <? 0) || (0x10FFFF <? r) || is_surrogate r then enc3 RuneError
  else if r <=? 0xFFFF then enc3 r
  else [byte_of (Z.lor 0xF0 (Z.shiftr r 18)); cont6 (Z.shiftr r 12);
        cont6 (Z.shiftr r 6); cont6 r].

(** The runes of a byte sequence as [for range] over a string visits them: the
    rune and the bytes it came from. [length s] steps are enough, each consumes
    a byte. *)
Fixpoint runes_fuel (n : nat) (s : bytes) : list (Z * bytes) :=
  match n, s with
  | S n, _ :: _ => let '(r, k) := decode_rune s in (r, take k s) :: runes_fuel n (drop k s)
  | _, _ => []
  end.
Definition runes (s : bytes) : list (Z * bytes) := runes_fuel (length s) s.

(** A rune that stands for an invalid byte, as Go's encoder detects it:
    [c == utf8.RuneError && size == 1]. *)
Definition bad_rune (r : Z) (k : nat) : bool := (r =? RuneError) && (k =? 1)%nat.

(** [utf8.Valid]. *)
Definition valid_utf8 (s : bytes) : bool :=
  forallb (λ '(r, raw), negb (bad_rune r (length raw))) (runes s).

(** The coercion to valid UTF-8: each invalid byte becomes U+FFFD. *)
Definition coerce_utf8 (s : bytes) : bytes :=
  concat (map (λ '(r, _), encode_rune r) (runes s)).

Definition valid_string (s : string) : bool := valid_utf8 (to_bytes s).
Definition coerce_string (s : string) : string := of_bytes (coerce_utf8 (to_bytes s)).

Arguments runes : simpl never.
Arguments valid_utf8 : simpl never.
Arguments coerce_utf8 : simpl never.

(** ** Arithmetic of the bit operations *)

Lemma land_3F x : Z.land x 0x3F = x mod 64.
Proof. apply (Z.land_ones x 6). lia. Qed.
Lemma land_1F x : Z.land x 0x1F = x mod 32.
Proof. apply (Z.land_ones x 5). lia. Qed.
Lemma land_0F x : Z.land x 0x0F = x mod 16.
Proof. apply (Z.land_ones x 4). lia. Qed.
Lemma land_07 x : Z.land x 0x07 = x mod 8.
Proof. apply (Z.land_ones x 3). lia. Qed.

(** Disjoint bits: [x << k | y] is [x * 2^k + y] when [y] fits in [k] bits. *)
Lemma lor_shiftl_add x y k :
  0 ≤ k → 0 ≤ y < 2 ^ k → Z.lor (Z.shiftl x k) y = x * 2 ^ k + y.
Proof.
  intros Hk Hy.
  assert (Hdis : Z.land (x * 2 ^ k) y = 0).
  { apply Z.bits_inj'. intros n Hn. rewrite Z.land_spec, Z.bits_0.
    destruct (decide (n < k)) as [Hlt|Hge].
    - by rewrite Z.mul_pow2_bits_low by lia.
    - replace y with (y mod 2 ^ k) by (apply Z.mod_small; lia).
      rewrite Z.mod_pow2_bits_high by lia. apply andb_false_r. }
  rewrite Z.shiftl_mul_pow2 by lia.
  by rewrite <-Z.lxor_lor, <-Z.add_nocarry_lxor by done.
Qed.

Lemma lor_shiftl6 x y : 0 ≤ y < 64 → Z.lor (Z.shiftl x 6) y = x * 64 + y.
Proof. intros. by apply lor_shiftl_add. Qed.

Lemma in_range_spec lo hi c : in_range lo hi c = true ↔ lo ≤ byte_val c ≤ hi.
Proof. unfold in_range. rewrite andb_true_iff, !Z.leb_le. done. Qed.

Lemma low6_sub c : 0x80 ≤ byte_val c ≤ 0xBF → low6 c = byte_val c - 0x80.
Proof. intros. unfold low6. rewrite land_3F. divlia. Qed.

Lemma accept_bounds x : 0x80 ≤ accept_lo x ∧ accept_hi x ≤ 0xBF.
Proof. unfold accept_lo, accept_hi. split; split_matches. Qed.

(** ** Case analysis of [decode_rune]

    [rune_view p r k] lists the ways a first rune can be read, with the rune as
    an arithmetic expression of its bytes. *)
Inductive rune_view : bytes → Z → nat → Prop :=
| View_nil : rune_view [] RuneError 0
| View_bad b q : 0x80 ≤ byte_val b → rune_view (b :: q) RuneError 1
| View_1 b q : byte_val b < 0x80 → rune_view (b :: q) (byte_val b) 1
| View_2 b0 b1 q r :
    0xC2 ≤ byte_val b0 ≤ 0xDF → 0x80 ≤ byte_val b1 ≤ 0xBF →
    r = (byte_val b0 - 0xC0) * 64 + (byte_val b1 - 0x80) →
    rune_view (b0 :: b1 :: q) r 2
| View_3 b0 b1 b2 q r :
    0xE0 ≤ byte_val b0 ≤ 0xEF →
    accept_lo (byte_val b0) ≤ byte_val b1 ≤ accept_hi (byte_val b0) →
    0x80 ≤ byte_val b2 ≤ 0xBF →
    r = (byte_val b0 - 0xE0) * 4096 + (byte_val b1 - 0x80) * 64 + (byte_val b2 - 0x80) →
    rune_view (b0 :: b1 :: b2 :: q) r 3
| View_4 b0 b1 b2 b3 q r :
    0xF0 ≤ byte_val b0 ≤ 0xF4 →
    accept_lo (byte_val b0) ≤ byte_val b1 ≤ accept_hi (byte_val b0) →
    0x80 ≤ byte_val b2 ≤ 0xBF → 0x80 ≤ byte_val b3 ≤ 0xBF →
    r = (byte_val b0 - 0xF0) * 262144 + (byte_val b1 - 0x80) * 4096
        + (byte_val b2 - 0x80) * 64 + (byte_val b3 - 0x80) →
    rune_view (b0 :: b1 :: b2 :: b3 :: q) r 4.

(** Bring the boolean tests of a context to inequalities of byte values. *)
Ltac byte_tests :=
  repeat (progress bool_props ||
    match goal with H : in_range _ _ _ = true |- _ => apply in_range_spec in H end).

Lemma decode_rune_view p : rune_view p (decode_rune p).1 (decode_rune p).2.
Proof.
  destruct p as [|b0 q]; [constructor|]. unfold decode_rune.
  pose proof (byte_val_range b0). pose proof (accept_bounds (byte_val b0)).
  repeat (case_match; simpl; byte_tests);
    first [ by apply View_1 | by (apply View_bad; lia) | idtac ].
  - apply View_2; rewrite ?low6_sub, ?lor_shiftl6, ?land_1F by lia; divlia.
  - apply View_3; rewrite ?low6_sub, ?lor_shiftl6, ?land_0F by lia; divlia.
  - apply View_4; rewrite ?low6_sub, ?lor_shiftl6, ?land_07 by lia; divlia.
Qed.

Ltac rune_cases p :=
  pose proof (decode_rune_view p) as Hview;
  destruct (decode_rune p) as [r k] eqn:Hdec; simpl in Hview.

(** ** Encoding *)

Definition scalar (r : Z) : Prop := 0 ≤ r ≤ 0x10FFFF ∧ ¬ (0xD800 ≤ r ≤ 0xDFFF).

Lemma lor_mask h r k :
  0 ≤ k → 0 ≤ r < 2 ^ k → h mod 2 ^ k = 0 → Z.lor h r = h + r.
Proof.
  intros Hk Hr Hh. pose proof (Z.div_mod h (2 ^ k)) as Hdm.
  replace h with (Z.shiftl (h / 2 ^ k) k) at 1.
  - rewrite lor_shiftl_add by lia. lia.
  - rewrite Z.shiftl_mul_pow2 by lia. lia.
Qed.

(** A byte made of a fixed high part and [k] low bits. *)
Ltac enc_byte k :=
  rewrite (lor_mask _ _ k); [apply byte_val_of; divlia | lia | divlia | done].

Lemma cont6_val r : byte_val (cont6 r) = 0x80 + r mod 64.
Proof.
  unfold cont6. rewrite land_3F. enc_byte 6.
Qed.

Lemma shr6 r : Z.shiftr r 6 = r / 64.
Proof. apply (Z.shiftr_div_pow2 r 6). lia. Qed.
Lemma shr12 r : Z.shiftr r 12 = r / 4096.
Proof. apply (Z.shiftr_div_pow2 r 12). lia. Qed.
Lemma shr18 r : Z.shiftr r 18 = r / 262144.
Proof. apply (Z.shiftr_div_pow2 r 18). lia. Qed.

(** The encoding of a scalar value, byte by byte. *)
Inductive enc_view (r : Z) : bytes → Prop :=
| Enc_1 b : r < 0x80 → byte_val b = r → enc_view r [b]
| Enc_2 b0 b1 : 0x80 ≤ r < 0x800 →
    byte_val b0 = 0xC0 + r / 64 → byte_val b1 = 0x80 + r mod 64 → enc_view r [b0; b1]
| Enc_3 b0 b1 b2 : 0x800 ≤ r < 0x10000 →
    byte_val b0 = 0xE0 + r / 4096 → byte_val b1 = 0x80 + (r / 64) mod 64 →
    byte_val b2 = 0x80 + r mod 64 → enc_view r [b0; b1; b2]
| Enc_4 b0 b1 b2 b3 : 0x10000 ≤ r →
    byte_val b0 = 0xF0 + r / 262144 → byte_val b1 = 0x80 + (r / 4096) mod 64 →
    byte_val b2 = 0x80 + (r / 64) mod 64 → byte_val b3 = 0x80 + r mod 64 →
    enc_view r [b0; b1; b2; b3].

Lemma encode_rune_view r : scalar r → enc_view r (encode_rune r).
Proof.
  intros [Hr Hs]. unfold encode_rune, is_surrogate.
  repeat (case_match; byte_tests); try (exfalso; lia).
  all: try (exfalso; repeat match goal with H : _ ∨ _ |- _ => destruct H end; byte_tests; lia).
  all: repeat match goal with
       | H : (_ && _) = false |- _ => apply andb_false_iff in H as [?|?]; byte_tests
       end; try lia.
  all: rewrite ?shr6, ?shr12, ?shr18.
  - apply Enc_1; [lia|]. apply byte_val_of. lia.
  - apply Enc_2; rewrite ?cont6_val; [lia| |done].
    enc_byte 5.
  - apply Enc_3; rewrite ?cont6_val; [lia| |done|done].
    enc_byte 4.
  - apply Enc_3; rewrite ?cont6_val; [lia| |done|done].
    enc_byte 4.
  - apply Enc_4; rewrite ?cont6_val; [lia| |done..].
    enc_byte 3.
Qed.

Lemma encode_rune_bad r : ¬ scalar r → encode_rune r = encode_rune RuneError.
Proof.
  intros Hns. unfold encode_rune at 1, is_surrogate.
  repeat (case_match; byte_tests); try done;
    exfalso; apply Hns; unfold scalar; lia.
Qed.

Lemma scalar_RuneError : scalar RuneError.
Proof. unfold scalar, RuneError. lia. Qed.

(** ** Decoding and encoding are inverse *)

(** Two bytes are equal when their values are. *)
Ltac bytes_eq :=
  repeat (f_equal; [apply (inj byte_val); divlia|]); try (f_equal; apply (inj byte_val); divlia).

(** The bounds the accept ranges put on the second byte. *)
Lemma accept_3 x y :
  0xE0 ≤ x ≤ 0xEF → accept_lo x ≤ y ≤ accept_hi x →
  0x80 ≤ y ≤ 0xBF ∧ (x = 0xE0 → 0xA0 ≤ y) ∧ (x = 0xED → y ≤ 0x9F).
Proof. unfold accept_lo, accept_hi. intros ??. repeat case_match; byte_tests; lia. Qed.

Lemma accept_4 x y :
  0xF0 ≤ x ≤ 0xF4 → accept_lo x ≤ y ≤ accept_hi x →
  0x80 ≤ y ≤ 0xBF ∧ (x = 0xF0 → 0x90 ≤ y) ∧ (x = 0xF4 → y ≤ 0x8F).
Proof. unfold accept_lo, accept_hi. intros ??. repeat case_match; byte_tests; lia. Qed.

Ltac use_accept :=
  repeat match goal with
  | H1 : 0xE0 ≤ ?x ≤ 0xEF, H2 : accept_lo ?x ≤ _ ≤ accept_hi ?x |- _ =>
      pose proof (accept_3 _ _ H1 H2); clear H2
  | H1 : 0xF0 ≤ ?x ≤ 0xF4, H2 : accept_lo ?x ≤ _ ≤ accept_hi ?x |- _ =>
      pose proof (accept_4 _ _ H1 H2); clear H2
  end.

Lemma decode_rune_scalar p : scalar (decode_rune p).1.
Proof.
  pose proof (decode_rune_view p) as H.
  destruct (decode_rune p) as [r k]; simpl in *.
  inversion H as [| |b q Hb| | |]; subst; use_accept;
    try apply scalar_RuneError; unfold scalar; try lia.
  pose proof (byte_val_range b). lia.
Qed.

(** What a valid encoding decodes to encodes back to the same bytes. *)
Lemma encode_decode_rune p r k :
  decode_rune p = (r, k) → bad_rune r k = false → p ≠ [] →
  encode_rune r = take k p.
Proof.
  intros Hdec Hok Hne. pose proof (decode_rune_scalar p) as Hsc.
  pose proof (decode_rune_view p) as Hd. rewrite Hdec in Hsc, Hd. simpl in *.
  pose proof (encode_rune_view _ Hsc) as He.
  inversion Hd; subst; try done; simpl; use_accept.
  - pose proof (byte_val_range b). inversion He; try (exfalso; lia). bytes_eq.
  - inversion He; try (exfalso; lia). bytes_eq.
  - inversion He; try (exfalso; lia). bytes_eq.
  - inversion He; try (exfalso; lia). bytes_eq.
Qed.

Lemma accept_2 x : 0xC2 ≤ x ≤ 0xDF → accept_lo x = 0x80 ∧ accept_hi x = 0xBF.
Proof. unfold accept_lo, accept_hi. intros ?. repeat case_match; byte_tests; lia. Qed.

(** Replace an in-range test by its value, known from the context. *)
Ltac in_range_true :=
  repeat match goal with
  | |- context [in_range ?lo ?hi ?b] =>
      replace (in_range lo hi b) with true by (symmetry; apply in_range_spec; lia)
  end; simpl.

(** The view determines the decoding, unless it is the invalid one. *)
Lemma rune_view_decode p r k :
  rune_view p r k → p ≠ [] → bad_rune r k = false → decode_rune p = (r, k).
Proof.
  intros Hv Hne Hok. inversion Hv as [|b q Hb|b q Hb|b0 b1 q ? H0 H1|b0 b1 b2 q ? H0 H1 H2
    |b0 b1 b2 b3 q ? H0 H1 H2 H3]; subst; try done; unfold decode_rune.
  - pose proof (byte_val_range b). case_match; byte_tests; [done|lia].
  - pose proof (accept_2 _ H0) as [-> ->]. in_range_true.
    repeat (case_match; byte_tests; try lia);
      try (match goal with H : _ ∨ _ |- _ => destruct H end; byte_tests; lia).
    rewrite !low6_sub, lor_shiftl6, land_1F by lia. f_equal. divlia.
  - in_range_true. pose proof (accept_3 _ _ H0 H1).
    repeat (case_match; byte_tests; try lia);
      try (match goal with H : _ ∨ _ |- _ => destruct H end; byte_tests; lia).
    rewrite !low6_sub, !lor_shiftl6, land_0F by lia. f_equal. divlia.
  - in_range_true. pose proof (accept_4 _ _ H0 H1).
    repeat (case_match; byte_tests; try lia);
      try (match goal with H : _ ∨ _ |- _ => destruct H end; byte_tests; lia).
    rewrite !low6_sub, !lor_shiftl6, land_07 by lia. f_equal. divlia.
Qed.

(** A valid first rune is decoded from its own bytes only. *)
Lemma decode_rune_take p r k q :
  decode_rune p = (r, k) → bad_rune r k = false → p ≠ [] →
  decode_rune (take k p ++ q) = (r, k).
Proof.
  intros Hdec Hok Hne. pose proof (decode_rune_view p) as Hv.
  rewrite Hdec in Hv. simpl in Hv.
  apply rune_view_decode; [inversion Hv; subst; try done; by econstructor| |done].
  by inversion Hv; subst.
Qed.

Lemma decode_encode_rune r q :
  scalar r → decode_rune (encode_rune r ++ q) = (r, length (encode_rune r)).
Proof.
  intros Hsc. pose proof (encode_rune_view _ Hsc) as He. destruct Hsc as [Hr Hs].
  apply rune_view_decode.
  - inversion He as [b|b0 b1 ? E0 E1|b0 b1 b2 ? E0 E1 E2|b0 b1 b2 b3 ? E0 E1 E2 E3]; subst; simpl.
    + by apply View_1.
    + apply View_2; rewrite ?E0, ?E1; divlia.
    + apply View_3; unfold accept_lo, accept_hi; rewrite ?E0, ?E1, ?E2; repeat case_match;
        byte_tests; divlia.
    + apply View_4; unfold accept_lo, accept_hi; rewrite ?E0, ?E1, ?E2, ?E3; repeat case_match;
        byte_tests; divlia.
  - by inversion He.
  - unfold bad_rune. apply andb_false_iff.
    inversion He; simpl; [left; apply Z.eqb_neq; unfold RuneError; lia|by right..].
Qed.

(** ** Rune sequences *)

Lemma decode_rune_size p :
  p ≠ [] → (1 ≤ (decode_rune p).2 ≤ length p)%nat.
Proof.
  intros Hne. pose proof (decode_rune_view p) as H.
  inversion H; subst; simpl; try done; lia.
Qed.

Lemma runes_fuel_enough n s : (length s ≤ n)%nat → runes_fuel n s = runes s.
Proof.
  unfold runes. remember (length s) as m eqn:Hm.
  assert (length s ≤ m)%nat as Hs by lia. clear Hm. revert n s Hs.
  induction m as [|m IH]; intros n s Hs Hn.
  - destruct s; [by destruct n|simpl in Hs; lia].
  - destruct n as [|n]; [lia|]. destruct s as [|c s]; [done|].
    cbn [runes_fuel]. pose proof (decode_rune_size (c :: s)) as Hk.
    destruct (decode_rune (c :: s)) as [r k]; simpl in Hk.
    f_equal. apply IH; [rewrite length_drop; simpl in *; destruct Hk; [done|]; lia|lia].
Qed.

Lemma runes_cons s r k :
  s ≠ [] → decode_rune s = (r, k) → runes s = (r, take k s) :: runes (drop k s).
Proof.
  intros Hne Hdec. pose proof (decode_rune_size s Hne) as Hk. rewrite Hdec in Hk; simpl in Hk.
  unfold runes at 1. destruct s as [|c s]; [done|]. cbn [length runes_fuel].
  rewrite Hdec. f_equal. apply runes_fuel_enough. rewrite length_drop. simpl in *. lia.
Qed.

(** Induction over a byte sequence, one rune at a time. *)
Lemma runes_ind (P : bytes → Prop) :
  P [] →
  (∀ s r k, s ≠ [] → decode_rune s = (r, k) → P (drop k s) → P s) →
  ∀ s, P s.
Proof.
  intros Hnil Hstep s. induction s as [s IH] using (induction_ltof1 _ length).
  destruct s as [|c s]; [done|].
  pose proof (decode_rune_size (c :: s)) as Hk.
  destruct (decode_rune (c :: s)) as [r k] eqn:Hdec; simpl in Hk. destruct Hk; [done|].
  eapply Hstep; [done|exact Hdec|]. apply IH. unfold ltof. rewrite length_drop. simpl in *. lia.
Qed.

Lemma runes_take_size s r k :
  decode_rune s = (r, k) → length (take k s) = k.
Proof.
  intros Hdec. rewrite length_take. destruct s as [|c s].
  - by injection Hdec as <- <-.
  - pose proof (decode_rune_size (c :: s)) as Hk. rewrite Hdec in Hk. simpl in *.
    destruct Hk; [done|]. lia.
Qed.

Lemma valid_utf8_cons s r k :
  s ≠ [] → decode_rune s = (r, k) →
  valid_utf8 s = negb (bad_rune r k) && valid_utf8 (drop k s).
Proof.
  intros Hne Hdec. unfold valid_utf8. rewrite (runes_cons s r k) by done. simpl.
  by rewrite (runes_take_size s r k).
Qed.

Lemma coerce_utf8_cons s r k :
  s ≠ [] → decode_rune s = (r, k) →
  coerce_utf8 s = encode_rune r ++ coerce_utf8 (drop k s).
Proof. intros Hne Hdec. unfold coerce_utf8. by rewrite (runes_cons s r k). Qed.

(** Valid UTF-8 is left as it is. *)
Lemma coerce_valid s : valid_utf8 s = true → coerce_utf8 s = s.
Proof.
  induction s as [|s r k Hne Hdec IH] using runes_ind; [done|].
  rewrite (valid_utf8_cons s r k), (coerce_utf8_cons s r k) by done.
  intros [Hok Hv]%andb_true_iff. apply negb_true_iff in Hok.
  rewrite (encode_decode_rune s r k), IH by done. apply take_drop.
Qed.

Lemma valid_encode_rune_app r q :
  scalar r → valid_utf8 q = true → valid_utf8 (encode_rune r ++ q) = true.
Proof.
  intros Hsc Hq. pose proof (encode_rune_view _ Hsc) as He.
  assert (encode_rune r ++ q ≠ []) by (by inversion He).
  rewrite (valid_utf8_cons (encode_rune r ++ q) _ _ ltac:(done) (decode_encode_rune r q Hsc)).
  rewrite drop_app_length, Hq, andb_true_r. apply negb_true_iff, andb_false_iff.
  inversion He; simpl; [left; apply Z.eqb_neq; unfold RuneError; lia|by right..].
Qed.

(** The coercion always yields valid UTF-8. *)
Lemma valid_coerce s : valid_utf8 (coerce_utf8 s) = true.
Proof.
  induction s as [|s r k Hne Hdec IH] using runes_ind; [done|].
  rewrite (coerce_utf8_cons s r k) by done. apply valid_encode_rune_app; [|done].
  pose proof (decode_rune_scalar s) as H. by rewrite Hdec in H.
Qed.

Lemma coerce_fixpoint s : coerce_utf8 s = s ↔ valid_utf8 s = true.
Proof.
  split; [|apply coerce_valid]. intros <-. apply valid_coerce.
Qed.

Lemma coerce_idemp s : coerce_utf8 (coerce_utf8 s) = coerce_utf8 s.
Proof. apply coerce_valid, valid_coerce. Qed.

(** ASCII text is valid. *)
Lemma decode_rune_ascii c s : byte_val c < 0x80 → decode_rune (c :: s) = (byte_val c, 1%nat).
Proof. intros H. unfold decode_rune. case_match; byte_tests; [done|lia]. Qed.

Lemma ascii_valid s : Forall (λ c, byte_val c < 0x80) s → valid_utf8 s = true.
Proof.
  induction 1 as [|c s Hc Hs IH]; [done|].
  rewrite (valid_utf8_cons (c :: s) _ _ ltac:(done) (decode_rune_ascii c s Hc)).
  change (drop 1 (c :: s)) with s. rewrite IH, andb_true_r. unfold bad_rune, RuneError.
  apply negb_true_iff, andb_false_iff. left. apply Z.eqb_neq. lia.
Qed.

(** The same facts on strings. *)
Lemma coerce_string_valid s : valid_string s = true → coerce_string s = s.
Proof. intros H. unfold coerce_string. by rewrite coerce_valid, of_to_bytes. Qed.

Lemma valid_coerce_string s : valid_string (coerce_string s) = true.
Proof. unfold valid_string, coerce_string. rewrite to_of_bytes. apply valid_coerce. Qed.

Lemma to_bytes_coerce s : to_bytes (coerce_string s) = coerce_utf8 (to_bytes s).
Proof. apply to_of_bytes. Qed.

Example coerce_example :
  coerce_utf8 ["/"%char; "255"%char; "a"%char]
  = ["/"%char; "239"%char; "191"%char; "189"%char; "a"%char].
Proof. reflexivity. Qed.

#[export] Hint Resolve coerce_valid valid_coerce valid_coerce_string coerce_string_valid : rm.
