(* ===== verification/Base64.v ===== *)
(** * Base64: how [encoding/json] writes a [[]byte]

    [base64.StdEncoding] as the JSON codec uses it: the padded standard alphabet,
    the decoder skipping carriage returns and newlines. *)

From S2P Require Import Prelude Utf8.
Local Open Scope Z_scope.

(** ** Definitions *)

(** The standard alphabet ["A-Za-z0-9+/"]. *)
Definition b64_char (v : Z) : ascii :=
  if v <? 26 then byte_of (65 + v)
  else if v <? 52 then byte_of (97 + (v - 26))
  else if v <? 62 then byte_of (48 + (v - 52))
  else if v =? 62 then "+"%char else "/"%char.

Definition b64_val (c : ascii) : option Z :=
  let x := byte_val c in
  if (65 <=? x) && (x <=? 90) then Some (x - 65)
  else if (97 <=? x) && (x <=? 122) then Some (x - 97 + 26)
  else if (48 <=? x) && (x <=? 57) then Some (x - 48 + 52)
  else if x =? 43 then Some 62
  else if x =? 47 then Some 63
  else None.

Definition pad : ascii := "="%char.

(** [Encoding.Encode]: three bytes at a time, [=] padding. *)
Fixpoint b64_encode (l : bytes) : bytes :=
  match l with
  | a :: b :: c :: r =>
    let v := Z.lor (Z.shiftl (byte_val a) 16) (Z.lor (Z.shiftl (byte_val b) 8) (byte_val c)) in
    b64_char (Z.land (Z.shiftr v 18) 0x3F) :: b64_char (Z.land (Z.shiftr v 12) 0x3F)
    :: b64_char (Z.land (Z.shiftr v 6) 0x3F) :: b64_char (Z.land v 0x3F) :: b64_encode r
  | [a; b] =>
    let v := Z.lor (Z.shiftl (byte_val a) 16) (Z.shiftl (byte_val b) 8) in
    [b64_char (Z.land (Z.shiftr v 18) 0x3F); b64_char (Z.land (Z.shiftr v 12) 0x3F);
     b64_char (Z.land (Z.shiftr v 6) 0x3F); pad]
  | [a] =>
    let v := Z.shiftl (byte_val a) 16 in
    [b64_char (Z.land (Z.shiftr v 18) 0x3F); b64_char (Z.land (Z.shiftr v 12) 0x3F); pad; pad]
  | [] => []
  end.

(** The bytes of [n] six-bit values ([decodeQuantum]); the decoder is not strict:
    the unused low bits of a padded quantum are dropped. *)
Definition quantum (a b c d : Z) (n : nat) : bytes :=
  let v := Z.lor (Z.shiftl a 18) (Z.lor (Z.shiftl b 12) (Z.lor (Z.shiftl c 6) d)) in
  take (n - 1) [byte_of (Z.land (Z.shiftr v 16) 0xFF); byte_of (Z.land (Z.shiftr v 8) 0xFF);
                byte_of (Z.land v 0xFF)].

Fixpoint b64_quanta (s : bytes) : option bytes :=
  match s with
  | [] => Some []
  | a :: b :: c :: d :: r =>
    x ← b64_val a; y ← b64_val b;
    if Ascii.eqb d pad then
      match r with
      | _ :: _ => None
      | [] => if Ascii.eqb c pad then Some (quantum x y 0 0 2)
              else z ← b64_val c; Some (quantum x y z 0 3)
      end
    else z ← b64_val c; w ← b64_val d; rest ← b64_quanta r; Some (quantum x y z w 4 ++ rest)
  | _ => None
  end.

Definition not_newline (c : ascii) : bool :=
  negb (Ascii.eqb c "010"%char || Ascii.eqb c "013"%char).

(** [Encoding.Decode]. *)
Definition b64_decode (s : bytes) : option bytes :=
  b64_quanta (List.filter not_newline s).

Arguments b64_char : simpl never.
Arguments b64_val : simpl never.
Arguments quantum : simpl never.
#[local] Arguments Z.land : simpl never.
#[local] Arguments Z.lor : simpl never.
#[local] Arguments Z.shiftl : simpl never.
#[local] Arguments Z.shiftr : simpl never.
#[local] Arguments Z.div : simpl never.
#[local] Arguments Z.modulo : simpl never.
#[local] Arguments Z.mul : simpl never.

(** ** Round trip *)

Lemma b64_val_char v : 0 ≤ v < 64 → b64_val (b64_char v) = Some v.
Proof.
  intros Hv.
  assert (H : forallb (λ n, bool_decide (b64_val (b64_char (Z.of_nat n)) = Some (Z.of_nat n)))
                (seq 0 64) = true) by (vm_compute; reflexivity).
  rewrite forallb_forall in H. specialize (H (Z.to_nat v)).
  rewrite Z2Nat.id in H by lia. eapply bool_decide_eq_true_1, H, in_seq. lia.
Qed.

(** Alphabet characters are neither padding nor newlines, and are ASCII. *)
Lemma b64_char_props v : 0 ≤ v < 64 →
  b64_char v ≠ pad ∧ not_newline (b64_char v) = true ∧ byte_val (b64_char v) < 0x80.
Proof.
  intros Hv.
  assert (H : forallb (λ n, bool_decide (b64_char (Z.of_nat n) ≠ pad)
     && not_newline (b64_char (Z.of_nat n)) && (byte_val (b64_char (Z.of_nat n)) <? 0x80))
                (seq 0 64) = true) by (vm_compute; reflexivity).
  rewrite forallb_forall in H. specialize (H (Z.to_nat v)).
  rewrite Z2Nat.id in H by lia.
  ospecialize (H _); [apply in_seq; lia|].
  apply andb_true_iff in H as [[H1 H2]%andb_true_iff H3].
  apply bool_decide_eq_true_1 in H1. by apply Z.ltb_lt in H3.
Qed.

Lemma land_FF x : Z.land x 0xFF = x mod 256.
Proof. apply (Z.land_ones x 8). lia. Qed.
Lemma shr8 r : Z.shiftr r 8 = r / 256.
Proof. apply (Z.shiftr_div_pow2 r 8). lia. Qed.
Lemma shr16 r : Z.shiftr r 16 = r / 65536.
Proof. apply (Z.shiftr_div_pow2 r 16). lia. Qed.
Lemma lor_shiftl8 x y : 0 ≤ y < 256 → Z.lor (Z.shiftl x 8) y = x * 256 + y.
Proof. intros. by apply lor_shiftl_add. Qed.
Lemma lor_shiftl16 x y : 0 ≤ y < 65536 → Z.lor (Z.shiftl x 16) y = x * 65536 + y.
Proof. intros. by apply lor_shiftl_add. Qed.
Lemma lor_shiftl12 x y : 0 ≤ y < 4096 → Z.lor (Z.shiftl x 12) y = x * 4096 + y.
Proof. intros. by apply lor_shiftl_add. Qed.
Lemma lor_shiftl18 x y : 0 ≤ y < 262144 → Z.lor (Z.shiftl x 18) y = x * 262144 + y.
Proof. intros. by apply lor_shiftl_add. Qed.

(** The three bytes of a quantum, from a 24-bit value. *)
Lemma quantum_24 v n :
  0 ≤ v < 16777216 →
  quantum (v / 262144 mod 64) (v / 4096 mod 64) (v / 64 mod 64) (v mod 64) n
  = take (n - 1) [byte_of (v / 65536); byte_of (v / 256 mod 256); byte_of (v mod 256)].
Proof.
  intros Hv. unfold quantum.
  rewrite lor_shiftl6, lor_shiftl12, lor_shiftl18, !land_FF, shr16, shr8 by divlia.
  f_equal; f_equal; [|f_equal; [|f_equal]]; f_equal; divlia.
Qed.

(** Induction three bytes at a time. *)
Lemma triple_ind (P : bytes → Prop) :
  P [] → (∀ a, P [a]) → (∀ a b, P [a; b]) →
  (∀ a b c r, P r → P (a :: b :: c :: r)) → ∀ l, P l.
Proof.
  intros H0 H1 H2 H3 l. induction l as [l IH] using (induction_ltof1 _ length).
  destruct l as [|a [|b [|c r]]]; [done..|].
  apply H3, IH. unfold ltof. simpl. lia.
Qed.

Lemma b64_encode_chars l :
  Forall (λ c, not_newline c = true ∧ byte_val c < 0x80) (b64_encode l).
Proof.
  assert (∀ v, 0 ≤ v < 64 → not_newline (b64_char v) = true ∧ byte_val (b64_char v) < 0x80) as Hc
    by (intros v Hv; by apply b64_char_props).
  assert (∀ v, 0 ≤ Z.land v 0x3F < 64) as Hl by (intros v; rewrite land_3F; divlia).
  induction l as [|a|a b|a b c r IH] using triple_ind; simpl;
    repeat (constructor; [by (apply Hc, Hl) || by vm_compute|]); done.
Qed.

Lemma filter_encode l : List.filter not_newline (b64_encode l) = b64_encode l.
Proof.
  induction (b64_encode_chars l) as [|c s [Hc _] Hs IH]; [done|].
  simpl. by rewrite Hc, IH.
Qed.

Lemma b64_char_not_pad v : 0 ≤ v < 64 → Ascii.eqb (b64_char v) pad = false.
Proof. intros Hv. by apply Ascii.eqb_neq, b64_char_props. Qed.

Ltac b64_step :=
  rewrite ?land_3F, ?shr18, ?shr12, ?shr6;
  rewrite ?b64_val_char, ?b64_char_not_pad by divlia; cbn [mbind option_bind b64_quanta app].

Lemma b64_quanta_encode l : b64_quanta (b64_encode l) = Some l.
Proof.
  induction l as [|a|a b|a b c r IH] using triple_ind; [done|..];
    cbn [b64_encode b64_quanta].
  - pose proof (byte_val_range a). rewrite Z.shiftl_mul_pow2 by lia.
    change (2 ^ 16) with 65536. b64_step. f_equal.
    replace 0 with (byte_val a * 65536 / 64 mod 64) at 1 by divlia.
    replace 0 with (byte_val a * 65536 mod 64) at 1 by divlia.
    rewrite quantum_24 by lia. simpl. by rewrite Z.div_mul, byte_of_val by lia.
  - pose proof (byte_val_range a). pose proof (byte_val_range b).
    rewrite lor_shiftl16, Z.shiftl_mul_pow2 by (rewrite ?Z.shiftl_mul_pow2; lia).
    change (2 ^ 8) with 256. set (v := byte_val a * 65536 + byte_val b * 256).
    b64_step. f_equal.
    replace 0 with (v mod 64) at 1 by (subst v; divlia).
    rewrite quantum_24 by lia. simpl.
    replace (v / 65536) with (byte_val a) by (subst v; divlia).
    replace (v / 256 mod 256) with (byte_val b) by (subst v; divlia).
    by rewrite !byte_of_val.
  - pose proof (byte_val_range a). pose proof (byte_val_range b). pose proof (byte_val_range c).
    rewrite lor_shiftl8, lor_shiftl16 by lia.
    set (v := byte_val a * 65536 + (byte_val b * 256 + byte_val c)).
    b64_step. rewrite IH. cbn [mbind option_bind]. rewrite quantum_24 by lia.
    cbn [take Nat.sub app].
    replace (v / 65536) with (byte_val a) by (subst v; divlia).
    replace (v / 256 mod 256) with (byte_val b) by (subst v; divlia).
    replace (v mod 256) with (byte_val c) by (subst v; divlia).
    by rewrite !byte_of_val.
Qed.

(** Decoding what was encoded gives the bytes back. *)
Lemma b64_decode_encode l : b64_decode (b64_encode l) = Some l.
Proof. unfold b64_decode. by rewrite filter_encode, b64_quanta_encode. Qed.

(** The encoded text is ASCII, hence valid UTF-8. *)
Lemma b64_encode_valid l : valid_utf8 (b64_encode l) = true.
Proof.
  apply ascii_valid. eapply Forall_impl; [apply b64_encode_chars|]. by intros c [_ H].
Qed.

Example b64_example : b64_encode (to_bytes "Man1") = to_bytes "TWFuMQ==".
Proof. reflexivity. Qed.

#[export] Hint Resolve b64_encode_valid : rm.
#[export] Hint Rewrite b64_decode_encode : rm.
