(* ===== verification/Json.v ===== *)
(** * JSON text, as [encoding/json] writes and reads it

    The program stores every command and snapshot as JSON and answers every
    request in JSON. This file models the text level of the standard library's
    codec: the tree of a JSON value, the compact printer with its string escaping
    (HTML-safe, invalid UTF-8 replaced), and the scanner with its nesting limit.
    How trees become Go values is in the components that decode them. *)

From S2P Require Import Prelude Utf8.
Local Open Scope Z_scope.

(** ** Values *)

(** A JSON value; a number keeps its literal text, an object its members in
    order, duplicates included. *)
Inductive json : Type :=
| JNull
| JBool (b : bool)
| JNum (lit : bytes)
| JStr (s : string)
| JArr (l : list json)
| JObj (m : list (string * json)).

(** Induction over trees, through the lists. *)
Section json_ind.
  Variable P : json → Prop.
  Hypothesis HNull : P JNull.
  Hypothesis HBool : ∀ b, P (JBool b).
  Hypothesis HNum : ∀ l, P (JNum l).
  Hypothesis HStr : ∀ s, P (JStr s).
  Hypothesis HArr : ∀ l, Forall P l → P (JArr l).
  Hypothesis HObj : ∀ m, Forall (λ kv, P kv.2) m → P (JObj m).

Fixpoint json_ind' (j : json) : P j :=
    match j with
    | JNull => HNull
    | JBool b => HBool b
    | JNum l => HNum l
    | JStr s => HStr s
    | JArr l => HArr l ((fix go l : Forall P l :=
        match l with
        | [] => Forall_nil_2 _
        | x :: l => Forall_cons_2 _ _ _ (json_ind' x) (go l)
        end) l)
    | JObj m => HObj m ((fix go m : Forall (λ kv, P kv.2) m :=
        match m with
        | [] => Forall_nil_2 _
        | kv :: m => Forall_cons_2 _ _ _ (json_ind' kv.2) (go m)
        end) m)
    end.
End json_ind.

(** ** Printing *)

Definition dquote : ascii := "034"%char.
Definition backslash : ascii := "092"%char.

(** Lower-case hexadecimal digit. *)
Definition hex_digit (v : Z) : ascii :=
  if v <? 10 then byte_of (48 + v) else byte_of (87 + v).

(** The bytes [appendString] copies as they are ([htmlSafeSet]). *)
Definition html_safe (c : ascii) : bool :=
  let x := byte_val c in
  (0x20 <=? x) && (x <? 0x80)
  && negb (Ascii.eqb c dquote || Ascii.eqb c backslash
           || Ascii.eqb c "<"%char || Ascii.eqb c ">"%char || Ascii.eqb c "&"%char).

(** The escape of an unsafe ASCII byte. *)
Definition escape (c : ascii) : bytes :=
  let x := byte_val c in
  if Ascii.eqb c dquote || Ascii.eqb c backslash then [backslash; c]
  else if x =? 8 then [backslash; "b"%char]
  else if x =? 12 then [backslash; "f"%char]
  else if x =? 10 then [backslash; "n"%char]
  else if x =? 13 then [backslash; "r"%char]
  else if x =? 9 then [backslash; "t"%char]
  else [backslash; "u"%char; "0"%char; "0"%char; hex_digit (Z.shiftr x 4); hex_digit (Z.land x 0xF)].

(** One rune of [appendString]: invalid bytes become the escape of U+FFFD, the
    line separators U+2028 and U+2029 are escaped, other runes are copied. *)
Definition quote_rune (ru : Z * bytes) : bytes :=
  let '(r, raw) := ru in
  match raw with
  | [c] => if byte_val c <? 0x80 then (if html_safe c then [c] else escape c)
           else [backslash; "u"%char; "f"%char; "f"%char; "f"%char; "d"%char]
  | _ => if (r =? 0x2028) || (r =? 0x2029)
         then [backslash; "u"%char; "2"%char; "0"%char; "2"%char; hex_digit (Z.land r 0xF)]
         else raw
  end.

Definition quote_body (s : bytes) : bytes := concat (map quote_rune (runes s)).
Definition quote (s : string) : bytes := dquote :: quote_body (to_bytes s) ++ [dquote].

(** [strings.Join] on printed items. *)
Fixpoint sep_by (sep : ascii) (l : list bytes) : bytes :=
  match l with
  | [] => []
  | [x] => x
  | x :: l => x ++ sep :: sep_by sep l
  end.

Fixpoint print (j : json) : bytes :=
  match j with
  | JNull => to_bytes "null"
  | JBool true => to_bytes "true"
  | JBool false => to_bytes "false"
  | JNum lit => lit
  | JStr s => quote s
  | JArr l => "["%char :: sep_by ","%char (map print l) ++ ["]"%char]
  | JObj m => "{"%char :: sep_by ","%char (map (λ kv, quote kv.1 ++ ":"%char :: print kv.2) m)
              ++ ["}"%char]
  end.

(** A Go map is printed with its keys in byte order. *)
Definition key_le {A} (p q : string * A) : Prop := Is_true (String.leb p.1 q.1).
#[export] Instance key_le_dec {A} : RelDecision (@key_le A).
Proof. unfold key_le. intros p q. apply _. Defined.
Definition sorted_entries {A} (m : gmap string A) : list (string * A) :=
  merge_sort key_le (map_to_list m).

(** ** Scanning *)

Definition is_space (c : ascii) : bool :=
  let x := byte_val c in (x =? 32) || (x =? 9) || (x =? 10) || (x =? 13).

Fixpoint skip_ws (s : bytes) : bytes :=
  match s with
  | c :: r => if is_space c then skip_ws r else s
  | [] => []
  end.

Definition hex_val (c : ascii) : option Z :=
  let x := byte_val c in
  if (48 <=? x) && (x <=? 57) then Some (x - 48)
  else if (97 <=? x) && (x <=? 102) then Some (x - 87)
  else if (65 <=? x) && (x <=? 70) then Some (x - 55)
  else None.

Definition hex4 (s : bytes) : option (Z * bytes) :=
  match s with
  | a :: b :: c :: d :: r =>
    w ← hex_val a; x ← hex_val b; y ← hex_val c; z ← hex_val d;
    Some (w * 4096 + x * 256 + y * 16 + z, r)
  | _ => None
  end.

(** [utf16.DecodeRune] of a surrogate pair. *)
Definition utf16_pair (r1 r2 : Z) : option Z :=
  if (0xD800 <=? r1) && (r1 <? 0xDC00) && (0xDC00 <=? r2) && (r2 <? 0xE000)
  then Some ((r1 - 0xD800) * 1024 + (r2 - 0xDC00) + 0x10000) else None.

(** The single-character escapes. *)
Definition unescape (c : ascii) : option ascii :=
  if Ascii.eqb c dquote || Ascii.eqb c backslash || Ascii.eqb c "/"%char then Some c
  else if Ascii.eqb c "b"%char then Some "008"%char
  else if Ascii.eqb c "f"%char then Some "012"%char
  else if Ascii.eqb c "n"%char then Some "010"%char
  else if Ascii.eqb c "r"%char then Some "013"%char
  else if Ascii.eqb c "t"%char then Some "009"%char
  else None.

(** The rune of a [\u] escape and the text after it; a lone surrogate is U+FFFD. *)
Definition unicode_escape (s : bytes) : option (Z * bytes) :=
  '(r, s1) ← hex4 s;
  if is_surrogate r then
    match s1 with
    | b :: u :: s2 =>
      if Ascii.eqb b backslash && Ascii.eqb u "u"%char then
        match hex4 s2 with
        | Some (r2, s3) => match utf16_pair r r2 with
                           | Some x => Some (x, s3)
                           | None => Some (RuneError, s1)
                           end
        | None => Some (RuneError, s1)
        end
      else Some (RuneError, s1)
    | _ => Some (RuneError, s1)
    end
  else Some (r, s1).

(** The contents of a string literal up to its closing quote, unquoted, and the
    text after the quote. Each step consumes a byte: [length s] steps are
    enough. *)
Fixpoint parse_str (n : nat) (s : bytes) : option (bytes * bytes) :=
  match n with
  | O => None
  | S n =>
    match s with
    | [] => None
    | c :: s1 =>
      if Ascii.eqb c dquote then Some ([], s1)
      else if Ascii.eqb c backslash then
        match s1 with
        | [] => None
        | e :: s2 =>
          if Ascii.eqb e "u"%char then
            '(r, s3) ← unicode_escape s2; '(b, rest) ← parse_str n s3;
            Some (encode_rune r ++ b, rest)
          else x ← unescape e; '(b, rest) ← parse_str n s2; Some (x :: b, rest)
        end
      else if byte_val c <? 0x20 then None
      else
        let '(r, k) := decode_rune s in
        '(b, rest) ← parse_str n (drop k s); Some (encode_rune r ++ b, rest)
    end
  end.

Definition is_digit (c : ascii) : bool := let x := byte_val c in (48 <=? x) && (x <=? 57).

Fixpoint span_digits (s : bytes) : bytes * bytes :=
  match s with
  | c :: r => if is_digit c then let '(d, rest) := span_digits r in (c :: d, rest) else ([], s)
  | [] => ([], [])
  end.

(** The parts of a number literal; [None] when the scanner rejects it. *)
Definition parse_int_part (s : bytes) : option (bytes * bytes) :=
  match s with
  | c :: r => if Ascii.eqb c "0"%char then Some ([c], r)
              else if is_digit c then Some (span_digits s) else None
  | [] => None
  end.
Definition parse_frac_part (s : bytes) : option (bytes * bytes) :=
  match s with
  | c :: r => if Ascii.eqb c "."%char then
                match span_digits r with
                | ([], _) => None
                | (d, rest) => Some (c :: d, rest)
                end
              else Some ([], s)
  | [] => Some ([], [])
  end.
Definition parse_exp_part (s : bytes) : option (bytes * bytes) :=
  match s with
  | c :: r => if Ascii.eqb c "e"%char || Ascii.eqb c "E"%char then
                let '(sign, r1) := match r with
                  | x :: r1 => if Ascii.eqb x "+"%char || Ascii.eqb x "-"%char
                               then ([x], r1) else ([], r)
                  | [] => ([], [])
                  end in
                match span_digits r1 with
                | ([], _) => None
                | (d, rest) => Some (c :: sign ++ d, rest)
                end
              else Some ([], s)
  | [] => Some ([], [])
  end.
Definition parse_number (s : bytes) : option (bytes * bytes) :=
  let '(sign, s0) := match s with
    | c :: r => if Ascii.eqb c "-"%char then ([c], r) else ([], s)
    | [] => ([], [])
    end in
  '(i, s1) ← parse_int_part s0; '(f, s2) ← parse_frac_part s1; '(e, s3) ← parse_exp_part s2;
  Some (sign ++ i ++ f ++ e, s3).

(** Consume a literal. *)
Fixpoint expect (lit s : bytes) : option bytes :=
  match lit, s with
  | [], _ => Some s
  | a :: lit, b :: s => if Ascii.eqb a b then expect lit s else None
  | _ :: _, [] => None
  end.

(** The scanner's nesting limit ([maxNestingDepth]). *)
Definition max_depth : N := 10000.

(** One value at the head of [s] and the text after it. [d] is the nesting still
    allowed; [n] is fuel, [S (length s)] steps are enough ([parse_value_fuel]). *)
Fixpoint parse_value (n : nat) (d : N) (s : bytes) {struct n} : option (json * bytes) :=
  match n with
  | O => None
  | S n =>
    match skip_ws s with
    | [] => None
    | c :: r =>
      if Ascii.eqb c dquote then
        '(b, rest) ← parse_str (S (length r)) r; Some (JStr (of_bytes b), rest)
      else if Ascii.eqb c "{"%char then
        if N.eqb d 0 then None
        else match skip_ws r with
             | x :: r1 => if Ascii.eqb x "}"%char then Some (JObj [], r1)
                          else '(m, rest) ← parse_members n (N.pred d) (x :: r1); Some (JObj m, rest)
             | [] => None
             end
      else if Ascii.eqb c "["%char then
        if N.eqb d 0 then None
        else match skip_ws r with
             | x :: r1 => if Ascii.eqb x "]"%char then Some (JArr [], r1)
                          else '(l, rest) ← parse_items n (N.pred d) (x :: r1); Some (JArr l, rest)
             | [] => None
             end
      else if Ascii.eqb c "t"%char then rest ← expect (to_bytes "rue") r; Some (JBool true, rest)
      else if Ascii.eqb c "f"%char then rest ← expect (to_bytes "alse") r; Some (JBool false, rest)
      else if Ascii.eqb c "n"%char then rest ← expect (to_bytes "ull") r; Some (JNull, rest)
      else '(lit, rest) ← parse_number (c :: r); Some (JNum lit, rest)
    end
  end
with parse_items (n : nat) (d : N) (s : bytes) {struct n} : option (list json * bytes) :=
  match n with
  | O => None
  | S n =>
    '(v, r) ← parse_value n d s;
    match skip_ws r with
    | c :: r1 => if Ascii.eqb c ","%char then '(l, rest) ← parse_items n d r1; Some (v :: l, rest)
                 else if Ascii.eqb c "]"%char then Some ([v], r1) else None
    | [] => None
    end
  end
with parse_members (n : nat) (d : N) (s : bytes) {struct n} : option (list (string * json) * bytes) :=
  match n with
  | O => None
  | S n =>
    match skip_ws s with
    | q :: r =>
      if Ascii.eqb q dquote then
        '(k, r0) ← parse_str (S (length r)) r;
        match skip_ws r0 with
        | c :: r1 =>
          if Ascii.eqb c ":"%char then
            '(v, r2) ← parse_value n d r1;
            match skip_ws r2 with
            | c2 :: r3 => if Ascii.eqb c2 ","%char then
                            '(m, rest) ← parse_members n d r3; Some ((of_bytes k, v) :: m, rest)
                          else if Ascii.eqb c2 "}"%char then Some ([(of_bytes k, v)], r3) else None
            | [] => None
            end
          else None
        | [] => None
        end
      else None
    | [] => None
    end
  end.

(** The fuel that covers a text: two calls per byte at most. *)
Definition json_fuel (s : bytes) : nat := S (2 * length s).

(** ** The two entry points *)

(** [json.Unmarshal]: the whole text is one value. *)
Definition unmarshal (s : bytes) : option json :=
  '(j, rest) ← parse_value (json_fuel s) max_depth s;
  match skip_ws rest with [] => Some j | _ => None end.

(** Outcome of [json.NewDecoder(r).Decode]: the first value of the stream, what
    follows it left unread; [io.EOF] when there is nothing but white space. *)
Inductive stream_result : Type :=
| StreamEOF
| StreamError
| StreamValue (j : json).

Definition decode_stream (s : bytes) : stream_result :=
  match skip_ws s with
  | [] => StreamEOF
  | _ => match parse_value (json_fuel s) max_depth s with
         | Some (j, _) => StreamValue j
         | None => StreamError
         end
  end.

(** ** What the text keeps of a tree

    Printing coerces every string to valid UTF-8. *)
Fixpoint coerce_json (j : json) : json :=
  match j with
  | JStr s => JStr (coerce_string s)
  | JArr l => JArr (map coerce_json l)
  | JObj m => JObj (map (λ kv, (coerce_string kv.1, coerce_json kv.2)) m)
  | _ => j
  end.

Fixpoint json_depth (j : json) : nat :=
  match j with
  | JArr l => S (foldr Nat.max 0%nat (map json_depth l))
  | JObj m => S (foldr Nat.max 0%nat (map (λ kv, json_depth kv.2) m))
  | _ => 0%nat
  end.

(** Trees without numbers: the ones the program stores. *)
Fixpoint numberless (j : json) : bool :=
  match j with
  | JNum _ => false
  | JArr l => forallb numberless l
  | JObj m => forallb (λ kv, numberless kv.2) m
  | _ => true
  end.

(** ** String literals *)

Lemma quote_body_cons s r k :
  s ≠ [] → decode_rune s = (r, k) →
  quote_body s = quote_rune (r, take k s) ++ quote_body (drop k s).
Proof. intros Hne Hdec. unfold quote_body. by rewrite (runes_cons s r k). Qed.

(** Every escape of an ASCII byte is undone by the scanner. *)
Definition escape_undone (c : ascii) : bool :=
  (0x80 <=? byte_val c) || html_safe c ||
  match escape c with
  | [b; e] => Ascii.eqb b backslash && negb (Ascii.eqb e "u"%char)
              && bool_decide (unescape e = Some c)
  | [b; u; z1; z2; x; y] =>
    Ascii.eqb b backslash && Ascii.eqb u "u"%char
    && bool_decide (hex4 [z1; z2; x; y] = Some (byte_val c, []))
  | _ => false
  end.

Lemma escape_undone_all c : escape_undone c = true.
Proof. apply byte_all. vm_compute. reflexivity. Qed.

Lemma hex4_app a b c d v q : hex4 [a; b; c; d] = Some (v, []) → hex4 (a :: b :: c :: d :: q) = Some (v, q).
Proof.
  cbn [hex4]. destruct (hex_val a), (hex_val b), (hex_val c), (hex_val d); cbn; try done.
  by intros [= <-].
Qed.

Lemma parse_str_unicode n a b c d v q :
  hex4 [a; b; c; d] = Some (v, []) → is_surrogate v = false →
  parse_str (S n) (backslash :: "u"%char :: a :: b :: c :: d :: q)
  = ('(t, rest) ← parse_str n q; Some (encode_rune v ++ t, rest)).
Proof.
  intros Hh Hs. cbn [parse_str]. unfold unicode_escape. rewrite (hex4_app _ _ _ _ _ _ Hh).
  cbn. by rewrite Hs.
Qed.

Lemma encode_rune_ascii c : byte_val c < 0x80 → encode_rune (byte_val c) = [c].
Proof.
  intros H. pose proof (byte_val_range c). unfold encode_rune.
  case_match; byte_tests; [by rewrite byte_of_val|].
  match goal with H : _ && _ = false |- _ => apply andb_false_iff in H as [?|?] end; byte_tests; lia.
Qed.

(** A raw rune in a literal. *)
Lemma parse_str_raw n s r k q :
  s ≠ [] → decode_rune s = (r, k) → bad_rune r k = false →
  (∀ c s', s = c :: s' → html_safe c = true ∨ 0x80 ≤ byte_val c) →
  parse_str (S n) (take k s ++ q)
  = ('(t, rest) ← parse_str n q; Some (encode_rune r ++ t, rest)).
Proof.
  intros Hne Hdec Hok Hc. pose proof (decode_rune_size s Hne) as Hk. rewrite Hdec in Hk.
  pose proof (runes_take_size _ _ _ Hdec) as Hlen.
  pose proof (decode_rune_take s r k q Hdec Hok Hne) as Hdec'.
  destruct s as [|c s]; [done|]. specialize (Hc c s eq_refl).
  destruct k as [|k]; [simpl in Hk; lia|].
  cbn [take app] in *. cbn [parse_str].
  assert (Ascii.eqb c dquote = false ∧ Ascii.eqb c backslash = false ∧ (byte_val c <? 0x20) = false)
    as (-> & -> & ->).
  { destruct Hc as [Hs|Hs].
    - unfold html_safe in Hs. apply andb_true_iff in Hs as [[Hs1 Hs2]%andb_true_iff Hs3].
      apply negb_true_iff in Hs3. do 4 apply orb_false_iff in Hs3 as [Hs3 ?].
      repeat split; [done|done|]. byte_tests. apply Z.ltb_ge. lia.
    - repeat split; [apply Ascii.eqb_neq; intros ->; vm_compute in Hs; by apply Hs..|apply Z.ltb_ge; lia]. }
  rewrite Hdec'. cbn [length] in Hlen. injection Hlen as Hlen.
  change (drop (S k) (c :: take k s ++ q)) with (drop k (take k s ++ q)).
  by rewrite <-Hlen at 1; rewrite drop_app_length.
Qed.

(** An escaped ASCII byte in a literal. *)
Lemma parse_str_escape n c q :
  byte_val c < 0x80 → html_safe c = false →
  parse_str (S n) (escape c ++ q) = ('(t, rest) ← parse_str n q; Some (c :: t, rest)).
Proof.
  intros Hc Hs. pose proof (escape_undone_all c) as H. unfold escape_undone in H.
  rewrite Hs in H. apply orb_true_iff in H as [[H|H]%orb_true_iff|H]; [byte_tests; lia|done|].
  destruct (escape c) as [|b [|u [|z1 [|z2 [|x [|y [|]]]]]]] eqn:He; try done.
  - apply andb_true_iff in H as [[H1 H2]%andb_true_iff H3].
    apply Ascii.eqb_eq in H1 as ->. apply negb_true_iff in H2. apply bool_decide_eq_true_1 in H3.
    cbn [app parse_str]. rewrite H2, H3. done.
  - apply andb_true_iff in H as [[H1 H2]%andb_true_iff H3].
    apply Ascii.eqb_eq in H1 as ->, H2 as ->. apply bool_decide_eq_true_1 in H3.
    cbn [app]. rewrite (parse_str_unicode _ _ _ _ _ _ _ H3).
    + by rewrite encode_rune_ascii.
    + unfold is_surrogate. apply andb_false_iff. left. apply Z.leb_gt. lia.
Qed.

(** A line separator is printed as an escape. *)
Lemma parse_str_separator n r q :
  (r =? 0x2028) || (r =? 0x2029) = true →
  parse_str (S n) ([backslash; "u"%char; "2"%char; "0"%char; "2"%char; hex_digit (Z.land r 0xF)] ++ q)
  = ('(t, rest) ← parse_str n q; Some (encode_rune r ++ t, rest)).
Proof.
  intros [->%Z.eqb_eq | ->%Z.eqb_eq]%orb_true_iff; cbn [app];
    [by rewrite (parse_str_unicode _ _ _ _ _ 0x2028)|by rewrite (parse_str_unicode _ _ _ _ _ 0x2029)].
Qed.

(** One printed rune is read back as its encoding. *)
Lemma parse_str_rune n s r k q :
  s ≠ [] → decode_rune s = (r, k) →
  parse_str (S n) (quote_rune (r, take k s) ++ q)
  = ('(t, rest) ← parse_str n q; Some (encode_rune r ++ t, rest)).
Proof.
  intros Hne Hdec. pose proof (decode_rune_view s) as Hv. rewrite Hdec in Hv. cbn [fst snd] in Hv.
  pose proof (parse_str_raw n s r k q Hne Hdec) as Hraw.
  inversion Hv as [|b q0 Hb|b q0 Hb|b0 b1 q0 r0 H0|b0 b1 b2 q0 r0 H0|b0 b1 b2 b3 q0 r0 H0];
    subst s k; [done|..].
  - change (take 1 (b :: q0)) with [b] in *; cbn [quote_rune app]. replace (byte_val b <? 0x80) with false by (symmetry; apply Z.ltb_ge; lia).
    subst r. cbn [app]. by rewrite (parse_str_unicode _ _ _ _ _ 65533).
  - subst r. change (take 1 (b :: q0)) with [b] in *; cbn [quote_rune app].
    replace (byte_val b <? 0x80) with true by (symmetry; apply Z.ltb_lt; lia).
    destruct (html_safe b) eqn:Hs.
    + apply Hraw; [unfold bad_rune, RuneError; apply andb_false_iff; left; apply Z.eqb_neq; lia|].
      intros c s' [= <- _]. by left.
    + rewrite parse_str_escape by done. by rewrite encode_rune_ascii.
  - change (take 2 (b0 :: b1 :: q0)) with [b0; b1] in *; cbn [quote_rune app]. case_match; [by apply parse_str_separator|]. apply Hraw; [by apply andb_false_r|].
    intros c s' [= <- _]. right. lia.
  - change (take 3 (b0 :: b1 :: b2 :: q0)) with [b0; b1; b2] in *; cbn [quote_rune app]. case_match; [by apply parse_str_separator|]. apply Hraw; [by apply andb_false_r|].
    intros c s' [= <- _]. right. lia.
  - change (take 4 (b0 :: b1 :: b2 :: b3 :: q0)) with [b0; b1; b2; b3] in *; cbn [quote_rune app]. case_match; [by apply parse_str_separator|]. apply Hraw; [by apply andb_false_r|].
    intros c s' [= <- _]. right. lia.
Qed.

Lemma quote_rune_nonempty r raw : raw ≠ [] → (1 ≤ length (quote_rune (r, raw)))%nat.
Proof.
  intros Hne. destruct raw as [|c [|c2 raw]]; [done|..]; cbn [quote_rune].
  - repeat case_match; cbn; try lia. unfold escape. repeat case_match; cbn; lia.
  - case_match; cbn; lia.
Qed.

(** A printed string is read back as its coercion to valid UTF-8. *)
Lemma parse_str_quote s n rest :
  (length (quote_body s) < n)%nat →
  parse_str n (quote_body s ++ dquote :: rest) = Some (coerce_utf8 s, rest).
Proof.
  revert n. induction s as [|s r k Hne Hdec IH] using runes_ind; intros n Hn.
  - destruct n; [simpl in Hn; lia|]. reflexivity.
  - rewrite (quote_body_cons s r k) in * by done. rewrite length_app in Hn.
    pose proof (decode_rune_size s Hne) as Hk. rewrite Hdec in Hk. cbn in Hk.
    assert (1 ≤ length (quote_rune (r, take k s)))%nat as Hq.
    { apply quote_rune_nonempty. intros H%(f_equal length).
      rewrite (runes_take_size s r k Hdec) in H. cbn in H. lia. }
    destruct n as [|n]; [lia|].
    rewrite <-app_assoc, parse_str_rune, IH by (done || lia). cbn.
    by rewrite (coerce_utf8_cons s r k).
Qed.

(** ** Trees *)

(** The first byte of a printed numberless tree. *)
Definition head_ok (c : ascii) : bool :=
  negb (is_space c) && negb (Ascii.eqb c "]"%char) && negb (Ascii.eqb c "}"%char).

Lemma print_head j : numberless j = true → ∃ c r, print j = c :: r ∧ head_ok c = true.
Proof. destruct j as [|[]| | | |]; cbn; try done; eauto. Qed.

Lemma skip_ws_head c r : head_ok c = true → skip_ws (c :: r) = c :: r.
Proof.
  intros [[H%negb_true_iff _]%andb_true_iff _]%andb_true_iff. cbn. by rewrite H.
Qed.

Lemma skip_ws_print j x : numberless j = true → skip_ws (print j ++ x) = print j ++ x.
Proof. intros (c & r & -> & Hc)%print_head. by apply skip_ws_head. Qed.

Lemma expect_app lit x : expect lit (lit ++ x) = Some x.
Proof. induction lit as [|c lit IH]; [done|]. cbn. by rewrite Ascii.eqb_refl. Qed.

Lemma sep_by_cons sep x l : l ≠ [] → sep_by sep (x :: l) = x ++ sep :: sep_by sep l.
Proof. by destruct l. Qed.

(** What the induction over trees proves of one tree. *)
Definition parses (j : json) : Prop :=
  ∀ n d rest, numberless j = true → (N.of_nat (json_depth j) ≤ d)%N →
  (2 * length (print j) ≤ n)%nat →
  parse_value n d (print j ++ rest) = Some (coerce_json j, rest).

Lemma parse_items_print l n d rest :
  l ≠ [] → Forall parses l → forallb numberless l = true →
  (N.of_nat (foldr Nat.max 0%nat (map json_depth l)) ≤ d)%N →
  (2 * length (sep_by ","%char (map print l)) < n)%nat →
  parse_items n d (sep_by ","%char (map print l) ++ "]"%char :: rest)
  = Some (map coerce_json l, rest).
Proof.
  revert n. induction l as [|j l IH]; intros n Hne Hl Hnum Hd Hn; [done|].
  apply Forall_cons in Hl as [Hj Hl]. cbn [forallb] in Hnum. apply andb_true_iff in Hnum as [Hnj Hnl].
  cbn [map foldr] in Hd. destruct n as [|n]; [lia|]. cbn [map parse_items].
  destruct (decide (l = [])) as [->|Hl0].
  - cbn [map sep_by] in *. rewrite Hj by (done || lia). done.
  - assert (map print l ≠ []) as Hm by (by destruct l).
    cbn [map] in Hn. rewrite sep_by_cons in Hn |- * by done.
    rewrite length_app in Hn. cbn [length] in Hn.
    rewrite <-app_assoc. cbn [app]. rewrite Hj by (done || lia). cbn [mbind option_bind].
    cbn [skip_ws]. change (is_space ",") with false. cbn iota. change (Ascii.eqb "," ",") with true.
    cbn iota. rewrite IH by (done || lia). done.
Qed.

Lemma parse_members_print m n d rest :
  m ≠ [] → Forall (λ kv, parses kv.2) m → forallb (λ kv, numberless kv.2) m = true →
  (N.of_nat (foldr Nat.max 0%nat (map (λ kv, json_depth kv.2) m)) ≤ d)%N →
  (2 * length (sep_by ","%char (map (λ kv, quote kv.1 ++ ":"%char :: print kv.2) m)) < n)%nat →
  parse_members n d
    (sep_by ","%char (map (λ kv, quote kv.1 ++ ":"%char :: print kv.2) m) ++ "}"%char :: rest)
  = Some (map (λ kv, (coerce_string kv.1, coerce_json kv.2)) m, rest).
Proof.
  revert n. induction m as [|[k j] m IH]; intros n Hne Hm Hnum Hd Hn; [done|].
  apply Forall_cons in Hm as [Hj Hm]. cbn [forallb snd] in *. apply andb_true_iff in Hnum as [Hnj Hnm].
  cbn [map foldr fst snd] in *. destruct n as [|n]; [lia|].
  set (E := map (λ kv : string * json, quote kv.1 ++ ":"%char :: print kv.2) m) in *.
  assert (∀ tail, parse_members (S n) d ((quote k ++ ":"%char :: print j) ++ tail) =
    '(v, r2) ← parse_value n d (print j ++ tail);
            match skip_ws r2 with
            | c2 :: r3 => if Ascii.eqb c2 ","%char then
                            '(m, rest) ← parse_members n d r3; Some ((coerce_string k, v) :: m, rest)
                          else if Ascii.eqb c2 "}"%char then Some ([(coerce_string k, v)], r3) else None
            | [] => None
            end) as Hstep.
  { intros tail. unfold quote. cbn [parse_members app skip_ws]. change (is_space dquote) with false.
    cbn iota. rewrite Ascii.eqb_refl, <-!app_assoc. cbn [app].
    rewrite parse_str_quote by (rewrite length_app; cbn; lia). cbn [mbind option_bind].
    cbn [skip_ws]. change (is_space ":") with false. cbn iota. change (Ascii.eqb ":" ":") with true.
    cbn iota. done. }
  destruct (decide (m = [])) as [->|Hm0].
  - subst E. cbn [map sep_by] in *. rewrite Hstep. rewrite length_app in Hn. cbn [length] in Hn.
    rewrite Hj by (done || lia). done.
  - assert (E ≠ []) as HE by (subst E; by destruct m).
    rewrite sep_by_cons in Hn |- * by done. rewrite !length_app in Hn. cbn [length] in Hn.
    rewrite <-app_assoc, Hstep. cbn [app]. rewrite Hj by (done || lia). cbn [mbind option_bind].
    cbn [skip_ws]. change (is_space ",") with false. cbn iota. change (Ascii.eqb "," ",") with true.
    cbn iota. rewrite IH by (done || lia). done.
Qed.

Lemma sep_by_head sep x l c r :
  x = c :: r → ∃ r', sep_by sep (x :: l) = c :: r'.
Proof. intros ->. destruct l; cbn; eauto. Qed.

(** The dispatch of [parse_value] on the byte that opens a compound value. *)
Lemma parse_value_arr n d c r :
  d ≠ 0%N → head_ok c = true →
  parse_value (S n) d ("["%char :: c :: r)
  = ('(l, rest) ← parse_items n (N.pred d) (c :: r); Some (JArr l, rest)).
Proof.
  intros Hd Hc. apply N.eqb_neq in Hd. cbn [parse_value skip_ws].
  change (is_space "[") with false. cbn iota.
  change (Ascii.eqb "[" dquote) with false. change (Ascii.eqb "[" "{") with false.
  change (Ascii.eqb "[" "[") with true. cbn iota. rewrite Hd.
  apply andb_true_iff in Hc as [[Hs%negb_true_iff Hb%negb_true_iff]%andb_true_iff _].
  cbn [skip_ws]. by rewrite Hs, Hb.
Qed.

Lemma parse_value_obj n d c r :
  d ≠ 0%N → head_ok c = true →
  parse_value (S n) d ("{"%char :: c :: r)
  = ('(m, rest) ← parse_members n (N.pred d) (c :: r); Some (JObj m, rest)).
Proof.
  intros Hd Hc. apply N.eqb_neq in Hd. cbn [parse_value skip_ws].
  change (is_space "{") with false. cbn iota.
  change (Ascii.eqb "{" dquote) with false. change (Ascii.eqb "{" "{") with true. cbn iota. rewrite Hd.
  apply andb_true_iff in Hc as [[Hs%negb_true_iff _]%andb_true_iff Hb%negb_true_iff].
  cbn [skip_ws]. by rewrite Hs, Hb.
Qed.

(** Printing then reading a numberless tree gives its coercion, whatever text
    follows. *)
Lemma parse_value_print j : parses j.
Proof.
  induction j as [|b|l|s|l IH|m IH] using json_ind'; intros n d rest Hnum Hd Hn;
    try discriminate Hnum;
    (destruct n as [|n]; [try destruct b; cbn in Hn; lia|]).
  - done.
  - by destruct b.
  - cbn [print] in *. unfold quote in *.
    cbn [app parse_value skip_ws]. change (is_space dquote) with false. cbn iota.
    rewrite Ascii.eqb_refl, <-app_assoc. cbn [app].
    rewrite parse_str_quote by (rewrite length_app; cbn; lia). done.
  - cbn [print app length json_depth numberless] in *. rewrite length_app in Hn. cbn [length] in Hn.
    rewrite <-app_assoc. cbn [app]. destruct l as [|x l].
    { cbn. by destruct d. }
    pose proof Hnum as [Hx _]%andb_true_iff. destruct (print_head _ Hx) as (c & r & Hp & Hc).
    pose proof (parse_items_print (x :: l) n (N.pred d) rest ltac:(done) IH Hnum ltac:(lia) ltac:(lia))
      as Hparse.
    cbn [map] in Hparse |- *.
    destruct (sep_by_head ","%char (print x) (map print l) c r Hp) as [r' Hr]. rewrite Hr in Hparse |- *.
    cbn [app] in Hparse |- *. rewrite parse_value_arr, Hparse by (done || lia). done.
  - cbn [print app length json_depth numberless] in *. rewrite length_app in Hn. cbn [length] in Hn.
    rewrite <-app_assoc. cbn [app]. destruct m as [|x m].
    { cbn. by destruct d. }
    pose proof (parse_members_print (x :: m) n (N.pred d) rest ltac:(done) IH Hnum ltac:(lia) ltac:(lia))
      as Hparse.
    cbn [map] in Hparse |- *.
    destruct (sep_by_head ","%char (quote x.1 ++ ":"%char :: print x.2)
      (map (λ kv : string * json, quote kv.1 ++ ":"%char :: print kv.2) m) dquote
      ((quote_body (to_bytes x.1) ++ [dquote]) ++ ":"%char :: print x.2) eq_refl) as [r' Hr].
    rewrite Hr in Hparse |- *.
    cbn [app] in Hparse |- *. rewrite parse_value_obj, Hparse by (done || lia). done.
Qed.

(** ** The fuel is enough *)

Lemma skip_ws_length s : (length (skip_ws s) ≤ length s)%nat.
Proof. induction s as [|c s IH]; [done|]. cbn. case_match; cbn; lia. Qed.

(** Split the binds of a hypothesis [_ = Some _]. *)
Ltac split_bind H :=
  repeat match type of H with
  | (?o ≫= _) = Some _ =>
      let E := fresh "E" in destruct o as [?|] eqn:E; cbn [mbind option_bind] in H; [|discriminate H]
  | (let '(_, _) := ?p in _) = Some _ => destruct p as [? ?]; cbn [mbind option_bind] in H
  | Some _ = Some _ => injection H; clear H; intros; subst
  | None = Some _ => discriminate H
  | (if ?b then _ else _) = Some _ => destruct b eqn:?
  | (match ?x with _ => _ end) = Some _ => destruct x eqn:?
  end.

Lemma hex4_length s r s1 : hex4 s = Some (r, s1) → (length s1 < length s)%nat.
Proof. intros H. unfold hex4 in H. split_bind H. cbn. lia. Qed.

Lemma unicode_escape_length s r s1 : unicode_escape s = Some (r, s1) → (length s1 < length s)%nat.
Proof.
  intros H. unfold unicode_escape in H. split_bind H;
    repeat match goal with H : hex4 _ = Some _ |- _ => apply hex4_length in H end;
    subst; cbn in *; lia.
Qed.

Lemma parse_str_length n s b rest : parse_str n s = Some (b, rest) → (length rest < length s)%nat.
Proof.
  revert s b rest. induction n as [|n IH]; intros s b rest H; [done|].
  destruct s as [|c s]; [done|]. cbn [parse_str] in H.
  pose proof (decode_rune_size (c :: s) ltac:(done)).
  split_bind H; repeat match goal with
    | H : parse_str _ _ = Some _ |- _ => apply IH in H
    | H : unicode_escape _ = Some _ |- _ => apply unicode_escape_length in H
    | H : decode_rune _ = _ |- _ => rewrite H in *
    end; rewrite ?length_drop in *; subst; cbn in *; lia.
Qed.

Lemma span_digits_length s d rest :
  span_digits s = (d, rest) → (length d + length rest = length s)%nat.
Proof.
  revert d rest. induction s as [|c s IH]; intros d rest H; cbn in H; [by simplify_eq|].
  destruct (is_digit c); [|by simplify_eq].
  destruct (span_digits s) as [d' r'] eqn:E. injection H as <- <-. cbn. by rewrite (IH d' r').
Qed.

Lemma parse_int_part_length s d rest :
  parse_int_part s = Some (d, rest) → (length rest < length s)%nat.
Proof.
  destruct s as [|c s]; [done|]. cbn. destruct (Ascii.eqb c "0"); [by intros [= <- <-]; cbn; lia|].
  destruct (is_digit c); [|done]. destruct (span_digits s) as [d' r'] eqn:E. intros [= <- <-].
  apply span_digits_length in E. lia.
Qed.

Lemma parse_frac_part_length s d rest :
  parse_frac_part s = Some (d, rest) → (length rest ≤ length s)%nat.
Proof.
  destruct s as [|c s]; [by intros [= <- <-]|]. cbn. destruct (Ascii.eqb c "."); [|by intros [= <- <-]].
  destruct (span_digits s) as [[|x d'] r'] eqn:E; [done|]. intros [= <- <-].
  apply span_digits_length in E. lia.
Qed.

Lemma parse_exp_part_length s d rest :
  parse_exp_part s = Some (d, rest) → (length rest ≤ length s)%nat.
Proof.
  destruct s as [|c s]; [by intros [= <- <-]|]. cbn.
  destruct (Ascii.eqb c "e" || Ascii.eqb c "E"); [|by intros [= <- <-]].
  destruct s as [|x s]; [done|].
  destruct (Ascii.eqb x "+" || Ascii.eqb x "-");
    (destruct (span_digits _) as [[|y d'] r'] eqn:E; [done|]; intros [= <- <-];
     apply span_digits_length in E; cbn in *; lia).
Qed.

Lemma parse_number_length s lit rest :
  parse_number s = Some (lit, rest) → (length rest < length s)%nat.
Proof.
  unfold parse_number. intros H.
  destruct (match s with [] => _ | _ :: _ => _ end) as [sign s0] eqn:Es.
  assert (length s0 ≤ length s)%nat as Hs0
    by (destruct s; [by simplify_eq|]; case_match; simplify_eq; cbn; lia).
  clear Es. split_bind H. repeat match goal with
  | H : parse_int_part _ = _ |- _ => apply parse_int_part_length in H
  | H : parse_frac_part _ = _ |- _ => apply parse_frac_part_length in H
  | H : parse_exp_part _ = _ |- _ => apply parse_exp_part_length in H
  end. lia.
Qed.

Lemma expect_length lit s rest : expect lit s = Some rest → (length rest ≤ length s)%nat.
Proof.
  revert s. induction lit as [|c lit IH]; intros s H; [by injection H as ->|].
  destruct s as [|x s]; [done|]. cbn in H. destruct (Ascii.eqb c x); [|done].
  apply IH in H. cbn. lia.
Qed.

(** Every scanner consumes input. *)
Lemma parse_consumes n :
  (∀ d s v rest, parse_value n d s = Some (v, rest) → (length rest < length s)%nat) ∧
  (∀ d s v rest, parse_items n d s = Some (v, rest) → (length rest < length s)%nat) ∧
  (∀ d s v rest, parse_members n d s = Some (v, rest) → (length rest < length s)%nat).
Proof.
  induction n as [|n (IHv & IHi & IHm)]; [done|].
  split_and!; intros d s v rest H; cbn [parse_value parse_items parse_members] in H;
    pose proof (skip_ws_length s).
  all: split_bind H.
  all: repeat match goal with
    | H : parse_value _ _ _ = Some _ |- _ => apply IHv in H
    | H : parse_items _ _ _ = Some _ |- _ => apply IHi in H
    | H : parse_members _ _ _ = Some _ |- _ => apply IHm in H
    | H : parse_str _ _ = Some _ |- _ => apply parse_str_length in H
    | H : parse_number _ = Some _ |- _ => apply parse_number_length in H
    | H : expect _ _ = Some _ |- _ => apply expect_length in H
    | H : skip_ws ?x = _ |- _ => pose proof (skip_ws_length x); rewrite H in *; clear H
    end; cbn [length] in *; lia.
Qed.

(** More fuel than two calls per byte does not change the result. *)
Lemma parse_fuel n :
  (∀ m d s, (2 * length s < n)%nat → (n ≤ m)%nat → parse_value m d s = parse_value n d s) ∧
  (∀ m d s, (2 * length s + 1 < n)%nat → (n ≤ m)%nat → parse_items m d s = parse_items n d s) ∧
  (∀ m d s, (2 * length s + 1 < n)%nat → (n ≤ m)%nat → parse_members m d s = parse_members n d s).
Proof.
  induction n as [|n (IHv & IHi & IHm)]; [split_and!; intros; lia|].
  split_and!; intros m d s Hn Hm; (destruct m as [|m]; [lia|]);
    cbn [parse_value parse_items parse_members]; pose proof (skip_ws_length s) as Hs.
  - destruct (skip_ws s) as [|c r] eqn:Es; [done|]. cbn [length] in Hs.
    pose proof (skip_ws_length r) as Hr.
    repeat case_match; try done; cbn [length] in *;
      rewrite ?(IHi m), ?(IHm m) by (cbn [length]; lia); done.
  - rewrite (IHv m) by lia.
    destruct (parse_value n d s) as [[v r]|] eqn:Ev; [|done]. cbn [mbind option_bind].
    apply (parse_consumes n) in Ev. pose proof (skip_ws_length r).
    destruct (skip_ws r) as [|c r1]; [done|]. cbn [length] in *.
    destruct (Ascii.eqb c ","); [|done]. by rewrite (IHi m) by lia.
  - destruct (skip_ws s) as [|q r]; [done|]. destruct (Ascii.eqb q dquote); [|done].
    destruct (parse_str (S (length r)) r) as [[k r0]|] eqn:Ek; [|done]. cbn [mbind option_bind].
    apply parse_str_length in Ek. pose proof (skip_ws_length r0). cbn [length] in *.
    destruct (skip_ws r0) as [|c r1]; [done|]. destruct (Ascii.eqb c ":"); [|done].
    cbn [length] in *. rewrite (IHv m) by lia.
    destruct (parse_value n d r1) as [[v r2]|] eqn:Ev; [|done]. cbn [mbind option_bind].
    apply (parse_consumes n) in Ev. pose proof (skip_ws_length r2).
    destruct (skip_ws r2) as [|c2 r3]; [done|]. cbn [length] in *.
    destruct (Ascii.eqb c2 ","); [|done]. by rewrite (IHm m) by lia.
Qed.

Lemma parse_value_fuel n d s :
  (json_fuel s ≤ n)%nat → parse_value n d s = parse_value (json_fuel s) d s.
Proof. intros Hn. apply parse_fuel; [unfold json_fuel; lia|done]. Qed.

(** ** The entry points on printed text *)

Definition storable (j : json) : Prop :=
  numberless j = true ∧ (N.of_nat (json_depth j) ≤ max_depth)%N.

Lemma parse_value_storable j rest :
  storable j →
  parse_value (json_fuel (print j ++ rest)) max_depth (print j ++ rest) = Some (coerce_json j, rest).
Proof.
  intros [Hn Hd]. apply parse_value_print; [done..|].
  unfold json_fuel. rewrite length_app. lia.
Qed.

Lemma unmarshal_print j : storable j → unmarshal (print j) = Some (coerce_json j).
Proof.
  intros Hj. unfold unmarshal. pose proof (parse_value_storable j [] Hj) as H.
  rewrite app_nil_r in H. by rewrite H.
Qed.

Lemma decode_stream_print j rest :
  storable j → decode_stream (print j ++ rest) = StreamValue (coerce_json j).
Proof.
  intros Hj. unfold decode_stream. rewrite parse_value_storable by done.
  rewrite skip_ws_print by apply Hj.
  destruct (print_head j) as (c & r & -> & _); [apply Hj|done].
Qed.

(** A map's entries, sorted, are its entries. *)
Lemma sorted_entries_perm {A} (m : gmap string A) : sorted_entries m ≡ₚ map_to_list m.
Proof. apply merge_sort_Permutation. Qed.

Lemma list_to_map_sorted_entries {A} (m : gmap string A) :
  list_to_map (sorted_entries m) = m.
Proof.
  rewrite <-(list_to_map_to_list m) at 2. apply list_to_map_proper; [|apply sorted_entries_perm].
  rewrite sorted_entries_perm. apply NoDup_fst_map_to_list.
Qed.

Lemma NoDup_sorted_entries {A} (m : gmap string A) : NoDup (sorted_entries m).*1.
Proof. rewrite sorted_entries_perm. apply NoDup_fst_map_to_list. Qed.

Lemma elem_of_sorted_entries {A} (m : gmap string A) k v :
  (k, v) ∈ sorted_entries m ↔ m !! k = Some v.
Proof. by rewrite sorted_entries_perm, elem_of_map_to_list. Qed.

#[export] Instance string_leb_total {A} : Total (@key_le A).
Proof.
  intros p q. unfold key_le. destruct (String.leb_total p.1 q.1) as [-> | ->]; [by left|by right].
Qed.

(** ** The scanner yields valid UTF-8

    Whatever the input bytes, every string of a parsed value is valid UTF-8. *)
Fixpoint json_valid (j : json) : bool :=
  match j with
  | JStr s => valid_string s
  | JArr l => forallb json_valid l
  | JObj m => forallb (λ kv, valid_string kv.1 && json_valid kv.2) m
  | _ => true
  end.

Lemma hex_val_range c v : hex_val c = Some v → 0 ≤ v < 16.
Proof. unfold hex_val. intros H. repeat case_match; simplify_eq; byte_tests; lia. Qed.

Lemma hex4_range s r s1 : hex4 s = Some (r, s1) → 0 ≤ r < 65536.
Proof.
  unfold hex4. intros H. split_bind H.
  repeat match goal with H : hex_val _ = Some _ |- _ => apply hex_val_range in H end. lia.
Qed.

Lemma unicode_escape_scalar s r s1 : unicode_escape s = Some (r, s1) → scalar r.
Proof.
  unfold unicode_escape. intros H. split_bind H; try apply scalar_RuneError.
  all: repeat match goal with H : hex4 _ = Some _ |- _ => apply hex4_range in H end.
  all: unfold scalar, utf16_pair, is_surrogate in *.
  - match goal with H : (if _ then _ else _) = Some _ |- _ =>
      destruct ((_ && _) : bool) eqn:E' in H; [|done]; injection H as <- end.
    byte_tests. lia.
  - match goal with H : _ && _ = false |- _ => apply andb_false_iff in H as [?|?] end;
      byte_tests; lia.
Qed.

Lemma unescape_ascii e x : unescape e = Some x → byte_val x < 0x80.
Proof.
  unfold unescape. intros H. repeat case_match; simplify_eq; try (by vm_compute).
  bool_props. repeat match goal with H : _ ∨ _ |- _ => destruct H; bool_props end;
    match goal with H : Ascii.eqb _ _ = true |- _ => apply Ascii.eqb_eq in H as -> end; by vm_compute.
Qed.

Lemma valid_cons_ascii x b : byte_val x < 0x80 → valid_utf8 b = true → valid_utf8 (x :: b) = true.
Proof.
  intros Hx Hb. change (x :: b) with ([x] ++ b). rewrite <-(encode_rune_ascii x Hx).
  apply valid_encode_rune_app; [|done]. pose proof (byte_val_range x). unfold scalar. lia.
Qed.

Lemma parse_str_valid n s b rest : parse_str n s = Some (b, rest) → valid_utf8 b = true.
Proof.
  revert s b rest. induction n as [|n IH]; intros s b rest H; [done|].
  destruct s as [|c s]; [done|]. cbn [parse_str] in H.
  pose proof (decode_rune_scalar (c :: s)) as Hsc.
  destruct (decode_rune (c :: s)) as [r0 k0]. cbn in Hsc.
  split_bind H; try done.
  - apply valid_encode_rune_app; [by eapply unicode_escape_scalar|by eapply IH].
  - apply valid_cons_ascii; [by eapply unescape_ascii|by eapply IH].
  - apply valid_encode_rune_app; [done|by eapply IH].
Qed.

Lemma parse_valid n :
  (∀ d s v rest, parse_value n d s = Some (v, rest) → json_valid v = true) ∧
  (∀ d s v rest, parse_items n d s = Some (v, rest) → forallb json_valid v = true) ∧
  (∀ d s v rest, parse_members n d s = Some (v, rest) →
     forallb (λ kv, valid_string kv.1 && json_valid kv.2) v = true).
Proof.
  induction n as [|n (IHv & IHi & IHm)]; [done|].
  split_and!; intros d s v rest H; cbn [parse_value parse_items parse_members] in H; split_bind H;
    repeat match goal with
    | H : parse_value _ _ _ = Some _ |- _ => apply IHv in H
    | H : parse_items _ _ _ = Some _ |- _ => apply IHi in H
    | H : parse_members _ _ _ = Some _ |- _ => apply IHm in H
    | H : parse_str _ _ = Some _ |- _ => apply parse_str_valid in H
    end; cbn; unfold valid_string; rewrite ?to_of_bytes, ?andb_true_r; try done.
  all: repeat match goal with H : _ = true |- _ => rewrite H; clear H end; done.
Qed.

Lemma unmarshal_valid s j : unmarshal s = Some j → json_valid j = true.
Proof.
  unfold unmarshal. intros H. split_bind H. by eapply parse_valid.
Qed.

Lemma decode_stream_valid s j : decode_stream s = StreamValue j → json_valid j = true.
Proof.
  unfold decode_stream. intros H. repeat case_match; simplify_eq. by eapply parse_valid.
Qed.
