(* ===== verification/Decimal.v ===== *)
(** * Decimal texts

    The digits [pretty] writes for a number ([strconv.Itoa], [%d]) and the value
    of a text of digits. *)

From S2P Require Import Prelude Json.
Local Open Scope Z_scope.

Definition digit_val (c : ascii) : Z := byte_val c - 48.

(** The value of a text of digits, after the digits that make [acc]. *)
Definition dec_value (acc : Z) (s : bytes) : Z := foldl (λ a c, a * 10 + digit_val c) acc s.

Definition all_digits (s : bytes) : Prop := Forall (λ c, is_digit c = true) s.

Definition digits_of (c : Z) : bytes := to_bytes (pretty (Z.to_N c)).
Definition zeros (n : nat) : bytes := replicate n "0"%char.

(** ** Lemmas *)

Lemma digit_char (d : N) : (d < 10)%N →
  is_digit (pretty_N_char d) = true ∧ byte_val (pretty_N_char d) - 48 = Z.of_N d.
Proof.
  intros Hd. destruct d as [|p]; [done|]. do 4 (destruct p as [p|p|]; try done; try lia).
Qed.

Lemma digit_val_range c : is_digit c = true → 0 ≤ digit_val c ≤ 9.
Proof. unfold is_digit, digit_val. intros H. bool_props. lia. Qed.

Lemma dec_value_app acc s t : dec_value acc (s ++ t) = dec_value (dec_value acc s) t.
Proof. apply foldl_app. Qed.

Lemma dec_value_nonneg acc s : 0 ≤ acc → all_digits s → acc ≤ dec_value acc s.
Proof.
  intros Ha Hs. revert acc Ha. induction Hs as [|c s Hc _ IH]; intros acc Ha; [done|].
  cbn. pose proof (digit_val_range c Hc). specialize (IH (acc * 10 + digit_val c)). unfold dec_value in *. lia.
Qed.

Lemma dec_value_zeros acc n : dec_value acc (zeros n) = acc * 10 ^ Z.of_nat n.
Proof.
  revert acc. induction n as [|n IH]; intros acc; [cbn; lia|].
  change (dec_value acc (zeros (S n))) with (dec_value (acc * 10 + 0) (zeros n)).
  rewrite IH, Nat2Z.inj_succ, Z.pow_succ_r by lia. lia.
Qed.

Lemma all_digits_zeros n : all_digits (zeros n).
Proof. by apply Forall_replicate. Qed.

Lemma pretty_N_go_app (x : N) s : pretty_N_go x s = pretty_N_go x "" +:+ s.
Proof.
  revert s. induction (N.lt_wf_0 x) as [x _ IH]; intros s.
  destruct (decide (x = 0)%N) as [->|Hne]; [done|].
  rewrite (pretty_N_go_step x s), (pretty_N_go_step x "") by lia.
  assert (x `div` 10 < x)%N as Hlt by (apply N.div_lt; lia).
  rewrite (IH _ Hlt (String _ s)), (IH _ Hlt (String _ "")).
  apply (inj to_bytes). by rewrite !to_bytes_app, <-app_assoc.
Qed.

(** The digits of a number, the last one apart. *)
Lemma pretty_N_step (x : N) : (x ≠ 0)%N →
  to_bytes (pretty_N_go x "") = to_bytes (pretty_N_go (x `div` 10) "") ++ [pretty_N_char (x `mod` 10)].
Proof.
  intros Hx. rewrite pretty_N_go_step by lia. rewrite pretty_N_go_app, to_bytes_app. reflexivity.
Qed.

Lemma pretty_N_digits (x : N) :
  all_digits (to_bytes (pretty_N_go x "")) ∧ dec_value 0 (to_bytes (pretty_N_go x "")) = Z.of_N x.
Proof.
  induction (N.lt_wf_0 x) as [x _ IH]. destruct (decide (x = 0)%N) as [->|Hne]; [by split; [constructor|]|].
  destruct (digit_char (x `mod` 10)) as [H1 H2]; [apply N.mod_lt; lia|].
  destruct (IH (x `div` 10)%N) as [H3 H4]; [apply N.div_lt; lia|].
  rewrite pretty_N_step by done. split; [apply Forall_app_2; [done|by repeat constructor]|].
  rewrite dec_value_app, H4. cbn. unfold digit_val. rewrite H2.
  rewrite N2Z.inj_div, N2Z.inj_mod. change (Z.of_N 10) with 10. divlia.
Qed.

Lemma digits_of_all c : all_digits (digits_of c).
Proof.
  unfold digits_of, pretty, pretty_N. case_decide; [by repeat constructor|apply pretty_N_digits].
Qed.

Lemma digits_of_value c : 0 ≤ c → dec_value 0 (digits_of c) = c.
Proof.
  intros Hc. unfold digits_of, pretty, pretty_N. case_decide as Hz; [change (0 = c); lia|].
  destruct (pretty_N_digits (Z.to_N c)) as [_ ->]. lia.
Qed.

Lemma digits_of_cons c : ∃ d r, digits_of c = d :: r ∧ is_digit d = true.
Proof.
  pose proof (digits_of_all c) as H. destruct (digits_of c) as [|d r] eqn:E.
  - exfalso. unfold digits_of, pretty, pretty_N in E. case_decide as Hz; [done|].
    pose proof (pretty_N_step (Z.to_N c) Hz) as E2. rewrite E in E2. symmetry in E2.
    by apply app_eq_nil in E2 as [_ ?].
  - exists d, r. by inversion H.
Qed.

(** Multiplying by a power of ten appends zeros. *)
Lemma digits_of_mul10 c n : 0 < c → digits_of (c * 10 ^ Z.of_nat n) = digits_of c ++ zeros n.
Proof.
  intros Hc. induction n as [|n IH].
  - change (10 ^ Z.of_nat 0) with 1. by rewrite Z.mul_1_r, app_nil_r.
  - unfold zeros. rewrite replicate_S_end. fold (zeros n). rewrite app_assoc, <-IH.
    rewrite Nat2Z.inj_succ, Z.pow_succ_r by lia.
    replace (c * (10 * 10 ^ Z.of_nat n)) with (c * 10 ^ Z.of_nat n * 10) by lia.
    assert (0 < c * 10 ^ Z.of_nat n) as Hk by (apply Z.mul_pos_pos; [done|apply Z.pow_pos_nonneg; lia]).
    generalize dependent (c * 10 ^ Z.of_nat n). intros k _ Hk.
    unfold digits_of, pretty, pretty_N. rewrite !decide_False by lia.
    rewrite pretty_N_step by lia. f_equal.
    + do 2 f_equal. rewrite Z2N.inj_mul by lia. change (Z.to_N 10) with 10%N. apply N.div_mul. lia.
    + rewrite Z2N.inj_mul by lia. change (Z.to_N 10) with 10%N. by rewrite N.Div0.mod_mul.
Qed.

(** A number has as many digits as its size allows. *)
Lemma pretty_N_length (x : N) : (x ≠ 0)%N → 10 ^ (Z.of_nat (length (to_bytes (pretty_N_go x ""))) - 1) ≤ Z.of_N x.
Proof.
  induction (N.lt_wf_0 x) as [x _ IH]. intros Hx.
  rewrite pretty_N_step, length_app, Nat2Z.inj_add, Z.add_simpl_r by done.
  destruct (decide (x `div` 10 = 0)%N) as [->|Hq]; [change (1 ≤ Z.of_N x); lia|].
  specialize (IH (x `div` 10)%N ltac:(apply N.div_lt; lia) Hq). rewrite N2Z.inj_div in IH.
  change (Z.of_N 10) with 10 in IH. set (k := Z.of_nat _) in *.
  destruct (decide (k ≤ 0)) as [Hk|Hk]; [replace k with 0 by lia; change (1 ≤ Z.of_N x); lia|].
  replace k with (Z.succ (k - 1)) by lia. rewrite Z.pow_succ_r by lia. divlia.
Qed.

Lemma digits_of_length c n : 0 < c → c < 10 ^ n → 0 ≤ n → Z.of_nat (length (digits_of c)) ≤ n.
Proof.
  intros Hc Hlt Hn. unfold digits_of, pretty, pretty_N. rewrite decide_False by lia.
  pose proof (pretty_N_length (Z.to_N c) ltac:(lia)) as H. rewrite Z2N.id in H by lia.
  set (k := Z.of_nat _) in *. destruct (decide (k ≤ n)) as [|Hgt]; [done|]. exfalso.
  assert (10 ^ n ≤ 10 ^ (k - 1)) by (apply Z.pow_le_mono_r; lia). lia.
Qed.
