(* ===== verification/Float.v ===== *)
(** * 64-bit floating point ([strconv] and [float64])

    The finite values as integers times powers of two, rounding to nearest even,
    the parser [strconv.ParseFloat], products and quotients, the truncation to
    [int64], and the shortest decimal text. *)

From S2P Require Import Prelude Json Decimal.
Local Open Scope Z_scope.

(** ** Values and rounding *)

(** A [float64]. [Fin neg m t] is [m * 2^t] units of [2^-1074], negated if [neg],
    with [0 <= m < 2^53] and [0 <= t <= 2045]. *)
Inductive f64 : Type :=
| Fin (neg : bool) (m t : Z)
| Inf (neg : bool)
| NaN.

#[export] Instance f64_eq_dec : EqDecision f64.
Proof. solve_decision. Defined.

(** The number of units in one. *)
Definition one : Z := 2 ^ 1074.
Definition max_t : Z := 2045.

(** The quotient rounded to the nearest integer, ties to even. *)
Definition round_half_even (n d : Z) : Z :=
  let q := n / d in
  match Z.compare (2 * (n mod d)) d with
  | Lt => q
  | Gt => q + 1
  | Eq => if Z.even q then q else q + 1
  end.

(** [2^e], and one for a negative [e]. *)
Definition pow2 (e : Z) : Z := 2 ^ Z.max 0 e.

(** The nearest value to [n / d], [0 <= n], [0 < d]. *)
Definition round64 (neg : bool) (n d : Z) : f64 :=
  let t := Z.max 0 (Z.log2 (n * one / d) - 52) in
  let m := round_half_even (n * pow2 (1074 - t)) (d * pow2 (t - 1074)) in
  let '(m, t) := if m =? 2 ^ 53 then (2 ^ 52, t + 1) else (m, t) in
  if max_t <? t then Inf neg else Fin neg m t.

(** The value of an integer. *)
Definition of_int (z : Z) : f64 := round64 (z <? 0) (Z.abs z) 1.

Definition fmul (x y : f64) : f64 :=
  match x, y with
  | NaN, _ | _, NaN => NaN
  | Inf s, Fin t m _ | Fin t m _, Inf s => if m =? 0 then NaN else Inf (xorb s t)
  | Inf s, Inf t => Inf (xorb s t)
  | Fin s m t, Fin s' m' t' => round64 (xorb s s') (m * m' * pow2 (t + t' - 2148)) (pow2 (2148 - (t + t')))
  end.

Definition fdiv (x y : f64) : f64 :=
  match x, y with
  | NaN, _ | _, NaN => NaN
  | Inf _, Inf _ => NaN
  | Inf s, Fin t _ _ => Inf (xorb s t)
  | Fin s _ _, Inf t => Fin (xorb s t) 0 0
  | Fin s m t, Fin s' m' t' =>
    if m' =? 0 then (if m =? 0 then NaN else Inf (xorb s s'))
    else round64 (xorb s s') (m * pow2 (t - t')) (m' * pow2 (t' - t))
  end.

(** The conversion [int64(x)]: truncation towards zero. The language leaves the
    result out of range to the implementation: [None]. *)
Definition to_int64 (x : f64) : option Z :=
  match x with
  | Fin s m t =>
    let q := m * 2 ^ t / one in
    let z := if s then - q else q in
    if (- 2 ^ 63 <=? z) && (z <? 2 ^ 63) then Some z else None
  | _ => None
  end.

(** ** [strconv.ParseFloat(s, 64)] *)

Inductive float_error : Type := FloatSyntax | FloatRange.

Definition lower (c : ascii) : ascii :=
  let x := byte_val c in if (65 <=? x) && (x <=? 90) then byte_of (x + 32) else c.
Definition digit (c : ascii) : option Z := if is_digit c then Some (byte_val c - 48) else None.

(** A digit of the mantissa in base ten or sixteen. *)
Definition mantissa_digit (hex : bool) (c : ascii) : option Z := if hex then hex_val c else digit c.

(** What the mantissa loop has read: the integer of the digits, the number of
    digits after the point, whether a point, a digit, an underscore was seen. *)
Record mantissa : Type := mkMantissa {
  mt_value : Z; mt_frac : Z; mt_dot : bool; mt_digits : bool; mt_underscore : bool;
}.
Fixpoint read_mantissa (hex : bool) (a : mantissa) (s : bytes) : mantissa * bytes :=
  match s with
  | [] => (a, [])
  | c :: r =>
    if decide (c = "_"%char) then
      read_mantissa hex (mkMantissa (mt_value a) (mt_frac a) (mt_dot a) (mt_digits a) true) r
    else if decide (c = "."%char) then
      if mt_dot a then (a, s)
      else read_mantissa hex (mkMantissa (mt_value a) (mt_frac a) true (mt_digits a) (mt_underscore a)) r
    else
      match mantissa_digit hex c with
      | Some d =>
        read_mantissa hex
          (mkMantissa (mt_value a * (if hex then 16 else 10) + d)
             (if mt_dot a then mt_frac a + 1 else mt_frac a) (mt_dot a) true (mt_underscore a)) r
      | None => (a, s)
      end
  end.

(** The digits of an exponent, saturated at ten thousand. *)
Fixpoint read_exponent (e : Z) (underscore : bool) (s : bytes) : Z * bool * bytes :=
  match s with
  | [] => (e, underscore, [])
  | c :: r =>
    if decide (c = "_"%char) then read_exponent e true r
    else match digit c with
         | Some d => read_exponent (if e <? 10000 then e * 10 + d else e) underscore r
         | None => (e, underscore, s)
         end
  end.

(** [underscoreOK]: underscores only between digits, or after a base prefix. *)
Inductive seen : Type := SawStart | SawDigit | SawUnderscore | SawOther.
Fixpoint underscores_ok (hex : bool) (saw : seen) (s : bytes) : bool :=
  match s with
  | [] => match saw with SawUnderscore => false | _ => true end
  | c :: r =>
    if is_digit c || (hex && bool_decide (is_Some (hex_val c))) then underscores_ok hex SawDigit r
    else if decide (c = "_"%char) then
      match saw with SawDigit => underscores_ok hex SawUnderscore r | _ => false end
    else match saw with SawUnderscore => false | _ => underscores_ok hex SawOther r end
  end.
Definition strip_sign (s : bytes) : bool * bytes :=
  match s with
  | c :: r => if decide (c = "-"%char) then (true, r) else if decide (c = "+"%char) then (false, r) else (false, s)
  | [] => (false, [])
  end.
Definition underscoreOK (s : bytes) : bool :=
  match (strip_sign s).2 with
  | c0 :: c :: r =>
    if decide (c0 = "0"%char ∧ lower c ∈ ["b"%char; "o"%char; "x"%char])
    then underscores_ok (bool_decide (lower c = "x"%char)) SawDigit r
    else underscores_ok false SawStart (c0 :: c :: r)
  | s => underscores_ok false SawStart s
  end.

(** The names of the special values, whatever the case. *)
Definition special (s : bytes) : option f64 :=
  let low := map lower s in
  if decide (low = to_bytes "nan") then Some NaN
  else
    let '(neg, body) := strip_sign low in
    if decide (body = to_bytes "inf" ∨ body = to_bytes "infinity") then Some (Inf neg) else None.

(** [m * base^(-frac) * b^e] rounded. *)
Definition scaled (neg hex : bool) (m frac e : Z) : f64 :=
  if hex then
    let x := e - 4 * frac in
    if 0 <=? x then round64 neg (m * 2 ^ x) 1 else round64 neg m (2 ^ (- x))
  else
    let x := e - frac in
    if 0 <=? x then round64 neg (m * 10 ^ x) 1 else round64 neg m (10 ^ (- x)).

(** The prefix of a hexadecimal mantissa, before at least one more character. *)
Definition strip_hex (body : bytes) : bool * bytes :=
  match body with
  | c0 :: c :: ((_ :: _) as r) =>
    if decide (c0 = "0"%char ∧ lower c = "x"%char) then (true, r) else (false, body)
  | _ => (false, body)
  end.

Definition ParseFloat (s : bytes) : f64 * option float_error :=
  let syntax := (Fin false 0 0, Some FloatSyntax) in
  match special s with
  | Some v => (v, None)
  | None =>
    let '(neg, body) := strip_sign s in
    let '(hex, body) := strip_hex body in
    let '(a, rest) := read_mantissa hex (mkMantissa 0 0 false false false) body in
    if negb (mt_digits a) then syntax
    else
      let finish e underscore rest :=
        if negb (bool_decide (rest = [])) then syntax
        else if underscore && negb (underscoreOK s) then syntax
        else
          match scaled neg hex (mt_value a) (mt_frac a) e with
          | Inf n => (Inf n, Some FloatRange)
          | v => (v, None)
          end in
      match rest with
      | c :: r =>
        if decide (lower c = if hex then "p"%char else "e"%char) then
          let '(eneg, r) := strip_sign r in
          match r with
          | d :: _ =>
            if is_digit d then
              let '(e, u, rest) := read_exponent 0 (mt_underscore a) r in
              finish (if eneg then - e else e) u rest
            else syntax
          | [] => syntax
          end
        else if hex then syntax else finish 0 (mt_underscore a) rest
      | [] => if hex then syntax else finish 0 (mt_underscore a) rest
      end
  end.

Example parse_30 : ParseFloat (to_bytes "30") = (Fin false (15 * 2 ^ 49) (1074 - 48), None).
Proof. vm_compute. reflexivity. Qed.
Example parse_tenth : ParseFloat (to_bytes "-0.1") = (Fin true 7205759403792794 (1074 - 56), None).
Proof. vm_compute. reflexivity. Qed.
Example parse_huge : ParseFloat (to_bytes "1e400") = (Inf false, Some FloatRange).
Proof. vm_compute. reflexivity. Qed.
Example parse_hex : ParseFloat (to_bytes "0x1p-2") = (Fin false (2 ^ 52) (1074 - 54), None).
Proof. vm_compute. reflexivity. Qed.
Example parse_min : ParseFloat (to_bytes "4.9e-324") = (Fin false 1 0, None).
Proof. vm_compute. reflexivity. Qed.
Example parse_bad : ParseFloat (to_bytes "1.2.3") = (Fin false 0 0, Some FloatSyntax).
Proof. vm_compute. reflexivity. Qed.

(** ** [strconv.FormatFloat] and JSON numbers *)

(** [c * 10^x] against the value of [m * 2^t] units: both multiplied by four and by
    the denominators of the two powers. *)
Definition pow10 (x : Z) : Z := 10 ^ Z.max 0 x.
Definition decimal4 (t c x : Z) : Z := 4 * (c * pow10 x * pow2 (1074 - t)).

(** Four times the bounds between which a decimal reads as [m * 2^t]: half the gap
    to the next and to the previous value, which is closer below a power of two. *)
Definition upper4 (m t : Z) : Z := (4 * m + 2) * pow2 (t - 1074).
Definition lower4 (m t : Z) : Z :=
  (4 * m - (if (m =? 2 ^ 52) && (0 <? t) then 1 else 2)) * pow2 (t - 1074).
Definition within (m t c x : Z) : bool :=
  let k := pow10 (- x) in
  if Z.even m then (lower4 m t * k <=? decimal4 t c x) && (decimal4 t c x <=? upper4 m t * k)
  else (lower4 m t * k <? decimal4 t c x) && (decimal4 t c x <? upper4 m t * k).

(** A decimal with last digit at [10^x] that reads as the value: the nearest of
    the two around it if both do. *)
Definition candidate (m t x : Z) : option Z :=
  let n := m * pow2 (t - 1074) * pow10 (- x) in
  let d := pow2 (1074 - t) * pow10 x in
  let lo := n / d in
  match within m t lo x, within m t (lo + 1) x with
  | true, true => Some (round_half_even n d)
  | true, false => Some lo
  | false, true => Some (lo + 1)
  | false, false => None
  end.

(** The shortest: the first position, from the top, that has one. *)
Fixpoint shortest_from (fuel : nat) (m t x : Z) : Z * Z :=
  match candidate m t x, fuel with
  | Some c, _ => (c, x)
  | None, S fuel => shortest_from fuel m t (x - 1)
  | None, O => (0, 0)
  end.
Definition top_position (m t : Z) : Z := (Z.log2 m + t - 1073) * 30103 / 100000 + 1.
Definition shortest (m t : Z) : Z * Z :=
  shortest_from (Z.to_nat (top_position m t + 1074)) m t (top_position m t).

Definition sign_text (neg : bool) : bytes := if neg then ["-"%char] else [].

(** The digits of [c * 10^x], format ['f']. *)
Definition plain_digits (c x : Z) : bytes :=
  if 0 <=? x then digits_of c ++ (if c =? 0 then [] else zeros (Z.to_nat x))
  else
    let k := Z.to_nat (- x) in
    let ds := digits_of c in
    let ds := zeros (S k - length ds) ++ ds in
    take (length ds - k) ds ++ "."%char :: drop (length ds - k) ds.

(** [strconv.FormatFloat(x, 'f', -1, 64)]. *)
Definition FormatFloat (x : f64) : bytes :=
  match x with
  | NaN => to_bytes "NaN"
  | Inf neg => (if neg then "-"%char else "+"%char) :: to_bytes "Inf"
  | Fin neg m t =>
    let '(c, x) := if m =? 0 then (0, 0) else shortest m t in
    sign_text neg ++ plain_digits c x
  end.

(** The exponent form ['e'] of a non-zero [c * 10^x], with the exponent as
    [encoding/json] leaves it: no leading zero. *)
Definition exponent_digits (c x : Z) : bytes :=
  let ds := digits_of c in
  let e := x + Z.of_nat (length ds) - 1 in
  take 1 ds ++ (if bool_decide (length ds = 1%nat) then [] else "."%char :: drop 1 ds) ++
  "e"%char :: (if e <? 0 then "-"%char else "+"%char) :: digits_of (Z.abs e).

(** [floatEncoder] of [encoding/json]: exponent form below [1e-6] and from [1e21]. *)
Definition units (x : f64) : Z := match x with Fin _ m t => m * 2 ^ t | _ => 0 end.
Definition float_json (x : f64) : option bytes :=
  match x with
  | Fin neg m t =>
    let u := m * 2 ^ t in
    if negb (u =? 0) && ((u <? units (round64 false 1 (10 ^ 6))) || (units (of_int (10 ^ 21)) <=? u)) then
      let '(c, x) := shortest m t in Some (sign_text neg ++ exponent_digits c x)
    else Some (FormatFloat x)
  | _ => None
  end.

(** A number literal decoded into [interface{}] and encoded again; [None] when it
    is out of range. *)
Definition float64_text (lit : bytes) : option bytes :=
  match ParseFloat lit with
  | (x, None) => float_json x
  | (_, Some _) => None
  end.

Example format_ints : map (λ z, of_bytes (FormatFloat (of_int z))) [0; 36; 2400; -7]
  = ["0"; "36"; "2400"; "-7"].
Proof. vm_compute. reflexivity. Qed.
Example format_fracs : map (λ s, of_bytes (FormatFloat (ParseFloat (to_bytes s)).1))
   ["-2.40"; "1.5"; "1125899906842624.25"; "0.000123"; "9007199254740993"]
  = ["-2.4"; "1.5"; "1125899906842624.2"; "0.000123"; "9007199254740992"].
Proof. vm_compute. reflexivity. Qed.
Example format_tenth : of_bytes (FormatFloat (fmul (ParseFloat (to_bytes "0.1")).1 (of_int 24))) = "2.4000000000000004".
Proof. vm_compute. reflexivity. Qed.
Example json_numbers : map (λ s, of_bytes <$> float64_text (to_bytes s)) ["1.0"; "12E20"; "0.00000012"; "1e999"; "-0"]
  = [Some "1"; Some "1.2e+21"; Some "1.2e-7"; None; Some "-0"].
Proof. vm_compute. reflexivity. Qed.

(** ** Lemmas: exact results *)

Lemma one_pos : 0 < one.
Proof. by apply Z.pow_pos_nonneg. Qed.
#[local] Hint Resolve one_pos : core.

Lemma pow2_pos t : 0 ≤ t → 0 < 2 ^ t.
Proof. intros. by apply Z.pow_pos_nonneg. Qed.

Lemma round_half_even_exact m d : 0 < d → round_half_even (m * d) d = m.
Proof.
  intros Hd. unfold round_half_even. rewrite Z.div_mul, Z.mod_mul by lia.
  destruct (Z.compare_spec (2 * 0) d); lia.
Qed.

Lemma round_half_even_scale n d k : 0 < k → 0 < d → round_half_even (n * k) (d * k) = round_half_even n d.
Proof.
  intros Hk Hd. unfold round_half_even. rewrite Z.div_mul_cancel_r, Zmult_mod_distr_r by lia.
  replace (2 * (n mod d * k)) with (2 * (n mod d) * k) by ring.
  by rewrite (Zmult_compare_compat_r _ d k) by lia.
Qed.

(** [pow2] splits a power of two between the two sides of a fraction. *)
Lemma pow2_split a b : 0 ≤ a → 0 ≤ b → ∃ k, 0 < k ∧ 2 ^ a = pow2 (a - b) * k ∧ 2 ^ b = pow2 (b - a) * k.
Proof.
  intros Ha Hb. exists (2 ^ Z.min a b). split; [apply pow2_pos; lia|].
  unfold pow2. rewrite <-!Z.pow_add_r by lia. split; f_equal; lia.
Qed.

Lemma round64_unfold neg n d : 0 < d →
  round64 neg n d =
    let t := Z.max 0 (Z.log2 (n * one / d) - 52) in
    let m := round_half_even (n * one) (d * 2 ^ t) in
    let '(m, t) := if m =? 2 ^ 53 then (2 ^ 52, t + 1) else (m, t) in
    if max_t <? t then Inf neg else Fin neg m t.
Proof.
  intros Hd. unfold round64. cbv zeta. set (t := Z.max 0 _).
  destruct (pow2_split 1074 t) as (k & Hk & H1 & H2); [lia|lia|].
  assert (0 < pow2 (t - 1074)) by (apply Z.pow_pos_nonneg; lia).
  fold one in H1. rewrite H1, H2, !Z.mul_assoc, round_half_even_scale by (done || nia). done.
Qed.

Lemma round64_scale neg n d k : 0 < d → 0 < k → round64 neg (n * k) (d * k) = round64 neg n d.
Proof.
  intros Hd Hk. rewrite !round64_unfold by nia. cbv zeta.
  replace (n * k * one) with (n * one * k) by ring. rewrite Z.div_mul_cancel_r by lia.
  set (t := Z.max 0 _). replace (d * k * 2 ^ t) with (d * 2 ^ t * k) by ring.
  rewrite round_half_even_scale; [done|done|]. pose proof (pow2_pos t). nia.
Qed.

Lemma fmul_Fin s m t s' m' t' : 0 ≤ t → 0 ≤ t' →
  fmul (Fin s m t) (Fin s' m' t') = round64 (xorb s s') (m * 2 ^ t * (m' * 2 ^ t')) (one * one).
Proof.
  intros Ht Ht'. cbn [fmul]. destruct (pow2_split (t + t') 2148) as (k & Hk & H1 & H2); [lia|lia|].
  replace (m * 2 ^ t * (m' * 2 ^ t')) with (m * m' * 2 ^ (t + t')) by (rewrite Z.pow_add_r by lia; ring).
  change (one * one) with (2 ^ 2148). rewrite H1, H2, Z.mul_assoc.
  symmetry. apply round64_scale; [apply Z.pow_pos_nonneg; lia|done].
Qed.

(** [x] is exactly [n / d], and is in the form rounding produces. *)
Definition exactly (neg : bool) (n d : Z) (x : f64) : Prop :=
  ∃ m t, x = Fin neg m t ∧ 0 ≤ m < 2 ^ 53 ∧ 0 ≤ t ≤ max_t ∧ (t = 0 ∨ 2 ^ 52 ≤ m) ∧ m * 2 ^ t * d = n * one.

(** A fraction that is a value is not rounded. *)
Lemma round64_exactly neg n d m0 t0 :
  0 < d → 0 ≤ m0 < 2 ^ 53 → 0 ≤ t0 ≤ max_t → n * one = m0 * 2 ^ t0 * d → exactly neg n d (round64 neg n d).
Proof.
  intros Hd Hm Ht Hn. rewrite round64_unfold by done. cbv zeta. rewrite Hn, Z.div_mul by lia.
  set (t := Z.max 0 (Z.log2 (m0 * 2 ^ t0) - 52)).
  assert (0 ≤ t ≤ t0 ∧ m0 * 2 ^ (t0 - t) < 2 ^ 53 ∧ (t = 0 ∨ 2 ^ 52 ≤ m0 * 2 ^ (t0 - t))) as (Ht' & Hlt & Hge).
  { subst t. destruct (decide (m0 = 0)) as [->|Hz]; [rewrite !Z.mul_0_l; change (Z.log2 0) with 0; lia|].
    rewrite Z.log2_mul_pow2 by lia.
    destruct (Z.log2_spec m0) as [H1 H2]; [lia|]. pose proof (Z.log2_nonneg m0).
    assert (Z.log2 m0 < 53) by (apply Z.log2_lt_pow2; lia).
    set (L := Z.log2 m0) in *. split; [lia|].
    destruct (Z.max_spec 0 (t0 + L - 52)) as [[Hc ->]|[Hc ->]].
    - replace (t0 - (t0 + L - 52)) with (52 - L) by lia. split.
      + replace (2 ^ 53) with (2 ^ (Z.succ L) * 2 ^ (52 - L)) by (rewrite <-Z.pow_add_r by lia; f_equal; lia).
        apply Z.mul_lt_mono_pos_r; [apply pow2_pos; lia|lia].
      + right. replace (2 ^ 52) with (2 ^ L * 2 ^ (52 - L)) by (rewrite <-Z.pow_add_r by lia; f_equal; lia).
        apply Z.mul_le_mono_nonneg_r; [apply Z.pow_nonneg; lia|lia].
    - rewrite Z.sub_0_r. split; [|by left].
      apply Z.lt_le_trans with (2 ^ (Z.succ L) * 2 ^ t0).
      + apply Z.mul_lt_mono_pos_r; [apply pow2_pos; lia|lia].
      + rewrite <-Z.pow_add_r by lia. apply Z.pow_le_mono_r; lia. }
  replace (m0 * 2 ^ t0 * d) with (m0 * 2 ^ (t0 - t) * (d * 2 ^ t)).
  2: { replace t0 with (t0 - t + t) at 2 by lia. rewrite Z.pow_add_r by lia. ring. }
  rewrite round_half_even_exact by (pose proof (pow2_pos t); nia).
  assert (0 ≤ m0 * 2 ^ (t0 - t)) by (apply Z.mul_nonneg_nonneg; [lia|apply Z.pow_nonneg; lia]).
  rewrite (proj2 (Z.eqb_neq _ _)), (proj2 (Z.ltb_ge _ _)) by lia.
  exists (m0 * 2 ^ (t0 - t)), t. split_and!; try done || lia.
  rewrite Hn. rewrite <-(Z.mul_assoc m0), <-Z.pow_add_r by lia. do 3 f_equal. lia.
Qed.

Lemma of_int_exactly z : 0 ≤ z < 2 ^ 53 → exactly false z 1 (of_int z).
Proof.
  intros Hz. unfold of_int. rewrite (proj2 (Z.ltb_ge _ _)), Z.abs_eq by lia.
  apply (round64_exactly _ _ _ z 1074); [lia|lia|unfold max_t; lia|fold one; ring].
Qed.

(** An exact product. *)
Lemma fmul_exactly s s' a b x y m0 k :
  exactly s a 1 x → exactly s' b 1 y → 0 ≤ m0 < 2 ^ 53 → 0 ≤ k ≤ 971 → a * b = m0 * 2 ^ k →
  exactly (xorb s s') (a * b) 1 (fmul x y).
Proof.
  intros (m & t & -> & Hm & Ht & _ & Ha) (m' & t' & -> & Hm' & Ht' & _ & Hb) Hm0 Hk Hab.
  rewrite fmul_Fin by lia. rewrite Z.mul_1_r in Ha, Hb. rewrite Ha, Hb.
  replace (a * one * (b * one)) with (a * b * (one * one)) by ring.
  destruct (round64_exactly (xorb s s') (a * b * (one * one)) (one * one) m0 (k + 1074))
    as (m1 & t1 & -> & H1 & H2 & H3 & H4); [by apply Z.mul_pos_pos|done|unfold max_t; lia| |].
  { rewrite Hab, Z.pow_add_r by lia. fold one. ring. }
  exists m1, t1. split_and!; try done; try lia.
  apply (Z.mul_cancel_r _ _ (one * one)); [pose proof one_pos; nia|]. rewrite Z.mul_1_r, H4. ring.
Qed.

Lemma to_int64_exactly s n x :
  exactly s n 1 x → n < 2 ^ 63 → to_int64 x = Some (if s then - n else n).
Proof.
  intros (m & t & -> & Hm & Ht & _ & Hn) Hlt. unfold to_int64.
  rewrite Z.mul_1_r in Hn. rewrite Hn, Z.div_mul by (pose proof one_pos; lia).
  assert (0 ≤ n).
  { apply (Z.mul_le_mono_pos_r _ _ one); [done|]. rewrite <-Hn.
    apply Z.mul_nonneg_nonneg; [lia|apply Z.pow_nonneg; lia]. }
  cbv zeta. destruct s; by rewrite (proj2 (Z.leb_le _ _)), (proj2 (Z.ltb_lt _ _)) by lia.
Qed.

(** ** Lemmas: the text of an integer *)

Lemma pow10_pos x : 0 < pow10 x.
Proof. apply Z.pow_pos_nonneg; lia. Qed.

Lemma pow10_nonneg x : 0 ≤ x → pow10 x = 10 ^ x.
Proof. intros. unfold pow10. f_equal. lia. Qed.
Lemma pow10_neg x : 0 ≤ x → pow10 (- x) = 1.
Proof. intros. unfold pow10. by replace (Z.max 0 (- x)) with 0 by lia. Qed.

(** Below [2^53] the gap between values is at most one. *)
Lemma exactly_gap s v m t : exactly s v 1 (Fin s m t) → v < 2 ^ 53 → t ≤ 1074 ∧ m = v * pow2 (1074 - t).
Proof.
  intros (m' & t' & [= <- <-] & Hm & Ht & Hc & Hv) Hlt. pose proof one_pos.
  assert (t ≤ 1074) as Hle.
  { destruct (decide (t ≤ 1074)) as [|Hgt]; [done|]. exfalso.
    assert (2 ^ 52 * 2 ^ 1075 ≤ m * 2 ^ t) as H1.
    { apply Z.mul_le_mono_nonneg; try lia. apply Z.pow_le_mono_r; lia. }
    change (2 ^ 52 * 2 ^ 1075) with (2 ^ 53 * one) in H1. nia. }
  split; [done|]. pose proof (pow2_pos t). apply (Z.mul_cancel_r _ _ (2 ^ t)); [lia|].
  rewrite Z.mul_1_r in Hv. rewrite Hv, <-Z.mul_assoc. f_equal.
  unfold pow2, one. rewrite <-Z.pow_add_r by lia. f_equal. lia.
Qed.

Section Integers.
  Context (m t v : Z) (Ht : t ≤ 1074) (Hv : m = v * pow2 (1074 - t)).
  Local Abbreviation k := (pow2 (1074 - t)).

Lemma gap_pos : 0 < k.
Proof using. apply Z.pow_pos_nonneg; lia. Qed.
Lemma gap_up : pow2 (t - 1074) = 1.
Proof using Ht. unfold pow2. by replace (Z.max 0 (t - 1074)) with 0 by lia. Qed.

Lemma within_exact c x : 0 ≤ x → within m t c x = true → c * 10 ^ x = v.
Proof using Ht Hv.
  intros Hx Hw. pose proof gap_pos.
  unfold within, lower4, upper4, decimal4 in Hw.
  rewrite pow10_neg, pow10_nonneg, gap_up, !Z.mul_1_r in Hw by lia.
  set (w := c * 10 ^ x) in *.
  assert (4 * m - 2 ≤ 4 * (w * k) ≤ 4 * m + 2).
  { destruct (Z.even m), ((m =? 2 ^ 52) && (0 <? t)); bool_props; lia. }
  rewrite Hv in *. nia.
Qed.

Lemma candidate_exact x c : 0 ≤ x → candidate m t x = Some c → c * 10 ^ x = v.
Proof using Ht Hv.
  intros Hx Hc. unfold candidate in Hc. cbv zeta in Hc.
  destruct (within _ _ _ _) eqn:H1 in Hc; [|destruct (within _ _ (_ + 1) _) eqn:H2 in Hc; [|done]].
  - apply within_exact in H1; [|done].
    destruct (within _ _ (_ + 1) _) eqn:H2 in Hc; [|by injection Hc as <-].
    apply within_exact in H2; [|done].
    exfalso. rewrite Z.mul_add_distr_r in H2. pose proof (Z.pow_pos_nonneg 10 x). lia.
  - injection Hc as <-. by apply within_exact in H2.
Qed.

Lemma candidate_at_0 : candidate m t 0 ≠ None.
Proof using Ht Hv.
  pose proof gap_pos. unfold candidate. cbv zeta.
  change (pow10 0) with 1. change (pow10 (-0)) with 1. rewrite gap_up, !Z.mul_1_r.
  assert (m / k = v) as -> by (rewrite Hv; apply Z.div_mul; lia).
  assert (within m t v 0 = true) as ->; [|by destruct (within _ _ _ _)].
  unfold within, decimal4, lower4, upper4. change (pow10 0) with 1. change (pow10 (-0)) with 1.
  rewrite gap_up, !Z.mul_1_r, <-Hv.
  destruct (Z.even m); apply andb_true_iff; rewrite ?Z.leb_le, ?Z.ltb_lt; split_ifs; lia.
Qed.

Lemma shortest_from_exact fuel x :
  0 ≤ x → (Z.to_nat x ≤ fuel)%nat →
  let '(c, x') := shortest_from fuel m t x in 0 ≤ x' ∧ c * 10 ^ x' = v.
Proof using Ht Hv.
  revert x. induction fuel as [|fuel IH]; intros x Hx Hf; cbn [shortest_from].
  - destruct (candidate m t x) as [c|] eqn:Hc; [by split; [|apply candidate_exact]|].
    exfalso. replace x with 0 in Hc by lia. by apply candidate_at_0 in Hc.
  - destruct (candidate m t x) as [c|] eqn:Hc; [by split; [|apply candidate_exact]|].
    assert (x ≠ 0) by (intros ->; by apply candidate_at_0 in Hc). apply IH; lia.
Qed.
End Integers.

(** [FormatFloat] of an integer below [2^53] is its decimal. *)
Lemma FormatFloat_int v x : exactly false v 1 x → 0 ≤ v < 2 ^ 53 → FormatFloat x = digits_of v.
Proof.
  intros Hx Hv. pose proof Hx as (m & t & -> & Hm & Ht & _ & Heq).
  apply exactly_gap in Hx as [Hgap Hmv]; [|lia]. rewrite Z.mul_1_r in Heq. cbn [FormatFloat sign_text app].
  pose proof one_pos. pose proof (pow2_pos t). destruct (Z.eqb_spec m 0) as [->|Hz].
  { replace v with 0 by nia. done. }
  assert (0 < v) as Hpos by (apply (Z.mul_pos_cancel_r v one); nia).
  assert (0 ≤ top_position m t) as Htop.
  { assert (1074 ≤ Z.log2 (m * 2 ^ t)) as Hlog.
    { rewrite Heq. change 1074 with (Z.log2 one) at 1. apply Z.log2_le_mono. nia. }
    rewrite Z.log2_mul_pow2 in Hlog by lia. unfold top_position.
    assert (0 ≤ (Z.log2 m + t - 1073) * 30103 / 100000) by (apply Z.div_pos; lia). lia. }
  pose proof (shortest_from_exact m t v Hgap Hmv (Z.to_nat (top_position m t + 1074)) (top_position m t)) as H1.
  unfold shortest. destruct (shortest_from _ _ _ _) as [c y].
  destruct H1 as [Hy Hc]; try done; try lia.
  unfold plain_digits. rewrite (proj2 (Z.leb_le _ _)) by done.
  assert (0 < c) by (pose proof (Z.pow_pos_nonneg 10 y); nia).
  rewrite (proj2 (Z.eqb_neq c 0)) by lia.
  rewrite <-digits_of_mul10 by done. by rewrite Z2Nat.id, Hc by done.
Qed.

(** ** Lemmas: reading decimals *)

Definition plain_char (c : ascii) : bool :=
  negb (is_digit c) ||
  (negb (bool_decide (c = "_"%char)) && negb (bool_decide (c = "."%char)) &&
   negb (bool_decide (c = "-"%char)) && negb (bool_decide (c = "+"%char)) &&
   negb (bool_decide (lower c ∈ ["n"%char; "i"%char; "x"%char; "e"%char; "p"%char])) &&
   bool_decide (digit c = Some (digit_val c))).
Lemma plain_char_all c : plain_char c = true.
Proof. apply (byte_all plain_char). vm_compute. reflexivity. Qed.

(** What a digit is not, and its value. *)
Lemma digit_plain c : is_digit c = true →
  c ≠ "_"%char ∧ c ≠ "."%char ∧ c ≠ "-"%char ∧ c ≠ "+"%char ∧
  lower c ∉ ["n"%char; "i"%char; "x"%char; "e"%char; "p"%char] ∧ digit c = Some (digit_val c).
Proof.
  intros Hc. pose proof (plain_char_all c) as H. unfold plain_char in H. rewrite Hc in H.
  cbn [negb orb] in H. rewrite !andb_true_iff, !negb_true_iff in H.
  destruct H as [[[[[H1 H2] H3] H4] H5] H6]. by bool_props.
Qed.

Lemma read_mantissa_digits a ds rest : all_digits ds →
  read_mantissa false a (ds ++ rest) =
    read_mantissa false
      (mkMantissa (dec_value (mt_value a) ds)
         (if mt_dot a then mt_frac a + Z.of_nat (length ds) else mt_frac a) (mt_dot a)
         (mt_digits a || negb (bool_decide (ds = []))) (mt_underscore a)) rest.
Proof.
  intros Hds. revert a. induction Hds as [|c ds Hc _ IH]; intros [v f d g u].
  - cbn. rewrite orb_false_r, Z.add_0_r. by destruct d.
  - destruct (digit_plain c Hc) as (H1 & H2 & _ & _ & _ & H6).
    cbn [app read_mantissa]. rewrite !decide_False by done.
    cbn [mantissa_digit]. rewrite H6, IH. cbn -[Z.of_nat]. f_equal. f_equal.
    + destruct d; lia.
    + by rewrite orb_true_r.
Qed.

Lemma special_digit neg c s : is_digit c = true → special (sign_text neg ++ c :: s) = None.
Proof.
  intros Hc. destruct (digit_plain c Hc) as (_ & _ & H3 & H4 & H5 & _).
  assert (lower c = c) as Hl.
  { unfold lower, is_digit in *. bool_props. by rewrite (proj2 (Z.leb_gt _ _)) by lia. }
  rewrite Hl in H5. unfold special. rewrite decide_False.
  2: { destruct neg; [done|]. cbn [sign_text app map]. rewrite Hl. intros [= -> _]; set_solver. }
  assert (strip_sign (map lower (sign_text neg ++ c :: s)) = (neg, map lower (c :: s))) as ->.
  { destruct neg; [done|]. cbn [sign_text app map strip_sign]. by rewrite Hl, !decide_False. }
  cbn [map]. rewrite Hl, decide_False; [done|]. intros [[= -> _]|[= -> _]]; set_solver.
Qed.

(** The text of a decimal: digits, maybe a point and digits, maybe an exponent. *)
Definition decimal_text (ds : bytes) (fs : option bytes) : bytes :=
  ds ++ match fs with Some fs => "."%char :: fs | None => [] end.
Definition fraction (fs : option bytes) : bytes := default [] fs.
Definition exp_text (oe : option (bool * bytes)) : bytes :=
  match oe with
  | None => []
  | Some (eneg, es) => "e"%char :: (if eneg then "-"%char else "+"%char) :: es
  end.
Definition exp_value (oe : option (bool * bytes)) : Z :=
  match oe with
  | None => 0
  | Some (eneg, es) => if eneg : bool then - dec_value 0 es else dec_value 0 es
  end.
Definition exp_ok (oe : option (bool * bytes)) : Prop :=
  match oe with
  | None => True
  | Some (_, es) => all_digits es ∧ es ≠ [] ∧ dec_value 0 es < 10000
  end.

Lemma strip_hex_decimal ds fs oe :
  all_digits ds → ds ≠ [] →
  strip_hex (decimal_text ds fs ++ exp_text oe) = (false, decimal_text ds fs ++ exp_text oe).
Proof.
  intros Hds Hne. destruct ds as [|c ds]; [done|]. inversion Hds as [|?? _ Hd]; subst.
  unfold strip_hex. cbn [decimal_text app].
  destruct ((ds ++ match fs with Some fs => "."%char :: fs | None => [] end) ++ exp_text oe) as [|c1 [|c2 r]] eqn:E;
    [done..|].
  rewrite decide_False; [done|]. intros [_ Hx]. destruct ds as [|d ds].
  - destruct fs; [by injection E as <- _|]. destruct oe as [[]|]; [by injection E as <- _|done].
  - injection E as <- _. inversion Hd as [|?? Hd' _]; subst.
    destruct (digit_plain d Hd') as (_ & _ & _ & _ & H & _). rewrite Hx in H. set_solver.
Qed.

Lemma read_mantissa_decimal ds fs oe :
  all_digits ds → ds ≠ [] → all_digits (fraction fs) →
  ∃ dot, read_mantissa false (mkMantissa 0 0 false false false) (decimal_text ds fs ++ exp_text oe) =
    (mkMantissa (dec_value 0 (ds ++ fraction fs)) (Z.of_nat (length (fraction fs))) dot true false, exp_text oe).
Proof.
  intros Hds Hne Hfs. assert (∀ a, read_mantissa false a (exp_text oe) = (a, exp_text oe)) as Hstop.
  { intros a. by destruct oe as [[]|]. }
  unfold decimal_text. rewrite <-app_assoc, read_mantissa_digits by done.
  cbn [mt_value mt_frac mt_dot mt_digits mt_underscore]. rewrite bool_decide_eq_false_2 by done.
  destruct fs as [fs|]; cbn [fraction default from_option] in *.
  - cbn [app read_mantissa]. rewrite decide_False by done. rewrite decide_True by done.
    cbn [mt_value mt_frac mt_dot mt_digits mt_underscore].
    rewrite read_mantissa_digits, Hstop by done. cbn [mt_value mt_frac mt_dot mt_digits mt_underscore].
    rewrite <-dec_value_app. by eexists.
  - cbn [app]. rewrite Hstop, app_nil_r. by eexists.
Qed.

Lemma read_exponent_digits e u es :
  all_digits es → 0 ≤ e → dec_value e es < 10000 → read_exponent e u es = (dec_value e es, u, []).
Proof.
  intros Hes. revert e. induction Hes as [|d es Hd Hes IH]; intros e He Hlt; [done|].
  destruct (digit_plain d Hd) as (H1 & _ & _ & _ & _ & H6). pose proof (digit_val_range d Hd).
  change (dec_value e (d :: es)) with (dec_value (e * 10 + digit_val d) es) in *.
  pose proof (dec_value_nonneg (e * 10 + digit_val d) es ltac:(lia) Hes).
  cbn [read_exponent]. rewrite decide_False, H6 by done.
  rewrite (proj2 (Z.ltb_lt _ _)) by lia. apply IH; lia.
Qed.

(** What [ParseFloat] reads in such a text, with a sign or not. *)
Lemma ParseFloat_text neg ds fs oe :
  all_digits ds → ds ≠ [] → all_digits (fraction fs) → exp_ok oe →
  ParseFloat (sign_text neg ++ decimal_text ds fs ++ exp_text oe) =
    match scaled neg false (dec_value 0 (ds ++ fraction fs)) (Z.of_nat (length (fraction fs))) (exp_value oe) with
    | Inf n => (Inf n, Some FloatRange)
    | v => (v, None)
    end.
Proof.
  intros Hds Hne Hfs Hoe.
  assert (∃ c r, decimal_text ds fs ++ exp_text oe = c :: r ∧ is_digit c = true) as (c & r & E & Hc).
  { destruct ds as [|c ds']; [done|]. inversion Hds. by eexists _, _. }
  destruct (digit_plain c Hc) as (_ & _ & H3 & H4 & _ & _).
  unfold ParseFloat. rewrite E, special_digit by done.
  assert (strip_sign (sign_text neg ++ c :: r) = (neg, c :: r)) as ->.
  { destruct neg; [done|]. cbn [sign_text app strip_sign]. by rewrite !decide_False. }
  rewrite <-E, strip_hex_decimal by done.
  destruct (read_mantissa_decimal ds fs oe) as [dot ->]; [done..|].
  cbn [mt_digits mt_underscore mt_value mt_frac negb]. destruct oe as [[eneg es]|]; cbn [exp_text]; [|done].
  destruct Hoe as (Hes & Hes0 & Hlt). rewrite decide_True by done.
  assert (strip_sign ((if eneg then "-"%char else "+"%char) :: es) = (eneg, es)) as -> by by destruct eneg.
  destruct es as [|d es]; [done|]. assert (is_digit d = true) as -> by by inversion Hes.
  by rewrite read_exponent_digits.
Qed.

Lemma ParseFloat_decimal ds fs :
  all_digits ds → ds ≠ [] → all_digits (fraction fs) →
  ParseFloat (decimal_text ds fs) =
    match round64 false (dec_value 0 (ds ++ fraction fs)) (10 ^ Z.of_nat (length (fraction fs))) with
    | Inf n => (Inf n, Some FloatRange)
    | v => (v, None)
    end.
Proof.
  intros Hds Hne Hfs. pose proof (ParseFloat_text false ds fs None Hds Hne Hfs I) as H.
  cbn [sign_text app exp_text exp_value] in H. rewrite app_nil_r in H. rewrite H.
  unfold scaled. rewrite Z.sub_0_l, Z.opp_involutive.
  destruct (fraction fs) as [|f l]; [by rewrite Z.mul_1_r|]. by rewrite (proj2 (Z.leb_gt _ _)) by (cbn [length]; lia).
Qed.

(** An integer below [2^53] is read exactly. *)
Lemma ParseFloat_int ds :
  all_digits ds → ds ≠ [] → dec_value 0 ds < 2 ^ 53 →
  ∃ x, ParseFloat ds = (x, None) ∧ exactly false (dec_value 0 ds) 1 x.
Proof.
  intros Hds Hne Hlt. pose proof (dec_value_nonneg 0 ds ltac:(done) Hds).
  pose proof (ParseFloat_decimal ds None Hds Hne (Forall_nil_2 _)) as H1.
  unfold decimal_text in H1. cbn [fraction default from_option length] in H1. rewrite !app_nil_r in H1.
  destruct (of_int_exactly (dec_value 0 ds)) as (m & t & E & Hx); [lia|].
  unfold of_int in E. rewrite (proj2 (Z.ltb_ge _ _)), Z.abs_eq in E by lia.
  change (10 ^ Z.of_nat 0) with 1 in H1. rewrite E in H1. exists (Fin false m t). split; [done|].
  by exists m, t.
Qed.

Lemma ParseFloat_digits_of n : 0 ≤ n < 2 ^ 53 → ∃ x, ParseFloat (digits_of n) = (x, None) ∧ exactly false n 1 x.
Proof.
  intros Hn. pose proof (digits_of_value n ltac:(lia)) as Hv.
  destruct (ParseFloat_int (digits_of n)) as (x & Hp & Hx);
    [apply digits_of_all|by destruct (digits_of_cons n) as (? & ? & -> & _)|lia|].
  rewrite Hv in Hx. by exists x.
Qed.

(** The decimal of an integer below [2^53] is read as that integer. *)
Lemma ParseFloat_of_int n : 0 ≤ n < 2 ^ 53 → ParseFloat (digits_of n) = (of_int n, None).
Proof.
  intros Hn. pose proof (ParseFloat_decimal (digits_of n) None (digits_of_all n)) as H.
  unfold decimal_text in H. cbn [fraction default from_option length] in H. rewrite !app_nil_r in H.
  rewrite H; [|by destruct (digits_of_cons n) as (? & ? & -> & _)|constructor].
  rewrite digits_of_value by lia. change (10 ^ Z.of_nat 0) with 1.
  destruct (of_int_exactly n Hn) as (m & t & E & _). rewrite E. unfold of_int in E.
  rewrite (proj2 (Z.ltb_ge _ _)), Z.abs_eq in E by lia. by rewrite E.
Qed.
