(* ===== verification/FloatText.v ===== *)
(** * The text of a number denotes it

    The shortest decimal, in plain or in exponent form, reads back as the same
    [float64]. *)

From S2P Require Import Prelude Json Decimal Float.
Local Open Scope Z_scope.

(** A value in the form rounding produces. *)
Definition canonical (m t : Z) : Prop := 0 ≤ m < 2 ^ 53 ∧ 0 ≤ t ≤ max_t ∧ (t = 0 ∨ 2 ^ 52 ≤ m).

(** ** Rounding to the nearest *)

(** A fraction at most half a unit from [m], less if [m] is odd, rounds to [m]. *)
Lemma round_half_even_near n d m :
  0 < d → (2 * m - 1) * d ≤ 2 * n ≤ (2 * m + 1) * d →
  (Z.even m = false → (2 * m - 1) * d < 2 * n < (2 * m + 1) * d) →
  round_half_even n d = m.
Proof.
  intros Hd Hn Hodd. unfold round_half_even.
  pose proof (Z.div_mod n d ltac:(lia)) as Hdiv. pose proof (Z.mod_pos_bound n d Hd) as Hmod.
  set (q := n / d) in *. set (r := n mod d) in *. clearbody q r. subst n.
  assert (q = m ∨ q = m - 1) as [-> | ->] by nia.
  - destruct (Z.compare_spec (2 * r) d) as [He|He|He]; [|done|].
    + destruct (Z.even m) eqn:Hev; [done|]. specialize (Hodd eq_refl). nia.
    + nia.
  - destruct (Z.compare_spec (2 * r) d) as [He|He|He]; [|nia|lia].
    destruct (Z.even (m - 1)) eqn:Hev; [|lia]. exfalso.
    rewrite Z.even_sub in Hev. change (Z.even 1) with false in Hev.
    destruct (Z.even m); [done|]. specialize (Hodd eq_refl). nia.
Qed.

(** The exponent rounding chooses. *)
Lemma last_bit_at q t : 0 ≤ t → (t = 0 ∨ 2 ^ (52 + t) ≤ q) → q < 2 ^ (53 + t) → Z.max 0 (Z.log2 q - 52) = t.
Proof.
  intros Ht Hge Hlt. destruct (decide (2 ^ (52 + t) ≤ q)) as [Hq|Hq].
  - assert (Z.log2 q = 52 + t) as ->; [|lia].
    apply Z.log2_unique; [lia|]. by replace (Z.succ (52 + t)) with (53 + t) by lia.
  - destruct Hge as [->|]; [|done]. destruct (decide (q ≤ 0)) as [Hz|Hz].
    + rewrite Z.log2_nonpos by done. lia.
    + assert (Z.log2 q < 52); [apply Z.log2_lt_pow2; [lia|]; replace 52 with (52 + 0) by lia; lia|lia].
Qed.

Section Nearest.
  Context (m t n d : Z) (Hd : 0 < d) (Hc : canonical m t) (Hm : m ≠ 0).
  Local Abbreviation gap := (if (m =? 2 ^ 52) && (0 <? t) then 1 else 2).
  (** [n / d], in units, is between the bounds of [m * 2^t]. *)
  Context (Hlo : (4 * m - gap) * (d * 2 ^ t) ≤ 4 * (n * one)) (Hhi : 4 * (n * one) ≤ (4 * m + 2) * (d * 2 ^ t)).
  Context (Hodd : Z.even m = false → (4 * m - gap) * (d * 2 ^ t) < 4 * (n * one) < (4 * m + 2) * (d * 2 ^ t)).

(** Above the binade's bound the exponent is [t]. *)
Lemma nearest_inside neg : (t = 0 ∨ 2 ^ 52 * (d * 2 ^ t) ≤ n * one) → round64 neg n d = Fin neg m t.
Proof.
  intros Hin. destruct Hc as (Hm1 & Ht & Hnorm). pose proof (pow2_pos t ltac:(lia)) as Hp.
  assert (0 < d * 2 ^ t) as HD by nia. rewrite round64_unfold by done. cbv zeta.
  rewrite (last_bit_at _ t); [|lia| |].
  - rewrite (round_half_even_near _ _ m); [|done| |].
    + rewrite (proj2 (Z.eqb_neq _ _)) by lia. by rewrite (proj2 (Z.ltb_ge _ _)) by lia.
    + destruct (_ && _) in Hlo; lia.
    + intros He. specialize (Hodd He). destruct (_ && _) in Hodd; lia.
  - destruct Hin as [?|Hin]; [by left|right]. rewrite Z.pow_add_r by lia.
    apply Z.div_le_lower_bound; lia.
  - rewrite Z.pow_add_r by lia. apply Z.div_lt_upper_bound; [done|].
    assert ((4 * m + 2) * (d * 2 ^ t) < 4 * 2 ^ 53 * (d * 2 ^ t)) by (apply Z.mul_lt_mono_pos_r; lia). lia.
Qed.

(** Below it the value is the smallest of the binade. *)
Lemma nearest_below neg : 0 < t → n * one < 2 ^ 52 * (d * 2 ^ t) → round64 neg n d = Fin neg m t.
Proof.
  intros Ht0 Hbelow. destruct Hc as (Hm1 & Ht & Hnorm). pose proof (pow2_pos (t - 1) ltac:(lia)) as Hp.
  assert (2 ^ t = 2 * 2 ^ (t - 1)) as E by (rewrite <-Z.pow_succ_r by lia; f_equal; lia).
  assert (0 < d * 2 ^ (t - 1)) as HD by nia. rewrite E in *.
  set (u := 2 ^ (t - 1)) in *. set (w := d * u) in *.
  replace (d * (2 * u)) with (2 * w) in * by (subst w; ring).
  assert (m = 2 ^ 52) as Hm52.
  { destruct (decide (m = 2 ^ 52)) as [|Hne]; [done|]. exfalso.
    assert (2 ^ 52 + 1 ≤ m) by lia. destruct (_ && _) in Hlo; nia. }
  rewrite (proj2 (Z.eqb_eq m (2 ^ 52)) Hm52), (proj2 (Z.ltb_lt 0 t)) in Hlo by lia. cbn [andb] in Hlo. rewrite Hm52 in Hlo.
  rewrite round64_unfold by done. cbv zeta. rewrite (last_bit_at _ (t - 1)); [|lia| |].
  - fold u w. rewrite (round_half_even_near _ _ (2 ^ 53)); [|done|lia|done]. rewrite Z.eqb_refl, Z.sub_add.
    rewrite (proj2 (Z.ltb_ge _ _)) by lia. by rewrite Hm52.
  - right. rewrite Z.pow_add_r by lia. fold u. apply Z.div_le_lower_bound; [done|]. subst w. lia.
  - rewrite Z.pow_add_r by lia. fold u. apply Z.div_lt_upper_bound; [done|]. subst w. lia.
Qed.

Lemma round64_nearest neg : round64 neg n d = Fin neg m t.
Proof.
  destruct (decide (t = 0 ∨ 2 ^ 52 * (d * 2 ^ t) ≤ n * one)) as [H|H]; [by apply nearest_inside|].
  apply nearest_below; destruct Hc as (_ & ? & _); lia.
Qed.
End Nearest.

(** What rounding produces is canonical. *)
Lemma round64_canonical neg n d s m t : 0 ≤ n → 0 < d → round64 neg n d = Fin s m t → s = neg ∧ canonical m t.
Proof.
  intros Hn Hd. rewrite round64_unfold by done. cbv zeta.
  set (q := n * one / d). set (k := Z.max 0 (Z.log2 q - 52)).
  assert (0 ≤ k) as Hk by lia. pose proof (pow2_pos k Hk) as Hp. pose proof one_pos.
  assert (0 < d * 2 ^ k) as HD by nia.
  assert (0 ≤ q) as Hq by (apply Z.div_pos; nia).
  assert (n * one < 2 ^ 53 * (d * 2 ^ k)) as Hup.
  { assert (q < 2 ^ 53 * 2 ^ k) as Hqk.
    { destruct (decide (q = 0)) as [->|Hz]; [nia|]. rewrite <-Z.pow_add_r by lia.
      apply Z.lt_le_trans with (2 ^ Z.succ (Z.log2 q)); [apply Z.log2_spec; lia|apply Z.pow_le_mono_r; lia]. }
    pose proof (Z.mul_succ_div_gt (n * one) d Hd). fold q in H0. nia. }
  assert (0 ≤ round_half_even (n * one) (d * 2 ^ k) ≤ 2 ^ 53 ∧
          (k = 0 ∨ 2 ^ 52 ≤ round_half_even (n * one) (d * 2 ^ k))) as [Hm Hnorm].
  { assert (n * one / (d * 2 ^ k) < 2 ^ 53) by (apply Z.div_lt_upper_bound; lia).
    assert (0 ≤ n * one / (d * 2 ^ k)) by (apply Z.div_pos; nia).
    assert (k = 0 ∨ 2 ^ 52 ≤ n * one / (d * 2 ^ k)) as Hge.
    { destruct (decide (k = 0)) as [|Hk0]; [by left|right]. apply Z.div_le_lower_bound; [done|].
      assert (2 ^ 52 * 2 ^ k ≤ q) as Hqk.
      { rewrite <-Z.pow_add_r by lia. replace (52 + k) with (Z.log2 q) by lia. apply Z.log2_spec.
        assert (q ≠ 0) by (intros E; subst k; rewrite E in *; cbn in *; lia). lia. }
      pose proof (Z.mul_div_le (n * one) d Hd). fold q in H2. nia. }
    unfold round_half_even. repeat case_match; lia. }
  destruct (Z.eqb_spec (round_half_even (n * one) (d * 2 ^ k)) (2 ^ 53)) as [Heq|Hne];
    destruct (max_t <? _) eqn:Hmax; try done; intros [= <- <- <-]; bool_props;
    (split; [done|]; unfold canonical; lia).
Qed.

(** ** The shortest decimal *)

Lemma mul3_le a b d A B C : 0 ≤ a ≤ A → 0 ≤ b ≤ B → 0 ≤ d ≤ C → a * b * d ≤ A * B * C.
Proof. intros. apply Z.mul_le_mono_nonneg; [nia| |lia|lia]. apply Z.mul_le_mono_nonneg; lia. Qed.

Lemma scaled_up c a b : 0 ≤ c → 0 < a → 0 < b → c ≤ 4 * (c * a * b).
Proof. intros. assert (1 ≤ a * b) by nia. rewrite <-Z.mul_assoc. nia. Qed.

Section Shortest.
  Context (m t : Z) (Hc : canonical m t) (Hm : m ≠ 0).

(** A decimal within the bounds reads as the value. *)
Lemma within_reads neg c x : within m t c x = true → round64 neg (c * pow10 x) (pow10 (- x)) = Fin neg m t.
Proof.
  intros Hw. pose proof (pow10_pos (- x)) as Hd.
  destruct (pow2_split 1074 t) as (k & Hk & H1 & H2); [lia|destruct Hc; lia|]. fold one in H1.
  assert (∀ a, a * pow2 (t - 1074) * pow10 (- x) * k = a * (pow10 (- x) * 2 ^ t)) as Ea by (intros a; rewrite H2; ring).
  assert (decimal4 t c x * k = 4 * (c * pow10 x * one)) as Ed by (unfold decimal4; rewrite H1; ring).
  unfold within, lower4, upper4 in Hw.
  apply round64_nearest; try done.
  - rewrite <-Ea, <-Ed. apply Z.mul_le_mono_pos_r; [done|]. destruct (Z.even m); bool_props; lia.
  - rewrite <-Ea, <-Ed. apply Z.mul_le_mono_pos_r; [done|]. destruct (Z.even m); bool_props; lia.
  - intros He. rewrite He in Hw. rewrite <-!Ea, <-Ed, <-!Z.mul_lt_mono_pos_r by done. by bool_props.
Qed.

Lemma within_pos c x : within m t c x = true → 0 < c.
Proof.
  intros Hw. apply (within_reads false) in Hw. destruct (decide (0 < c)) as [|Hle]; [done|]. exfalso.
  pose proof (pow10_pos x). pose proof (pow10_pos (- x)) as Hd. destruct Hc as (Hm1 & Ht & _). pose proof one_pos.
  revert Hw. rewrite round64_unfold by done. cbv zeta.
  assert (c * pow10 x * one / pow10 (- x) ≤ 0) as Hq by (apply Z.div_le_upper_bound; nia).
  rewrite Z.log2_nonpos by done. change (Z.max 0 (0 - 52)) with 0. change (2 ^ 0) with 1. rewrite Z.mul_1_r.
  assert (round_half_even (c * pow10 x * one) (pow10 (- x)) ≤ 0) as Hr.
  { unfold round_half_even. pose proof (Z.mod_pos_bound (c * pow10 x * one) _ Hd).
    pose proof (Z.div_mod (c * pow10 x * one) (pow10 (- x)) ltac:(lia)) as Hdiv.
    set (q := c * pow10 x * one / pow10 (- x)) in *. set (r := (c * pow10 x * one) mod pow10 (- x)) in *.
    assert (q = 0 → r = 0) by nia.
    destruct (Z.compare_spec (2 * r) (pow10 (- x))); [|lia|]; (destruct (decide (q = 0)) as [E|]; [|destruct (Z.even q); lia]); lia. }
  rewrite (proj2 (Z.eqb_neq _ _)) by lia. cbn [max_t Z.ltb Z.compare]. intros [= E _]. lia.
Qed.

Lemma within_bound c x : - 1074 ≤ x → within m t c x = true → c < 10 ^ 1500.
Proof.
  intros Hx Hw. pose proof (within_pos c x Hw) as Hpos. destruct Hc as (Hm1 & Ht & _). unfold max_t in Ht.
  assert (decimal4 t c x ≤ upper4 m t * pow10 (- x)) as H.
  { unfold within in Hw. destruct (Z.even m); bool_props; lia. }
  unfold decimal4, upper4 in H. apply Z.le_lt_trans with (2 ^ 56 * 2 ^ 971 * 10 ^ 1074); [|by vm_compute].
  pose proof (scaled_up c (pow10 x) (pow2 (1074 - t)) ltac:(lia) (pow10_pos x) ltac:(by apply Z.pow_pos_nonneg; lia)).
  assert ((4 * m + 2) * pow2 (t - 1074) * pow10 (- x) ≤ 2 ^ 56 * 2 ^ 971 * 10 ^ 1074) as Hup; [|lia].
  apply mul3_le; [lia|split; [apply Z.pow_nonneg; lia|apply Z.pow_le_mono_r; lia]|].
  split; [apply Z.pow_nonneg; lia|apply Z.pow_le_mono_r; lia].
Qed.

Lemma candidate_within x c : candidate m t x = Some c → within m t c x = true.
Proof.
  unfold candidate. cbv zeta. destruct (within m t _ x) eqn:H1; destruct (within m t (_ + 1) x) eqn:H2; intros [= <-]; try done.
  unfold round_half_even. by repeat case_match.
Qed.

(** At the last bit's own position the value is a decimal. *)
Lemma candidate_at_bottom : candidate m t (- 1074) ≠ None.
Proof.
  unfold candidate. cbv zeta. change (pow10 (- 1074)) with 1. change (pow10 (- - 1074)) with (10 ^ 1074). rewrite Z.mul_1_r.
  set (n := m * pow2 (t - 1074) * 10 ^ 1074). set (d := pow2 (1074 - t)).
  destruct Hc as (_ & Ht & _). assert (0 < d) as Hd by (apply Z.pow_pos_nonneg; lia).
  assert (n mod d = 0) as Hmod.
  { assert (10 ^ 1074 = 5 ^ 1074 * 2 ^ (1074 - Z.max 0 (1074 - t)) * d) as E.
    { unfold d, pow2. rewrite <-Z.mul_assoc, <-Z.pow_add_r by lia.
      replace (1074 - Z.max 0 (1074 - t) + Z.max 0 (1074 - t)) with 1074 by lia. by rewrite <-Z.pow_mul_l. }
    unfold n. rewrite E, !Z.mul_assoc. apply Z.mod_mul. lia. }
  assert (within m t (n / d) (- 1074) = true) as ->; [|by destruct (within _ _ _ _)].
  assert (decimal4 t (n / d) (- 1074) = 4 * n) as E.
  { unfold decimal4. change (pow10 (- 1074)) with 1. fold d. rewrite Z.mul_1_r, (Z.mul_comm (n / d)).
    pose proof (Z.div_mod n d ltac:(lia)). lia. }
  unfold within. rewrite E. unfold lower4, upper4. change (pow10 (- - 1074)) with (10 ^ 1074).
  assert (0 < pow2 (t - 1074) * 10 ^ 1074) as Hp by (apply Z.mul_pos_pos; apply Z.pow_pos_nonneg; lia).
  rewrite <-!Z.mul_assoc. unfold n. rewrite <-Z.mul_assoc. set (p := pow2 (t - 1074) * 10 ^ 1074) in *. clearbody p.
  destruct (Z.even m); apply andb_true_iff; rewrite ?Z.leb_le, ?Z.ltb_lt; split_ifs; lia.
Qed.

Lemma shortest_from_within fuel x :
  - 1074 ≤ x → (Z.to_nat (x + 1074) ≤ fuel)%nat →
  let '(c, x') := shortest_from fuel m t x in within m t c x' = true ∧ - 1074 ≤ x' ≤ x.
Proof.
  revert x. induction fuel as [|fuel IH]; intros x Hx Hf; cbn [shortest_from].
  - destruct (candidate m t x) as [c|] eqn:E; [split; [by apply candidate_within|lia]|].
    exfalso. replace x with (- 1074) in E by lia. by apply candidate_at_bottom in E.
  - destruct (candidate m t x) as [c|] eqn:E; [split; [by apply candidate_within|lia]|].
    assert (x ≠ - 1074) by (intros ->; by apply candidate_at_bottom in E).
    specialize (IH (x - 1) ltac:(lia) ltac:(lia)). destruct (shortest_from fuel m t (x - 1)). split; [apply IH|lia].
Qed.

Lemma shortest_spec :
  let '(c, x) := shortest m t in
  0 < c < 10 ^ 1500 ∧ - 1074 ≤ x ≤ 700 ∧ ∀ neg, round64 neg (c * pow10 x) (pow10 (- x)) = Fin neg m t.
Proof.
  assert (- 1074 ≤ top_position m t ≤ 700) as Htop.
  { destruct Hc as (H1 & H2 & _). unfold max_t in H2. pose proof (Z.log2_nonneg m).
    assert (Z.log2 m < 53) by (apply Z.log2_lt_pow2; lia). unfold top_position. divlia. }
  pose proof (shortest_from_within (Z.to_nat (top_position m t + 1074)) (top_position m t)) as H.
  unfold shortest. destruct (shortest_from _ m t _) as [c x].
  destruct H as [Hw Hx]; [lia|lia|]. split_and!; [by eapply within_pos|eapply within_bound; [|done]; lia|lia|lia|].
  intros neg. by apply within_reads.
Qed.
End Shortest.

(** ** Reading the text back *)

Lemma digits_of_ne c : digits_of c ≠ [].
Proof. by destruct (digits_of_cons c) as (? & ? & -> & _). Qed.

(** [scaled] is the rounding of [m * 10^(e - frac)]. *)
Lemma scaled_decimal neg c frac e : scaled neg false c frac e = round64 neg (c * pow10 (e - frac)) (pow10 (- (e - frac))).
Proof.
  unfold scaled. set (x := e - frac). destruct (Z.leb_spec 0 x).
  - by rewrite pow10_nonneg, pow10_neg by done.
  - rewrite (pow10_nonneg (- x)) by lia. unfold pow10. by rewrite Z.max_l, Z.mul_1_r by lia.
Qed.

Section Reads.
  Context (neg : bool) (c x m t : Z) (Hc : 0 < c).
  Context (Hr : round64 neg (c * pow10 x) (pow10 (- x)) = Fin neg m t).

Lemma plain_digits_reads : ParseFloat (sign_text neg ++ plain_digits c x) = (Fin neg m t, None).
Proof.
  unfold plain_digits. destruct (Z.leb_spec 0 x) as [Hx|Hx].
  - rewrite (proj2 (Z.eqb_neq c 0)), <-digits_of_mul10, Z2Nat.id by lia.
    pose proof (ParseFloat_text neg (digits_of (c * 10 ^ x)) None None) as H.
    unfold decimal_text in H. cbn [fraction default from_option exp_text exp_value length] in H.
    rewrite !app_nil_r in H. rewrite H; [|apply digits_of_all|apply digits_of_ne|constructor|done].
    rewrite digits_of_value by (pose proof (Z.pow_pos_nonneg 10 x); nia).
    rewrite scaled_decimal. change (0 - Z.of_nat 0) with 0. change (pow10 0) with 1. change (pow10 (- 0)) with 1.
    rewrite Z.mul_1_r. rewrite pow10_nonneg, pow10_neg in Hr by done. by rewrite Hr.
  - set (k := Z.to_nat (- x)). set (ds := zeros (S k - length (digits_of c)) ++ digits_of c).
    assert (S k ≤ length ds)%nat as Hlen by (unfold ds, zeros; rewrite length_app, length_replicate; lia).
    assert (all_digits ds) as Hds by (apply Forall_app; split; [apply all_digits_zeros|apply digits_of_all]).
    pose proof (ParseFloat_text neg (take (length ds - k) ds) (Some (drop (length ds - k) ds)) None) as H.
    unfold decimal_text in H. cbn [fraction default from_option id exp_text exp_value] in H.
    rewrite app_nil_r, take_drop, length_drop in H.
    rewrite H; [|by apply Forall_take| |by apply Forall_drop|done].
    2: { intros Hnil. apply (f_equal length) in Hnil. rewrite length_take in Hnil. cbn in Hnil. lia. }
    unfold ds at 1. rewrite dec_value_app, dec_value_zeros, Z.mul_0_l, digits_of_value by lia.
    rewrite scaled_decimal. replace (0 - Z.of_nat (length ds - (length ds - k))) with x by lia. by rewrite Hr.
Qed.

Lemma exponent_digits_reads :
  c < 10 ^ 1500 → - 1074 ≤ x ≤ 700 → ParseFloat (sign_text neg ++ exponent_digits c x) = (Fin neg m t, None).
Proof.
  intros Hlt Hx. unfold exponent_digits. pose proof (digits_of_length c 1500 Hc Hlt ltac:(lia)) as Hlen.
  pose proof (digits_of_all c) as Hall. pose proof (digits_of_value c ltac:(lia)) as Hval.
  destruct (digits_of_cons c) as (d & r & E & Hd). rewrite E in *. cbv zeta.
  set (e := x + Z.of_nat (length (d :: r)) - 1).
  pose proof (ParseFloat_text neg [d] (if bool_decide (length (d :: r) = 1%nat) then None else Some r)
                (Some (e <? 0, digits_of (Z.abs e)))) as H.
  unfold decimal_text in H. cbn [exp_text exp_value] in H.
  assert (fraction (if bool_decide (length (d :: r) = 1%nat) then None else Some r) = r) as Hfrac.
  { case_bool_decide as Hl; [|done]. destruct r; [done|]. cbn in Hl. lia. }
  rewrite Hfrac in H. change (take 1 (d :: r)) with [d]. change (drop 1 (d :: r)) with r. cbn [app] in H |- *.
  assert ((match (if bool_decide (length (d :: r) = 1%nat) then None else Some r) with
           | Some fs => "."%char :: fs | None => [] end) =
          (if bool_decide (length (d :: r) = 1%nat) then [] else "."%char :: r)) as Hm by by case_bool_decide.
  rewrite Hm in H.
  cbn [app] in H. rewrite H; [|by constructor|done|by inversion Hall|].
  2: { split_and!; [apply digits_of_all|apply digits_of_ne|]. rewrite digits_of_value by lia. subst e. cbn [length] in *. lia. }
  rewrite digits_of_value, Hval by lia.
  rewrite scaled_decimal. replace (_ - Z.of_nat (length r)) with x; [by rewrite Hr|].
  subst e. cbn [length]. destruct (Z.ltb_spec (x + Z.of_nat (S (length r)) - 1) 0); lia.
Qed.
End Reads.

(** ** Any number that was read *)

Lemma read_mantissa_nonneg hex a s : 0 ≤ mt_value a → 0 ≤ mt_value (read_mantissa hex a s).1.
Proof.
  revert a. induction s as [|c s IH]; intros a Ha; [done|]. cbn [read_mantissa].
  case_decide; [by apply IH|]. case_decide; [destruct (mt_dot a); [done|by apply IH]|].
  destruct (mantissa_digit hex c) as [d|] eqn:E; [|done]. apply IH. cbn [mt_value].
  assert (0 ≤ d); [|destruct hex; nia]. unfold mantissa_digit, digit in E. destruct hex.
  - by apply hex_val_range in E as [? _].
  - destruct (is_digit c) eqn:Hc; [|done]. injection E as <-. by apply digit_val_range in Hc as [? _].
Qed.

Lemma scaled_canonical neg hex c frac e s m t :
  0 ≤ c → scaled neg hex c frac e = Fin s m t → canonical m t.
Proof.
  intros Hc H. unfold scaled in H.
  destruct hex; cbv zeta in H; destruct (Z.leb_spec 0 (e - 4 * frac)), (Z.leb_spec 0 (e - frac));
    apply round64_canonical in H as [_ H]; try done; try lia;
    try (apply Z.mul_nonneg_nonneg; [done|apply Z.pow_nonneg; lia]); apply Z.pow_pos_nonneg; lia.
Qed.

Lemma ParseFloat_canonical s neg m t : ParseFloat s = (Fin neg m t, None) → canonical m t.
Proof.
  unfold ParseFloat. destruct (special s) as [v|] eqn:Es.
  { intros [= ->]. unfold special in Es. case_decide; [done|]. destruct (strip_sign _). by case_decide. }
  destruct (strip_sign s) as [sg body]. destruct (strip_hex body) as [hex body'].
  pose proof (read_mantissa_nonneg hex (mkMantissa 0 0 false false false) body' ltac:(done)) as Ha.
  destruct (read_mantissa _ _ _) as [a rest]. cbn [fst] in Ha. destruct (negb (mt_digits a)); [done|].
  assert (∀ e u (rest' : bytes), (if negb (bool_decide (rest' = [])) then (Fin false 0 0, Some FloatSyntax)
            else if u && negb (underscoreOK s) then (Fin false 0 0, Some FloatSyntax)
            else match scaled sg hex (mt_value a) (mt_frac a) e with
                 | Inf n => (Inf n, Some FloatRange)
                 | v => (v, None)
                 end) = (Fin neg m t, None) → canonical m t) as Hfin.
  { intros e u rest'. destruct (negb _); [done|]. destruct (_ && _); [done|].
    destruct (scaled _ _ _ _ _) eqn:E; [|done..]. intros [= -> -> ->]. by eapply scaled_canonical. }
  cbv zeta. destruct rest as [|c r]; [destruct hex; [done|apply Hfin]|].
  case_decide; [|destruct hex; [done|apply Hfin]].
  destruct (strip_sign r) as [eneg [|d r']]; [done|]. destruct (is_digit d); [|done].
  destruct (read_exponent _ _ _) as [[e u] rest']. apply Hfin.
Qed.

(** ** The text of a value *)

(** The text [encoding/json] writes for a value reads back as the value. *)
Lemma float_json_reads neg m t :
  canonical m t → ∃ txt, float_json (Fin neg m t) = Some txt ∧ ParseFloat txt = (Fin neg m t, None).
Proof.
  intros Hc. pose proof Hc as (Hm & Ht & Ht0). unfold float_json. cbv zeta.
  destruct (Z.eqb_spec m 0) as [->|Hm0].
  - destruct Ht0 as [->|]; [|lia]. eexists. split; [done|]. destruct neg; vm_compute; reflexivity.
  - assert (m * 2 ^ t ≠ 0) as Hu by (pose proof (pow2_pos t); nia).
    rewrite (proj2 (Z.eqb_neq _ _) Hu). cbn [negb andb].
    pose proof (shortest_spec m t Hc Hm0) as H. destruct (shortest m t) as [c x] eqn:E.
    destruct H as ((Hpos & Hlt) & Hx & Hr). destruct (_ || _).
    + eexists. split; [done|]. by apply exponent_digits_reads.
    + eexists. split; [done|]. cbn [FormatFloat]. rewrite (proj2 (Z.eqb_neq _ _) Hm0), E.
      by apply plain_digits_reads.
Qed.

Lemma float_json_Fin x txt : float_json x = Some txt → ∃ neg m t, x = Fin neg m t.
Proof. destruct x; [by eexists _, _, _|done..]. Qed.

(** A number decoded and encoded again denotes the same [float64], and doing so
    again changes nothing. *)
Lemma float64_text_reads lit txt :
  float64_text lit = Some txt → ParseFloat txt = ParseFloat lit ∧ float64_text txt = Some txt.
Proof.
  unfold float64_text. destruct (ParseFloat lit) as [x [e|]] eqn:E; [done|]. intros H.
  destruct (float_json_Fin _ _ H) as (neg & m & t & ->).
  destruct (float_json_reads neg m t) as (txt' & H1 & H2); [by eapply ParseFloat_canonical|].
  rewrite H in H1. injection H1 as <-. rewrite H2. by split.
Qed.
