(* ===== verification/Units.v ===== *)
(** * Sizes and durations ([internal/config/types.go])

    How the configuration file writes a number of bytes ([100MB]) or a time
    ([1d30m]), down to the characters. *)

From S2P Require Import Prelude Utf8 Json Decimal Float.
Local Open Scope Z_scope.

(** ** [strings] *)

(** [unicode.IsSpace]. *)
Definition rune_space (r : Z) : bool :=
  ((9 <=? r) && (r <=? 13)) || (r =? 32) || (r =? 0x85) || (r =? 0xA0) || (r =? 0x1680) ||
  ((0x2000 <=? r) && (r <=? 0x200A)) || (r =? 0x2028) || (r =? 0x2029) || (r =? 0x202F) ||
  (r =? 0x205F) || (r =? 0x3000).

Fixpoint drop_spaces (l : list (Z * bytes)) : list (Z * bytes) :=
  match l with
  | (r, raw) :: l' => if rune_space r then drop_spaces l' else l
  | [] => []
  end.
Definition TrimSpace (s : bytes) : bytes :=
  concat (rev (drop_spaces (rev (drop_spaces (runes s))))).*2.

(** [strings.ToUpper], as far as a comparison with ASCII letters can tell: besides
    the ASCII letters, two runes have an ASCII capital, the dotless i and the
    long s. *)
Definition upper_rune (ru : Z * bytes) : bytes :=
  let '(r, raw) := ru in
  if (97 <=? r) && (r <=? 122) then [byte_of (r - 32)]
  else if r =? 0x131 then ["I"%char]
  else if r =? 0x17F then ["S"%char]
  else raw.
Definition ToUpper (s : bytes) : bytes := concat (map upper_rune (runes s)).

(** ** Sizes *)

Definition size_char (c : ascii) : bool :=
  bool_decide (c = "."%char) || bool_decide (c = "-"%char) || bool_decide (c = "+"%char) || is_digit c.
Fixpoint split_number (s : bytes) : bytes * bytes :=
  match s with
  | c :: r => if size_char c then let '(n, rest) := split_number r in (c :: n, rest) else ([], s)
  | [] => ([], [])
  end.

Definition size_unit (suffix : bytes) : option Z :=
  let one_of l := bool_decide (suffix ∈ map to_bytes l) in
  if one_of [""; "B"] then Some 1
  else if one_of ["K"; "KB"; "KIB"] then Some (Z.shiftl 1 10)
  else if one_of ["M"; "MB"; "MIB"] then Some (Z.shiftl 1 20)
  else if one_of ["G"; "GB"; "GIB"] then Some (Z.shiftl 1 30)
  else if one_of ["T"; "TB"; "TIB"] then Some (Z.shiftl 1 40)
  else None.

(** The errors of [parseSize]; their texts quote the input. *)
Inductive size_error : Type := EmptySize | SizeNumber (e : float_error) | UnknownSuffix (suffix : bytes).

(** A node of the YAML tree, by what decoding it into a [string] and into an
    [int64] gives. *)
Record yaml_node : Type := mkNode { node_string : option string; node_int : option Z }.

Section Units.
  (** A conversion from [float64] to [int64] that is out of range. *)
  Context (out_of_range : f64 → Z).

Definition int64_of (x : f64) : Z := default (out_of_range x) (to_int64 x).

Definition parseSize (s : bytes) : result size_error Z :=
  let s := TrimSpace s in
  match s with
  | [] => Err EmptySize
  | _ =>
    let '(numStr, rest) := split_number s in
    let suffix := ToUpper (TrimSpace rest) in
    match ParseFloat numStr with
    | (_, Some e) => Err (SizeNumber e)
    | (n, None) =>
      match size_unit suffix with
      | None => Err (UnknownSuffix suffix)
      | Some mult => Ok (int64_of (fmul n (of_int mult)))
      end
    end
  end.

(** [Size.UnmarshalYAML]: the receiver's new value, or an error. *)
Inductive size_yaml_error : Type := SizeText (e : size_error) | SizeTag.
Definition Size_UnmarshalYAML (value : yaml_node) : result size_yaml_error Z :=
  match node_string value with
  | Some str =>
    match parseSize (to_bytes str) with
    | Err e => Err (SizeText e)
    | Ok n => Ok n
    end
  | None =>
    match node_int value with
    | None => Err SizeTag
    | Some n => Ok n
    end
  end.

(** ** [time.ParseDuration] *)

Definition Hour : Z := 3600 * 10 ^ 9.
Definition unit_map (u : bytes) : option Z :=
  let one_of l := bool_decide (u ∈ l) in
  if one_of [to_bytes "ns"] then Some 1
  else if one_of [to_bytes "us"; encode_rune 0xB5 ++ ["s"%char]; encode_rune 0x3BC ++ ["s"%char]] then Some (10 ^ 3)
  else if one_of [to_bytes "ms"] then Some (10 ^ 6)
  else if one_of [to_bytes "s"] then Some (10 ^ 9)
  else if one_of [to_bytes "m"] then Some (60 * 10 ^ 9)
  else if one_of [to_bytes "h"] then Some Hour
  else None.

(** [leadingInt]: [None] when the integer exceeds [2^63]. *)
Fixpoint leadingInt (x : Z) (s : bytes) : option (Z * bytes) :=
  match s with
  | c :: r =>
    if is_digit c then
      if 2 ^ 63 / 10 <? x then None
      else
        let x := x * 10 + digit_val c in
        if 2 ^ 63 <? x then None else leadingInt x r
    else Some (x, s)
  | [] => Some (x, [])
  end.

(** [leadingFraction]: the digits that do not fit are dropped. *)
Fixpoint leadingFraction (x : Z) (scale : f64) (overflow : bool) (s : bytes) : Z * f64 * bytes :=
  match s with
  | c :: r =>
    if is_digit c then
      if overflow then leadingFraction x scale true r
      else if (2 ^ 63 - 1) / 10 <? x then leadingFraction x scale true r
      else
        let y := x * 10 + digit_val c in
        if 2 ^ 63 <? y then leadingFraction x scale true r
        else leadingFraction y (fmul scale (of_int 10)) false r
    else (x, scale, s)
  | [] => (x, scale, [])
  end.

(** The text of a unit: up to a point or a digit. *)
Fixpoint split_unit (s : bytes) : bytes * bytes :=
  match s with
  | c :: r =>
    if bool_decide (c = "."%char) || is_digit c then ([], s)
    else let '(u, rest) := split_unit r in (c :: u, rest)
  | [] => ([], [])
  end.

Inductive duration_error : Type := InvalidDuration | MissingUnit | UnknownUnit (u : bytes).

(** One turn of the loop: the sum after a number with its unit, and the rest. The
    fraction is below one unit, an hour at most. *)
Definition duration_term (d : Z) (s : bytes) : result duration_error (Z * bytes) :=
  let numeric := match s with c :: _ => bool_decide (c = "."%char) || is_digit c | [] => false end in
  if negb numeric then Err InvalidDuration
  else
    match leadingInt 0 s with
    | None => Err InvalidDuration
    | Some (v, s1) =>
      let pre := negb (length s =? length s1)%nat in
      let '(f, scale, s2, post) :=
        match s1 with
        | c :: r =>
          if decide (c = "."%char) then
            let '(f, scale, s2) := leadingFraction 0 (of_int 1) false r in
            (f, scale, s2, negb (length r =? length s2)%nat)
          else (0, of_int 1, s1, false)
        | [] => (0, of_int 1, s1, false)
        end in
      if negb pre && negb post then Err InvalidDuration
      else
        let '(u, s3) := split_unit s2 in
        match u with
        | [] => Err MissingUnit
        | _ =>
          match unit_map u with
          | None => Err (UnknownUnit u)
          | Some unit =>
            if 2 ^ 63 / unit <? v then Err InvalidDuration
            else
              let v := v * unit in
              let v := if 0 <? f
                       then v + default 0 (to_int64 (fmul (of_int f) (fdiv (of_int unit) scale)))
                       else v in
              if (0 <? f) && (2 ^ 63 <? v) then Err InvalidDuration
              else
                let d := (d + v) mod 2 ^ 64 in
                if 2 ^ 63 <? d then Err InvalidDuration else Ok (d, s3)
          end
        end
    end.

Fixpoint duration_loop (fuel : nat) (d : Z) (s : bytes) : result duration_error Z :=
  match s, fuel with
  | [], _ => Ok d
  | _, O => Err InvalidDuration
  | _, S fuel =>
    match duration_term d s with
    | Err e => Err e
    | Ok (d, rest) => duration_loop fuel d rest
    end
  end.

Definition ParseDuration (s : bytes) : result duration_error Z :=
  let '(neg, s) := strip_sign s in
  if decide (s = ["0"%char]) then Ok 0
  else if decide (s = []) then Err InvalidDuration
  else
    match duration_loop (length s) 0 s with
    | Err e => Err e
    | Ok d =>
      if neg then Ok (- d)
      else if 2 ^ 63 - 1 <? d then Err InvalidDuration
      else Ok d
    end.

(** ** Days *)

(** A class [\s] of [regexp]. *)
Definition blank (c : ascii) : bool :=
  bool_decide (c = " "%char) || ((9 <=? byte_val c) && (byte_val c <=? 10)) || ((12 <=? byte_val c) && (byte_val c <=? 13)).
Fixpoint skip_blank (s : bytes) : bytes :=
  match s with
  | c :: r => if blank c then skip_blank r else s
  | [] => []
  end.

(** [(?:days?|d)], whatever the case; the long s is a case of s. *)
Definition day_unit (s : bytes) : option bytes :=
  match s with
  | d :: r =>
    if decide (lower d = "d"%char) then
      match r with
      | a :: y :: r' =>
        if decide (lower a = "a"%char ∧ lower y = "y"%char) then
          match r' with
          | c :: r'' =>
            if decide (lower c = "s"%char) then Some r''
            else Some (default r' (expect (encode_rune 0x17F) r'))
          | [] => Some r'
          end
        else Some r
      | _ => Some r
      end
    else None
  | [] => None
  end.

(** [dayRe] at the start of a text: the number and what follows the match. The
    runs of digits and of blanks are maximal in every match, since neither can be
    followed by one of its own characters. *)
Definition match_day (s : bytes) : option (bytes * bytes) :=
  let '(ds, r1) := span_digits s in
  match ds with
  | [] => None
  | _ =>
    let plain := rest ← day_unit (skip_blank r1); Some (ds, rest) in
    match r1 with
    | c :: r2 =>
      if decide (c = "."%char) then
        let '(fs, r3) := span_digits r2 in
        match fs, day_unit (skip_blank r3) with
        | _ :: _, Some rest => Some (ds ++ "."%char :: fs, rest)
        | _, _ => plain
        end
      else plain
    | [] => plain
    end
  end.

(** [dayRe.ReplaceAllStringFunc]; [skip] characters belong to the last match. *)
Definition hours_text (num : bytes) : bytes := FormatFloat (fmul (ParseFloat num).1 (of_int 24)) ++ ["h"%char].
Fixpoint replace_days (skip : nat) (s : bytes) : bytes :=
  match s with
  | [] => []
  | c :: r =>
    match skip with
    | S k => replace_days k r
    | O =>
      match match_day s with
      | Some (num, rest) => hours_text num ++ replace_days (length s - length rest - 1) r
      | None => c :: replace_days 0 r
      end
    end
  end.

Definition parseDuration (s : bytes) : result duration_error Z := ParseDuration (replace_days 0 s).

(** [Duration.UnmarshalYAML]: the receiver's new value in nanoseconds; [None] is
    an error. *)
Definition Second : Z := 10 ^ 9.
Definition wrap64 (z : Z) : Z := (z + 2 ^ 63) mod 2 ^ 64 - 2 ^ 63.
Definition Duration_UnmarshalYAML (value : yaml_node) : option Z :=
  match node_string value with
  | Some str =>
    match parseDuration (to_bytes str) with
    | Ok dd => Some dd
    | Err _ =>
      match ParseFloat (to_bytes str) with
      | (n, None) => Some (int64_of (fmul n (of_int Second)))
      | (_, Some _) => None
      end
    end
  | None =>
    match node_int value with
    | None => None
    | Some n => Some (wrap64 (n * Second))
    end
  end.

(** [Duration.D]. *)
Definition Duration_D (d : Z) : Z := d.
End Units.

Example sizes : map (λ s, parseSize (λ _, 0) (to_bytes s)) ["100MB"; " 1.5 kib "; "1e3"; "-2G"; ""; "7"; "0.5XB"]
  = [Ok 104857600; Ok 1536; Err (UnknownSuffix (to_bytes "E3")); Ok (-2147483648); Err EmptySize; Ok 7;
     Err (UnknownSuffix (to_bytes "XB"))].
Proof. vm_compute. reflexivity. Qed.
Example durations : map (λ s, parseDuration (to_bytes s)) ["1d30m"; "7Days"; "1.5 d"; "-1.5h"; "0.1d"; "5"; "1x"; "1 day2d"; "d"; "0"]
  = [Ok (88200 * 10 ^ 9); Ok (604800 * 10 ^ 9); Ok (129600 * 10 ^ 9); Ok (-5400 * 10 ^ 9); Ok (8640 * 10 ^ 9);
     Err MissingUnit; Err (UnknownUnit (to_bytes "x")); Ok (259200 * 10 ^ 9); Err InvalidDuration; Ok 0].
Proof. vm_compute. reflexivity. Qed.

(** ** Durations written as a sum of terms *)

Inductive time_unit : Type :=
| Nanos | Micros | MicroSign | GreekMu | Millis | Seconds | Minutes | Hours | DayD | DayWord | DaysWord.

Definition unit_text (u : time_unit) : bytes :=
  match u with
  | Nanos => to_bytes "ns" | Micros => to_bytes "us" | MicroSign => encode_rune 0xB5 ++ ["s"%char]
  | GreekMu => encode_rune 0x3BC ++ ["s"%char] | Millis => to_bytes "ms" | Seconds => to_bytes "s"
  | Minutes => to_bytes "m" | Hours => to_bytes "h"
  | DayD => to_bytes "d" | DayWord => to_bytes "day" | DaysWord => to_bytes "days"
  end.
Definition unit_ns (u : time_unit) : Z :=
  match u with
  | Nanos => 1 | Micros | MicroSign | GreekMu => 10 ^ 3 | Millis => 10 ^ 6 | Seconds => 10 ^ 9
  | Minutes => 60 * 10 ^ 9 | Hours => 3600 * 10 ^ 9 | DayD | DayWord | DaysWord => 24 * 3600 * 10 ^ 9
  end.
Definition is_day (u : time_unit) : bool := match u with DayD | DayWord | DaysWord => true | _ => false end.

Definition term_text (t : Z * time_unit) : bytes := digits_of t.1 ++ unit_text t.2.
Definition terms_text (l : list (Z * time_unit)) : bytes := concat (map term_text l).
Definition terms_total (l : list (Z * time_unit)) : Z := foldr (λ t n, t.1 * unit_ns t.2 + n) 0 l.

(** A day as 24 hours. *)
Definition to_hours (t : Z * time_unit) : Z * time_unit :=
  if is_day t.2 then (t.1 * 24, Hours) else t.

(** What may follow a unit: nothing, or another number. *)
Definition term_end (s : bytes) : Prop := match s with [] => True | c :: _ => is_digit c = true end.

(** ** Lemmas: [time.ParseDuration] *)

Lemma term_end_terms l : term_end (terms_text l).
Proof.
  destruct l as [|[n u] l]; [done|]. cbn. unfold term_text. cbn.
  by destruct (digits_of_cons n) as (c & r & -> & Hc).
Qed.

Lemma digit_lower c : is_digit c = true → lower c = c.
Proof. unfold lower, is_digit. intros H. bool_props. by rewrite (proj2 (Z.leb_gt _ _)) by lia. Qed.

Lemma unit_first u rest : ∃ c r, unit_text u ++ rest = c :: r ∧ is_digit c = false ∧ c ≠ "."%char.
Proof. by destruct u; eexists _, _. Qed.

Lemma split_unit_end s : term_end s → split_unit s = ([], s).
Proof. destruct s as [|c r]; [done|]. cbn. intros ->. by rewrite orb_true_r. Qed.

Lemma split_unit_text u rest : term_end rest → split_unit (unit_text u ++ rest) = (unit_text u, rest).
Proof. intros Hr. destruct u; cbn -[bool_decide]; by rewrite split_unit_end. Qed.

Lemma unit_map_text u : is_day u = false → unit_map (unit_text u) = Some (unit_ns u).
Proof. by destruct u. Qed.

Lemma unit_ns_pos u : 0 < unit_ns u.
Proof. by destruct u. Qed.

Lemma leadingInt_digits x ds rest :
  all_digits ds → 0 ≤ x → dec_value x ds ≤ 2 ^ 63 → (∀ c, head rest = Some c → is_digit c = false) →
  leadingInt x (ds ++ rest) = Some (dec_value x ds, rest).
Proof.
  intros Hds Hx Hle Hc. revert x Hx Hle. induction Hds as [|d ds Hd Hds IH]; intros x Hx Hle.
  - destruct rest as [|c r]; [done|]. cbn. by rewrite Hc.
  - pose proof (digit_val_range d Hd).
    change (dec_value x (d :: ds)) with (dec_value (x * 10 + digit_val d) ds) in *.
    pose proof (dec_value_nonneg (x * 10 + digit_val d) ds ltac:(lia) Hds).
    cbn [app leadingInt]. rewrite Hd. rewrite (proj2 (Z.ltb_ge _ _)) by divlia. cbv zeta.
    rewrite (proj2 (Z.ltb_ge _ _)) by lia. by apply IH; [lia|].
Qed.

Lemma duration_term_text d n u rest :
  is_day u = false → 0 ≤ n → 0 ≤ d → d + n * unit_ns u ≤ 2 ^ 63 - 1 → term_end rest →
  duration_term d (term_text (n, u) ++ rest) = Ok (d + n * unit_ns u, rest).
Proof.
  intros Hu Hn Hd Hle Hr. pose proof (unit_ns_pos u) as Hns. unfold term_text. cbn [fst snd]. rewrite <-app_assoc.
  destruct (unit_first u rest) as (c & r & Hc & Hdig & Hdot).
  unfold duration_term. destruct (digits_of_cons n) as (c0 & r0 & E & Hc0).
  assert (match digits_of n ++ unit_text u ++ rest with
          | c :: _ => bool_decide (c = "."%char) || is_digit c
          | [] => false
          end = true) as -> by (rewrite E; cbn -[bool_decide]; by rewrite Hc0, orb_true_r).
  cbn [negb]. rewrite Hc, leadingInt_digits; try done; [|apply digits_of_all|rewrite digits_of_value; nia|by intros ? [= <-]].
  rewrite digits_of_value by done. cbv zeta. rewrite decide_False by done.
  assert ((length (digits_of n ++ c :: r) =? length (c :: r))%nat = false) as ->.
  { rewrite E. apply Nat.eqb_neq. rewrite length_app. cbn. lia. }
  cbn [negb andb]. rewrite <-Hc, split_unit_text, unit_map_text by done.
  destruct (unit_text u) as [|a b] eqn:Eu; [by destruct u|].
  assert (n ≤ 2 ^ 63 / unit_ns u) by (apply Z.div_le_lower_bound; lia).
  rewrite (proj2 (Z.ltb_ge _ _)) by lia. cbn [Z.ltb Z.compare andb].
  assert (0 ≤ n * unit_ns u) by nia. rewrite Z.mod_small by lia. by rewrite (proj2 (Z.ltb_ge _ _)) by lia.
Qed.

Lemma terms_total_cons n u l : terms_total ((n, u) :: l) = n * unit_ns u + terms_total l.
Proof. done. Qed.

Lemma terms_total_nonneg l : Forall (λ t, 0 ≤ t.1) l → 0 ≤ terms_total l.
Proof.
  induction 1 as [|[n u] l Hn _ IH]; [done|]. rewrite terms_total_cons. cbn [fst] in Hn.
  pose proof (unit_ns_pos u). nia.
Qed.

Lemma duration_loop_terms l fuel d :
  Forall (λ t, 0 ≤ t.1 ∧ is_day t.2 = false) l → 0 ≤ d → d + terms_total l ≤ 2 ^ 63 - 1 →
  (length (terms_text l) ≤ fuel)%nat → duration_loop fuel d (terms_text l) = Ok (d + terms_total l).
Proof.
  intros Hl. revert fuel d. induction Hl as [|[n u] l [Hn Hu] Hl IH]; intros fuel d Hd Hle Hf.
  - destruct fuel; cbn; by rewrite Z.add_0_r.
  - change (terms_text ((n, u) :: l)) with (term_text (n, u) ++ terms_text l) in *.
    rewrite terms_total_cons in *. cbn [fst snd] in Hn, Hu.
    assert (0 ≤ terms_total l) by (apply terms_total_nonneg; eapply Forall_impl; [exact Hl|]; by intros ? []).
    assert (1 ≤ length (term_text (n, u)))%nat as Hlen.
    { unfold term_text. cbn [fst snd]. destruct (digits_of_cons n) as (c & r & -> & _). cbn. lia. }
    rewrite length_app in Hf. destruct fuel as [|fuel]; [lia|].
    pose proof (duration_term_text d n u (terms_text l) Hu Hn Hd ltac:(lia) (term_end_terms l)) as Hterm.
    cbn [duration_loop]. rewrite Hterm.
    destruct (term_text (n, u) ++ terms_text l) eqn:E; [apply (f_equal length) in E; rewrite length_app in E; cbn in E; lia|].
    pose proof (unit_ns_pos u). rewrite IH by nia. f_equal. lia.
Qed.

Lemma ParseDuration_terms l :
  l ≠ [] → Forall (λ t, 0 ≤ t.1 ∧ is_day t.2 = false) l → terms_total l ≤ 2 ^ 63 - 1 →
  ParseDuration (terms_text l) = Ok (terms_total l).
Proof.
  intros Hne Hl Hle. destruct l as [|[n u] l]; [done|].
  pose proof (duration_loop_terms _ (length (terms_text ((n, u) :: l))) 0 Hl ltac:(lia) ltac:(lia) ltac:(lia)) as Hloop.
  destruct (digits_of_cons n) as (c & r & E & Hc). destruct (digit_plain c Hc) as (_ & _ & H3 & H4 & _ & _).
  assert (∃ x y, terms_text ((n, u) :: l) = c :: x :: y) as (x & y & Ht).
  { change (terms_text ((n, u) :: l)) with (term_text (n, u) ++ terms_text l).
    unfold term_text. cbn [fst snd]. rewrite E, <-app_assoc. destruct r as [|x y]; [|by eexists _, _].
    destruct (unit_first u (terms_text l)) as (x & y & -> & _). by eexists _, _. }
  unfold ParseDuration. rewrite Ht in *. cbn [strip_sign]. rewrite !decide_False by done.
  rewrite Hloop. rewrite Z.add_0_l. by rewrite (proj2 (Z.ltb_ge _ _)) by lia.
Qed.

(** ** Lemmas: days *)

Lemma replace_days_skip k s : replace_days k s = replace_days 0 (drop k s).
Proof.
  revert k. induction s as [|c s IH]; intros k; [by destruct k|]. destruct k as [|k]; [done|]. apply IH.
Qed.

Lemma span_digits_app ds rest :
  all_digits ds → (∀ c, head rest = Some c → is_digit c = false) → span_digits (ds ++ rest) = (ds, rest).
Proof.
  intros Hds Hc. induction Hds as [|d ds Hd _ IH]; cbn; [|by rewrite Hd, IH].
  destruct rest as [|c r]; [done|]. cbn. by rewrite Hc.
Qed.

Lemma match_day_nondigit c s : is_digit c = false → match_day (c :: s) = None.
Proof. intros Hc. unfold match_day. cbn [span_digits]. by rewrite Hc. Qed.

Lemma replace_days_nondigits s rest :
  Forall (λ c, is_digit c = false) s → replace_days 0 (s ++ rest) = s ++ replace_days 0 rest.
Proof.
  induction 1 as [|c s Hc _ IH]; [done|]. cbn [app]. rewrite <-IH.
  cbn [replace_days]. by rewrite match_day_nondigit.
Qed.

Lemma expect_long_s x rest : is_digit x = true → expect (encode_rune 0x17F) (x :: rest) = None.
Proof.
  intros Hx. change (encode_rune 0x17F) with [byte_of 0xC5; byte_of 0xBF]. cbn [expect].
  destruct (Ascii.eqb_spec (byte_of 0xC5) x) as [<-|]; done.
Qed.

Lemma day_unit_text u rest : term_end rest →
  day_unit (skip_blank (unit_text u ++ rest)) = if is_day u then Some rest else None.
Proof.
  intros Hr. assert (skip_blank (unit_text u ++ rest) = unit_text u ++ rest) as -> by by destruct u.
  destruct rest as [|x rest]; [by destruct u|]. cbn in Hr. pose proof (digit_lower x Hr) as Hx.
  destruct u; try done.
  - change (unit_text DayD ++ x :: rest) with ("d"%char :: x :: rest). cbn [is_day day_unit].
    rewrite decide_True by done. destruct rest as [|y r]; [done|].
    rewrite decide_False; [done|]. rewrite Hx. by intros [-> _].
  - change (unit_text DayWord ++ x :: rest) with ("d"%char :: "a"%char :: "y"%char :: x :: rest). cbn [is_day day_unit].
    rewrite !decide_True by done. rewrite decide_False by (rewrite Hx; by intros ->).
    by rewrite expect_long_s.
Qed.

Lemma match_day_unit ds u rest :
  all_digits ds → ds ≠ [] → term_end rest →
  match_day (ds ++ unit_text u ++ rest) = if is_day u then Some (ds, rest) else None.
Proof.
  intros Hds Hne Hr. destruct (unit_first u rest) as (c & r & E & Hc & Hdot).
  unfold match_day. rewrite E, span_digits_app by (done || by intros ? [= <-]). rewrite decide_False by done.
  destruct ds as [|d ds]; [done|]. rewrite <-E, day_unit_text by done. by destruct (is_day u).
Qed.

(** A text of hours. *)
Lemma hours_text_int n : 0 ≤ n → n * 24 < 2 ^ 53 → hours_text (digits_of n) = term_text (n * 24, Hours).
Proof.
  intros Hn Hlt. unfold hours_text, term_text. cbn [fst snd]. f_equal.
  destruct (ParseFloat_digits_of n) as (x & -> & Hx); [lia|].
  cbn [fst]. apply FormatFloat_int; [|lia].
  apply (fmul_exactly false false n 24 _ _ (n * 24) 0); [done|by apply of_int_exactly|lia|lia|lia].
Qed.

Lemma replace_days_term n u rest :
  0 ≤ n → n * unit_ns u ≤ 2 ^ 63 - 1 → term_end rest →
  replace_days 0 (term_text (n, u) ++ rest) = term_text (to_hours (n, u)) ++ replace_days 0 rest.
Proof.
  intros Hn Hle Hr. unfold to_hours. cbn [fst snd]. destruct (is_day u) eqn:Hu.
  - rewrite <-hours_text_int; [|done|destruct u; try done; cbn in Hle; lia].
    unfold term_text. cbn [fst snd]. rewrite <-app_assoc.
    pose proof (match_day_unit (digits_of n) u rest (digits_of_all n)) as Hm. rewrite Hu in Hm.
    destruct (digits_of_cons n) as (d & ds & E & _). rewrite E in *. cbn [app replace_days].
    cbn [app] in Hm. rewrite Hm by done. f_equal. rewrite replace_days_skip. f_equal.
    rewrite app_assoc. cbn [length]. rewrite length_app.
    replace (S (length (ds ++ unit_text u) + length rest) - length rest - 1)%nat with (length (ds ++ unit_text u)) by lia.
    apply drop_app_length.
  - unfold term_text. cbn [fst snd]. rewrite <-!app_assoc.
    rewrite <-replace_days_nondigits by (destruct u; by repeat constructor).
    pose proof (digits_of_all n) as Hds. induction Hds as [|d ds Hd Hds IH]; [done|].
    cbn [app]. rewrite <-IH. cbn [replace_days].
    pose proof (match_day_unit (d :: ds) u rest ltac:(by constructor) ltac:(done) Hr) as Hm.
    rewrite Hu in Hm. cbn [app] in Hm. by rewrite Hm.
Qed.

Lemma replace_days_terms l :
  Forall (λ t, 0 ≤ t.1) l → terms_total l ≤ 2 ^ 63 - 1 →
  replace_days 0 (terms_text l) = terms_text (map to_hours l).
Proof.
  induction 1 as [|[n u] l Hn Hl IH]; intros Hle; [done|]. cbn [fst] in Hn.
  rewrite terms_total_cons in Hle. pose proof (terms_total_nonneg l Hl). pose proof (unit_ns_pos u).
  change (terms_text ((n, u) :: l)) with (term_text (n, u) ++ terms_text l).
  rewrite replace_days_term, IH; [done|nia|done|nia|apply term_end_terms].
Qed.

Lemma to_hours_ok l :
  Forall (λ t, 0 ≤ t.1) l →
  Forall (λ t, 0 ≤ t.1 ∧ is_day t.2 = false) (map to_hours l) ∧ terms_total (map to_hours l) = terms_total l.
Proof.
  induction 1 as [|[n u] l Hn _ [IH1 IH2]]; [done|]. cbn [fst map] in *. split.
  - constructor; [|done]. unfold to_hours. cbn [fst snd]. destruct (is_day u) eqn:Hu; cbn; [lia|done].
  - rewrite terms_total_cons, <-IH2. unfold to_hours at 1. cbn [fst snd].
    destruct (is_day u) eqn:Hu; rewrite terms_total_cons; [|done]. destruct u; try done; cbn [unit_ns]; lia.
Qed.

(** ** Lemmas: sizes *)

Definition ascii_char (c : ascii) : Prop := byte_val c < 0x80.
Definition space_char (c : ascii) : Prop := ascii_char c ∧ rune_space (byte_val c) = true.
Definition letter (c : ascii) : bool :=
  ((65 <=? byte_val c) && (byte_val c <=? 90)) || ((97 <=? byte_val c) && (byte_val c <=? 122)).

Lemma runes_ascii s : Forall ascii_char s → runes s = map (λ c, (byte_val c, [c])) s.
Proof.
  induction 1 as [|c s Hc _ IH]; [done|].
  rewrite (runes_cons (c :: s) _ _ ltac:(done) (decode_rune_ascii c s Hc)). cbn [map]. by rewrite <-IH.
Qed.

Fixpoint drop_chars (s : bytes) : bytes :=
  match s with
  | c :: r => if rune_space (byte_val c) then drop_chars r else s
  | [] => []
  end.

Lemma drop_spaces_map s : drop_spaces (map (λ c, (byte_val c, [c])) s) = map (λ c, (byte_val c, [c])) (drop_chars s).
Proof. induction s as [|c s IH]; [done|]. cbn. by destruct (rune_space _). Qed.

Lemma TrimSpace_ascii s : Forall ascii_char s → TrimSpace s = rev (drop_chars (rev (drop_chars s))).
Proof.
  intros Hs. unfold TrimSpace. rewrite runes_ascii, drop_spaces_map, <-map_rev, drop_spaces_map, <-map_rev by done.
  generalize (rev (drop_chars (rev (drop_chars s)))). intros l. induction l as [|c l IH]; [done|].
  cbn. by f_equal.
Qed.

Lemma drop_chars_spaces b s : Forall space_char b → drop_chars (b ++ s) = drop_chars s.
Proof. induction 1 as [|c b [_ Hc] _ IH]; [done|]. cbn. by rewrite Hc. Qed.

Lemma drop_chars_ink s c : rune_space (byte_val c) = false → drop_chars (c :: s) = c :: s.
Proof. cbn. by intros ->. Qed.

(** Spaces around a text that starts and ends with other characters. *)
Lemma TrimSpace_around b core b' :
  Forall space_char b → Forall ascii_char core → Forall space_char b' →
  (∀ c, head core = Some c → rune_space (byte_val c) = false) →
  (∀ c, last core = Some c → rune_space (byte_val c) = false) →
  TrimSpace (b ++ core ++ b') = core.
Proof.
  intros Hb Hcore Hb' Hhead Hlast. rewrite TrimSpace_ascii.
  2: { rewrite !Forall_app. split_and!; [|done|]; (eapply Forall_impl; [done|]; by intros ? []). }
  rewrite drop_chars_spaces by done.
  assert (rev (drop_chars (core ++ b')) = rev b' ++ rev core ∨ core = [] ∧ drop_chars (core ++ b') = []) as [-> | [-> ->]].
  { destruct core as [|c core]; [right; split; [done|]; pose proof (drop_chars_spaces b' [] Hb') as H; by rewrite app_nil_r in H|].
    left. rewrite <-rev_app_distr. f_equal. apply drop_chars_ink, (Hhead c). done. }
  - rewrite drop_chars_spaces by (apply Forall_rev; done).
    destruct core as [|c l _] using rev_ind; [done|].
    rewrite rev_unit, drop_chars_ink; [by rewrite <-rev_unit, rev_involutive|]. apply Hlast, last_snoc.
  - done.
Qed.

Lemma split_number_digits ds s :
  all_digits ds → (∀ c, head s = Some c → size_char c = false) → split_number (ds ++ s) = (ds, s).
Proof.
  intros Hds Hs. induction Hds as [|d ds Hd _ IH]; cbn.
  - destruct s as [|c r]; [done|]. cbn. by rewrite Hs.
  - unfold size_char. by rewrite Hd, orb_true_r, IH.
Qed.

Lemma digit_ink c : is_digit c = true → ascii_char c ∧ rune_space (byte_val c) = false.
Proof.
  unfold is_digit, ascii_char, rune_space. intros H. bool_props. split; [lia|].
  rewrite !orb_false_iff, !andb_false_iff, !Z.eqb_neq, !Z.leb_gt. lia.
Qed.

Lemma letter_ink c : letter c = true → ascii_char c ∧ rune_space (byte_val c) = false ∧ size_char c = false.
Proof.
  intros H. assert (65 ≤ byte_val c ≤ 122) by (unfold letter in H; bool_props; destruct H; bool_props; lia).
  unfold ascii_char, rune_space. split_and!; [lia| |].
  - rewrite !orb_false_iff, !andb_false_iff, !Z.eqb_neq, !Z.leb_gt. lia.
  - unfold size_char, is_digit. rewrite !orb_false_iff, !bool_decide_eq_false, andb_false_iff, !Z.leb_gt.
    split_and!; [| | |lia]; intros ->; by vm_compute in H.
Qed.

Lemma space_not_size c : space_char c → size_char c = false.
Proof.
  intros [Ha Hc]. destruct (size_char c) eqn:H; [|done]. exfalso.
  unfold size_char in H. rewrite !orb_true_iff, !bool_decide_eq_true in H.
  destruct H as [[[->| ->]| ->]|H]; try done. apply digit_ink in H as [_ H]. congruence.
Qed.

Lemma size_unit_pow2 suffix mult : size_unit suffix = Some mult → ∃ k, 0 ≤ k ≤ 40 ∧ mult = 2 ^ k.
Proof.
  unfold size_unit. intros H.
  repeat (case_match; [injection H as <-|]); [exists 0|exists 10|exists 20|exists 30|exists 40|done]; done.
Qed.

(** The units, by their names. *)
Definition size_names : list (string * Z) :=
  [("", 1); ("B", 1); ("K", 2 ^ 10); ("KB", 2 ^ 10); ("KIB", 2 ^ 10); ("M", 2 ^ 20); ("MB", 2 ^ 20); ("MIB", 2 ^ 20);
   ("G", 2 ^ 30); ("GB", 2 ^ 30); ("GIB", 2 ^ 30); ("T", 2 ^ 40); ("TB", 2 ^ 40); ("TIB", 2 ^ 40)].

Lemma size_unit_names suffix mult : (of_bytes suffix, mult) ∈ size_names → size_unit suffix = Some mult.
Proof.
  intros Hin. rewrite <-(to_of_bytes suffix). unfold size_names in Hin. revert Hin. generalize (of_bytes suffix). intros name.
  rewrite !elem_of_cons, elem_of_nil. intros Hin.
  repeat (destruct Hin as [[= -> ->]|Hin]; [by vm_compute|]). done.
Qed.

(** A number below [2^53] and its unit: the product is exact. *)
Lemma size_product out_of_range n suffix mult :
  0 ≤ n < 2 ^ 53 → size_unit suffix = Some mult → n * mult < 2 ^ 63 →
  ∃ x, ParseFloat (digits_of n) = (x, None) ∧ int64_of out_of_range (fmul x (of_int mult)) = n * mult.
Proof.
  intros Hn Hs Hlt. apply size_unit_pow2 in Hs as (k & Hk & ->).
  destruct (ParseFloat_digits_of n) as (x & Hp & Hx); [lia|].
  exists x. split; [done|].
  assert (1 ≤ 2 ^ k ≤ 2 ^ 40) by (split; [apply (Z.pow_le_mono_r 2 0)|apply Z.pow_le_mono_r]; lia).
  unfold int64_of. rewrite (to_int64_exactly false (n * 2 ^ k)); [done| |done].
  apply (fmul_exactly false false n (2 ^ k) _ _ n k); [done|apply of_int_exactly; lia|lia|lia|done].
Qed.

(** The text of a number and of what follows it. *)
Lemma parseSize_split out_of_range n b s :
  Forall space_char b → Forall ascii_char s → 
  (∀ c, head s = Some c → size_char c = false) →
  (∀ c, last (digits_of n ++ s) = Some c → rune_space (byte_val c) = false) →
  ∀ b', Forall space_char b' →
  parseSize out_of_range (b ++ (digits_of n ++ s) ++ b') =
    match ParseFloat (digits_of n) with
    | (_, Some e) => Err (SizeNumber e)
    | (x, None) => match size_unit (ToUpper (TrimSpace s)) with
                   | None => Err (UnknownSuffix (ToUpper (TrimSpace s)))
                   | Some mult => Ok (int64_of out_of_range (fmul x (of_int mult)))
                   end
    end.
Proof.
  intros Hb Hs Hhead Hlast b' Hb'. unfold parseSize.
  rewrite TrimSpace_around; [|done| |done| |done].
  - rewrite split_number_digits by (done || apply digits_of_all).
    by destruct (digits_of_cons n) as (c & r & -> & _).
  - apply Forall_app. split; [|done]. eapply Forall_impl; [apply digits_of_all|]. intros c Hc. by apply digit_ink.
  - intros c. destruct (digits_of_cons n) as (d & r & -> & Hd). intros [= <-]. by apply digit_ink.
Qed.

Lemma last_digits n c : last (digits_of n) = Some c → rune_space (byte_val c) = false.
Proof.
  intros H. apply last_Some in H as [l H]. pose proof (digits_of_all n) as Hd.
  rewrite H in Hd. apply Forall_app in Hd as [_ Hd]. inversion Hd. by apply digit_ink.
Qed.

(** ** Lemmas: the loop ends *)

Lemma leadingInt_length x s v rest : leadingInt x s = Some (v, rest) → (length rest ≤ length s)%nat.
Proof.
  revert x. induction s as [|c s IH]; intros x; cbn [leadingInt]; [by intros [= _ <-]|].
  destruct (is_digit c); [|by intros [= _ <-]]. destruct (_ <? x); [done|]. cbv zeta.
  destruct (_ <? _); [done|]. intros Hs%IH. cbn. lia.
Qed.

Lemma leadingFraction_length x scale o s : (length (leadingFraction x scale o s).2 ≤ length s)%nat.
Proof.
  revert x scale o. induction s as [|c s IH]; intros x scale o; cbn [leadingFraction]; [done|].
  destruct (is_digit c); [|done]. cbn [length].
  destruct o; [specialize (IH x scale true); lia|]. destruct (_ <? x); [specialize (IH x scale true); lia|].
  cbv zeta. destruct (_ <? _); [specialize (IH x scale true); lia|].
  specialize (IH (x * 10 + digit_val c) (fmul scale (of_int 10)) false). lia.
Qed.

Lemma split_unit_length s u rest : split_unit s = (u, rest) → (length u + length rest = length s)%nat.
Proof.
  revert u. induction s as [|c s IH]; intros u; cbn [split_unit]; [by intros [= <- <-]|].
  destruct (_ || _); [by intros [= <- <-]|]. destruct (split_unit s) as [u' rest']. intros [= <- <-].
  cbn. by rewrite IH.
Qed.

(** A turn of the loop consumes the text of a unit at least. *)
Lemma duration_term_length d s d' rest : duration_term d s = Ok (d', rest) → (length rest < length s)%nat.
Proof.
  unfold duration_term. cbv zeta. destruct (negb _); [done|].
  destruct (leadingInt 0 s) as [[v s1]|] eqn:Hlead; [|done]. apply leadingInt_length in Hlead.
  destruct (match s1 with [] => _ | _ :: _ => _ end) as [[[f scale] s2] post] eqn:Hfrac.
  assert (length s2 ≤ length s1)%nat as H2.
  { apply (f_equal (λ p, p.1.2)) in Hfrac. cbn [fst snd] in Hfrac. subst s2.
    destruct s1 as [|c r]; [done|]. case_decide; [|done].
    pose proof (leadingFraction_length 0 (of_int 1) false r) as Hl.
    destruct (leadingFraction _ _ _ _) as [[f' scale'] s2']. cbn [fst snd] in *. cbn [length]. lia. }
  destruct (negb _ && _); [done|]. destruct (split_unit s2) as [[|c u] s3] eqn:Hu; [done|].
  apply split_unit_length in Hu. cbn in Hu.
  destruct (unit_map (c :: u)) as [unit|]; [|done]. destruct (_ <? v); [done|].
  destruct (_ && _); [done|]. destruct (_ <? _); [done|]. intros [= _ <-]. lia.
Qed.

(** More fuel than the length of the text changes nothing. *)
Lemma duration_loop_fuel n m s d :
  (length s ≤ n)%nat → (length s ≤ m)%nat → duration_loop n d s = duration_loop m d s.
Proof.
  revert m s d. induction n as [|n IH]; intros m s d Hn Hm; destruct s as [|c s]; cbn in Hn, Hm;
    [by destruct m|lia|by destruct m|]. destruct m as [|m]; [lia|]. cbn [duration_loop].
  destruct (duration_term d (c :: s)) as [[d' rest]|e] eqn:E; [|done].
  apply duration_term_length in E. cbn in E. apply IH; lia.
Qed.

(** ** Lemmas: values of a duration *)

Lemma duration_term_range d s d' rest : duration_term d s = Ok (d', rest) → 0 ≤ d' ≤ 2 ^ 63.
Proof.
  unfold duration_term. cbv zeta. destruct (negb _); [done|].
  destruct (leadingInt 0 s) as [[v s1]|]; [|done].
  destruct (match s1 with [] => _ | _ :: _ => _ end) as [[[f scale] s2] post].
  destruct (negb _ && _); [done|]. destruct (split_unit s2) as [[|c u] s3]; [done|].
  destruct (unit_map (c :: u)) as [unit|]; [|done]. destruct (_ <? v); [done|].
  destruct (_ && _); [done|]. destruct (_ <? _) eqn:E; [done|]. intros [= <- _]. bool_props.
  split; [by apply Z.mod_pos_bound|done].
Qed.

Lemma duration_loop_range fuel d s d' : 0 ≤ d ≤ 2 ^ 63 → duration_loop fuel d s = Ok d' → 0 ≤ d' ≤ 2 ^ 63.
Proof.
  revert d s. induction fuel as [|fuel IH]; intros d s Hd; destruct s as [|c s]; cbn [duration_loop];
    [by intros [= <-]|done|by intros [= <-]|].
  destruct (duration_term d (c :: s)) as [[d1 rest]|e] eqn:E; [|done]. apply IH. by eapply duration_term_range.
Qed.

Definition in_int64 (z : Z) : Prop := - 2 ^ 63 ≤ z ≤ 2 ^ 63 - 1.

Lemma ParseDuration_range s d : ParseDuration s = Ok d → in_int64 d.
Proof.
  unfold ParseDuration, in_int64. destruct (strip_sign s) as [neg t].
  case_decide; [by intros [= <-]|]. case_decide; [done|].
  destruct (duration_loop (length t) 0 t) as [v|e] eqn:E; [|done].
  apply duration_loop_range in E; [|lia]. destruct neg; [intros [= <-]; lia|].
  destruct (2 ^ 63 - 1 <? v) eqn:Hv; [done|]. intros [= <-]. bool_props. lia.
Qed.

Lemma to_int64_range x z : to_int64 x = Some z → in_int64 z.
Proof.
  unfold to_int64, in_int64. destruct x as [s m t| |]; [|done..]. cbv zeta.
  destruct (_ && _) eqn:E; [|done]. intros [= <-]. bool_props. lia.
Qed.

(** A bare number has no day in it, and no unit. *)
Lemma replace_days_bare ds : all_digits ds → replace_days 0 ds = ds.
Proof.
  induction 1 as [|d ds Hd Hds IH]; [done|]. cbn [replace_days].
  assert (match_day (d :: ds) = None) as ->; [|by rewrite IH].
  unfold match_day. rewrite <-(app_nil_r (d :: ds)), span_digits_app; [done|by constructor|done].
Qed.

Lemma duration_term_bare n : 0 ≤ n ≤ 2 ^ 63 → duration_term 0 (digits_of n) = Err MissingUnit.
Proof.
  intros Hn. pose proof (leadingInt_digits 0 (digits_of n) [] (digits_of_all n)) as Hlead.
  rewrite app_nil_r in Hlead. unfold duration_term. rewrite Hlead by (done || by rewrite digits_of_value; lia).
  destruct (digits_of_cons n) as (c & r & -> & Hc). by rewrite Hc, orb_true_r.
Qed.

Lemma bare_number n : 0 < n ≤ 2 ^ 63 → parseDuration (digits_of n) = Err MissingUnit.
Proof.
  intros Hn. unfold parseDuration. rewrite replace_days_bare by apply digits_of_all.
  pose proof (duration_term_bare n ltac:(lia)) as Hterm. pose proof (digits_of_value n ltac:(lia)) as Hv.
  destruct (digits_of_cons n) as (c & r & E & Hc). rewrite E in *.
  destruct (digit_plain c Hc) as (_ & _ & H3 & H4 & _ & _).
  unfold ParseDuration. cbn [strip_sign]. rewrite !(decide_False (P := c = _)) by done.
  rewrite decide_False by (intros H0; rewrite H0 in Hv; change (0 = n) in Hv; lia).
  rewrite decide_False by done. cbn [length duration_loop]. by rewrite Hterm.
Qed.

(** A sum of terms is read as its total. *)
Lemma parseDuration_terms l :
  l ≠ [] → Forall (λ t, 0 ≤ t.1) l → terms_total l ≤ 2 ^ 63 - 1 →
  parseDuration (terms_text l) = Ok (terms_total l).
Proof.
  intros Hne Hl Hle. unfold parseDuration. rewrite replace_days_terms by done.
  destruct (to_hours_ok l Hl) as [H1 H2]. rewrite <-H2. apply ParseDuration_terms; [by destruct l|done|lia].
Qed.
(** ** Properties *)

(** C28: a size written as a number below [2^53] and one of the units B, K, M, G, T
    (powers of 1024, also as KB and KiB), in any case, with spaces around and
    between, is that number of units in bytes, exactly, whenever the product fits
    in 64 bits; a bare number is in bytes. *)
Theorem parseSize_value out_of_range b n b1 suffix b2 mult :
  Forall space_char b → Forall space_char b1 → Forall space_char b2 →
  0 ≤ n < 2 ^ 53 → Forall (λ c, letter c = true) suffix →
  (of_bytes (ToUpper suffix), mult) ∈ size_names → n * mult < 2 ^ 63 →
  parseSize out_of_range (b ++ digits_of n ++ b1 ++ suffix ++ b2) = Ok (n * mult).
Proof.
  intros Hb Hb1 Hb2 Hn Hs Hm%size_unit_names Hlt.
  destruct (size_product out_of_range n (ToUpper suffix) mult Hn Hm Hlt) as (x & Hp & Hx).
  assert (∀ c, c ∈ suffix → ascii_char c ∧ rune_space (byte_val c) = false ∧ size_char c = false) as Hink.
  { intros c Hc. apply letter_ink. by eapply Forall_forall in Hs. }
  assert (Forall ascii_char suffix) as Ha by (apply Forall_forall; naive_solver).
  assert (Forall ascii_char b1) as Hab by (eapply Forall_impl; [done|]; by intros ? []).
  destruct (decide (suffix = [])) as [->|Hne].
  - pose proof (parseSize_split out_of_range n b [] Hb (Forall_nil_2 _)) as H. rewrite app_nil_r in H.
    cbn [app]. rewrite (H ltac:(done) (last_digits n) (b1 ++ b2)) by by apply Forall_app.
    rewrite Hp. change (ToUpper (TrimSpace [])) with (ToUpper []). by rewrite Hm, Hx.
  - apply last_is_Some in Hne as [z Hz]. pose proof (last_Some_elem_of _ _ Hz) as Hin.
    replace (b ++ digits_of n ++ b1 ++ suffix ++ b2)
      with (b ++ (digits_of n ++ (b1 ++ suffix)) ++ b2) by by rewrite <-!app_assoc.
    rewrite parseSize_split; try done.
    + assert (TrimSpace (b1 ++ suffix) = suffix) as ->; [|by rewrite Hp, Hm, Hx].
      rewrite <-(app_nil_r suffix) at 1. apply TrimSpace_around; try done.
      * intros c Hc%head_Some_elem_of. by apply Hink.
      * intros c Hc%last_Some_elem_of. by apply Hink.
    + by apply Forall_app.
    + intros c. rewrite head_app. destruct (head b1) as [c'|] eqn:Hh.
      * intros [= <-]. apply space_not_size. apply head_Some_elem_of in Hh. by eapply Forall_forall in Hb1.
      * intros Hc%head_Some_elem_of. by apply Hink.
    + intros c. rewrite !last_app, Hz. intros [= <-]. by apply Hink.
Qed.
Lemma parseSize_value_witness : parseSize (λ _, 0) (to_bytes " 100 MiB") = Ok 104857600.
Proof.
  exact (parseSize_value (λ _, 0) [" "%char] 100 [" "%char] (to_bytes "MiB") [] (2 ^ 20)
           ltac:(by repeat constructor) ltac:(by repeat constructor) ltac:(constructor)
           ltac:(lia) ltac:(by repeat constructor) ltac:(by refine (bool_decide_unpack _ _); vm_compute) ltac:(lia)).
Defined.

(** A bare number of bytes is read through a [float64]: above [2^53] it is rounded. *)
Lemma size_rounded out_of_range : parseSize out_of_range (to_bytes "9007199254740993") = Ok 9007199254740992.
Proof. vm_compute. reflexivity. Qed.

(** C27: the durations of the configuration. One written as a sum of numbers with
    their units, days included, is the sum in nanoseconds, exactly, whenever it
    fits in 64 bits; a bare number, quoted or not, is that number of seconds,
    exactly, up to four thousand million; and whatever the text, a duration that is
    accepted fits in 64 bits. *)
Theorem Duration_value out_of_range :
  (∀ x, in_int64 (out_of_range x)) →
  (∀ l i, l ≠ [] → Forall (λ t, 0 ≤ t.1) l → terms_total l ≤ 2 ^ 63 - 1 →
     Duration_UnmarshalYAML out_of_range (mkNode (Some (of_bytes (terms_text l))) i) = Some (terms_total l)) ∧
  (∀ n i, 0 ≤ n ≤ 4 * 10 ^ 9 →
     Duration_UnmarshalYAML out_of_range (mkNode (Some (pretty (Z.to_N n))) i) = Some (n * Second) ∧
     Duration_UnmarshalYAML out_of_range (mkNode None (Some n)) = Some (n * Second)) ∧
  (∀ value d, Duration_UnmarshalYAML out_of_range value = Some d → in_int64 d).
Proof.
  intros Hout. split_and!.
  - intros l i Hne Hl Hle. unfold Duration_UnmarshalYAML. cbn [node_string].
    by rewrite to_of_bytes, parseDuration_terms.
  - intros n i Hn. split.
    + unfold Duration_UnmarshalYAML. cbn [node_string]. fold (digits_of n).
      destruct (decide (n = 0)) as [->|Hz]; [done|]. rewrite bare_number by lia.
      destruct (ParseFloat_digits_of n) as (x & -> & Hx); [lia|]. f_equal. unfold int64_of.
      rewrite (to_int64_exactly false (n * Second)); [done| |unfold Second; lia].
      apply (fmul_exactly false false n Second _ _ (n * 5 ^ 9) 9);
        [done|by apply of_int_exactly|lia|lia|unfold Second; lia].
    + unfold Duration_UnmarshalYAML, wrap64, Second. cbn [node_string node_int].
      rewrite Z.mod_small by lia. f_equal. lia.
  - intros [str i] d. unfold Duration_UnmarshalYAML. cbn [node_string node_int]. destruct str as [str|].
    + destruct (parseDuration (to_bytes str)) as [dd|e] eqn:E.
      * intros [= <-]. by apply ParseDuration_range in E.
      * destruct (ParseFloat (to_bytes str)) as [x [e'|]]; [done|]. intros [= <-]. unfold int64_of.
        destruct (to_int64 _) eqn:Ht; [by apply to_int64_range in Ht|apply Hout].
    + destruct i as [i|]; [|done]. intros [= <-]. unfold wrap64, in_int64.
      pose proof (Z.mod_pos_bound (i * Second + 2 ^ 63) (2 ^ 64)). lia.
Qed.
Lemma Duration_value_witness :
  Duration_UnmarshalYAML (λ _, 0) (mkNode (Some "1d30m") None) = Some (88200 * 10 ^ 9).
Proof.
  exact (proj1 (Duration_value (λ _, 0) ltac:(intros; unfold in_int64; lia))
           [(1, DayD); (30, Minutes)] None ltac:(done) ltac:(by repeat constructor) ltac:(vm_compute; done)).
Defined.
