(* ===== verification/Config.v ===== *)
(** * Configuration ([internal/config/config.go])

    The configuration record of a node, its validation and its defaults. The YAML
    decoder and the file system are parameters. *)

From S2P Require Import Prelude.
Local Open Scope Z_scope.

(** ** Data *)

(** [config.Peer]. *)
Record Peer : Type := mkPeer {
  Peer_ID : string;
  Peer_Addr : string;      (* raft address *)
  Peer_HTTPAddr : string;  (* HTTP business address *)
}.

#[export] Instance Peer_eq_dec : EqDecision Peer.
Proof. solve_decision. Defined.

Record SnapshotConfig : Type := mkSnapshotConfig {
  Snapshot_Type : string;
  Snapshot_Path : string;
  Snapshot_Retain : Z;
}.

Record LogStoreConfig : Type := mkLogStoreConfig { LogStore_Type : string }.

(** [Size] and [Duration] values are their [int64]. *)
Record LogConfig : Type := mkLogConfig {
  Log_File : string;
  Log_Level : string;
  Log_JSON : bool;
  Log_MaxSize : Z;
  Log_MaxBackups : Z;
  Log_MaxAge : Z;
}.

Record RaftConfig : Type := mkRaftConfig {
  Raft_ApplyTimeout : Z;
  Raft_SnapshotInterval : Z;
  Raft_SnapshotThreshold : Z;
  Raft_MembershipTimeout : Z;
}.

Record DebugConfig : Type := mkDebugConfig { Debug_Addr : string }.

Record Config : Type := mkConfig {
  cfg_NodeID : string;
  cfg_RaftAddr : string;
  cfg_HTTPAddr : string;
  cfg_DataDir : string;
  cfg_Peers : list Peer;
  cfg_Snapshot : SnapshotConfig;
  cfg_LogStore : LogStoreConfig;
  cfg_Log : LogConfig;
  cfg_Raft : RaftConfig;
  cfg_Debug : DebugConfig;
  cfg_UseInmemTransport : bool;
}.

Definition set_Retain (n : Z) (c : Config) : Config :=
  mkConfig (cfg_NodeID c) (cfg_RaftAddr c) (cfg_HTTPAddr c) (cfg_DataDir c) (cfg_Peers c)
    (mkSnapshotConfig (Snapshot_Type (cfg_Snapshot c)) (Snapshot_Path (cfg_Snapshot c)) n)
    (cfg_LogStore c) (cfg_Log c) (cfg_Raft c) (cfg_Debug c) (cfg_UseInmemTransport c).

Definition set_MaxSize (n : Z) (c : Config) : Config :=
  let l := cfg_Log c in
  mkConfig (cfg_NodeID c) (cfg_RaftAddr c) (cfg_HTTPAddr c) (cfg_DataDir c) (cfg_Peers c) (cfg_Snapshot c) (cfg_LogStore c)
    (mkLogConfig (Log_File l) (Log_Level l) (Log_JSON l) n (Log_MaxBackups l) (Log_MaxAge l))
    (cfg_Raft c) (cfg_Debug c) (cfg_UseInmemTransport c).

(** [Size(100 * (1 << 20))]. *)
Definition default_MaxSize : Z := 100 * Z.shiftl 1 20.

(** ** Validation and loading *)

(** [Config.validate]: the first missing field, in the order of the code. *)
Definition validate (c : Config) : option error :=
  if bool_decide (cfg_NodeID c = "") then Some (ErrText "nodeID is required")
  else if bool_decide (cfg_RaftAddr c = "") || bool_decide (cfg_HTTPAddr c = "") || bool_decide (cfg_DataDir c = "")
  then Some (ErrText "raftAddr, httpAddr, dataDir are required")
  else if bool_decide (length (cfg_Peers c) < 1)%nat
  then Some (ErrText ("peers must have at least 1 entry, got " +:+ pretty (length (cfg_Peers c))))
  else if bool_decide (Snapshot_Type (cfg_Snapshot c) = "")
  then Some (ErrText "snapshot.type is required")
  else None.

(** The defaults [LoadFromBytes] fills in after validation. *)
Definition with_defaults (c : Config) : Config :=
  let c := if Snapshot_Retain (cfg_Snapshot c) =? 0 then set_Retain 3 c else c in
  if Log_MaxSize (cfg_Log c) <=? 0 then set_MaxSize default_MaxSize c else c.

Section Load.
  (** [yaml.Unmarshal] into a zero [Config] and [os.ReadFile]. *)
  Context (yaml_Unmarshal : bytes → result error Config)
          (os_ReadFile : string → result error bytes).

Definition LoadFromBytes (data : bytes) : result error Config :=
    match yaml_Unmarshal data with
    | Err e => Err (ErrWrap "parse config" e)
    | Ok cfg => match validate cfg with
                | Some e => Err e
                | None => Ok (with_defaults cfg)
                end
    end.

Definition Load (path : string) : result error Config :=
    match os_ReadFile path with
    | Err e => Err (ErrWrap "read config" e)
    | Ok data => LoadFromBytes data
    end.
End Load.

(** ** Properties *)

(** What a configuration must provide: the conditions [validate] tests. *)
Definition complete (c : Config) : Prop :=
  cfg_NodeID c ≠ "" ∧ cfg_RaftAddr c ≠ "" ∧ cfg_HTTPAddr c ≠ "" ∧ cfg_DataDir c ≠ "" ∧
  cfg_Peers c ≠ [] ∧ Snapshot_Type (cfg_Snapshot c) ≠ "".

Lemma validate_complete c : validate c = None ↔ complete c.
Proof.
  unfold validate, complete. split.
  - intros H. repeat (case_match; [done|]). bool_props. split_and!; try done.
    intros Hp. rewrite Hp in *. cbn in *. lia.
  - intros (H1 & H2 & H3 & H4 & H5 & H6).
    assert (¬ (length (cfg_Peers c) < 1)%nat) by (destruct (cfg_Peers c); [done|cbn; lia]).
    by rewrite !bool_decide_eq_false_2.
Qed.

Lemma with_defaults_complete c : complete (with_defaults c) ↔ complete c.
Proof. unfold with_defaults. repeat case_match; done. Qed.

(** C40: a configuration that loads is usable. Whatever the file and the YAML
    decoder answer, [Load] either returns the decoded configuration with every
    required field present, three snapshots kept when the number is absent or zero,
    a rotation size of 100 binary megabytes when it is absent or not positive, and
    every other field as decoded; or the first error met: reading, parsing, or the
    first missing field, in the order of the code. *)
Theorem Load_validated (yaml_Unmarshal : bytes → result error Config)
    (os_ReadFile : string → result error bytes) (path : string) :
  let missing c := cfg_RaftAddr c = "" ∨ cfg_HTTPAddr c = "" ∨ cfg_DataDir c = "" in
  match Load yaml_Unmarshal os_ReadFile path with
  | Ok c => complete c ∧
      ∃ data c0, os_ReadFile path = Ok data ∧ yaml_Unmarshal data = Ok c0 ∧
        let s := cfg_Snapshot c0 in
        let l := cfg_Log c0 in
        c = mkConfig (cfg_NodeID c0) (cfg_RaftAddr c0) (cfg_HTTPAddr c0) (cfg_DataDir c0) (cfg_Peers c0)
              (mkSnapshotConfig (Snapshot_Type s) (Snapshot_Path s)
                 (if Snapshot_Retain s =? 0 then 3 else Snapshot_Retain s))
              (cfg_LogStore c0)
              (mkLogConfig (Log_File l) (Log_Level l) (Log_JSON l)
                 (if 0 <? Log_MaxSize l then Log_MaxSize l else 104857600) (Log_MaxBackups l) (Log_MaxAge l))
              (cfg_Raft c0) (cfg_Debug c0) (cfg_UseInmemTransport c0)
  | Err e =>
      (∃ e0, os_ReadFile path = Err e0 ∧ e = ErrWrap "read config" e0) ∨
      (∃ data e0, os_ReadFile path = Ok data ∧ yaml_Unmarshal data = Err e0 ∧ e = ErrWrap "parse config" e0) ∨
      (∃ data c0, os_ReadFile path = Ok data ∧ yaml_Unmarshal data = Ok c0 ∧
         (cfg_NodeID c0 = "" ∧ e = ErrText "nodeID is required" ∨
          cfg_NodeID c0 ≠ "" ∧ missing c0 ∧ e = ErrText "raftAddr, httpAddr, dataDir are required" ∨
          cfg_NodeID c0 ≠ "" ∧ ¬ missing c0 ∧ cfg_Peers c0 = [] ∧
            e = ErrText "peers must have at least 1 entry, got 0" ∨
          cfg_NodeID c0 ≠ "" ∧ ¬ missing c0 ∧ cfg_Peers c0 ≠ [] ∧ Snapshot_Type (cfg_Snapshot c0) = "" ∧
            e = ErrText "snapshot.type is required"))
  end.
Proof.
  cbv zeta. unfold Load, LoadFromBytes. destruct (os_ReadFile path) as [data|e] eqn:Er; [|eauto].
  destruct (yaml_Unmarshal data) as [c|e] eqn:Ey; [|eauto 10].
  destruct (validate c) as [e|] eqn:Ev.
  - right. right. exists data, c. split_and!; [done|done|]. unfold validate in Ev. revert Ev.
    destruct (bool_decide_reflect (cfg_NodeID c = "")) as [|Hid]; [intros [= <-]; by left|].
    destruct (bool_decide_reflect (cfg_RaftAddr c = "")) as [|Hr]; [intros [= <-]; right; left; auto|].
    destruct (bool_decide_reflect (cfg_HTTPAddr c = "")) as [|Hh]; [intros [= <-]; right; left; auto|].
    destruct (bool_decide_reflect (cfg_DataDir c = "")) as [|Hd]; [intros [= <-]; right; left; auto|].
    cbn [orb]. right. right. destruct (cfg_Peers c) as [|p ps].
    + left. revert Ev. intros [= <-]. split_and!; [done|tauto|done|done].
    + right. revert Ev. cbn [length]. rewrite bool_decide_eq_false_2 by lia.
      destruct (bool_decide_reflect (Snapshot_Type (cfg_Snapshot c) = "")) as [Hs|]; [|done].
      intros [= <-]. split_and!; try done. tauto.
  - split; [by apply with_defaults_complete, validate_complete|].
    exists data, c. split_and!; [done|done|]. unfold with_defaults. rewrite Z.ltb_antisym.
    destruct c as [id ra ha dd ps [st sp sr] ls [lf ll lj lm lb la] rc dc ui]. cbn.
    destruct (sr =? 0); cbn; by destruct (lm <=? 0).
Qed.
