(* ===== verification/GoJson.v ===== *)
(** * JSON trees to Go values

    How [encoding/json] fills the program's structs, maps and slices from a JSON
    tree: field lookup by exact then case-folded name, [null], the [[]byte]
    targets, map targets, type mismatches. A mismatch makes the decoder return an
    error; the program drops the partly filled value, so the result here is an
    [option]. *)

From S2P Require Import Prelude Utf8 Base64 Json.
Local Open Scope Z_scope.

(** ** Field names *)

(** [foldRune] as far as ASCII names can tell: lower case to upper case, and the
    two non-ASCII runes that fold to ASCII letters, U+017F and U+212A. *)
Definition fold_rune (ru : Z * bytes) : bytes :=
  let '(r, raw) := ru in
  if (97 <=? r) && (r <=? 122) then [byte_of (r - 32)]
  else if r =? 0x017F then ["S"%char]
  else if r =? 0x212A then ["K"%char]
  else raw.
Definition fold_name (s : string) : bytes := concat (map fold_rune (runes (to_bytes s))).

(** The field of a struct a member sets, by its JSON name. *)
Definition match_field (names : list string) (key : string) : option string :=
  if decide (key ∈ names) then Some key
  else List.find (λ n, bool_decide (fold_name n = fold_name key)) names.

(** ** Targets *)

(** A [string] target: [null] leaves it as it was. *)
Definition decode_string (old : string) (j : json) : option string :=
  match j with
  | JNull => Some old
  | JStr s => Some s
  | _ => None
  end.

(** [strconv.ParseUint] of a number literal into a byte. *)
Fixpoint digits_value (acc : Z) (s : bytes) : option Z :=
  match s with
  | [] => Some acc
  | c :: s => if is_digit c then digits_value (acc * 10 + (byte_val c - 48)) s else None
  end.
Definition decode_uint8 (lit : bytes) : option ascii :=
  match lit with
  | [] => None
  | _ => v ← digits_value 0 lit; if v <=? 255 then Some (byte_of v) else None
  end.

(** The elements of an array decoded into a [[]byte]; [null] leaves the element
    that was there. *)
Fixpoint decode_byte_items (old : bytes) (l : list json) : option bytes :=
  match l with
  | [] => Some []
  | j :: l =>
    let head := match old with c :: _ => c | [] => "000"%char end in
    b ← match j with
        | JNull => Some head
        | JNum lit => decode_uint8 lit
        | _ => None
        end;
    rest ← decode_byte_items (tail old) l;
    Some (b :: rest)
  end.

(** A [[]byte] target: [null] is [nil], a string is base64, an array is read byte
    by byte. *)
Definition decode_bytes (old : slice) (j : json) : option slice :=
  match j with
  | JNull => Some None
  | JStr s => b ← b64_decode (to_bytes s); Some (Some b)
  | JArr l => b ← decode_byte_items (contents old) l; Some (Some b)
  | _ => None
  end.

(** A struct target with the given field setter. *)
Fixpoint decode_fields {A} (names : list string) (set : string → json → A → option A)
    (m : list (string * json)) (a : A) : option A :=
  match m with
  | [] => Some a
  | (k, j) :: m =>
    a' ← match match_field names k with
         | Some f => set f j a
         | None => Some a
         end;
    decode_fields names set m a'
  end.

Definition decode_struct {A} (names : list string) (set : string → json → A → option A)
    (old : A) (j : json) : option A :=
  match j with
  | JNull => Some old
  | JObj m => decode_fields names set m old
  | _ => None
  end.

(** A [map[string]V] target; a nil map is [None]. Every member is decoded into a
    fresh element, a repeated key overwrites. *)
Fixpoint decode_entries {V} (zero : V) (dec : V → json → option V)
    (m : list (string * json)) (out : gmap string V) : option (gmap string V) :=
  match m with
  | [] => Some out
  | (k, j) :: m => v ← dec zero j; decode_entries zero dec m (<[k := v]> out)
  end.

Definition decode_map {V} (zero : V) (dec : V → json → option V)
    (old : option (gmap string V)) (j : json) : option (option (gmap string V)) :=
  match j with
  | JNull => Some None
  | JObj m => Some <$> decode_entries zero dec m (default ∅ old)
  | _ => None
  end.

(** ** Values to trees *)

(** A [[]byte]: [null] when nil, base64 otherwise. *)
Definition bytes_json (v : slice) : json :=
  match v with
  | None => JNull
  | Some b => JStr (of_bytes (b64_encode b))
  end.

Definition map_json {V} (f : V → json) (m : gmap string V) : json :=
  JObj (map (λ kv, (kv.1, f kv.2)) (sorted_entries m)).

(** ** Lemmas *)

Lemma match_field_exact names k : k ∈ names → match_field names k = Some k.
Proof. intros H. unfold match_field. by rewrite decide_True. Qed.

Lemma decode_bytes_json old v :
  decode_bytes old (coerce_json (bytes_json v)) = Some v.
Proof.
  destruct v as [b|]; [|done]. cbn. rewrite coerce_string_valid, to_of_bytes, b64_decode_encode.
  - done.
  - unfold valid_string. rewrite to_of_bytes. apply b64_encode_valid.
Qed.

(** Decoding the entries of a list with distinct keys. *)
Lemma decode_entries_list {V W} (zero : V) (dec : V → json → option V) (f : W → json) (g : W → V)
    (l : list (string * W)) out :
  (∀ w, dec zero (coerce_json (f w)) = Some (g w)) →
  decode_entries zero dec (map (λ kv, (coerce_string kv.1, coerce_json kv.2))
    (map (λ kv, (kv.1, f kv.2)) l)) out
  = Some (foldl (λ o kv, <[coerce_string kv.1 := g kv.2]> o) out l).
Proof.
  intros Hdec. revert out. induction l as [|[k w] l IH]; intros out; [done|].
  cbn. rewrite Hdec. cbn. apply IH.
Qed.

Lemma foldl_insert_map {V} (l : list (string * V)) out :
  NoDup l.*1 →
  foldl (λ o kv, <[kv.1 := kv.2]> o) out l = (list_to_map l : gmap string V) ∪ out.
Proof.
  revert out. induction l as [|[k v] l IH]; intros out Hnd; cbn.
  - by rewrite (left_id_L ∅ (∪)).
  - apply NoDup_cons in Hnd as [Hk Hnd]. rewrite IH by done.
    rewrite <-insert_union_l, insert_union_r; [done|]. by apply not_elem_of_list_to_map_1.
Qed.

(** A printed map decodes to itself when its keys are valid UTF-8. *)
Lemma decode_map_json {V W} (zero : V) (dec : V → json → option V) (f : W → json) (g : W → V)
    (m : gmap string W) :
  (∀ w, dec zero (coerce_json (f w)) = Some (g w)) →
  (∀ k, k ∈ dom m → valid_string k = true) →
  decode_map zero dec None (coerce_json (map_json f m)) = Some (Some (g <$> m)).
Proof.
  intros Hdec Hv. unfold map_json. cbn [coerce_json decode_map].
  rewrite (decode_entries_list zero dec f g) by done. cbn. do 2 f_equal.
  assert (∀ (l : list (string * W)) (out : gmap string V), (∀ kv, kv ∈ l → valid_string kv.1 = true) →
    foldl (λ o kv, <[coerce_string kv.1 := g kv.2]> o) out l
    = foldl (λ o kv, <[kv.1 := kv.2]> o) out (prod_map id g <$> l : list (string * V))) as Hfold.
  { intros l. induction l as [|[k w] l IH]; intros out Hl; [done|]. cbn.
    rewrite coerce_string_valid by (apply (Hl (k, w)); by left).
    apply IH. intros kv Hkv. apply Hl. by right. }
  rewrite Hfold.
  - rewrite foldl_insert_map.
    + rewrite (right_id_L ∅ (∪)), list_to_map_fmap, list_to_map_sorted_entries. done.
    + rewrite <-list_fmap_compose. apply NoDup_sorted_entries.
  - intros [k w] Hkw%elem_of_sorted_entries. apply Hv. by apply elem_of_dom_2 in Hkw.
Qed.

Lemma map_json_numberless {V} (f : V → json) m :
  (∀ v, numberless (f v) = true) → numberless (map_json f m) = true.
Proof.
  intros Hf. cbn. apply forallb_forall. intros kv (x & <- & _)%in_map_iff. apply Hf.
Qed.

Lemma map_json_depth {V} (f : V → json) m n :
  (∀ v, json_depth (f v) ≤ n)%nat → (json_depth (map_json f m) ≤ S n)%nat.
Proof.
  intros Hf. cbn. apply le_n_S. rewrite map_map. cbn.
  induction (sorted_entries m) as [|kv l IH]; cbn; [lia|]. specialize (Hf kv.2). lia.
Qed.

Lemma bytes_json_numberless v : numberless (bytes_json v) = true.
Proof. by destruct v. Qed.
Lemma bytes_json_depth v : json_depth (bytes_json v) = 0%nat.
Proof. by destruct v. Qed.

#[export] Hint Resolve map_json_numberless map_json_depth bytes_json_numberless : rm.

(** A property of the target kept by every field assignment holds of the filled
    struct. *)
Lemma decode_struct_inv {A} (P : A → Prop) names set (a a' : A) j :
  (∀ f j a a', json_valid j = true → P a → set f j a = Some a' → P a') →
  json_valid j = true → P a → decode_struct names set a j = Some a' → P a'.
Proof.
  intros Hset Hj Ha H. destruct j as [| | | | |m]; try discriminate H; cbn in H; [by simplify_eq|].
  cbn in Hj. revert a Ha Hj H. induction m as [|[k j] m IH]; intros a Ha Hj H; cbn in *; [by simplify_eq|].
  apply andb_true_iff in Hj as [[_ Hj]%andb_true_iff Hm].
  destruct (match_field names k) as [f|]; cbn in H.
  - destruct (set f j a) as [a1|] eqn:E; cbn in H; [|done]. eapply IH; [|done..]. by eapply Hset.
  - by eapply IH.
Qed.

Lemma decode_string_valid old j s :
  json_valid j = true → valid_string old = true → decode_string old j = Some s → valid_string s = true.
Proof. by destruct j; cbn; intros ?? [= <-]. Qed.

(** The keys of a decoded map are the member names. *)
Lemma decode_entries_inv {V} (P : string → V → Prop) (zero : V) dec m out out' :
  (∀ k j v, valid_string k = true → json_valid j = true → dec zero j = Some v → P k v) →
  forallb (λ kv, valid_string kv.1 && json_valid kv.2) m = true →
  map_Forall P out → decode_entries zero dec m out = Some out' → map_Forall P out'.
Proof.
  intros Hdec. revert out. induction m as [|[k j] m IH]; intros out Hm Hout H; cbn in *; [by simplify_eq|].
  apply andb_true_iff in Hm as [[Hk Hj]%andb_true_iff Hm].
  destruct (dec zero j) as [v|] eqn:E; cbn in H; [|done].
  eapply IH; [done| |done]. apply map_Forall_insert_2; [by eapply Hdec|done].
Qed.
