(* ===== verification/Codec.v ===== *)
(** * The replicated command and its encoding ([internal/fsm/codec.go]) *)

From S2P Require Import Prelude Utf8 Base64 Json GoJson.

(** ** Data *)

(** [type Op string]: any string may arrive in a log entry. *)
Abbreviation Op := string (only parsing).
Definition OpPut : Op := "put".
Definition OpDelete : Op := "delete".
Definition OpAddPeer : Op := "addPeer".
Definition OpRemovePeer : Op := "removePeer".

(** [fsm.Command], the replicated log entry. *)
Record Command : Type := mkCommand {
  cmd_Op : Op;
  cmd_Key : string;
  cmd_Value : slice;
  cmd_PeerID : string;
  cmd_PeerAddr : string;
  cmd_PeerHTTP : string;
}.

#[export] Instance Command_eq_dec : EqDecision Command.
Proof. solve_decision. Defined.

Definition zero_Command : Command := mkCommand "" "" None "" "" "".

(** ** Encoding *)

(** The member of an [omitempty] string field. *)
Definition omit_empty (name v : string) : list (string * json) :=
  if decide (v = "") then [] else [(name, JStr v)].

(** The struct tags of [Command], in field order. *)
Definition command_json (c : Command) : json :=
  JObj (("op", JStr (cmd_Op c)) :: omit_empty "key" (cmd_Key c)
    ++ match contents (cmd_Value c) with
       | [] => []
       | _ => [("value", bytes_json (cmd_Value c))]
       end
    ++ omit_empty "peerId" (cmd_PeerID c)
    ++ omit_empty "peerAddr" (cmd_PeerAddr c)
    ++ omit_empty "peerHttp" (cmd_PeerHTTP c)).

(** [EncodeCommand]: [json.Marshal] of a struct of strings and bytes does not
    fail. *)
Definition EncodeCommand (c : Command) : result error bytes :=
  Ok (print (command_json c)).

(** ** Decoding *)

Definition command_fields : list string :=
  ["op"; "key"; "value"; "peerId"; "peerAddr"; "peerHttp"].

Definition set_command_field (f : string) (j : json) (c : Command) : option Command :=
  let '(mkCommand op key value id addr http) := c in
  if decide (f = "op") then s ← decode_string op j; Some (mkCommand s key value id addr http)
  else if decide (f = "key") then s ← decode_string key j; Some (mkCommand op s value id addr http)
  else if decide (f = "value") then b ← decode_bytes value j; Some (mkCommand op key b id addr http)
  else if decide (f = "peerId") then s ← decode_string id j; Some (mkCommand op key value s addr http)
  else if decide (f = "peerAddr") then s ← decode_string addr j; Some (mkCommand op key value id s http)
  else if decide (f = "peerHttp") then s ← decode_string http j; Some (mkCommand op key value id addr s)
  else Some c.

Definition command_of_json (j : json) : option Command :=
  decode_struct command_fields set_command_field zero_Command j.

(** [DecodeCommand]: a syntax error or a type mismatch is wrapped, otherwise the
    filled command is returned. *)
Definition DecodeCommand (data : bytes) : result error Command :=
  match unmarshal data with
  | None => Err (ErrWrap "decode command" ErrJSON)
  | Some j => match command_of_json j with
              | None => Err (ErrWrap "decode command" ErrJSON)
              | Some c => Ok c
              end
  end.

(** ** Round trip *)

(** What encoding keeps of a command: strings coerced to valid UTF-8, an empty
    value forgotten to [nil]. *)
Definition coerce_command (c : Command) : Command :=
  mkCommand (coerce_string (cmd_Op c)) (coerce_string (cmd_Key c)) (append_nil (cmd_Value c))
    (coerce_string (cmd_PeerID c)) (coerce_string (cmd_PeerAddr c)) (coerce_string (cmd_PeerHTTP c)).

Lemma command_json_storable c : storable (command_json c).
Proof.
  destruct c as [op key value id addr http]. unfold command_json, omit_empty.
  split; repeat case_match; cbn; rewrite ?bytes_json_numberless, ?bytes_json_depth; try done;
    unfold max_depth; cbn; lia.
Qed.

(** Coercing the members of an object, one by one. *)
Definition coerce_member (kv : string * json) : string * json :=
  (coerce_string kv.1, coerce_json kv.2).

Lemma decode_fields_app {A} names (set : string → json → A → option A) m1 m2 a :
  decode_fields names set (m1 ++ m2) a
  = (a' ← decode_fields names set m1 a; decode_fields names set m2 a').
Proof.
  revert a. induction m1 as [|[k j] m1 IH]; intros a; [done|]. cbn.
  destruct (match match_field names k with Some f => set f j a | None => Some a end)
    as [a'|]; cbn; auto.
Qed.

(** A string field written with [omitempty] is read back, or was empty anyway. *)
Lemma decode_omit_empty {A} names (set : string → json → A → option A) name v (a a' : A) :
  name ∈ names → valid_string name = true →
  (set name (JStr (coerce_string v)) a = Some a') → (v = "" → a = a') →
  decode_fields names set (map coerce_member (omit_empty name v)) a = Some a'.
Proof.
  intros Hin Hval Hset Hempty. unfold omit_empty. case_decide as Hv; [by cbn; rewrite Hempty|].
  cbn. by rewrite coerce_string_valid, match_field_exact, Hset.
Qed.

Lemma command_of_json_coerce c :
  command_of_json (coerce_json (command_json c)) = Some (coerce_command c).
Proof.
  destruct c as [op key value id addr http]. unfold command_json, coerce_command, command_of_json.
  cbn [cmd_Op cmd_Key cmd_Value cmd_PeerID cmd_PeerAddr cmd_PeerHTTP coerce_json decode_struct].
  change (λ kv : string * json, (coerce_string kv.1, coerce_json kv.2)) with coerce_member.
  change (("op", JStr op) :: ?l) with ([("op", JStr op)] ++ l).
  rewrite !map_app, decode_fields_app.
  change (decode_fields command_fields set_command_field (map coerce_member [("op", JStr op)]) zero_Command)
    with (Some (mkCommand (coerce_string op) "" None "" "" "")).
  cbn [mbind option_bind]. rewrite decode_fields_app.
  rewrite (decode_omit_empty _ _ "key" key _ (mkCommand (coerce_string op) (coerce_string key) None "" "" ""))
    by (set_solver || done || by intros ->).
  cbn [mbind option_bind]. rewrite decode_fields_app.
  replace (decode_fields _ _ (map coerce_member (match contents value with [] => _ | _ => _ end)) _)
    with (Some (mkCommand (coerce_string op) (coerce_string key) (append_nil value) "" "" "")).
  2: { unfold append_nil. destruct value as [[|b v]|]; [done| |done].
       cbn [contents map coerce_member fst snd decode_fields].
       change (coerce_string "value") with "value". rewrite match_field_exact by set_solver.
       cbn [set_command_field decide]. by rewrite decode_bytes_json. }
  cbn [mbind option_bind]. rewrite decode_fields_app.
  rewrite (decode_omit_empty _ _ "peerId" id _ (mkCommand (coerce_string op) (coerce_string key)
    (append_nil value) (coerce_string id) "" "")) by (set_solver || done || by intros ->).
  cbn [mbind option_bind]. rewrite decode_fields_app.
  rewrite (decode_omit_empty _ _ "peerAddr" addr _ (mkCommand (coerce_string op) (coerce_string key)
    (append_nil value) (coerce_string id) (coerce_string addr) "")) by (set_solver || done || by intros ->).
  cbn [mbind option_bind].
  by rewrite (decode_omit_empty _ _ "peerHttp" http _ (mkCommand (coerce_string op) (coerce_string key)
    (append_nil value) (coerce_string id) (coerce_string addr) (coerce_string http)))
    by (set_solver || done || by intros ->).
Qed.

(** Decoding an encoded command gives it back, its strings coerced. *)
Lemma decode_encode_command c :
  ∃ data, EncodeCommand c = Ok data ∧ DecodeCommand data = Ok (coerce_command c).
Proof.
  exists (print (command_json c)). split; [done|]. unfold DecodeCommand.
  rewrite unmarshal_print by apply command_json_storable.
  by rewrite command_of_json_coerce.
Qed.

(** Every string of a decoded command is valid UTF-8, whatever the log bytes. *)
Definition command_valid (c : Command) : Prop :=
  valid_string (cmd_Op c) = true ∧ valid_string (cmd_Key c) = true ∧
  valid_string (cmd_PeerID c) = true ∧ valid_string (cmd_PeerAddr c) = true ∧
  valid_string (cmd_PeerHTTP c) = true.

Lemma set_command_field_valid f j c c' :
  json_valid j = true → command_valid c → set_command_field f j c = Some c' → command_valid c'.
Proof.
  destruct c as [op key value id addr http]. intros Hj (H1 & H2 & H3 & H4 & H5) H.
  unfold set_command_field, command_valid in *; cbn in *.
  split_bind H; cbn; split_and!; try done; (eapply decode_string_valid; [| |exact E]; done).
Qed.

Lemma DecodeCommand_valid data c : DecodeCommand data = Ok c → command_valid c.
Proof.
  unfold DecodeCommand. destruct (unmarshal data) as [j|] eqn:Hj; [|done].
  destruct (command_of_json j) as [c'|] eqn:Hc; [|done]. intros [= <-].
  eapply (decode_struct_inv command_valid); [apply set_command_field_valid|by eapply unmarshal_valid| |exact Hc].
  done.
Qed.

(** A decoding failure is always the wrapped codec error. *)
Lemma DecodeCommand_error data e : DecodeCommand data = Err e → e = ErrWrap "decode command" ErrJSON.
Proof. unfold DecodeCommand. intros H. by repeat case_match; simplify_eq. Qed.

Arguments DecodeCommand : simpl never.
Arguments EncodeCommand : simpl never.

Lemma append_nil_fixpoint v : append_nil v = v ↔ v ≠ Some [].
Proof. split; [|apply append_nil_id]. intros <-. apply append_nil_never_empty. Qed.

Lemma coerce_string_fixpoint s : coerce_string s = s ↔ valid_string s = true.
Proof. split; [|apply coerce_string_valid]. intros <-. apply valid_coerce_string. Qed.

(** C9: encoding never fails, and decoding the bytes yields the command with the
    invalid UTF-8 of its strings replaced and an empty value forgotten to [nil];
    hence it yields the command itself exactly when its strings are valid UTF-8 and
    its value is not an empty non-nil slice. *)
Theorem command_roundtrip (op key id addr http : string) (value : slice) :
  let c := mkCommand op key value id addr http in
  ∃ data, EncodeCommand c = Ok data ∧
    DecodeCommand data = Ok (mkCommand (coerce_string op) (coerce_string key)
      (if decide (value = Some []) then None else value)
      (coerce_string id) (coerce_string addr) (coerce_string http)) ∧
    (DecodeCommand data = Ok c ↔
       (∀ s, s ∈ [op; key; id; addr; http] → valid_string s = true) ∧ value ≠ Some []).
Proof.
  intros c. destruct (decode_encode_command c) as (data & He & Hd). exists data. split; [done|].
  assert (coerce_command c = mkCommand (coerce_string op) (coerce_string key)
      (if decide (value = Some []) then None else value)
      (coerce_string id) (coerce_string addr) (coerce_string http)) as Hc.
  { unfold coerce_command. cbn. f_equal. by destruct value as [[|]|]. }
  rewrite Hd, Hc. split; [done|]. split.
  - rewrite <-Hc. intros H. apply (f_equal (λ r, match r with Ok c' => c' | Err _ => c end)) in H. cbv beta iota in H.
    pose proof (f_equal cmd_Op H) as H1. pose proof (f_equal cmd_Key H) as H2. pose proof (f_equal cmd_Value H) as H3.
    pose proof (f_equal cmd_PeerID H) as H4. pose proof (f_equal cmd_PeerAddr H) as H5.
    pose proof (f_equal cmd_PeerHTTP H) as H6. cbn in H1, H2, H3, H4, H5, H6.
    rewrite append_nil_fixpoint in H3. split; [|done]. intros s Hs. apply coerce_string_fixpoint.
    rewrite !elem_of_cons, elem_of_nil in Hs. by destruct Hs as [->|[->|[->|[->|[->|[]]]]]].
  - intros [Hs Hv]. rewrite decide_False by done. unfold c. f_equal.
    f_equal; apply coerce_string_valid, Hs; rewrite !elem_of_cons; tauto.
Qed.
