(* ===== verification/Fsm.v ===== *)
(** * The replicated state machine ([internal/fsm/fsm.go])

    The in-memory key-value map and the dynamic-peer map, changed by [Apply] of a
    committed log entry and by [Restore] of a snapshot, read by [Get], [List],
    [Len] and [Peers], and serialised by [Snapshot] and [Persist]. The code holds
    a lock around every operation, so each is one step on the state. *)

From S2P Require Import Prelude Utf8 Base64 Json GoJson Config Codec.

(** ** Go's map iteration

    [for k, v := range m] visits the entries in an unspecified order: a
    permutation of them. *)
Class MapOrder : Type := {
  map_range {A} : gmap string A → list (string * A);
  map_range_perm {A} (m : gmap string A) : map_range m ≡ₚ map_to_list m;
}.

(** Two possible orders, for evaluation. *)
Definition table_order : MapOrder :=
  {| map_range A := map_to_list; map_range_perm A m := Permutation_refl _ |}.
Definition key_order : MapOrder :=
  {| map_range A := sorted_entries; map_range_perm A := sorted_entries_perm |}.

(** ** State *)

Record FSM : Type := mkFSM {
  fsm_data : gmap string slice;
  fsm_peers : gmap string Peer;
}.

(** The view a snapshot holds. *)
Record fsmSnapshot : Type := mkSnapshot {
  snap_data : gmap string slice;
  snap_peers : gmap string Peer;
}.

(** The entry [Apply] receives. *)
Record raft_Log : Type := mkLog { log_Index : Z; log_Data : bytes }.

(** What the logger is told. *)
Inductive log_line : Type :=
| LogError (msg : string) (index : Z) (err : error).

(** [New] and [NewWithLogger]: both maps empty. *)
Definition New : FSM := mkFSM ∅ ∅.

Section Operations.
  Context `{MapOrder}.

  (** The values of the dynamic-peer map, in iteration order. *)
Definition FSM_Peers (f : FSM) : list Peer := (map_range (fsm_peers f)).*2.

  (** [Apply]: the new state, the response, the log lines. *)
Definition Apply (f : FSM) (log : raft_Log) : FSM * option error * list log_line :=
    match DecodeCommand (log_Data log) with
    | Err err =>
      (f, Some (ErrWrap "decode log" err),
       [LogError "fsm: undecodable log entry, skipping" (log_Index log) err])
    | Ok cmd =>
      let f' :=
        if decide (cmd_Op cmd = OpPut) then
          mkFSM (<[cmd_Key cmd := append_nil (cmd_Value cmd)]> (fsm_data f)) (fsm_peers f)
        else if decide (cmd_Op cmd = OpDelete) then
          mkFSM (delete (cmd_Key cmd) (fsm_data f)) (fsm_peers f)
        else if decide (cmd_Op cmd = OpAddPeer) then
          if decide (cmd_PeerID cmd ≠ "") then
            mkFSM (fsm_data f)
              (<[cmd_PeerID cmd := mkPeer (cmd_PeerID cmd) (cmd_PeerAddr cmd) (cmd_PeerHTTP cmd)]>
                 (fsm_peers f))
          else f
        else if decide (cmd_Op cmd = OpRemovePeer) then
          mkFSM (fsm_data f) (delete (cmd_PeerID cmd) (fsm_peers f))
        else f in
      (f', None, [])
    end.

Definition Get (f : FSM) (key : string) : slice * bool :=
    match fsm_data f !! key with
    | None => (None, false)
    | Some v => (append_nil v, true)
    end.

Definition HasPrefix (s prefix : string) : bool := String.prefix prefix s.

Definition List (f : FSM) (prefix : string) : gmap string slice :=
    foldl (λ out '(k, v), if HasPrefix k prefix then <[k := append_nil v]> out else out)
      ∅ (map_range (fsm_data f)).

Definition Len (f : FSM) : nat := size (fsm_data f).

  (** ** Snapshots *)

  (** [Snapshot]: copies of both maps, value by value. *)
Definition Snapshot (f : FSM) : fsmSnapshot :=
    mkSnapshot
      (foldl (λ out '(k, v), <[k := append_nil v]> out) ∅ (map_range (fsm_data f)))
      (foldl (λ out '(id, p), <[id := p]> out) ∅ (map_range (fsm_peers f))).
End Operations.

(** A peer has no JSON tags: its members carry the Go field names. *)
Definition peer_json (p : Peer) : json :=
  JObj [("ID", JStr (Peer_ID p)); ("Addr", JStr (Peer_Addr p)); ("HTTPAddr", JStr (Peer_HTTPAddr p))].

(** [snapshotData] as the encoder writes it. *)
Definition snapshot_json (s : fsmSnapshot) : json :=
  JObj [("data", map_json bytes_json (snap_data s)); ("peers", map_json peer_json (snap_peers s))].

(** A snapshot sink: its answers to [Write] and [Close]; the calls it receives. *)
Record SnapshotSink : Type := mkSink {
  sink_Write : bytes → option error;
  sink_Close : option error;
}.
Inductive sink_call : Type :=
| CallWrite (b : bytes)
| CallCancel
| CallClose.

(** The bytes [json.NewEncoder(sink).Encode] writes: the value and a newline. *)
Definition encode_line (j : json) : bytes := print j ++ ["010"%char].

(** [fsmSnapshot.Persist]: the error and the calls on the sink. *)
Definition Persist (s : fsmSnapshot) (sink : SnapshotSink) : option error * list sink_call :=
  let buf := encode_line (snapshot_json s) in
  match sink_Write sink buf with
  | Some err => (Some err, [CallWrite buf; CallCancel])
  | None => (sink_Close sink, [CallWrite buf; CallClose])
  end.

Definition set_peer_field (f : string) (j : json) (p : Peer) : option Peer :=
  let '(mkPeer id addr http) := p in
  if decide (f = "ID") then s ← decode_string id j; Some (mkPeer s addr http)
  else if decide (f = "Addr") then s ← decode_string addr j; Some (mkPeer id s http)
  else if decide (f = "HTTPAddr") then s ← decode_string http j; Some (mkPeer id addr s)
  else Some p.
Definition peer_of_json (old : Peer) (j : json) : option Peer :=
  decode_struct ["ID"; "Addr"; "HTTPAddr"] set_peer_field old j.

(** [snapshotData] as the decoder fills it: maps may be nil. *)
Record snapshotData : Type := mkSnapshotData {
  sd_Data : option (gmap string slice);
  sd_Peers : option (gmap string Peer);
}.
Definition set_snapshot_field (f : string) (j : json) (sd : snapshotData) : option snapshotData :=
  if decide (f = "data") then
    m ← decode_map None decode_bytes (sd_Data sd) j; Some (mkSnapshotData m (sd_Peers sd))
  else if decide (f = "peers") then
    m ← decode_map (mkPeer "" "" "") peer_of_json (sd_Peers sd) j; Some (mkSnapshotData (sd_Data sd) m)
  else Some sd.
Definition snapshotData_of_json (j : json) : option snapshotData :=
  decode_struct ["data"; "peers"] set_snapshot_field (mkSnapshotData None None) j.

(** A snapshot stream ([io.ReadCloser]): the bytes it delivers, then the end of the
    file or an error; the calls it receives. *)
Record ReadCloser : Type := mkReader {
  rd_bytes : bytes;
  rd_err : option error;
}.
Inductive reader_call : Type :=
| CallDecode
| CallCloseReader.

(** [json.NewDecoder(rc).Decode] up to the tree of the first value. A stream that
    ends in an error still gives a value that is complete before it: an object or
    an array ends itself, a number, a word or a string needs one more byte.
    [ErrJSON] stands for the error of the decoder; for a text that is no complete
    value it is a syntax error, or the error of the stream when the text could go
    on. *)
Definition ends_itself (j : json) : bool := match j with JArr _ | JObj _ => true | _ => false end.
Definition decode_reader (rc : ReadCloser) : result error json :=
  match rd_err rc with
  | None =>
    match decode_stream (rd_bytes rc) with
    | StreamEOF => Err (ErrLib "EOF")
    | StreamError => Err ErrJSON
    | StreamValue j => Ok j
    end
  | Some err =>
    if decide (skip_ws (rd_bytes rc) = []) then Err err
    else match parse_value (json_fuel (rd_bytes rc)) max_depth (rd_bytes rc) with
         | None => Err ErrJSON
         | Some (j, rest) => if ends_itself j || negb (bool_decide (rest = [])) then Ok j else Err err
         end
  end.

(** [Restore]: both maps are replaced, a nil map by an empty one; a decoding
    error leaves the state as it was. The stream is closed on every path. *)
Definition Restore (f : FSM) (rc : ReadCloser) : FSM * option error * list reader_call :=
  let '(f', err) :=
    match decode_reader rc with
    | Err err => (f, Some (ErrWrap "restore decode" err))
    | Ok j =>
      match snapshotData_of_json j with
      | None => (f, Some (ErrWrap "restore decode" ErrJSON))
      | Some sd => (mkFSM (default ∅ (sd_Data sd)) (default ∅ (sd_Peers sd)), None)
      end
    end in
  (f', err, [CallDecode; CallCloseReader]).

(** Applying a sequence of committed entries. *)
Definition apply1 (f : FSM) (log : raft_Log) : FSM := (Apply f log).1.1.
Definition replay (f : FSM) (logs : list raft_Log) : FSM := foldl apply1 f logs.

Arguments HasPrefix : simpl never.

(** ** Well-formed states

    What every state reached by [Apply] satisfies: keys are valid UTF-8, stored
    values are never empty non-nil slices, a dynamic peer is stored under its own
    non-empty ID. *)
Definition wf_entry (k : string) (v : slice) : Prop :=
  valid_string k = true ∧ v ≠ Some [].
Definition wf_peer (id : string) (p : Peer) : Prop :=
  id ≠ "" ∧ Peer_ID p = id ∧ valid_string id = true ∧
  valid_string (Peer_Addr p) = true ∧ valid_string (Peer_HTTPAddr p) = true.
Definition wf (f : FSM) : Prop :=
  map_Forall wf_entry (fsm_data f) ∧ map_Forall wf_peer (fsm_peers f).

(** ** The abstract machine

    A key-value store and a member table, without encodings: the contract of the
    component. *)
Record Spec : Type := mkSpec {
  spec_kv : gmap string bytes;
  spec_members : gmap string Peer;
}.
Inductive SpecOp : Type :=
| SPut (k : string) (v : bytes)
| SDelete (k : string)
| SAddPeer (p : Peer)
| SRemovePeer (id : string)
| SNop.

Definition spec_step (s : Spec) (o : SpecOp) : Spec :=
  match o with
  | SPut k v => mkSpec (<[k := v]> (spec_kv s)) (spec_members s)
  | SDelete k => mkSpec (delete k (spec_kv s)) (spec_members s)
  | SAddPeer p => mkSpec (spec_kv s) (<[Peer_ID p := p]> (spec_members s))
  | SRemovePeer id => mkSpec (spec_kv s) (delete id (spec_members s))
  | SNop => s
  end.

(** The operation a log entry stands for. *)
Definition op_of_command (c : Command) : SpecOp :=
  if decide (cmd_Op c = OpPut) then SPut (cmd_Key c) (contents (cmd_Value c))
  else if decide (cmd_Op c = OpDelete) then SDelete (cmd_Key c)
  else if decide (cmd_Op c = OpAddPeer) then
    if decide (cmd_PeerID c = "") then SNop
    else SAddPeer (mkPeer (cmd_PeerID c) (cmd_PeerAddr c) (cmd_PeerHTTP c))
  else if decide (cmd_Op c = OpRemovePeer) then SRemovePeer (cmd_PeerID c)
  else SNop.
Definition op_of_log (log : raft_Log) : SpecOp :=
  match DecodeCommand (log_Data log) with
  | Ok c => op_of_command c
  | Err _ => SNop
  end.

(** The abstraction function. *)
Definition abs (f : FSM) : Spec := mkSpec (contents <$> fsm_data f) (fsm_peers f).

(** ** Lemmas on one step *)

Lemma wf_New : wf New.
Proof. split; apply map_Forall_empty. Qed.

(** [Apply] spelled out on a decodable entry. *)
Lemma apply1_decoded f log c :
  DecodeCommand (log_Data log) = Ok c →
  apply1 f log =
    (if decide (cmd_Op c = OpPut) then
       mkFSM (<[cmd_Key c := append_nil (cmd_Value c)]> (fsm_data f)) (fsm_peers f)
     else if decide (cmd_Op c = OpDelete) then mkFSM (delete (cmd_Key c) (fsm_data f)) (fsm_peers f)
     else if decide (cmd_Op c = OpAddPeer) then
       if decide (cmd_PeerID c ≠ "") then
         mkFSM (fsm_data f)
           (<[cmd_PeerID c := mkPeer (cmd_PeerID c) (cmd_PeerAddr c) (cmd_PeerHTTP c)]> (fsm_peers f))
       else f
     else if decide (cmd_Op c = OpRemovePeer) then
       mkFSM (fsm_data f) (delete (cmd_PeerID c) (fsm_peers f))
     else f) ∧ (Apply f log).1.2 = None ∧ (Apply f log).2 = [].
Proof. intros H. unfold apply1, Apply. by rewrite H. Qed.

Lemma apply1_undecoded f log e :
  DecodeCommand (log_Data log) = Err e →
  Apply f log = (f, Some (ErrWrap "decode log" e),
    [LogError "fsm: undecodable log entry, skipping" (log_Index log) e]).
Proof. intros H. unfold Apply. by rewrite H. Qed.

Lemma apply1_wf f log : wf f → wf (apply1 f log).
Proof.
  intros [Hd Hp]. destruct (DecodeCommand (log_Data log)) as [c|e] eqn:E.
  - destruct (apply1_decoded f log c E) as [-> _]. apply DecodeCommand_valid in E as (H1&H2&H3&H4&H5).
    repeat case_decide; split; cbn; try done.
    + apply map_Forall_insert_2; [|done]. split; [done|]. apply append_nil_never_empty.
    + by apply map_Forall_delete.
    + apply map_Forall_insert_2; [|done]. by split_and!.
    + by apply map_Forall_delete.
  - unfold apply1. by rewrite (apply1_undecoded f log e E).
Qed.

Lemma replay_wf f logs : wf f → wf (replay f logs).
Proof. revert f. induction logs as [|l logs IH]; intros f Hf; [done|]. by apply IH, apply1_wf. Qed.

Lemma replay_app f l1 l2 : replay f (l1 ++ l2) = replay (replay f l1) l2.
Proof. apply foldl_app. Qed.

(** One step refines the abstract machine. *)
Lemma abs_apply1 f log : abs (apply1 f log) = spec_step (abs f) (op_of_log log).
Proof.
  unfold op_of_log. destruct (DecodeCommand (log_Data log)) as [c|e] eqn:E.
  - destruct (apply1_decoded f log c E) as [-> _]. unfold op_of_command, abs.
    repeat case_decide; cbn; try done; f_equal;
      by rewrite ?fmap_insert, ?fmap_delete, ?append_nil_contents.
  - unfold apply1. by rewrite (apply1_undecoded f log e E).
Qed.

Lemma abs_replay f logs : abs (replay f logs) = foldl spec_step (abs f) (op_of_log <$> logs).
Proof.
  revert f. induction logs as [|l logs IH]; intros f; [done|]. cbn. by rewrite IH, abs_apply1.
Qed.

(** ** Loops over maps do not depend on the iteration order *)

Lemma range_loop {A B} (g : string → A → option B) (F : gmap string B → string * A → gmap string B)
    (l : list (string * A)) (m : gmap string A) :
  (∀ out k v, F out (k, v) = match g k v with Some b => <[k := b]> out | None => out end) →
  l ≡ₚ map_to_list m → foldl F ∅ l = map_imap g m.
Proof.
  intros HF Hl.
  assert (∀ l out k, NoDup l.*1 → foldl F out l !! k =
    match (list_to_map l : gmap string A) !! k with
    | Some v => match g k v with Some b => Some b | None => out !! k end
    | None => out !! k
    end) as Hloop.
  { clear l Hl. intros l. induction l as [|[k' v] l IH]; intros out k Hnd; [done|].
    apply NoDup_cons in Hnd as [Hk Hnd]. cbn. rewrite IH, HF by done. destruct (decide (k = k')) as [->|Hne].
    - rewrite lookup_insert_eq. rewrite (not_elem_of_list_to_map_1 l k') by done.
      destruct (g k' v); by rewrite ?lookup_insert_eq.
    - rewrite lookup_insert_ne by done. destruct (list_to_map l !! k); [|];
        repeat case_match; rewrite ?lookup_insert_ne by done; done. }
  assert (NoDup l.*1) as Hnd by (rewrite Hl; apply NoDup_fst_map_to_list).
  apply map_eq. intros k. rewrite Hloop, map_lookup_imap by done.
  replace (list_to_map l : gmap string A) with m; [destruct (m !! k); cbn; [by destruct (g k a)|done]|].
  rewrite <-(list_to_map_to_list m). symmetry. by apply list_to_map_proper.
Qed.

Section Loops.
  Context `{MapOrder}.

Lemma List_spec f prefix :
  List f prefix = map_imap (λ k v, if HasPrefix k prefix then Some (append_nil v) else None) (fsm_data f).
Proof.
  apply range_loop; [|apply map_range_perm]. intros out k v. by destruct (HasPrefix k prefix).
Qed.

Lemma Snapshot_spec f : Snapshot f = mkSnapshot (append_nil <$> fsm_data f) (fsm_peers f).
Proof.
  unfold Snapshot. f_equal.
  - erewrite (range_loop (λ _ v, Some (append_nil v))); [|by intros ???|apply map_range_perm].
    apply map_eq. intros k. rewrite map_lookup_imap, lookup_fmap. by destruct (fsm_data f !! k).
  - erewrite (range_loop (λ _ v, Some v)); [|by intros ???|apply map_range_perm].
    apply map_eq. intros k. rewrite map_lookup_imap. by destruct (fsm_peers f !! k).
Qed.

(** On a well-formed state the copy is the state itself. *)
Lemma Snapshot_wf f : wf f → Snapshot f = mkSnapshot (fsm_data f) (fsm_peers f).
Proof.
  intros [Hd _]. rewrite Snapshot_spec. f_equal. apply map_eq. intros k. rewrite lookup_fmap.
  destruct (fsm_data f !! k) as [v|] eqn:E; [|done]. cbn. f_equal. by apply append_nil_id, (Hd k v E).
Qed.

Lemma FSM_Peers_elem f p : p ∈ FSM_Peers f ↔ ∃ id, fsm_peers f !! id = Some p.
Proof.
  unfold FSM_Peers. rewrite list_elem_of_fmap. split.
  - intros ([id p'] & -> & Hin). rewrite map_range_perm, elem_of_map_to_list in Hin. by exists id.
  - intros [id Hid]. exists (id, p). split; [done|]. by rewrite map_range_perm, elem_of_map_to_list.
Qed.
End Loops.

(** ** Snapshots are read back *)

Lemma peer_json_numberless p : numberless (peer_json p) = true.
Proof. done. Qed.

Lemma peer_json_depth p : json_depth (peer_json p) = 1%nat.
Proof. done. Qed.

Lemma snapshot_json_storable s : storable (snapshot_json s).
Proof.
  split.
  - cbn -[map_json]. rewrite !map_json_numberless; auto with rm.
  - unfold max_depth. cbn -[map_json].
    pose proof (map_json_depth bytes_json (snap_data s) 0) as H1.
    pose proof (map_json_depth peer_json (snap_peers s) 1) as H2.
    ospecialize (H1 _); [intros v; by rewrite bytes_json_depth|].
    ospecialize (H2 _); [done|]. lia.
Qed.

(** A peer whose strings are valid UTF-8 is read back. *)
Lemma peer_of_json_coerce p :
  peer_of_json (mkPeer "" "" "") (coerce_json (peer_json p))
  = Some (mkPeer (coerce_string (Peer_ID p)) (coerce_string (Peer_Addr p)) (coerce_string (Peer_HTTPAddr p))).
Proof. done. Qed.

Definition coerce_peer (p : Peer) : Peer :=
  mkPeer (coerce_string (Peer_ID p)) (coerce_string (Peer_Addr p)) (coerce_string (Peer_HTTPAddr p)).

Lemma coerce_peer_wf id p : wf_peer id p → coerce_peer p = p.
Proof.
  intros (_ & <- & H1 & H2 & H3). destruct p; unfold coerce_peer; cbn in *.
  by rewrite !coerce_string_valid.
Qed.

Lemma set_snapshot_data j sd :
  set_snapshot_field "data" j sd
  = (m ← decode_map None decode_bytes (sd_Data sd) j; Some (mkSnapshotData m (sd_Peers sd))).
Proof. unfold set_snapshot_field. by rewrite decide_True. Qed.

Lemma set_snapshot_peers j sd :
  set_snapshot_field "peers" j sd
  = (m ← decode_map (mkPeer "" "" "") peer_of_json (sd_Peers sd) j; Some (mkSnapshotData (sd_Data sd) m)).
Proof. unfold set_snapshot_field. by rewrite decide_False, decide_True. Qed.

Lemma snapshotData_of_json_coerce s :
  (∀ k, k ∈ dom (snap_data s) → valid_string k = true) →
  (∀ k, k ∈ dom (snap_peers s) → valid_string k = true) →
  snapshotData_of_json (coerce_json (snapshot_json s))
  = Some (mkSnapshotData (Some (snap_data s)) (Some (coerce_peer <$> snap_peers s))).
Proof.
  intros Hd Hp.
  assert (∀ j1 j2, snapshotData_of_json (JObj [("data", j1); ("peers", j2)]) =
    (m1 ← decode_map None decode_bytes None j1;
     m2 ← decode_map (mkPeer "" "" "") peer_of_json None j2; Some (mkSnapshotData m1 m2))) as Hstep.
  { intros j1 j2. unfold snapshotData_of_json. cbn [decode_struct decode_fields].
    rewrite !match_field_exact, set_snapshot_data by set_solver. cbn [sd_Data sd_Peers].
    destruct (decode_map None decode_bytes None j1) as [m1|]; cbn [mbind option_bind]; [|done].
    rewrite set_snapshot_peers. cbn [sd_Data sd_Peers].
    by destruct (decode_map (mkPeer "" "" "") peer_of_json None j2). }
  change (coerce_json (snapshot_json s)) with
    (JObj [("data", coerce_json (map_json bytes_json (snap_data s)));
           ("peers", coerce_json (map_json peer_json (snap_peers s)))]).
  rewrite Hstep, (decode_map_json None decode_bytes bytes_json id) by (done || apply decode_bytes_json). cbn [mbind option_bind].
  rewrite (decode_map_json _ peer_of_json peer_json coerce_peer) by done.
  by rewrite map_fmap_id.
Qed.

(** Restoring the text of a snapshot of a well-formed state yields that state,
    whatever the restoring node held. *)
Lemma Restore_snapshot `{MapOrder} f g rest err :
  wf f → Restore g (mkReader (encode_line (snapshot_json (Snapshot f)) ++ rest) err) = (f, None, [CallDecode; CallCloseReader]).
Proof.
  intros Hf. pose proof Hf as [Hd Hp]. unfold Restore.
  assert (decode_reader (mkReader (encode_line (snapshot_json (Snapshot f)) ++ rest) err)
          = Ok (coerce_json (snapshot_json (Snapshot f)))) as ->.
  { unfold decode_reader, encode_line. cbn [rd_bytes rd_err]. rewrite <-app_assoc.
    pose proof (decode_stream_print (snapshot_json (Snapshot f)) (["010"%char] ++ rest) (snapshot_json_storable _)) as Hs.
    destruct err as [e|]; [|by rewrite Hs]. unfold decode_stream in Hs.
    destruct (skip_ws _) as [|c s]; [done|]. rewrite decide_False by done.
    destruct (parse_value _ _ _) as [[j r]|]; [|done]. injection Hs as ->. done. }
  rewrite Snapshot_wf by done. rewrite snapshotData_of_json_coerce; cbn [snap_data snap_peers].
  - cbn. do 2 f_equal. destruct f as [d p]; cbn in *. f_equal. apply map_eq. intros id. rewrite lookup_fmap.
    destruct (p !! id) as [x|] eqn:E; [|done]. cbn. f_equal. by eapply coerce_peer_wf, Hp.
  - intros k [v Hk]%elem_of_dom. by apply (Hd k v Hk).
  - intros k [v Hk]%elem_of_dom. by apply (Hp k v Hk).
Qed.

(** ** The state after a log, read back *)

Lemma foldl_spec_kv (ops : list SpecOp) s k :
  spec_kv (foldl spec_step s ops) !! k =
    foldl (λ cur o, match o with
                    | SPut k' v => if decide (k = k') then Some v else cur
                    | SDelete k' => if decide (k = k') then None else cur
                    | _ => cur
                    end) (spec_kv s !! k) ops.
Proof.
  revert s. induction ops as [|o ops IH]; intros s; [done|]. cbn. rewrite IH. f_equal.
  destruct o; cbn; try done; case_decide as Hk; subst; simplify_map_eq; done.
Qed.

(** The writes of a log to one key, latest first: [Some v] for a put, [None] for
    a delete. *)
Definition writes_to (k : string) (log : raft_Log) : option (option bytes) :=
  match op_of_log log with
  | SPut k' v => if decide (k = k') then Some (Some v) else None
  | SDelete k' => if decide (k = k') then Some None else None
  | _ => None
  end.
Definition last_write (k : string) (logs : list raft_Log) : option bytes :=
  match omap (writes_to k) (reverse logs) with
  | w :: _ => w
  | [] => None
  end.

Lemma last_write_snoc k logs log :
  last_write k (logs ++ [log]) =
    match writes_to k log with Some w => w | None => last_write k logs end.
Proof.
  unfold last_write. rewrite reverse_app. cbn. by destruct (writes_to k log).
Qed.

Lemma contents_Get f k : wf f →
  Get f k = match spec_kv (abs f) !! k with
            | None => (None, false)
            | Some [] => (None, true)
            | Some v => (Some v, true)
            end.
Proof.
  intros [Hd _]. unfold Get, abs. cbn. rewrite lookup_fmap.
  destruct (fsm_data f !! k) as [v|] eqn:E; [|done]. cbn. unfold append_nil. by destruct (contents v).
Qed.

Lemma abs_last_write logs k : spec_kv (abs (replay New logs)) !! k = last_write k logs.
Proof.
  induction logs as [|l logs IH] using rev_ind; [done|].
  rewrite last_write_snoc, replay_app.
  change (replay (replay New logs) [l]) with (apply1 (replay New logs) l).
  rewrite abs_apply1, <-IH. unfold writes_to, spec_step.
  destruct (op_of_log l); cbn; try done; case_decide; simplify_map_eq; done.
Qed.

Section Properties.
  Context `{MapOrder}.

  (** ** Properties *)

(** C1: log truncation is sound. Whatever the committed entries (decodable or
    not), a node that persists a snapshot after [l1], and any node that restores
    those bytes and then applies [l2], reaches the state of applying [l1 ++ l2]
    from the beginning. The stream of the bytes is closed; an error it reports
    after them does not matter. *)
Theorem snapshot_replay (l1 l2 : list raft_Log) (g : FSM) (sink : SnapshotSink) :
    ∃ buf calls, (Persist (Snapshot (replay New l1)) sink).2 = CallWrite buf :: calls ∧
      ∀ rerr, Restore g (mkReader buf rerr) = (replay New l1, None, [CallDecode; CallCloseReader]) ∧
        replay (Restore g (mkReader buf rerr)).1.1 l2 = replay New (l1 ++ l2).
Proof.
  assert (wf (replay New l1)) as Hwf by apply replay_wf, wf_New.
  exists (encode_line (snapshot_json (Snapshot (replay New l1)))).
  unfold Persist. destruct (sink_Write sink _); eexists; (split; [done|]); intros rerr;
    pose proof (Restore_snapshot (replay New l1) g [] rerr Hwf) as Hr; rewrite app_nil_r in Hr;
    by rewrite Hr, replay_app.
Qed.

(** C2: the state machine implements its abstract specification: after any log,
    the state is the fold of the abstract operations, and every read agrees with
    it: [Get] by key, [List] by prefix, [Len], and [Peers]. *)
Theorem replay_refines_spec (logs : list raft_Log) :
    let f := replay New logs in
    let s := foldl spec_step (mkSpec ∅ ∅) (op_of_log <$> logs) in
    abs f = s ∧
    (∀ k, (prod_map contents id (Get f k)) =
       match spec_kv s !! k with Some v => (v, true) | None => ([], false) end) ∧
    (∀ prefix, contents <$> List f prefix = filter (λ kv, HasPrefix kv.1 prefix = true) (spec_kv s)) ∧
    Len f = size (spec_kv s) ∧
    (∀ p, p ∈ FSM_Peers f ↔ ∃ id, spec_members s !! id = Some p).
Proof.
  intros f s. assert (abs f = s) as Habs by apply (abs_replay New). split; [done|]. rewrite <-Habs.
  split_and!.
  - intros k. unfold Get, abs. cbn. rewrite lookup_fmap. destruct (fsm_data f !! k); cbn; [|done].
    by rewrite append_nil_contents.
  - intros prefix. rewrite List_spec. apply map_eq. intros k. cbn.
    rewrite lookup_fmap, map_lookup_imap, map_lookup_filter, lookup_fmap.
    destruct (fsm_data f !! k) as [v|]; cbn; [|done].
    destruct (HasPrefix k prefix); case_guard; cbn; by rewrite ?append_nil_contents.
  - unfold Len, abs. cbn. by rewrite map_size_fmap.
  - intros p. apply FSM_Peers_elem.
Qed.

(** C17: every reachable state is well formed: keys are valid UTF-8, no stored
    value is an empty non-nil slice, each dynamic peer is stored under its own
    non-empty ID. *)
Theorem reachable_wf (logs : list raft_Log) : wf (replay New logs).
Proof. apply replay_wf, wf_New. Qed.

(** C18: [Get] returns the last write to the key in the log, and reports a missing
    key when the last write was a delete or there was none. *)
Theorem Get_last_write (logs : list raft_Log) (k : string) :
    Get (replay New logs) k =
      match last_write k logs with
      | None => (None, false)
      | Some [] => (None, true)
      | Some v => (Some v, true)
      end.
Proof. rewrite contents_Get by apply replay_wf, wf_New. by rewrite abs_last_write. Qed.

(** C19: a corrupted log entry is reported once, with its index, answered with a
    wrapped decoding error, and leaves no trace in any replay; every other entry
    is answered [nil] without a log line. *)
Theorem undecodable_skipped (f : FSM) (l1 l2 : list raft_Log) (log : raft_Log) :
    match DecodeCommand (log_Data log) with
    | Err _ =>
      let err := ErrWrap "decode command" ErrJSON in
      Apply f log = (f, Some (ErrWrap "decode log" err),
        [LogError "fsm: undecodable log entry, skipping" (log_Index log) err]) ∧
      replay f (l1 ++ log :: l2) = replay f (l1 ++ l2)
    | Ok c => ∃ f', Apply f log = (f', None, []) ∧ abs f' = spec_step (abs f) (op_of_command c)
    end.
Proof.
  destruct (DecodeCommand (log_Data log)) as [c|e] eqn:E.
  - exists (apply1 f log). destruct (apply1_decoded f log c E) as (_ & H1 & H2). split.
    + unfold apply1. destruct (Apply f log) as [[f' r] ls]; cbn in *. by subst.
    + rewrite abs_apply1. unfold op_of_log. by rewrite E.
  - apply DecodeCommand_error in E as He. subst e. rewrite (apply1_undecoded f log _ E). split; [done|].
    rewrite !replay_app. cbn. f_equal. unfold apply1. by rewrite (apply1_undecoded _ log _ E).
Qed.

(** C20: [Restore] replaces and never merges: the outcome is fixed by the stream
    alone. Either every node that reads it reaches the same state, or every node
    keeps its own state and reports an error, which is the error of the stream when
    that delivers nothing else. The stream is closed in both cases, after it was
    read. *)
Theorem Restore_replaces (rc : ReadCloser) :
    ((∃ f, ∀ g, Restore g rc = (f, None, [CallDecode; CallCloseReader])) ∨
     (∃ e, ∀ g, Restore g rc = (g, Some e, [CallDecode; CallCloseReader]))) ∧
    (∀ e g, rd_bytes rc = [] → rd_err rc = Some e →
       Restore g rc = (g, Some (ErrWrap "restore decode" e), [CallDecode; CallCloseReader])).
Proof.
  split.
  - unfold Restore. destruct (decode_reader rc) as [j|e]; [|right; by eexists].
    destruct (snapshotData_of_json j); [left|right]; by eexists.
  - intros e g Hb He. unfold Restore, decode_reader. by rewrite He, Hb.
Qed.

(** C38: a key that is not valid UTF-8 is never found, whatever was written: the
    JSON codec of the log stores the write under another key. *)
Theorem invalid_key_never_found (logs : list raft_Log) (k : string) (prefix : string) :
    valid_string k = false →
    Get (replay New logs) k = (None, false) ∧ List (replay New logs) prefix !! k = None ∧
    ∀ v data, EncodeCommand (mkCommand OpPut k v "" "" "") = Ok data →
      op_of_log (mkLog 0 data) = SPut (coerce_string k) (contents v) ∧ coerce_string k ≠ k.
Proof.
  intros Hk. assert (wf (replay New logs)) as [Hwf _] by apply replay_wf, wf_New.
  assert (fsm_data (replay New logs) !! k = None) as Hnone.
  { destruct (fsm_data (replay New logs) !! k) as [v|] eqn:E; [|done].
    destruct (Hwf k v E) as [Hv _]. congruence. }
  split_and!.
  - unfold Get. by rewrite Hnone.
  - by rewrite List_spec, map_lookup_imap, Hnone.
  - intros v data He. destruct (decode_encode_command (mkCommand OpPut k v "" "" "")) as (data' & He' & Hd).
    rewrite He in He'. injection He' as <-. split.
    + unfold op_of_log. cbn [log_Data]. rewrite Hd. unfold op_of_command. cbn. by rewrite append_nil_contents.
    + intros Hc. apply coerce_string_fixpoint in Hc. congruence.
Qed.
End Properties.

(** Witness: the key [/] followed by the byte 255. *)
Lemma invalid_key_never_found_witness :
  let k := String "/"%char (String "255"%char "") in
  valid_string k = false ∧ Get (replay New []) k = (None, false).
Proof.
  intros k. assert (valid_string k = false) as Hk by (vm_compute; reflexivity).
  split; [exact Hk|]. exact (proj1 (@invalid_key_never_found key_order [] k "" Hk)).
Defined.
