(* ===== verification/Runtime.v ===== *)
(** * The environment of a node and the effects of its code

    What the program calls and does not contain is a parameter here: the
    consensus library [hashicorp/raft], the HTTP client that reads a peer's
    status, and the clock. A call is a value of [call]; the environment answers it
    and, while it runs, delivers events to the state machine. Code that makes
    calls is written in the monad [M], which threads the environment and the state
    machine, keeps the ordered trace of everything observable and can panic. *)

From S2P Require Import Prelude Utf8 Base64 Json GoJson Config Codec Fsm.

(** ** What the libraries define

    [RaftState] is [raft.RaftState] with its constant [raft.Leader] and its
    [String] method; [ErrCantBootstrap] is the library's sentinel; [decode_error]
    is the error [encoding/json] reports for a stream it rejects and
    [json_error_text] the text of [ErrJSON]. *)
Class RaftLib : Type := {
  RaftState : Type;
  RaftState_eq_dec :: EqDecision RaftState;
  Leader : RaftState;
  RaftState_String : RaftState → string;
  ErrCantBootstrap : error;
  decode_error : bytes → error;
  json_error_text : string;
}.

(** [err.Error()]. *)
Fixpoint Error `{RaftLib} (e : error) : string :=
  match e with
  | ErrText msg | ErrLib msg => msg
  | ErrWrap prefix e => prefix +:+ ": " +:+ Error e
  | ErrJSON => json_error_text
  | ErrNotLeader => "not leader"
  end.

(** [raft.Server]. *)
Record Server : Type := mkServer { Server_ID : string; Server_Address : string }.

(** The status code and the body of an HTTP response. *)
Record http_response : Type := mkResponse { resp_StatusCode : Z; resp_Body : bytes }.

(** An event the library delivers to the state machine. *)
Inductive fsm_event : Type :=
| EvApply (log : raft_Log)
| EvRestore (rc : ReadCloser).

Definition deliver1 (f : FSM) (e : fsm_event) : FSM :=
  match e with
  | EvApply log => apply1 f log
  | EvRestore rc => (Restore f rc).1.1
  end.
Definition deliver (f : FSM) (evs : list fsm_event) : FSM := foldl deliver1 f evs.

(** What the program sets in a [raft.Config] over the library's defaults; [None]
    leaves the default. The timeouts are heartbeat, election, commit and leader
    lease. *)
Record raft_settings : Type := mkSettings {
  rs_LocalID : string;
  rs_SnapshotThreshold : option Z;
  rs_SnapshotInterval : option Z;
  rs_timeouts : option (Z * Z * Z * Z);
}.

(** [os.ReadDir]: the names, or an error for which [os.IsNotExist] holds or not. *)
Inductive dir_listing : Type :=
| DirEntries (names : list string)
| DirNotExist
| DirError (err : error).

(** The two HTTP servers of the process. *)
Inductive listener : Type := HTTPListener | DebugListener.
#[export] Instance listener_eq_dec : EqDecision listener.
Proof. solve_decision. Defined.

(** What ends the wait of the process: [ListenAndServe] of one of the servers
    failed, or a signal arrived. *)
Inductive run_end : Type :=
| ListenError (l : listener) (err : error)
| Interrupted.

(** The calls of the program. Durations and times are nanoseconds.
    [HttpGet] is [http.NewRequest] followed by [peerHTTPClient.Do] and the reading
    of the body. [Listen] starts the goroutine that calls [ListenAndServe], [AwaitEnd]
    is the [select] on the error channel and the signal: meanwhile the handlers run
    and the state machine receives events. [StopServer] is [http.Server.Shutdown],
    whose error the program drops. *)
Inductive call : Type :=
| RaftState_ | RaftLeader | RaftStats
| RaftApply (cmd : bytes) (timeout : Z)
| RaftAddVoter (id addr : string) (prevIndex timeout : Z)
| RaftRemoveServer (id : string) (prevIndex timeout : Z)
| RaftSnapshot
| RaftBootstrap (servers : list Server)
| HttpGet (url : string)
| Now
(* construction and shutdown *)
| NewTCPTransport (addr : string) (maxPool timeout : Z)
| NewInmemTransport (addr : string)
| MkdirAll (path : string) (perm : Z)
| NewBoltStore (path : string)
| NewInmemStore
| NewFileSnapshotStore (base : string) (retain : Z)
| NewInmemSnapshotStore
| NewRaft (cfg : raft_settings)
| RaftShutdown
| CloseStore
| CloseTransport
(* recovery *)
| ReadDir (path : string)
| RemoveAll (path : string)
| HasExistingState
| RecoverCluster (cfg : raft_settings) (servers : list Server)
| BootstrapFresh (cfg : raft_settings) (servers : list Server)
(* the server process *)
| Listen (l : listener) (addr : string)
| AwaitEnd
| StopServer (l : listener).

(** What the program reads of each answer; a future is its [Error()]. *)
Definition answer `{RaftLib} (c : call) : Type :=
  match c with
  | RaftState_ => RaftState
  | RaftLeader => string
  | RaftStats => gmap string string
  | RaftApply _ _ | RaftAddVoter _ _ _ _ | RaftRemoveServer _ _ _
  | RaftSnapshot | RaftBootstrap _ => option error
  | NewTCPTransport _ _ _ | MkdirAll _ _ | NewBoltStore _ | NewFileSnapshotStore _ _ | NewRaft _
  | RaftShutdown | CloseStore | CloseTransport | RemoveAll _
  | RecoverCluster _ _ | BootstrapFresh _ _ => option error
  | NewInmemTransport _ | NewInmemStore | NewInmemSnapshotStore | Listen _ _ | StopServer _ => unit
  | ReadDir _ => dir_listing
  | HasExistingState => result error bool
  | AwaitEnd => run_end
  | HttpGet _ => result error http_response
  | Now => Z
  end.

(** The environment: a state, and for each call the answer and the events the
    state machine received since the previous call. Entries applied between two
    calls of a handler, by other clients or replicated from a leader, are the
    events of the later call. *)
Class Env `{RaftLib} : Type := {
  World : Type;
  handle (c : call) : World → answer c * list fsm_event * World;
}.

(** Documented behaviour of the library: when the future of [Apply] reports no
    error, the entry has been committed and applied to the local state machine. *)
Class ApplyLaw `{Env} : Prop := {
  apply_committed cmd timeout w evs w' :
    handle (RaftApply cmd timeout) w = (None, evs, w') →
    ∃ pre index post, evs = pre ++ EvApply (mkLog index cmd) :: post;
}.

(** ** Observations *)

(** Increments and observations of the Prometheus metrics of package metrics. *)
Inductive metric : Type :=
| KvOps (op : string)
| KvErrors (op : string)
| ApplyDur (op : string) (ns : Z)
| ReadDur (op : string) (ns : Z)
| Snapshots
| HttpReqs (method code : string)
| HttpDur (method : string) (ns : Z).

(** Calls on an [http.ResponseWriter]. *)
Inductive write_op : Type :=
| SetHeader (key value : string)
| DelHeader (key : string)
| WriteHeader (code : Z)
| Write (b : bytes).

Inductive obs `{RaftLib} : Type :=
| Called (c : call) (a : answer c) (evs : list fsm_event)
| Metric (m : metric)
| Out (o : write_op).

Definition trace `{RaftLib} : Type := list obs.

(** The parts of a trace. *)
Definition metrics_of `{RaftLib} (tr : trace) : list metric :=
  omap (λ o, match o with Metric m => Some m | _ => None end) tr.
Definition writes_of `{RaftLib} (tr : trace) : list write_op :=
  omap (λ o, match o with Out w => Some w | _ => None end) tr.
Definition calls_of `{RaftLib} (tr : trace) : list call :=
  omap (λ o, match o with Called c _ _ => Some c | _ => None end) tr.
Definition events_of `{RaftLib} (tr : trace) : list fsm_event :=
  concat (omap (λ o, match o with Called _ _ evs => Some evs | _ => None end) tr).

(** The entries proposed to the log, with their timeouts. *)
Definition proposals `{RaftLib} (tr : trace) : list (bytes * Z) :=
  omap (λ c, match c with RaftApply cmd t => Some (cmd, t) | _ => None end) (calls_of tr).

(** ** The monad *)

(** A handler returns or panics. *)
Inductive outcome (A : Type) : Type :=
| Done (a : A)
| Panic.
Arguments Done {A} a.
Arguments Panic {A}.

Section Monad.
  Context `{Env}.

Record St : Type := mkSt { st_world : World; st_fsm : FSM; st_trace : trace }.
Definition M (A : Type) : Type := St → outcome A * St.

Definition emit (s : St) (o : obs) : St := mkSt (st_world s) (st_fsm s) (st_trace s ++ [o]).

  (** Making a call: the environment steps, the state machine receives the events. *)
Definition do_call (c : call) : M (answer c) := λ s,
    let '(a, evs, w') := handle c (st_world s) in
    (Done a, mkSt w' (deliver (st_fsm s) evs) (st_trace s ++ [Called c a evs])).
Definition tell (o : obs) : M unit := λ s, (Done tt, emit s o).
Definition get_fsm : M FSM := λ s, (Done (st_fsm s), s).
Definition panic {A} : M A := λ s, (Panic, s).

#[export] Instance M_ret : MRet M := λ _ a s, (Done a, s).
#[export] Instance M_bind : MBind M := λ _ _ k m s,
    match m s with
    | (Done a, s') => k a s'
    | (Panic, s') => (Panic, s')
    end.
End Monad.

(** ** Reasoning: what a run adds to the trace

    [wp m Q] says that every run of [m] from any state ends in an outcome and with
    an appended trace that satisfy [Q], that the state machine received exactly
    the events of that trace, and that every recorded call was answered by the
    environment. *)
Section Reasoning.
  Context `{Env}.

Definition answered (o : obs) : Prop :=
    match o with
    | Called c a evs => ∃ w w', handle c w = (a, evs, w')
    | _ => True
    end.

Definition wp {A} (m : M A) (f : FSM) (Q : outcome A → trace → Prop) : Prop :=
    ∀ s, st_fsm s = f →
    let '(o, s') := m s in
    ∃ tr, st_trace s' = st_trace s ++ tr ∧
          st_fsm s' = deliver f (events_of tr) ∧
          Forall answered tr ∧ Q o tr.

Lemma events_of_app tr1 tr2 : events_of (tr1 ++ tr2) = events_of tr1 ++ events_of tr2.
Proof. unfold events_of. by rewrite omap_app, concat_app. Qed.

Lemma events_of_cons x tr : events_of (x :: tr) = events_of [x] ++ events_of tr.
Proof. apply (events_of_app [x]). Qed.

Lemma events_of_called (c : call) (x : answer c) evs tr :
  events_of (Called c x evs :: tr) = evs ++ events_of tr.
Proof. done. Qed.

Lemma calls_of_app tr1 tr2 : calls_of (tr1 ++ tr2) = calls_of tr1 ++ calls_of tr2.
Proof. apply omap_app. Qed.

Lemma called_in_calls (c : call) (x : answer c) evs tr : Called c x evs ∈ tr → c ∈ calls_of tr.
Proof. intros Hin. unfold calls_of. apply list_elem_of_omap. by exists (Called c x evs). Qed.

Lemma deliver_app f e1 e2 : deliver f (e1 ++ e2) = deliver (deliver f e1) e2.
Proof. apply foldl_app. Qed.

Lemma wp_ret {A} (a : A) f (Q : outcome A → trace → Prop) : Q (Done a) [] → wp (mret a) f Q.
Proof. intros HQ s Hs. exists []. by rewrite app_nil_r. Qed.

Lemma wp_panic {A} f (Q : outcome A → trace → Prop) : Q Panic [] → wp panic f Q.
Proof. intros HQ s Hs. exists []. by rewrite app_nil_r. Qed.

Lemma wp_bind {A B} (m : M A) (k : A → M B) f (Q : outcome B → trace → Prop) :
  wp m f (λ o tr1,
    match o with
    | Done a => wp (k a) (deliver f (events_of tr1)) (λ o2 tr2, Q o2 (tr1 ++ tr2))
    | Panic => Q Panic tr1
    end) →
  wp (m ≫= k) f Q.
Proof.
  intros Hm s Hs. specialize (Hm s Hs). unfold mbind, M_bind.
  destruct (m s) as [[a|] s1]; destruct Hm as (tr1 & Ht1 & Hf1 & Ha1 & HQ); [|by exists tr1].
  specialize (HQ s1 Hf1). destruct (k a s1) as [o s2].
  destruct HQ as (tr2 & Ht2 & Hf2 & Ha2 & HQ). exists (tr1 ++ tr2).
  rewrite Ht2, Ht1, app_assoc, events_of_app, deliver_app. split_and!; try done. by apply Forall_app.
Qed.

Lemma wp_call (c : call) f (Q : outcome (answer c) → trace → Prop) :
  (∀ a evs, answered (Called c a evs) → Q (Done a) [Called c a evs]) → wp (do_call c) f Q.
Proof.
  intros HQ s Hs. unfold do_call. destruct (handle c (st_world s)) as [[a evs] w'] eqn:E.
  exists [Called c a evs]. cbn. unfold events_of. cbn. rewrite app_nil_r, Hs.
  assert (answered (Called c a evs)) as Ha by (by exists (st_world s), w').
  split_and!; [done|done|by repeat constructor|by apply HQ].
Qed.

Lemma wp_get_fsm f (Q : outcome FSM → trace → Prop) : Q (Done f) [] → wp get_fsm f Q.
Proof. intros HQ s Hs. exists []. cbn. by rewrite app_nil_r, Hs. Qed.

Lemma wp_tell (o : obs) f (Q : outcome unit → trace → Prop) :
  events_of [o] = [] → answered o → Q (Done tt) [o] → wp (tell o) f Q.
Proof.
  intros He Ha HQ s Hs. exists [o]. cbn [tell emit st_trace st_fsm]. rewrite He. cbn. split_and!; auto.
Qed.

Lemma wp_mono {A} (m : M A) f (Q1 Q2 : outcome A → trace → Prop) :
  wp m f Q1 → (∀ o tr, Forall answered tr → Q1 o tr → Q2 o tr) → wp m f Q2.
Proof.
  intros Hm HQ s Hs. specialize (Hm s Hs). destruct (m s) as [o s'].
  destruct Hm as (tr & ? & ? & ? & ?). exists tr. auto.
Qed.

End Reasoning.

(** One step of symbolic execution of a handler. *)
Ltac wp_step :=
  cbv beta;
  match goal with
  | |- @wp _ _ _ ?m _ _ =>
    match m with
    | mret _ => apply wp_ret
    | panic => apply wp_panic
    | _ ≫= _ => apply wp_bind
    | do_call ?c =>
      apply (wp_call c);
      let x := fresh "ans" in let e := fresh "evs" in let h := fresh "Hans" in
      intros x e h; cbn [answer] in x
    | get_fsm => apply wp_get_fsm
    | tell _ => apply wp_tell; [done|done|]
    end
  end; cbv beta iota; cbn [app].
