(* ===== verification/Loopback.v ===== *)
(** * A concrete environment

    A single-node cluster: commands are committed at once when the node leads,
    refused otherwise. It satisfies the law of [Apply] and is used to evaluate the
    handlers on concrete inputs. *)

From S2P Require Import Prelude Utf8 Base64 Json GoJson Config Codec Fsm Runtime.
Local Open Scope Z_scope.

Definition loop_lib : RaftLib := {|
  RaftState := bool;
  Leader := true;
  RaftState_String := λ b : bool, if b then "Leader" else "Follower";
  ErrCantBootstrap := ErrLib "bootstrap only works on new clusters";
  decode_error := λ _, ErrLib "invalid character";
  json_error_text := "invalid character";
|}.

Record loop_world : Type := mkLoop {
  lp_leads : bool;                        (* is this node the leader? *)
  lp_leader : string;                     (* the leader's raft address *)
  lp_last : Z;                            (* last log index *)
  lp_stats : gmap string string;
  lp_servers : list Server;
  lp_http : gmap string http_response;    (* the peers that answer, by URL *)
  lp_clock : Z;
}.

Definition refused : error := ErrLib "node is not the leader".

Definition loop_handle (c : call) (w : loop_world) :
    @answer loop_lib c * list fsm_event * loop_world :=
  let '(mkLoop leads leader last stats servers http clock) := w in
  match c return @answer loop_lib c * list fsm_event * loop_world with
  | RaftState_ => (leads, [], w)
  | RaftLeader => (leader, [], w)
  | RaftStats => (stats, [], w)
  | RaftApply cmd _ =>
    if leads then
      (None, [EvApply (mkLog (last + 1) cmd)],
       mkLoop leads leader (last + 1) stats servers http clock)
    else (Some refused, [], w)
  | RaftAddVoter id addr _ _ =>
    if leads then (None, [], mkLoop leads leader (last + 1) stats (servers ++ [mkServer id addr]) http clock)
    else (Some refused, [], w)
  | RaftRemoveServer id _ _ =>
    if leads then
      (None, [], mkLoop leads leader (last + 1) stats (filter (λ s, Server_ID s ≠ id) servers) http clock)
    else (Some refused, [], w)
  | RaftSnapshot => (None, [], w)
  | RaftBootstrap ss =>
    if decide (servers = []) then (None, [], mkLoop true leader last stats ss http clock)
    else (Some (@ErrCantBootstrap loop_lib), [], w)
  | HttpGet url =>
    (match http !! url with Some r => Ok r | None => Err (ErrLib "connection refused") end, [], w)
  | NewTCPTransport _ _ _ | MkdirAll _ _ | NewBoltStore _ | NewFileSnapshotStore _ _ | NewRaft _
  | RaftShutdown | CloseStore | CloseTransport | RemoveAll _
  | RecoverCluster _ _ | BootstrapFresh _ _ => (None, [], w)
  | NewInmemTransport _ | NewInmemStore | NewInmemSnapshotStore | Listen _ _ | StopServer _ => (tt, [], w)
  | ReadDir _ => (DirEntries ["raft.db"; "snapshots"], [], w)
  | HasExistingState => (Ok false, [], w)
  | AwaitEnd => (Interrupted, [], w)
  | Now => (clock, [], mkLoop leads leader last stats servers http (clock + 1))
  end.

Definition loop_env : @Env loop_lib := {| World := loop_world; handle := loop_handle |}.

Lemma loop_law : @ApplyLaw loop_lib loop_env.
Proof.
  split. intros cmd timeout [leads leader last stats servers http clock] evs w'. cbn.
  destruct leads; [|done]. intros [= <- <-]. by exists [], (last + 1), [].
Qed.

(** A leader and a follower with an empty state machine. *)
Definition leader_world : loop_world := mkLoop true "127.0.0.1:7001" 0 ∅ [mkServer "n1" "127.0.0.1:7001"] ∅ 0.
Definition follower_world : loop_world := mkLoop false "127.0.0.1:7002" 0 ∅ [] ∅ 0.
Definition start (w : loop_world) (f : FSM) : @St loop_lib loop_env := @mkSt loop_lib loop_env w f [].
