(* ===== verification/RaftNode.v ===== *)
(** * The consensus node as the rest of the program uses it
    ([internal/raftnode/raftnode.go])

    The accessors and the operations of [Node] over the consensus library, the
    merged peer table used for status fan-out, and the map from a raft address to
    an HTTP address used for redirects. Construction and shutdown are in
    [Lifecycle]. *)

From S2P Require Import Prelude Utf8 Base64 Json GoJson Config Codec Fsm Runtime.

(** What the operations read of a [Node]; its [raft] and [fsm] are in the monad. *)
Record Node : Type := mkNode {
  node_cfg : Config;
  node_membershipTimeout : Z;
}.

Definition ID (n : Node) : string := cfg_NodeID (node_cfg n).

(** ** Peer tables *)

Section Peers.
  Context `{MapOrder}.

  (** One pass of the loops of [PeerHTTPAddrs]. *)
Definition add_http (out : gmap string string) (p : Peer) : gmap string string :=
    if decide (Peer_HTTPAddr p ≠ "") then <[Peer_ID p := Peer_HTTPAddr p]> out else out.

Definition peer_http_addrs (cfg : Config) (f : FSM) : gmap string string :=
    foldl add_http (foldl add_http ∅ (cfg_Peers cfg)) (FSM_Peers f).

  (** The loops of [HTTPAddrForRaft]: the first peer with that address decides,
      its HTTP address may be empty. *)
Definition first_with_addr (raftAddr : string) (ps : list Peer) : option Peer :=
    head (filter (λ p, Peer_Addr p = raftAddr) ps).

Definition http_addr_for_raft (cfg : Config) (f : FSM) (raftAddr : string) : string :=
    match first_with_addr raftAddr (cfg_Peers cfg) with
    | Some p => Peer_HTTPAddr p
    | None =>
      match first_with_addr raftAddr (FSM_Peers f) with
      | Some p => Peer_HTTPAddr p
      | None => ""
      end
    end.
End Peers.

(** ** Operations *)

Section Node.
  Context `{Env, MapOrder}.

Definition node_Apply (cmd : bytes) (timeout : Z) : M (option error) := do_call (RaftApply cmd timeout).

Definition IsLeader : M bool :=
    s ← do_call RaftState_; mret (bool_decide (s = Leader)).

Definition LeaderAddr : M string := do_call RaftLeader.

Definition State : M RaftState := do_call RaftState_.

Definition Stats : M (gmap string string) := do_call RaftStats.

Definition AddVoter (n : Node) (id addr : string) : M (option error) :=
    do_call (RaftAddVoter id addr 0 (node_membershipTimeout n)).

Definition RemoveServer (n : Node) (id : string) : M (option error) :=
    do_call (RaftRemoveServer id 0 (node_membershipTimeout n)).

Definition node_Snapshot : M (option error) := do_call RaftSnapshot.

Definition PeerHTTPAddrs (n : Node) : M (gmap string string) :=
    f ← get_fsm; mret (peer_http_addrs (node_cfg n) f).

Definition HTTPAddrForRaft (n : Node) (raftAddr : string) : M string :=
    f ← get_fsm; mret (http_addr_for_raft (node_cfg n) f raftAddr).

  (** [BootstrapCluster]: the configured peers become the servers; a cluster that
      has been bootstrapped before is not an error. *)
Definition BootstrapCluster (n : Node) : M (option error) :=
    e ← do_call (RaftBootstrap ((λ p, mkServer (Peer_ID p) (Peer_Addr p)) <$> cfg_Peers (node_cfg n)));
    mret (match e with
          | Some err => if errors_Is err ErrCantBootstrap then None else Some err
          | None => None
          end).
End Node.

(** ** What the operations do *)

Section Specs.
  Context `{Env, MapOrder}.

Lemma wp_IsLeader f (Q : outcome bool → trace → Prop) :
  (∀ s evs, Q (Done (bool_decide (s = Leader))) [Called RaftState_ s evs]) → wp IsLeader f Q.
Proof. intros HQ. unfold IsLeader. wp_step. wp_step. wp_step. apply HQ. Qed.

Lemma wp_http_addr_for_raft n a f (Q : outcome string → trace → Prop) :
  Q (Done (http_addr_for_raft (node_cfg n) f a)) [] → wp (HTTPAddrForRaft n a) f Q.
Proof. intros HQ. unfold HTTPAddrForRaft. wp_step. wp_step. by wp_step. Qed.

Lemma wp_PeerHTTPAddrs n f (Q : outcome (gmap string string) → trace → Prop) :
  Q (Done (peer_http_addrs (node_cfg n) f)) [] → wp (PeerHTTPAddrs n) f Q.
Proof. intros HQ. unfold PeerHTTPAddrs. wp_step. wp_step. by wp_step. Qed.
End Specs.

(** ** Lookup in the merged table *)

(** A later peer overrides an earlier one; peers without an address do not count. *)
Definition last_http (id : string) (ps : list Peer) : option string :=
  Peer_HTTPAddr <$> last (filter (λ p, Peer_ID p = id ∧ Peer_HTTPAddr p ≠ "") ps).

Lemma foldl_add_http ps out id :
  foldl add_http out ps !! id = match last_http id ps with Some a => Some a | None => out !! id end.
Proof.
  induction ps as [|p ps IH] using rev_ind; [done|].
  rewrite foldl_app. cbn. unfold last_http, add_http at 1. rewrite filter_app, last_app.
  unfold last_http in IH. rewrite filter_cons, filter_nil. cbn.
  destruct (decide (Peer_HTTPAddr p ≠ "")) as [Hh|Hh].
  - destruct (decide (Peer_ID p = id)) as [<-|Hne].
    + by rewrite lookup_insert_eq, decide_True.
    + rewrite lookup_insert_ne, decide_False by tauto. exact IH.
  - rewrite (decide_False (P := _ ∧ _)) by tauto. exact IH.
Qed.

Lemma last_http_unique id p ps :
  p ∈ ps → (∀ q, q ∈ ps → Peer_ID q = Peer_ID p → q = p) → Peer_ID p = id →
  last_http id ps = if decide (Peer_HTTPAddr p ≠ "") then Some (Peer_HTTPAddr p) else None.
Proof.
  intros Hp Hu Hid. unfold last_http.
  destruct (last (filter _ ps)) as [q|] eqn:E.
  - apply last_Some_elem_of, list_elem_of_filter in E as [[Hq Hh] Hin].
    assert (q = p) as -> by (apply Hu; congruence). by rewrite decide_True.
  - apply last_None in E. rewrite decide_False; [done|]. intros Hh.
    assert (p ∈ filter (λ p, Peer_ID p = id ∧ Peer_HTTPAddr p ≠ "") ps) as Hin
      by (by apply list_elem_of_filter).
    rewrite E in Hin. by apply not_elem_of_nil in Hin.
Qed.

Lemma last_http_absent id ps :
  (∀ q, q ∈ ps → Peer_ID q ≠ id) → last_http id ps = None.
Proof.
  intros Hq. unfold last_http. destruct (last (filter _ ps)) as [q|] eqn:E; [|done].
  apply last_Some_elem_of, list_elem_of_filter in E as [[? _] Hin]. by destruct (Hq q Hin).
Qed.

Lemma first_with_addr_Some a ps p : first_with_addr a ps = Some p → p ∈ ps ∧ Peer_Addr p = a.
Proof.
  unfold first_with_addr. intros [Ha Hin]%head_Some_elem_of%list_elem_of_filter. done.
Qed.

Lemma first_with_addr_None a ps : first_with_addr a ps = None ↔ ∀ p, p ∈ ps → Peer_Addr p ≠ a.
Proof.
  unfold first_with_addr. rewrite head_None. split.
  - intros E p Hin Ha.
    assert (p ∈ filter (λ p, Peer_Addr p = a) ps) as Hp by (by apply list_elem_of_filter).
    rewrite E in Hp. by apply not_elem_of_nil in Hp.
  - intros Hno. destruct (filter _ ps) as [|p l] eqn:E; [done|].
    assert (p ∈ p :: l) as Hp by left. rewrite <-E in Hp.
    apply list_elem_of_filter in Hp as [Ha Hin]. by destruct (Hno p Hin).
Qed.

(** In a well-formed state a dynamic peer is alone with its ID. *)
Lemma wf_peers_unique `{MapOrder} f id p :
  wf f → fsm_peers f !! id = Some p →
  p ∈ FSM_Peers f ∧ Peer_ID p = id ∧ ∀ q, q ∈ FSM_Peers f → Peer_ID q = Peer_ID p → q = p.
Proof.
  intros [_ Hp] Hid. destruct (Hp id p Hid) as (_ & Hpid & _). split_and!; [by apply FSM_Peers_elem; eauto|done|].
  intros q [id' Hq]%FSM_Peers_elem Heq. destruct (Hp id' q Hq) as (_ & Hqid & _). congruence.
Qed.

Lemma wf_peers_absent `{MapOrder} f id :
  wf f → fsm_peers f !! id = None → ∀ q, q ∈ FSM_Peers f → Peer_ID q ≠ id.
Proof.
  intros [_ Hp] Hid q [id' Hq]%FSM_Peers_elem Heq. destruct (Hp id' q Hq) as (_ & Hqid & _). congruence.
Qed.

Lemma peer_http_addrs_lookup `{MapOrder} cfg f id : wf f →
  peer_http_addrs cfg f !! id =
    match fsm_peers f !! id with
    | Some p => if decide (Peer_HTTPAddr p ≠ "") then Some (Peer_HTTPAddr p) else last_http id (cfg_Peers cfg)
    | None => last_http id (cfg_Peers cfg)
    end.
Proof.
  intros Hf. unfold peer_http_addrs. rewrite !foldl_add_http, lookup_empty.
  replace (match last_http id (cfg_Peers cfg) with Some a => Some a | None => None end)
    with (last_http id (cfg_Peers cfg)) by (by destruct (last_http id (cfg_Peers cfg))).
  destruct (fsm_peers f !! id) as [p|] eqn:E.
  - destruct (wf_peers_unique f id p Hf E) as (Hin & Hid & Hu).
    rewrite (last_http_unique id p) by done. by case_decide.
  - by rewrite last_http_absent by by apply wf_peers_absent.
Qed.

Lemma peer_http_addrs_nonempty `{MapOrder} cfg f id a : peer_http_addrs cfg f !! id = Some a → a ≠ "".
Proof.
  assert (∀ ps a, last_http id ps = Some a → a ≠ "") as Hlast.
  { intros ps a' (p & Hp & Ha)%fmap_Some. apply last_Some_elem_of, list_elem_of_filter in Hp as [[_ Hh] _].
    congruence. }
  unfold peer_http_addrs. rewrite !foldl_add_http, lookup_empty. repeat case_match; intros; simplify_eq; eauto.
Qed.

(** ** Properties *)

(** C15: the fan-out table of a node that applied any log: a live dynamic peer
    overrides the static entry of the same ID, peers without an HTTP address are
    omitted, and the table does not depend on the iteration order of the dynamic
    peers. *)
Theorem PeerHTTPAddrs_merge (o1 o2 : MapOrder) (cfg : Config) (logs : list raft_Log) :
  let f := replay New logs in
  @peer_http_addrs o1 cfg f = @peer_http_addrs o2 cfg f ∧
  map_Forall (λ _ a, a ≠ "") (@peer_http_addrs o1 cfg f) ∧
  ∀ id, @peer_http_addrs o1 cfg f !! id =
    match fsm_peers f !! id with
    | Some p => if decide (Peer_HTTPAddr p ≠ "") then Some (Peer_HTTPAddr p) else last_http id (cfg_Peers cfg)
    | None => last_http id (cfg_Peers cfg)
    end.
Proof.
  intros f. assert (wf f) as Hf by apply replay_wf, wf_New.
  split_and!.
  - apply map_eq. intros id. by rewrite !peer_http_addrs_lookup.
  - intros id a. apply peer_http_addrs_nonempty.
  - intros id. by apply peer_http_addrs_lookup.
Qed.

(** C16: the HTTP address found for a raft address belongs to a peer with that raft
    address, a static peer first, even when that peer has no HTTP address; the
    empty string means that no peer has that address, or that the one found has no
    HTTP address. *)
Theorem HTTPAddrForRaft_sound `{MapOrder} (cfg : Config) (f : FSM) (a : string) :
  (∃ p, Peer_Addr p = a ∧ http_addr_for_raft cfg f a = Peer_HTTPAddr p ∧
     (p ∈ cfg_Peers cfg ∨ (∀ q, q ∈ cfg_Peers cfg → Peer_Addr q ≠ a) ∧ p ∈ FSM_Peers f)) ∨
  (∀ p, p ∈ cfg_Peers cfg ++ FSM_Peers f → Peer_Addr p ≠ a) ∧ http_addr_for_raft cfg f a = "".
Proof.
  unfold http_addr_for_raft. destruct (first_with_addr a (cfg_Peers cfg)) as [p|] eqn:E1.
  - apply first_with_addr_Some in E1 as [Hin Ha]. left. exists p. auto.
  - rewrite first_with_addr_None in E1. destruct (first_with_addr a (FSM_Peers f)) as [p|] eqn:E2.
    + apply first_with_addr_Some in E2 as [Hin Ha]. left. exists p. auto.
    + rewrite first_with_addr_None in E2. right. split; [|done].
      intros p [Hp|Hp]%elem_of_app; auto.
Qed.

(** Bootstrapping asks the library for exactly the configured peers, succeeds
    when the cluster was bootstrapped before, and reports every other error
    unchanged. *)
Theorem BootstrapCluster_idempotent `{Env} (n : Node) (f : FSM) :
  wp (BootstrapCluster n) f (λ o tr,
    ∃ e evs,
      tr = [Called (RaftBootstrap ((λ p, mkServer (Peer_ID p) (Peer_Addr p)) <$> cfg_Peers (node_cfg n))) e evs] ∧
      o = Done (match e with
                | Some err => if errors_Is err ErrCantBootstrap then None else Some err
                | None => None
                end)).
Proof. unfold BootstrapCluster. wp_step. wp_step. wp_step. eauto. Qed.
