(* ===== verification/Url.v ===== *)
(** * URLs as the server and the handlers see them

    The parts of [net/url] the handlers use: [URL.Path] decoded, [URL.RequestURI]
    for redirects, [URL.Query().Get], and the path cleaning of [http.ServeMux]. *)

From S2P Require Import Prelude Utf8 Base64 Json.
Local Open Scope Z_scope.

(** ** Escaping *)

Definition percent : ascii := "%"%char.

(** The upper-case hexadecimal digit [url.escape] writes. *)
Definition hex_upper (v : Z) : ascii := byte_of (if v <? 10 then v + 48 else v - 10 + 65).

(** [unescape] in path mode ([plus = false]) and in query mode. *)
Fixpoint url_unescape (plus : bool) (s : bytes) : option bytes :=
  match s with
  | [] => Some []
  | c :: r =>
    if decide (c = percent) then
      match r with
      | h1 :: h2 :: r' =>
        v1 ← hex_val h1; v2 ← hex_val h2;
        d ← url_unescape plus r'; Some (byte_of (Z.shiftl v1 4 + v2) :: d)
      | _ => None
      end
    else if plus && bool_decide (c = "+"%char) then d ← url_unescape plus r; Some (" "%char :: d)
    else d ← url_unescape plus r; Some (c :: d)
  end.

Definition unreserved (c : ascii) : bool :=
  let x := byte_val c in
  ((97 <=? x) && (x <=? 122)) || ((65 <=? x) && (x <=? 90)) || ((48 <=? x) && (x <=? 57)) ||
  bool_decide (c ∈ String.list_ascii_of_string "-_.~").

(** [shouldEscape(c, encodePath)]. *)
Definition should_escape_path (c : ascii) : bool :=
  negb (unreserved c || bool_decide (c ∈ String.list_ascii_of_string "$&+,/:;=@")).

Definition url_escape_byte (c : ascii) : bytes :=
  if should_escape_path c
  then [percent; hex_upper (Z.shiftr (byte_val c) 4); hex_upper (Z.land (byte_val c) 15)]
  else [c].

(** [escape(s, encodePath)]. *)
Definition url_escape_path (s : bytes) : bytes := concat (map url_escape_byte s).

(** [validEncoded(s, encodePath)]. *)
Definition valid_encoded (s : bytes) : bool :=
  forallb (λ c, bool_decide (c ∈ String.list_ascii_of_string "!$&'()*+,;=:@[]%") || negb (should_escape_path c)) s.

(** ** URLs *)

(** The fields of [url.URL] a server request carries: the scheme and the opaque
    part of a target such as [x:y], the decoded path, its original encoding when it
    differs from the default one, whether an empty query was marked, the raw
    query. *)
Record URL : Type := mkURL {
  Scheme : string;
  Opaque : string;
  Path : string;
  RawPath : string;
  ForceQuery : bool;
  RawQuery : string;
}.

(** The URL of a rooted path, with its query. *)
Definition path_url (path query : string) : URL := mkURL "" "" path "" false query.

(** [URL.EscapedPath]. *)
Definition EscapedPath (u : URL) : string :=
  let raw := to_bytes (RawPath u) in
  if negb (bool_decide (RawPath u = "")) && valid_encoded raw
     && bool_decide (url_unescape false raw = Some (to_bytes (Path u)))
  then RawPath u
  else if decide (Path u = "*") then "*"
  else of_bytes (url_escape_path (to_bytes (Path u))).

(** [URL.RequestURI]. *)
Definition RequestURI (u : URL) : string :=
  let result :=
    if decide (Opaque u = "") then
      let p := EscapedPath u in if decide (p = "") then "/" else p
    else if String.prefix "//" (Opaque u) then Scheme u +:+ ":" +:+ Opaque u
    else Opaque u in
  if ForceQuery u || negb (bool_decide (RawQuery u = "")) then result +:+ "?" +:+ RawQuery u else result.

(** ** Queries *)

Fixpoint cut (sep : ascii) (s : bytes) : bytes * option bytes :=
  match s with
  | [] => ([], None)
  | c :: r =>
    if decide (c = sep) then ([], Some r)
    else let '(a, b) := cut sep r in (c :: a, b)
  end.

(** The pieces of a string between occurrences of a separator. *)
Fixpoint split_on (sep : ascii) (s : bytes) : list bytes :=
  match s with
  | [] => [[]]
  | c :: r =>
    if decide (c = sep) then [] :: split_on sep r
    else match split_on sep r with
         | p :: ps => (c :: p) :: ps
         | [] => [[c]]
         end
  end.

(** One parameter of [ParseQuery]; a malformed one is dropped. *)
Definition query_pair (piece : bytes) : option (bytes * bytes) :=
  if decide (";"%char ∈ piece) then None
  else if decide (piece = []) then None
  else
    let '(k, v) := cut "="%char piece in
    k ← url_unescape true k; v ← url_unescape true (default [] v); Some (k, v).

(** [URL.Query().Get(name)]. *)
Definition Query_Get (u : URL) (name : string) : string :=
  match filter (λ kv, kv.1 = to_bytes name) (omap query_pair (split_on "&"%char (to_bytes (RawQuery u)))) with
  | (_, v) :: _ => of_bytes v
  | [] => ""
  end.

(** ** Path cleaning ([path.Clean] and [cleanPath] of [net/http]) *)

Definition clean_step (acc : list bytes) (seg : bytes) : list bytes :=
  if decide (seg = [] ∨ seg = ["."%char]) then acc
  else if decide (seg = ["."%char; "."%char]) then tail acc
  else seg :: acc.

Definition clean_segments (p : bytes) : list bytes :=
  reverse (foldl clean_step [] (split_on "/"%char p)).

(** [path.Clean] of a rooted path. *)
Definition path_Clean (p : bytes) : bytes :=
  match clean_segments p with
  | [] => ["/"%char]
  | segs => concat (map (cons "/"%char) segs)
  end.

Definition cleanPath (p : bytes) : bytes :=
  if decide (p = []) then ["/"%char]
  else
    let p := if decide (head p = Some "/"%char) then p else "/"%char :: p in
    let np := path_Clean p in
    if bool_decide (last p = Some "/"%char) && negb (bool_decide (np = ["/"%char]))
    then np ++ ["/"%char] else np.

(** ** Lemmas *)

Definition escape_byte_undone (c : ascii) : bool :=
  match url_escape_byte c with
  | [c'] => bool_decide (c' = c) && negb (bool_decide (c = percent))
  | [p; h1; h2] =>
    bool_decide (p = percent) &&
    match hex_val h1, hex_val h2 with
    | Some v1, Some v2 => bool_decide (byte_of (Z.shiftl v1 4 + v2) = c)
    | _, _ => false
    end
  | _ => false
  end.

Lemma escape_byte_undone_all c : escape_byte_undone c = true.
Proof. apply (byte_all escape_byte_undone). vm_compute. reflexivity. Qed.

Lemma unescape_escape_path s : url_unescape false (url_escape_path s) = Some s.
Proof.
  induction s as [|c s IH]; [done|]. unfold url_escape_path in *. cbn [map concat].
  pose proof (escape_byte_undone_all c) as Hc. unfold escape_byte_undone in Hc.
  destruct (url_escape_byte c) as [|c1 [|c2 [|c3 [|]]]]; try done; cbn [app] in *.
  - apply andb_true_iff in Hc as [->%bool_decide_eq_true Hp%negb_true_iff%bool_decide_eq_false].
    cbn [url_unescape]. by rewrite decide_False, IH.
  - apply andb_true_iff in Hc as [->%bool_decide_eq_true Hc]. cbn [url_unescape].
    rewrite decide_True by done. destruct (hex_val c2) as [v1|]; [|done]. destruct (hex_val c3) as [v2|]; [|done].
    apply bool_decide_eq_true in Hc. cbn -[byte_of Z.shiftl]. by rewrite IH, Hc.
Qed.

(** The encoding a redirect carries decodes to the path of the request. *)
Lemma unescape_EscapedPath u :
  url_unescape false (to_bytes (EscapedPath u)) = Some (to_bytes (Path u)).
Proof.
  unfold EscapedPath. destruct (negb _ && _ && _) eqn:E.
  - apply andb_true_iff in E as [_ E%bool_decide_eq_true]. done.
  - destruct (decide (Path u = "*")) as [->|]; [done|]. rewrite to_of_bytes. apply unescape_escape_path.
Qed.

(** No escaped path contains the query marker. *)
Lemma escape_byte_no_query : ∀ c, forallb (λ x, negb (bool_decide (x = "?"%char))) (url_escape_byte c) = true.
Proof.
  apply (byte_all (λ c, forallb (λ x, negb (bool_decide (x = "?"%char))) (url_escape_byte c))).
  vm_compute. reflexivity.
Qed.

Lemma valid_encoded_no_query : ∀ c,
  negb (bool_decide (c ∈ String.list_ascii_of_string "!$&'()*+,;=:@[]%") || negb (should_escape_path c))
  || negb (bool_decide (c = "?"%char)) = true.
Proof. apply byte_all. vm_compute. reflexivity. Qed.

Lemma EscapedPath_no_query u : "?"%char ∉ to_bytes (EscapedPath u).
Proof.
  unfold EscapedPath. destruct (negb _ && _ && _) eqn:E.
  - apply andb_true_iff in E as [[_ E]%andb_true_iff _]. intros Hin.
    unfold valid_encoded in E. rewrite forallb_forall in E.
    specialize (E _ (proj1 (list_elem_of_In _ _) Hin)).
    pose proof (valid_encoded_no_query "?"%char) as Hq. by rewrite E in Hq.
  - destruct (decide (Path u = "*")) as [|_]; [set_solver|]. rewrite to_of_bytes.
    unfold url_escape_path. intros (l & (c & <- & _)%in_map_iff & Hl)%list_elem_of_In%in_concat.
    pose proof (escape_byte_no_query c) as Hc. rewrite forallb_forall in Hc.
    by specialize (Hc _ Hl).
Qed.

Lemma cut_absent sep a b : sep ∉ a → cut sep (a ++ sep :: b) = (a, Some b).
Proof.
  induction a as [|c a IH]; intros Ha; cbn; [by rewrite decide_True|].
  rewrite decide_False by set_solver. rewrite IH by set_solver. done.
Qed.

Lemma cut_none sep a : sep ∉ a → cut sep a = (a, None).
Proof.
  induction a as [|c a IH]; intros Ha; cbn; [done|].
  rewrite decide_False by set_solver. rewrite IH by set_solver. done.
Qed.

Lemma url_unescape_nil plus s : url_unescape plus s = Some [] → s = [].
Proof.
  destruct s as [|c r]; [done|]. cbn [url_unescape]. intros H. exfalso. revert H.
  destruct (decide (c = percent)).
  - destruct r as [|h1 [|h2 r]]; try done. destruct (hex_val h1), (hex_val h2); cbn; try done.
    by destruct (url_unescape plus r).
  - destruct (_ && _); by destruct (url_unescape plus r).
Qed.

(** What a server reads of the request target [RequestURI u]: the path of [u] (or
    the root) and its query, marked when it was. *)
Lemma RequestURI_read u :
  Opaque u = "" →
  ∃ p, cut "?"%char (to_bytes (RequestURI u)) =
      (p, if ForceQuery u || negb (bool_decide (RawQuery u = "")) then Some (to_bytes (RawQuery u)) else None) ∧
    url_unescape false p = Some (to_bytes (if decide (Path u = "") then "/" else Path u)).
Proof.
  intros Ho. pose proof (unescape_EscapedPath u) as Hp. pose proof (EscapedPath_no_query u) as Hq.
  unfold RequestURI. rewrite decide_True by done. set (e := EscapedPath u) in *. cbv zeta.
  set (e' := if decide (e = "") then "/" else e).
  assert ("?"%char ∉ to_bytes e') as Hq' by (unfold e'; case_decide; [set_solver|done]).
  exists (to_bytes e'). split.
  - destruct (_ || _); [|by apply cut_none]. rewrite to_bytes_app.
    change (to_bytes ("?" +:+ RawQuery u)) with ("?"%char :: to_bytes (RawQuery u)). by apply cut_absent.
  - unfold e'. destruct (decide (e = "")) as [He|He].
    + rewrite He in Hp. cbn in Hp. apply (inj Some) in Hp. change [] with (to_bytes "") in Hp.
      apply (inj to_bytes) in Hp. by rewrite <-Hp.
    + rewrite decide_False; [done|]. intros Hpe. apply He. rewrite Hpe in Hp.
      apply (inj to_bytes). by apply (url_unescape_nil false).
Qed.
