(* ===== verification/Lifecycle.v ===== *)
(** * Construction and shutdown of a node
    ([internal/raftnode/raftnode.go], [internal/raftstore], [internal/snapshot])

    The choice of the storage backends, the construction of a node from its
    configuration, its shutdown, and which resources are held in between. *)

From S2P Require Import Prelude Utf8 Base64 Json GoJson Config Codec Fsm Runtime Loopback RaftNode Url.
Local Open Scope Z_scope.

(** ** Paths ([filepath.Clean] and [filepath.Join]) *)

Definition dot : bytes := ["."%char].
Definition dotdot : bytes := ["."%char; "."%char].

Definition file_step (rooted : bool) (acc : list bytes) (seg : bytes) : list bytes :=
  if decide (seg = [] ∨ seg = dot) then acc
  else if decide (seg = dotdot) then
    match acc with
    | s :: acc' => if decide (s = dotdot) then dotdot :: acc else acc'
    | [] => if rooted then [] else [dotdot]
    end
  else seg :: acc.

Definition filepath_Clean (p : bytes) : bytes :=
  let rooted := bool_decide (head p = Some "/"%char) in
  let segs := reverse (foldl (file_step rooted) [] (split_on "/"%char p)) in
  match rooted, segs with
  | true, _ => "/"%char :: sep_by "/"%char segs
  | false, [] => dot
  | false, _ => sep_by "/"%char segs
  end.

(** Of a directory and a non-empty name. *)
Definition filepath_Join (dir name : string) : string :=
  of_bytes (filepath_Clean (if decide (dir = "") then to_bytes name else to_bytes dir ++ "/"%char :: to_bytes name)).

(** ** Storage backends *)

(** The log and stable store of a node. Only the BoltDB store comes with a
    closer. *)
Inductive stores : Type := InmemStores | BoltStores.
Definition closer_of (s : stores) : bool := match s with BoltStores => true | InmemStores => false end.

Definition second : Z := 1000000000.
Definition millisecond : Z := 1000000.
Definition minute : Z := 60 * second.

Section Backends.
  Context `{Env}.
  (** [%q]: [strconv.Quote]. *)
  Context (go_quote : string → string).

Definition newBoltStores (dataDir : string) : M (result error stores) :=
    if decide (dataDir = "") then mret (Err (ErrText "boltdb logStore requires dataDir"))
    else
      e ← do_call (MkdirAll dataDir 493);
      match e with
      | Some err => mret (Err (ErrWrap "mkdir dataDir" err))
      | None =>
        e ← do_call (NewBoltStore (filepath_Join dataDir "raft.db"));
        match e with
        | Some err => mret (Err (ErrWrap "bolt store" err))
        | None => mret (Ok BoltStores)
        end
      end.

  (** An empty type selects by [dataDir]. *)
Definition store_type (cfg : LogStoreConfig) (dataDir : string) : string :=
    if decide (LogStore_Type cfg = "") then if decide (dataDir ≠ "") then "boltdb" else "inmem"
    else LogStore_Type cfg.

Definition NewStores (cfg : LogStoreConfig) (dataDir : string) : M (result error stores) :=
    let t := store_type cfg dataDir in
    if decide (t = "boltdb") then newBoltStores dataDir
    else if decide (t = "inmem") then _ ← do_call NewInmemStore; mret (Ok InmemStores)
    else if decide (t = "rocksdb") then
      mret (Err (ErrText ("logStore type " +:+ go_quote t +:+
        " not yet implemented (extension point, see internal/raftstore/rocksdb.go)")))
    else
      mret (Err (ErrText ("unsupported logStore type " +:+ go_quote t +:+
        " (supported: inmem, boltdb; rocksdb 待实现)"))).

Definition newFileStore (cfg : SnapshotConfig) (dataDir : string) : M (result error unit) :=
    let retain := if Snapshot_Retain cfg <=? 0 then 3 else Snapshot_Retain cfg in
    let base := if decide (Snapshot_Path cfg = "") then dataDir else Snapshot_Path cfg in
    if decide (base = "") then
      mret (Err (ErrText "file snapshot store requires snapshot.path or dataDir"))
    else
      e ← do_call (NewFileSnapshotStore base retain);
      mret (match e with Some err => Err err | None => Ok tt end).

Definition NewInmem : M unit := do_call NewInmemSnapshotStore.

Definition NewStore (cfg : SnapshotConfig) (dataDir : string) : M (result error unit) :=
    if decide (Snapshot_Type cfg = "file") then newFileStore cfg dataDir
    else if decide (Snapshot_Type cfg = "inmem") then _ ← NewInmem; mret (Ok tt)
    else mret (Err (ErrText ("unsupported snapshot type " +:+ go_quote (Snapshot_Type cfg) +:+
           " (supported: file, inmem; s3 待实现)"))).

  (** ** The node *)

  (** What a constructed [Node] holds: [ns_closer] is [storeCloser != nil],
      [ns_raft] is [raft != nil]; its transport always has a [Close]. *)
Record node_state : Type := mkNodeState {
    ns_node : Node;
    ns_stores : stores;
    ns_closer : bool;
    ns_raft : bool;
  }.

  (** The [raft.Config] of [New]. *)
Definition raft_settings_of (cfg : Config) : raft_settings :=
    mkSettings (cfg_NodeID cfg)
      (Some (if 0 <? Raft_SnapshotThreshold (cfg_Raft cfg) then Raft_SnapshotThreshold (cfg_Raft cfg) else 1024))
      (Some (if 0 <? Raft_SnapshotInterval (cfg_Raft cfg) then Raft_SnapshotInterval (cfg_Raft cfg) else 10 * minute))
      (if cfg_UseInmemTransport cfg
       then Some (200 * millisecond, 200 * millisecond, 50 * millisecond, 100 * millisecond) else None).

Definition membership_timeout (cfg : Config) : Z :=
    if 0 <? Raft_MembershipTimeout (cfg_Raft cfg) then Raft_MembershipTimeout (cfg_Raft cfg) else 5 * second.

Definition new_transport (cfg : Config) : M (option error) :=
    if cfg_UseInmemTransport cfg then _ ← do_call (NewInmemTransport (cfg_RaftAddr cfg)); mret None
    else
      e ← do_call (NewTCPTransport (cfg_RaftAddr cfg) 3 (10 * second));
      mret (match e with Some err => Some (ErrWrap "tcp transport" err) | None => None end).

  (** [raftnode.New]. *)
Definition Node_New (cfg : Config) : M (result error node_state) :=
    e ← new_transport cfg;
    match e with
    | Some err => mret (Err err)
    | None =>
      r ← NewStores (cfg_LogStore cfg) (cfg_DataDir cfg);
      match r with
      | Err err => mret (Err err)
      | Ok ss =>
        r ← NewStore (cfg_Snapshot cfg) (cfg_DataDir cfg);
        match r with
        | Err err => mret (Err err)
        | Ok _ =>
          e ← do_call (NewRaft (raft_settings_of cfg));
          match e with
          | Some err => mret (Err (ErrWrap "new raft" err))
          | None => mret (Ok (mkNodeState (mkNode cfg (membership_timeout cfg)) ss (closer_of ss) true))
          end
        end
      end
    end.

  (** [Shutdown]: the first error, and the node with its store closer cleared. *)
Definition first_error (e1 e2 : option error) : option error :=
    match e1 with Some _ => e1 | None => e2 end.

Definition Shutdown (n : node_state) : M (option error * node_state) :=
    if negb (ns_raft n) then mret (None, n)
    else
      err ← do_call RaftShutdown;
      err ← (if ns_closer n then cErr ← do_call CloseStore; mret (first_error err cErr) else mret err);
      cErr ← do_call CloseTransport;
      mret (first_error err cErr, mkNodeState (ns_node n) (ns_stores n) false (ns_raft n)).
End Backends.

(** ** Resources *)

Inductive resource : Type := Transport | StoreFile | Listening (l : listener).
#[export] Instance resource_eq_dec : EqDecision resource.
Proof. solve_decision. Defined.

(** The resources held after a trace: opened and not closed. [Listening l]
    stands for a server that was started and neither stopped nor seen to fail. *)
Definition hold_step `{RaftLib} (held : list resource) (o : obs) : list resource :=
  match o with
  | Called (NewTCPTransport _ _ _) None _ | Called (NewInmemTransport _) _ _ => Transport :: held
  | Called (NewBoltStore _) None _ => StoreFile :: held
  | Called CloseTransport _ _ => filter (λ r, r ≠ Transport) held
  | Called CloseStore _ _ => filter (λ r, r ≠ StoreFile) held
  | Called (Listen l _) _ _ => Listening l :: held
  | Called (StopServer l) _ _ | Called AwaitEnd (ListenError l _) _ => filter (λ r, r ≠ Listening l) held
  | _ => held
  end.
Definition holds `{RaftLib} (held : list resource) (tr : trace) : list resource := foldl hold_step held tr.

(** Whether a trace opened the transport and the store file. *)
Definition opens_transport `{RaftLib} (o : obs) : bool :=
  match o with
  | Called (NewTCPTransport _ _ _) None _ | Called (NewInmemTransport _) _ _ => true
  | _ => false
  end.
Definition opens_file `{RaftLib} (o : obs) : bool :=
  match o with Called (NewBoltStore _) None _ => true | _ => false end.
Definition opened `{RaftLib} (tr : trace) : list resource :=
  (if existsb opens_file tr then [StoreFile] else []) ++ (if existsb opens_transport tr then [Transport] else []).

Definition node_resources (n : node_state) : list resource :=
  (if ns_closer n then [StoreFile] else []) ++ [Transport].

(** ** What construction does *)

Section Specs.
  Context `{Env} (go_quote : string → string).

Lemma holds_app held tr1 tr2 : holds held (tr1 ++ tr2) = holds (holds held tr1) tr2.
Proof. apply foldl_app. Qed.

  (** The runs of the store factory: what was opened follows from the result. *)
Inductive stores_run (cfg : LogStoreConfig) (dir : string) : result error stores → trace → Prop :=
  | sr_bolt evs1 evs2 : store_type cfg dir = "boltdb" → dir ≠ "" →
      stores_run cfg dir (Ok BoltStores)
        [Called (MkdirAll dir 493) None evs1; Called (NewBoltStore (filepath_Join dir "raft.db")) None evs2]
  | sr_mkdir e evs : store_type cfg dir = "boltdb" → dir ≠ "" →
      stores_run cfg dir (Err (ErrWrap "mkdir dataDir" e)) [Called (MkdirAll dir 493) (Some e) evs]
  | sr_open e evs1 evs2 : store_type cfg dir = "boltdb" → dir ≠ "" →
      stores_run cfg dir (Err (ErrWrap "bolt store" e))
        [Called (MkdirAll dir 493) None evs1; Called (NewBoltStore (filepath_Join dir "raft.db")) (Some e) evs2]
  | sr_inmem u evs : store_type cfg dir = "inmem" →
      stores_run cfg dir (Ok InmemStores) [Called NewInmemStore u evs]
  | sr_error msg : store_type cfg dir ≠ "inmem" → (store_type cfg dir = "boltdb" → dir = "") →
      stores_run cfg dir (Err (ErrText msg)) [].

Lemma wp_NewStores cfg dir f (Q : outcome (result error stores) → trace → Prop) :
  (∀ r tr, stores_run cfg dir r tr → Q (Done r) tr) → wp (NewStores go_quote cfg dir) f Q.
Proof.
  intros HQ. unfold NewStores. cbv zeta.
  destruct (decide (store_type cfg dir = "boltdb")) as [Hb|Hb].
  - unfold newBoltStores. destruct (decide (dir = "")) as [Hd|Hd].
    + wp_step. apply HQ, sr_error; [congruence|done].
    + do 2 wp_step. destruct ans as [e|]; [wp_step; apply HQ; by constructor|].
      do 2 wp_step. destruct ans as [e|]; wp_step; apply HQ; by constructor.
  - destruct (decide (store_type cfg dir = "inmem")) as [Hi|Hi].
    + do 3 wp_step. apply HQ. by constructor.
    + destruct (decide _); wp_step; apply HQ, sr_error; done.
Qed.

  (** The base directory and the number of snapshots of a snapshot store on disk. *)
Definition snap_base (sc : SnapshotConfig) (dir : string) : string :=
    if decide (Snapshot_Path sc = "") then dir else Snapshot_Path sc.
Definition snap_retain (sc : SnapshotConfig) : Z := if 0 <? Snapshot_Retain sc then Snapshot_Retain sc else 3.

  (** The runs of the snapshot store factory. *)
Inductive snaps_run (sc : SnapshotConfig) (dir : string) : result error unit → trace → Prop :=
  | sn_file evs : Snapshot_Type sc = "file" → snap_base sc dir ≠ "" →
      snaps_run sc dir (Ok tt) [Called (NewFileSnapshotStore (snap_base sc dir) (snap_retain sc)) None evs]
  | sn_failed e evs : Snapshot_Type sc = "file" → snap_base sc dir ≠ "" →
      snaps_run sc dir (Err e) [Called (NewFileSnapshotStore (snap_base sc dir) (snap_retain sc)) (Some e) evs]
  | sn_inmem u evs : Snapshot_Type sc = "inmem" → snaps_run sc dir (Ok tt) [Called NewInmemSnapshotStore u evs]
  | sn_error msg : Snapshot_Type sc ≠ "inmem" → (Snapshot_Type sc = "file" → snap_base sc dir = "") →
      snaps_run sc dir (Err (ErrText msg)) [].

Lemma wp_NewStore sc dir f (Q : outcome (result error unit) → trace → Prop) :
  (∀ r tr, snaps_run sc dir r tr → Q (Done r) tr) → wp (NewStore go_quote sc dir) f Q.
Proof.
  intros HQ. unfold NewStore. destruct (decide (Snapshot_Type sc = "file")) as [Hf|Hf].
  - unfold newFileStore. cbv zeta. fold (snap_base sc dir).
    assert ((if Snapshot_Retain sc <=? 0 then 3 else Snapshot_Retain sc) = snap_retain sc) as ->
      by (unfold snap_retain; split_ifs; lia).
    destruct (decide (snap_base sc dir = "")) as [Hb|Hb].
    + wp_step. apply HQ, sn_error; [|done]. by rewrite Hf.
    + do 3 wp_step. apply HQ. destruct ans as [e|]; by constructor.
  - destruct (decide (Snapshot_Type sc = "inmem")) as [Hi|Hi]; [unfold NewInmem; do 3 wp_step|wp_step];
      apply HQ; by constructor.
Qed.

  (** The trace of a transport that was opened. *)
Inductive transport_run (cfg : Config) : trace → Prop :=
  | tr_inmem u evs : cfg_UseInmemTransport cfg = true →
      transport_run cfg [Called (NewInmemTransport (cfg_RaftAddr cfg)) u evs]
  | tr_tcp evs : cfg_UseInmemTransport cfg = false →
      transport_run cfg [Called (NewTCPTransport (cfg_RaftAddr cfg) 3 (10 * second)) None evs].

  (** The runs of [New]. *)
Inductive new_run (cfg : Config) : result error node_state → trace → Prop :=
  | nr_transport e evs : cfg_UseInmemTransport cfg = false →
      new_run cfg (Err (ErrWrap "tcp transport" e))
        [Called (NewTCPTransport (cfg_RaftAddr cfg) 3 (10 * second)) (Some e) evs]
  | nr_stores e tr0 tr : transport_run cfg tr0 →
      stores_run (cfg_LogStore cfg) (cfg_DataDir cfg) (Err e) tr → new_run cfg (Err e) (tr0 ++ tr)
  | nr_snaps e ss tr0 tr1 tr : transport_run cfg tr0 →
      stores_run (cfg_LogStore cfg) (cfg_DataDir cfg) (Ok ss) tr1 → snaps_run (cfg_Snapshot cfg) (cfg_DataDir cfg) (Err e) tr →
      new_run cfg (Err e) (tr0 ++ tr1 ++ tr)
  | nr_raft ss tr0 tr1 tr2 e evs : transport_run cfg tr0 →
      stores_run (cfg_LogStore cfg) (cfg_DataDir cfg) (Ok ss) tr1 → snaps_run (cfg_Snapshot cfg) (cfg_DataDir cfg) (Ok tt) tr2 →
      new_run cfg
        (match e with
         | Some e => Err (ErrWrap "new raft" e)
         | None => Ok (mkNodeState (mkNode cfg (membership_timeout cfg)) ss (closer_of ss) true)
         end)
        (tr0 ++ tr1 ++ tr2 ++ [Called (NewRaft (raft_settings_of cfg)) e evs]).

Lemma wp_Node_New cfg f (Q : outcome (result error node_state) → trace → Prop) :
  (∀ r tr, new_run cfg r tr → Q (Done r) tr) → wp (Node_New go_quote cfg) f Q.
Proof.
  intros HQ. unfold Node_New, new_transport. wp_step.
  assert (∀ tr0, transport_run cfg tr0 → ∀ g, wp (
      r ← NewStores go_quote (cfg_LogStore cfg) (cfg_DataDir cfg);
      match r with
      | Err err => mret (Err err)
      | Ok ss =>
        r ← NewStore go_quote (cfg_Snapshot cfg) (cfg_DataDir cfg);
        match r with
        | Err err => mret (Err err)
        | Ok _ =>
          e ← do_call (NewRaft (raft_settings_of cfg));
          match e with
          | Some err => mret (Err (ErrWrap "new raft" err))
          | None => mret (Ok (mkNodeState (mkNode cfg (membership_timeout cfg)) ss (closer_of ss) true))
          end
        end
      end) g (λ o tr, Q o (tr0 ++ tr))) as Hrest.
  { intros tr0 H0' g. wp_step. apply wp_NewStores. intros r tr1 Hs. destruct r as [ss|e].
    2: { wp_step. rewrite app_nil_r. apply HQ. by apply nr_stores. }
    wp_step. apply wp_NewStore. intros r tr2 Hn. destruct r as [[]|e].
    2: { wp_step. rewrite app_nil_r. apply HQ. by eapply nr_snaps. }
    do 2 wp_step. pose proof (HQ _ _ (nr_raft cfg ss tr0 tr1 tr2 ans evs H0' Hs Hn)) as HQ'.
    destruct ans as [e|]; wp_step; exact HQ'. }
  destruct (cfg_UseInmemTransport cfg) eqn:Ei.
  - do 3 wp_step. apply (Hrest [Called (NewInmemTransport (cfg_RaftAddr cfg)) ans evs]). by constructor.
  - do 3 wp_step. destruct ans as [e|].
    + wp_step. apply HQ. by apply nr_transport.
    + apply (Hrest [Called (NewTCPTransport (cfg_RaftAddr cfg) 3 (10 * second)) None evs]).
      by constructor.
Qed.

Lemma stores_run_holds cfg dir r tr held :
  stores_run cfg dir r tr → holds held tr = match r with Ok BoltStores => StoreFile :: held | _ => held end.
Proof. by intros []. Qed.

Lemma snaps_run_holds sc dir r tr held : snaps_run sc dir r tr → holds held tr = held.
Proof. by intros []. Qed.

Lemma transport_run_holds cfg tr held : transport_run cfg tr → holds held tr = Transport :: held.
Proof. by intros []. Qed.

  (** What the parts of construction open. *)
Lemma stores_run_opens cfg dir r tr : stores_run cfg dir r tr →
  existsb opens_file tr = match r with Ok BoltStores => true | _ => false end ∧ existsb opens_transport tr = false.
Proof. by intros []. Qed.

Lemma snaps_run_opens sc dir r tr : snaps_run sc dir r tr → existsb opens_file tr = false ∧ existsb opens_transport tr = false.
Proof. by intros []. Qed.

Lemma transport_run_opens cfg tr : transport_run cfg tr →
  existsb opens_file tr = false ∧ existsb opens_transport tr = true.
Proof. by intros []. Qed.

  (** The calls of construction. *)
Definition construction_call (c : call) : bool :=
    match c with
    | NewTCPTransport _ _ _ | NewInmemTransport _ | MkdirAll _ _ | NewBoltStore _ | NewInmemStore
    | NewFileSnapshotStore _ _ | NewInmemSnapshotStore | NewRaft _ => true
    | _ => false
    end.

Lemma new_run_calls cfg r tr :
  new_run cfg r tr → Forall (λ c, construction_call c = true) (calls_of tr).
Proof.
  assert (∀ r tr, stores_run (cfg_LogStore cfg) (cfg_DataDir cfg) r tr →
    Forall (λ c, construction_call c = true) (calls_of tr)) as Hst by (intros ?? []; by repeat constructor).
  assert (∀ r tr, snaps_run (cfg_Snapshot cfg) (cfg_DataDir cfg) r tr → Forall (λ c, construction_call c = true) (calls_of tr)) as Hsn
    by (intros ?? []; by repeat constructor).
  assert (∀ tr, transport_run cfg tr → Forall (λ c, construction_call c = true) (calls_of tr)) as Htr
    by (intros ? []; by repeat constructor).
  intros [e evs Hi|e tr0 tr1 Hh Hs|e ss tr0 tr1 tr2 Hh Hs Hn|ss tr0 tr1 tr2 e evs Hh Hs Hn];
    rewrite ?calls_of_app; rewrite ?Forall_app; [by repeat constructor|..];
    split_and!; eauto; by repeat constructor.
Qed.

  (** Nothing that was opened is closed: the resources held at the end are those
      opened, the transport first. *)
Lemma new_run_holds cfg r tr : new_run cfg r tr → holds [] tr = opened tr.
Proof.
  unfold opened.
  intros [e evs Hi|e tr0 tr1 Hh Hs|e ss tr0 tr1 tr2 Hh Hs Hn|ss tr0 tr1 tr2 e evs Hh Hs Hn]; [done|..];
    rewrite ?holds_app, ?existsb_app; rewrite (transport_run_holds _ _ _ Hh), (stores_run_holds _ _ _ _ _ Hs);
    destruct (transport_run_opens _ _ Hh) as [-> ->], (stores_run_opens _ _ _ _ Hs) as [-> ->]; [done|..];
    rewrite ?(snaps_run_holds _ _ _ _ _ Hn); destruct (snaps_run_opens _ _ _ _ Hn) as [-> ->]; by destruct ss.
Qed.

Lemma new_run_ok cfg n tr : new_run cfg (Ok n) tr →
  opened tr = node_resources n ∧ ns_closer n = existsb opens_file tr ∧ ns_raft n = true ∧
  ns_node n = mkNode cfg (membership_timeout cfg) ∧
  ∃ evs, last tr = Some (Called (NewRaft (raft_settings_of cfg)) None evs).
Proof.
  intros Hr. inversion Hr as [| | |ss tr0 tr1 tr2 e evs Hh Hs Hn Hres]; subst.
  destruct e; [done|]. injection Hres as <-. unfold opened, node_resources. rewrite !existsb_app.
  destruct (transport_run_opens _ _ Hh) as [-> ->], (stores_run_opens _ _ _ _ Hs) as [-> ->],
    (snaps_run_opens _ _ _ _ Hn) as [-> ->]. cbn [orb existsb opens_file opens_transport ns_closer].
  split_and!; [by destruct ss|by destruct ss|done|done|]. exists evs. rewrite !app_assoc. apply last_snoc.
Qed.

Lemma new_run_err cfg e tr : new_run cfg (Err e) tr →
  (existsb opens_transport tr = false ∧ cfg_UseInmemTransport cfg = false ∧ ∃ err evs,
     e = ErrWrap "tcp transport" err ∧
     tr = [Called (NewTCPTransport (cfg_RaftAddr cfg) 3 (10 * second)) (Some err) evs]) ∨
  (existsb opens_transport tr = true ∧
   ((∀ s, NewRaft s ∉ calls_of tr) ∧ (∃ tr0 tr1, tr = tr0 ++ tr1 ∧
       (stores_run (cfg_LogStore cfg) (cfg_DataDir cfg) (Err e) tr1 ∨
        snaps_run (cfg_Snapshot cfg) (cfg_DataDir cfg) (Err e) tr1)) ∨
    ∃ err evs, last tr = Some (Called (NewRaft (raft_settings_of cfg)) (Some err) evs) ∧ e = ErrWrap "new raft" err)).
Proof.
  assert (∀ r tr s, stores_run (cfg_LogStore cfg) (cfg_DataDir cfg) r tr → NewRaft s ∉ calls_of tr) as Hst.
  { intros r tr' s [] Hin; cbn in Hin; rewrite ?elem_of_cons, elem_of_nil in Hin; by repeat destruct Hin as [Hin|Hin]. }
  assert (∀ r tr s, snaps_run (cfg_Snapshot cfg) (cfg_DataDir cfg) r tr → NewRaft s ∉ calls_of tr) as Hsn.
  { intros r tr' s [] Hin; cbn in Hin; rewrite ?elem_of_cons, elem_of_nil in Hin; by repeat destruct Hin as [Hin|Hin]. }
  assert (∀ tr s, transport_run cfg tr → NewRaft s ∉ calls_of tr) as Htr.
  { intros tr' s [] Hin; cbn in Hin; rewrite ?elem_of_cons, elem_of_nil in Hin; by repeat destruct Hin as [Hin|Hin]. }
  intros Hr. inversion Hr as [e' evs Hi|e' tr0 tr1 Hh Hs|e' ss tr0 tr1 tr2 Hh Hs Hn|ss tr0 tr1 tr2 e' evs Hh Hs Hn Hres]; subst.
  - left. split_and!; [done|done|]. by eexists _, _.
  - right. rewrite existsb_app. destruct (transport_run_opens _ _ Hh) as [_ ->]. split; [done|]. left.
    split; [|exists tr0, tr1; split; [done|by left]]. intros s.
    rewrite calls_of_app. intros [Hin|Hin]%elem_of_app; [by eapply Htr|by eapply Hst].
  - right. rewrite existsb_app. destruct (transport_run_opens _ _ Hh) as [_ ->]. split; [done|]. left.
    split; [|exists (tr0 ++ tr1), tr2; split; [by rewrite app_assoc|by right]]. intros s.
    rewrite !calls_of_app. intros [Hin|[Hin|Hin]%elem_of_app]%elem_of_app; [by eapply Htr|by eapply Hst|by eapply Hsn].
  - destruct e' as [err|]; [|done]. injection Hres as <-. right. rewrite existsb_app.
    destruct (transport_run_opens _ _ Hh) as [_ ->]. split; [done|]. right. exists err, evs.
    split; [|done]. rewrite !app_assoc. apply last_snoc.
Qed.

  (** The first call of construction is that of the transport. *)
Lemma new_run_head cfg r tr : new_run cfg r tr →
  head (calls_of tr) = Some (if cfg_UseInmemTransport cfg then NewInmemTransport (cfg_RaftAddr cfg)
                             else NewTCPTransport (cfg_RaftAddr cfg) 3 (10 * second)).
Proof.
  assert (∀ tr0 tr, transport_run cfg tr0 → head (calls_of (tr0 ++ tr)) =
    Some (if cfg_UseInmemTransport cfg then NewInmemTransport (cfg_RaftAddr cfg)
          else NewTCPTransport (cfg_RaftAddr cfg) 3 (10 * second))) as Htr by (intros tr0 tr' [u evs ->|evs ->]; done).
  intros [e evs Hi| | |]; [|by apply Htr..]. cbn. by rewrite Hi.
Qed.
End Specs.

Example join_data : filepath_Join "data" "raft.db" = "data/raft.db".
Proof. vm_compute. reflexivity. Qed.
Example join_up : filepath_Join "a/./b/../../../c//" "raft.db" = "../c/raft.db".
Proof. vm_compute. reflexivity. Qed.
Example join_root : filepath_Join "/var/../.." "raft.db" = "/raft.db".
Proof. vm_compute. reflexivity. Qed.

(** The runs of [Shutdown] on a node that runs. *)
Definition shutdown_run `{Env} (n : node_state) (tr : trace) : Prop :=
  ∃ e1 e2 e3 evs1 evs2 evs3,
    tr = [Called RaftShutdown e1 evs1] ++ (if ns_closer n then [Called CloseStore e2 evs2] else [])
           ++ [Called CloseTransport e3 evs3].

Lemma shutdown_run_calls `{Env} n tr : shutdown_run n tr →
  calls_of tr = [RaftShutdown] ++ (if ns_closer n then [CloseStore] else []) ++ [CloseTransport].
Proof. intros (e1 & e2 & e3 & evs1 & evs2 & evs3 & ->). by destruct (ns_closer n). Qed.

(** It releases the node's resources and leaves the listeners. *)
Lemma shutdown_run_holds `{Env} n tr (ls : list listener) : shutdown_run n tr →
  holds ((Listening <$> ls) ++ node_resources n) tr = Listening <$> ls.
Proof.
  assert (∀ r, (∀ l, r ≠ Listening l) → filter (λ r', r' ≠ r) (Listening <$> ls) = Listening <$> ls) as Hkeep.
  { intros r Hr. induction ls as [|l ls IH]; [done|]. cbn [fmap list_fmap].
    rewrite filter_cons_True by (intros Heq; by apply (Hr l)). f_equal. exact IH. }
  intros (e1 & e2 & e3 & evs1 & evs2 & evs3 & ->). unfold node_resources, holds.
  destruct (ns_closer n); cbn [app foldl hold_step]; rewrite !filter_app, !Hkeep by done; cbn; by rewrite app_nil_r.
Qed.

Lemma wp_Shutdown `{Env} n f (Q : outcome (option error * node_state) → trace → Prop) :
  (ns_raft n = false → Q (Done (None, n)) []) →
  (∀ e1 e2 e3 evs1 evs2 evs3, ns_raft n = true →
     Q (Done (first_error (first_error e1 (if ns_closer n then e2 else None)) e3,
              mkNodeState (ns_node n) (ns_stores n) false true))
       ([Called RaftShutdown e1 evs1] ++ (if ns_closer n then [Called CloseStore e2 evs2] else [])
          ++ [Called CloseTransport e3 evs3])) →
  wp (Shutdown n) f Q.
Proof.
  intros HQ0 HQ. unfold Shutdown. destruct (ns_raft n) eqn:Er; cbn [negb]; [|wp_step; by apply HQ0].
  do 3 wp_step. destruct (ns_closer n).
  - do 5 wp_step. wp_step. by apply HQ.
  - do 3 wp_step. wp_step. specialize (HQ ans None ans0 evs [] evs0 eq_refl).
    by destruct ans.
Qed.

(** The runs of the BoltDB store. *)
Lemma wp_newBoltStores `{Env} dir f (Q : outcome (result error stores) → trace → Prop) :
  dir ≠ "" →
  (∀ r tr,
    (∃ e evs, r = Err (ErrWrap "mkdir dataDir" e) ∧ tr = [Called (MkdirAll dir 493) (Some e) evs]) ∨
    (∃ ans evs evs', r = match ans with None => Ok BoltStores | Some e => Err (ErrWrap "bolt store" e) end ∧
       tr = [Called (MkdirAll dir 493) None evs; Called (NewBoltStore (filepath_Join dir "raft.db")) ans evs']) →
    Q (Done r) tr) →
  wp (newBoltStores dir) f Q.
Proof.
  intros Hd HQ. unfold newBoltStores. rewrite decide_False by done. do 2 wp_step. destruct ans as [e|].
  - wp_step. apply HQ. left. by exists e, evs.
  - do 2 wp_step. destruct ans as [e|]; wp_step; apply HQ; right; [by exists (Some e), evs, evs0|by exists None, evs, evs0].
Qed.

Section Properties.
  Context `{Env} (go_quote : string → string).


(** C34: shutdown. Every resource of the node is released, whichever step fails;
    the steps run in the order raft, store, transport; the error returned is that
    of the first step that failed, none when none did; the store is closed once: a
    second shutdown does not close it. *)
Theorem shutdown_releases (n : node_state) (f : FSM) :
  wp (Shutdown n) f (λ o tr,
    if ns_raft n then
      ∃ e1 e2 e3 evs1 evs2 evs3 n',
        tr = [Called RaftShutdown e1 evs1] ++ (if ns_closer n then [Called CloseStore e2 evs2] else [])
               ++ [Called CloseTransport e3 evs3] ∧
        o = Done (match e1 with
                  | Some err => Some err
                  | None => match (if ns_closer n then e2 else None) with
                            | Some err => Some err
                            | None => e3
                            end
                  end, n') ∧
        n' = mkNodeState (ns_node n) (ns_stores n) false true ∧
        holds (node_resources n) tr = [] ∧
        (∀ g, wp (Shutdown n') g (λ o' tr', calls_of tr' = [RaftShutdown; CloseTransport]))
    else o = Done (None, n) ∧ tr = []).
Proof.
  apply wp_Shutdown; [by intros ->|]. intros e1 e2 e3 evs1 evs2 evs3 Hr. rewrite Hr.
  exists e1, e2, e3, evs1, evs2, evs3, (mkNodeState (ns_node n) (ns_stores n) false true).
  split_and!; [done| |done| |].
  - do 2 f_equal. destruct e1; [done|]. unfold first_error. destruct (ns_closer n), e2; reflexivity.
  - unfold node_resources. by destruct (ns_closer n).
  - intros g. apply wp_Shutdown; [done|]. cbn. done.
Qed.

(** C36: the choice of the backends. The log store is in memory for the type
    [inmem], or for no type and no data directory; it is BoltDB, at [raft.db] in
    the directory, which is created first, for the type [boltdb], or for no type
    and a directory; [boltdb] without a directory and every other type, [rocksdb]
    among them, are errors that open nothing. The snapshot store is a directory
    under the configured path, or else the data directory, that keeps the
    configured number of snapshots or three; or in memory; a directory that is
    nowhere configured and every other type are errors that open nothing. *)
Theorem backend_choice (lc : LogStoreConfig) (sc : SnapshotConfig) (dir : string) (f : FSM) :
  let t := LogStore_Type lc in
  let db := filepath_Join dir "raft.db" in
  let base := if decide (Snapshot_Path sc = "") then dir else Snapshot_Path sc in
  let retain := if 0 <? Snapshot_Retain sc then Snapshot_Retain sc else 3 in
  wp (NewStores go_quote lc dir) f (λ o tr, ∃ r, o = Done r ∧
    (t = "inmem" ∨ t = "" ∧ dir = "" → r = Ok InmemStores ∧ calls_of tr = [NewInmemStore]) ∧
    ((t = "boltdb" ∨ t = "") ∧ dir ≠ "" →
       (∃ e evs, r = Err (ErrWrap "mkdir dataDir" e) ∧ tr = [Called (MkdirAll dir 493) (Some e) evs]) ∨
       (∃ ans evs evs', r = match ans with None => Ok BoltStores | Some e => Err (ErrWrap "bolt store" e) end ∧
          tr = [Called (MkdirAll dir 493) None evs; Called (NewBoltStore db) ans evs'])) ∧
    (t = "boltdb" ∧ dir = "" → r = Err (ErrText "boltdb logStore requires dataDir") ∧ tr = []) ∧
    (t ∉ [""; "boltdb"; "inmem"] → (∃ msg, r = Err (ErrText msg)) ∧ tr = [])) ∧
  wp (NewStore go_quote sc dir) f (λ o tr, ∃ r, o = Done r ∧
    (Snapshot_Type sc = "inmem" → r = Ok tt ∧ calls_of tr = [NewInmemSnapshotStore]) ∧
    (Snapshot_Type sc = "file" → base ≠ "" →
       ∃ ans evs, r = match ans with None => Ok tt | Some e => Err e end ∧
         tr = [Called (NewFileSnapshotStore base retain) ans evs]) ∧
    (Snapshot_Type sc = "file" → base = "" →
       r = Err (ErrText "file snapshot store requires snapshot.path or dataDir") ∧ tr = []) ∧
    (Snapshot_Type sc ∉ ["file"; "inmem"] → (∃ msg, r = Err (ErrText msg)) ∧ tr = [])).
Proof.
  cbv zeta. split.
  - unfold NewStores, store_type. cbv zeta. set (t := LogStore_Type lc).
    destruct (decide (t = "")) as [->|Ht].
    + destruct (decide (dir ≠ "")) as [Hd|Hd].
      * rewrite decide_True by done. apply wp_newBoltStores; [done|]. intros r tr Hr. exists r.
        split_and!; [done|naive_solver|auto|naive_solver|set_solver].
      * rewrite decide_False, decide_True by done. do 3 wp_step. eexists.
        split_and!; [done|done|naive_solver|naive_solver|set_solver].
    + destruct (decide (t = "boltdb")) as [Hb|Hb].
      * rewrite Hb. destruct (decide (dir = "")) as [->|Hd].
        -- unfold newBoltStores. rewrite decide_True by done. wp_step. eexists.
           split_and!; [done|naive_solver|naive_solver|done|set_solver].
        -- apply wp_newBoltStores; [done|]. intros r tr Hr. exists r.
           split_and!; [done|naive_solver|auto|naive_solver|set_solver].
      * destruct (decide (t = "inmem")) as [Hi|Hi].
        -- rewrite Hi. do 3 wp_step. eexists. split_and!; [done|done|naive_solver|naive_solver|set_solver].
        -- destruct (decide (t = "rocksdb")); wp_step; eexists;
             (split_and!; [done|naive_solver|naive_solver|naive_solver|eauto]).
  - unfold NewStore. destruct (decide (Snapshot_Type sc = "file")) as [Hf|Hf].
    + rewrite Hf. unfold newFileStore. cbv zeta.
      set (base := if decide (Snapshot_Path sc = "") then dir else Snapshot_Path sc).
      assert ((if Snapshot_Retain sc <=? 0 then 3 else Snapshot_Retain sc) =
              if 0 <? Snapshot_Retain sc then Snapshot_Retain sc else 3) as -> by (split_ifs; lia).
      destruct (decide (base = "")) as [Hb|Hb].
      * wp_step. eexists. split_and!; [done|done|done|done|set_solver].
      * do 3 wp_step. eexists. split_and!; [done|done| |done|set_solver].
        intros _ _. exists ans, evs. split; [by destruct ans|done].
    + destruct (decide (Snapshot_Type sc = "inmem")) as [Hi|Hi].
      * unfold NewInmem. do 3 wp_step. eexists. split_and!; [done|done|done|done|]. rewrite Hi. set_solver.
      * wp_step. eexists. split_and!; [done|done|done|done|eauto].
Qed.
End Properties.
