(* ===== verification/Recovery.v ===== *)
(** * Disaster recovery ([internal/raftnode/recover.go])

    Wiping a data directory and rewriting the cluster to a single voter. *)

From S2P Require Import Prelude Utf8 Base64 Json GoJson Config Codec Fsm Runtime Loopback RaftNode Url Lifecycle.
Local Open Scope Z_scope.

Section Recovery.
  Context `{Env} (go_quote : string → string).

  (** The loop of [Reset] over the entries of the directory. *)
Fixpoint remove_entries (dataDir : string) (names : list string) : M (option error) :=
    match names with
    | [] => mret None
    | name :: names =>
      e ← do_call (RemoveAll (filepath_Join dataDir name));
      match e with
      | Some err => mret (Some err)
      | None => remove_entries dataDir names
      end
    end.

Definition Reset (dataDir : string) : M (option error) :=
    d ← do_call (ReadDir dataDir);
    match d with
    | DirNotExist => mret None
    | DirError err => mret (Some err)
    | DirEntries names => remove_entries dataDir names
    end.

  (** The configuration of a single voter, and the [raft.Config] used to recover:
      the library's defaults but for the identity. *)
Definition single_voter (cfg : Config) : list Server := [mkServer (cfg_NodeID cfg) (cfg_RaftAddr cfg)].
Definition recover_settings (cfg : Config) : raft_settings := mkSettings (cfg_NodeID cfg) None None None.

  (** [RecoverClusterSingle] after the store was opened; the store is closed
      whatever happens, its error dropped. *)
Definition recover_opened (cfg : Config) : M (option error) :=
    r ← NewStore go_quote (cfg_Snapshot cfg) (cfg_DataDir cfg);
    match r with
    | Err err => mret (Some err)
    | Ok _ =>
      _ ← do_call (NewInmemTransport (cfg_RaftAddr cfg));
      r ← do_call HasExistingState;
      match r with
      | Err err => mret (Some (ErrWrap "check existing state" err))
      | Ok true =>
        e ← do_call (RecoverCluster (recover_settings cfg) (single_voter cfg));
        mret (match e with Some err => Some (ErrWrap "recover cluster" err) | None => None end)
      | Ok false =>
        e ← do_call (BootstrapFresh (recover_settings cfg) (single_voter cfg));
        mret (match e with Some err => Some (ErrWrap "bootstrap cluster" err) | None => None end)
      end
    end.

Definition RecoverClusterSingle (cfg : Config) : M (option error) :=
    e ← do_call (MkdirAll (cfg_DataDir cfg) 493);
    match e with
    | Some err => mret (Some (ErrWrap "mkdir dataDir" err))
    | None =>
      e ← do_call (NewBoltStore (filepath_Join (cfg_DataDir cfg) "raft.db"));
      match e with
      | Some err => mret (Some (ErrWrap "bolt store" err))
      | None =>
        res ← recover_opened cfg;
        _ ← do_call CloseStore;
        mret res
      end
    end.
End Recovery.

Section Specs.
  Context `{Env} (go_quote : string → string).

  (** Every removal of a trace succeeded, one for each name, in order. *)
Definition removed (dir : string) (names : list string) (tr : trace) : Prop :=
    Forall2 (λ name o, ∃ evs, o = Called (RemoveAll (filepath_Join dir name)) None evs) names tr.

  (** Entries are removed in order until one fails. *)
Lemma wp_remove_entries dir names f (Q : outcome (option error) → trace → Prop) :
  (∀ tr, removed dir names tr → Q (Done None) tr) →
  (∀ pre name post err evs tr, names = pre ++ name :: post → removed dir pre tr →
     Q (Done (Some err)) (tr ++ [Called (RemoveAll (filepath_Join dir name)) (Some err) evs])) →
  wp (remove_entries dir names) f Q.
Proof.
  revert f Q. induction names as [|name names IH]; intros f Q HQ HE; cbn [remove_entries].
  { wp_step. apply HQ. constructor. }
  do 2 wp_step. destruct ans as [e|].
  - wp_step. apply (HE [] name names e evs []); [done|constructor].
  - apply IH.
    + intros tr Hr. apply HQ. constructor; eauto.
    + intros pre name' post e evs' tr -> Hr. apply (HE (name :: pre) name' post e evs' (_ :: tr)); [done|].
      constructor; eauto.
Qed.

  (** The runs of [Reset]. *)
Inductive reset_run (dir : string) : option error → trace → Prop :=
  | rs_missing evs : reset_run dir None [Called (ReadDir dir) DirNotExist evs]
  | rs_unreadable err evs : reset_run dir (Some err) [Called (ReadDir dir) (DirError err) evs]
  | rs_all names evs tr : removed dir names tr →
      reset_run dir None (Called (ReadDir dir) (DirEntries names) evs :: tr)
  | rs_stuck pre name post err evs evs' tr : removed dir pre tr →
      reset_run dir (Some err) (Called (ReadDir dir) (DirEntries (pre ++ name :: post)) evs
        :: tr ++ [Called (RemoveAll (filepath_Join dir name)) (Some err) evs']).

Lemma wp_Reset dir f (Q : outcome (option error) → trace → Prop) :
  (∀ e tr, reset_run dir e tr → Q (Done e) tr) → wp (Reset dir) f Q.
Proof.
  intros HQ. unfold Reset. do 2 wp_step. destruct ans as [names| |err].
  - apply wp_remove_entries.
    + intros tr Hr. apply HQ. by constructor.
    + intros pre name post err evs' tr -> Hr. apply HQ. by constructor.
  - wp_step. apply HQ. constructor.
  - wp_step. apply HQ. constructor.
Qed.

  (** The configuration rewrites of a trace: with existing state ([true]) or on a
      fresh directory. *)
Definition rewrites (tr : trace) : list (bool * raft_settings * list Server) :=
    omap (λ c, match c with
               | RecoverCluster s ss => Some (true, s, ss)
               | BootstrapFresh s ss => Some (false, s, ss)
               | _ => None
               end) (calls_of tr).

Lemma rewrites_app tr1 tr2 : rewrites (tr1 ++ tr2) = rewrites tr1 ++ rewrites tr2.
Proof. unfold rewrites. by rewrite calls_of_app, omap_app. Qed.

  (** How the result follows from the answer to the rewrite. *)
Definition rewrite_result (has : bool) (e : option error) : option error :=
    match e with
    | Some err => Some (ErrWrap (if has then "recover cluster" else "bootstrap cluster") err)
    | None => None
    end.

  (** The runs of a recovery once the store is open. *)
Inductive recover_run (cfg : Config) : option error → trace → Prop :=
  | rr_snaps e tr : snaps_run (cfg_Snapshot cfg) (cfg_DataDir cfg) (Err e) tr → recover_run cfg (Some e) tr
  | rr_check e tr u evs1 evs2 : snaps_run (cfg_Snapshot cfg) (cfg_DataDir cfg) (Ok tt) tr →
      recover_run cfg (Some (ErrWrap "check existing state" e))
        (tr ++ [Called (NewInmemTransport (cfg_RaftAddr cfg)) u evs1; Called HasExistingState (Err e) evs2])
  | rr_recover e tr u evs1 evs2 evs3 : snaps_run (cfg_Snapshot cfg) (cfg_DataDir cfg) (Ok tt) tr →
      recover_run cfg (rewrite_result true e)
        (tr ++ [Called (NewInmemTransport (cfg_RaftAddr cfg)) u evs1; Called HasExistingState (Ok true) evs2;
                Called (RecoverCluster (recover_settings cfg) (single_voter cfg)) e evs3])
  | rr_bootstrap e tr u evs1 evs2 evs3 : snaps_run (cfg_Snapshot cfg) (cfg_DataDir cfg) (Ok tt) tr →
      recover_run cfg (rewrite_result false e)
        (tr ++ [Called (NewInmemTransport (cfg_RaftAddr cfg)) u evs1; Called HasExistingState (Ok false) evs2;
                Called (BootstrapFresh (recover_settings cfg) (single_voter cfg)) e evs3]).

Lemma wp_recover_opened cfg f (Q : outcome (option error) → trace → Prop) :
  (∀ e tr, recover_run cfg e tr → Q (Done e) tr) → wp (recover_opened go_quote cfg) f Q.
Proof.
  intros HQ. unfold recover_opened. wp_step. apply wp_NewStore. intros r tr Hs. destruct r as [[]|e].
  2: { wp_step. rewrite app_nil_r. apply HQ. by constructor. }
  do 4 wp_step. destruct ans0 as [[|]|e].
  - do 3 wp_step. pose proof (HQ _ _ (rr_recover cfg ans0 tr ans evs evs0 evs1 Hs)) as HQ'. exact HQ'.
  - do 3 wp_step. pose proof (HQ _ _ (rr_bootstrap cfg ans0 tr ans evs evs0 evs1 Hs)) as HQ'. exact HQ'.
  - wp_step. apply HQ. by constructor.
Qed.

  (** The runs of [RecoverClusterSingle]. *)
Inductive recovery_run (cfg : Config) : option error → trace → Prop :=
  | rc_mkdir e evs : recovery_run cfg (Some (ErrWrap "mkdir dataDir" e)) [Called (MkdirAll (cfg_DataDir cfg) 493) (Some e) evs]
  | rc_open e evs evs' : recovery_run cfg (Some (ErrWrap "bolt store" e))
      [Called (MkdirAll (cfg_DataDir cfg) 493) None evs;
       Called (NewBoltStore (filepath_Join (cfg_DataDir cfg) "raft.db")) (Some e) evs']
  | rc_opened e tr c evs evs' evs'' : recover_run cfg e tr →
      recovery_run cfg e ([Called (MkdirAll (cfg_DataDir cfg) 493) None evs;
        Called (NewBoltStore (filepath_Join (cfg_DataDir cfg) "raft.db")) None evs'] ++ tr ++ [Called CloseStore c evs'']).

Lemma wp_RecoverClusterSingle cfg f (Q : outcome (option error) → trace → Prop) :
  (∀ e tr, recovery_run cfg e tr → Q (Done e) tr) → wp (RecoverClusterSingle go_quote cfg) f Q.
Proof.
  intros HQ. unfold RecoverClusterSingle. do 2 wp_step. destruct ans as [e|]; [wp_step; apply HQ; constructor|].
  do 2 wp_step. destruct ans as [e|]; [wp_step; apply HQ; constructor|].
  wp_step. apply wp_recover_opened. intros e tr Hr. do 3 wp_step. by apply HQ, rc_opened.
Qed.
End Specs.

Section Properties.
  Context `{Env} (go_quote : string → string).


(** C37: a reset removes every entry of the data directory, in order, and nothing
    else; a missing directory is not an error; at the first entry that cannot be
    removed it stops, with nothing removed after it, and returns that error: no
    error means that every removal succeeded. *)
Theorem reset_wipes (dir : string) (f : FSM) :
  wp (Reset dir) f (λ o tr, ∃ listing evs e tr', o = Done e ∧ tr = Called (ReadDir dir) listing evs :: tr' ∧
    match listing with
    | DirNotExist => e = None ∧ tr' = []
    | DirError err => e = Some err ∧ tr' = []
    | DirEntries names =>
        match e with
        | None => Forall2 (λ name o, ∃ evs, o = Called (RemoveAll (filepath_Join dir name)) None evs) names tr'
        | Some err => ∃ pre name post tr1 evs', names = pre ++ name :: post ∧
            Forall2 (λ name o, ∃ evs, o = Called (RemoveAll (filepath_Join dir name)) None evs) pre tr1 ∧
            tr' = tr1 ++ [Called (RemoveAll (filepath_Join dir name)) (Some err) evs']
        end
    end).
Proof.
  apply wp_Reset. intros e tr Hr.
  destruct Hr as [evs|err evs|names evs tr Hr|pre name post err evs evs' tr Hr]; eexists _, evs, _, _;
    (split; [done|]; split; [done|]); cbv beta iota; [done|done|exact Hr|].
  exists pre, name, post, tr, evs'. by split_and!.
Qed.
End Properties.
