(* ===== verification/Logging.v ===== *)
(** * The logger ([internal/logging/logging.go]) and sizes

    The options [NewLogger] builds from the configuration, and the directory it
    creates for the log file. The logger itself ([hclog]) and the rotating file
    ([lumberjack]) are libraries. *)

From S2P Require Import Prelude Utf8 Base64 Json GoJson Config Codec Fsm Runtime Url Lifecycle.
Local Open Scope Z_scope.

(** [Size.Bytes] and [Size.Megabytes]: truncated division. *)
Definition Size_Bytes (s : Z) : Z := s.
Definition Megabytes (s : Z) : Z := Z.quot s (Z.shiftl 1 20).

Definition orDefault (v def : Z) : Z := if v <=? 0 then def else v.

(** [filepath.Dir]: the text up to the last slash, cleaned. *)
Fixpoint upto_slash (p : bytes) : bytes :=
  match p with
  | [] => []
  | c :: r => if decide (c = "/"%char ∨ "/"%char ∈ r) then c :: upto_slash r else []
  end.
Definition filepath_Dir (path : string) : string := of_bytes (filepath_Clean (upto_slash (to_bytes path))).

(** What [hclog] defines: its levels, their parser, [hclog.NoLevel] and
    [hclog.Info]. *)
Class LogLib : Type := {
  Level : Type;
  Level_eq_dec :: EqDecision Level;
  LevelFromString : string → Level;
  NoLevel : Level;
  Info : Level;
}.

  (** [lumberjack.Logger]. *)
Record rotation : Type := mkRotation {
  rot_Filename : string;
  rot_MaxSize : Z;
  rot_MaxBackups : Z;
  rot_MaxAge : Z;
  rot_LocalTime : bool;
  rot_Compress : bool;
}.

(** [hclog.LoggerOptions]; no rotation means the default output. *)
Record logger_options `{LogLib} : Type := mkOptions {
  opt_Name : string;
  opt_Level : Level;
  opt_JSONFormat : bool;
  opt_Output : option rotation;
}.
Arguments mkOptions {_} _ _ _ _.

Section Logging.
  Context `{Env, LogLib}.

  (** The directory of the log file is created first; an error is dropped and
      appears when the file is opened. *)
Definition NewLogger (cfg : LogConfig) (name : string) : M logger_options :=
    let l := LevelFromString (Log_Level cfg) in
    let level := if decide (l ≠ NoLevel) then l else Info in
    if decide (Log_File cfg ≠ "") then
      let dir := filepath_Dir (Log_File cfg) in
      _ ← (if decide (dir ≠ "") then _ ← do_call (MkdirAll dir 493); mret tt else mret tt);
      let maxSize := if Log_MaxSize cfg <=? 0 then default_MaxSize else Log_MaxSize cfg in
      mret (mkOptions name level (Log_JSON cfg)
        (Some (mkRotation (Log_File cfg) (Megabytes maxSize) (orDefault (Log_MaxBackups cfg) 7)
                 (orDefault (Log_MaxAge cfg) 30) true true)))
    else mret (mkOptions name level (Log_JSON cfg) None).

  (** Cleaning never gives the empty path. *)
Lemma filepath_Clean_nonempty p : filepath_Clean p ≠ [].
Proof.
  unfold filepath_Clean. set (rooted := bool_decide (head p = Some "/"%char)).
  assert (∀ segs acc, Forall (λ s, s ≠ []) acc → Forall (λ s, s ≠ []) (foldl (file_step rooted) acc segs)) as Hseg.
  { induction segs as [|s segs IH]; intros acc Hacc; [done|]. cbn. apply IH. unfold file_step.
    repeat case_decide; try done.
    - destruct acc as [|s' acc]; [by destruct rooted; repeat constructor|]. case_decide; [by constructor|].
      by apply Forall_cons in Hacc as [_ ?].
    - constructor; [tauto|done]. }
  specialize (Hseg (split_on "/"%char p) [] (Forall_nil_2 _)).
  set (acc := foldl _ _ _) in *. destruct rooted; [done|].
  assert (Forall (λ s, s ≠ []) (reverse acc)) as Hr by (rewrite reverse_Permutation; exact Hseg).
  destruct (reverse acc) as [|s segs]; [done|]. apply Forall_cons in Hr as [Hs _].
  destruct s as [|c s]; [done|]. by destruct segs.
Qed.

Lemma filepath_Dir_nonempty path : filepath_Dir path ≠ "".
Proof.
  unfold filepath_Dir. intros Hd. apply (filepath_Clean_nonempty (upto_slash (to_bytes path))).
  by rewrite <-(to_of_bytes (filepath_Clean _)), Hd.
Qed.

  (** The runs of [NewLogger]: at most the directory is created. *)
Definition logger_run (cfg : LogConfig) (tr : trace) : Prop :=
    if decide (Log_File cfg = "") then tr = []
    else ∃ a evs, tr = [Called (MkdirAll (filepath_Dir (Log_File cfg)) 493) a evs].

Lemma wp_NewLogger cfg name f (Q : outcome logger_options → trace → Prop) :
  (∀ tr, logger_run cfg tr →
     Q (Done (mkOptions name
         (if decide (LevelFromString (Log_Level cfg) ≠ NoLevel) then LevelFromString (Log_Level cfg) else Info)
         (Log_JSON cfg)
         (if decide (Log_File cfg = "") then None
          else Some (mkRotation (Log_File cfg)
                 (Megabytes (if Log_MaxSize cfg <=? 0 then default_MaxSize else Log_MaxSize cfg))
                 (orDefault (Log_MaxBackups cfg) 7) (orDefault (Log_MaxAge cfg) 30) true true)))) tr) →
  wp (NewLogger cfg name) f Q.
Proof.
  intros HQ. unfold NewLogger, logger_run in *. destruct (decide (Log_File cfg = "")) as [Hf|Hf].
  - rewrite decide_False by tauto. wp_step. by apply HQ.
  - rewrite decide_True by done. wp_step. rewrite decide_True by apply filepath_Dir_nonempty.
    do 3 wp_step. wp_step. apply HQ. by eexists _, _.
Qed.

Lemma logger_run_calls cfg tr : logger_run cfg tr →
  calls_of tr = if decide (Log_File cfg = "") then [] else [MkdirAll (filepath_Dir (Log_File cfg)) 493].
Proof. unfold logger_run. case_decide; [by intros ->|]. by intros (a & evs & ->). Qed.

Lemma logger_run_holds cfg tr held : logger_run cfg tr → holds held tr = held.
Proof. unfold logger_run. case_decide; [by intros ->|]. by intros (a & evs & ->). Qed.

(** C39: the logger's options. The directory of the log file is created when there
    is one and nothing else is called. The level is the configured one or info when it is
    empty or unknown; a file is rotated with positive backups and age; the rotation
    size in megabytes is the configured size rounded down, 100 when none is
    configured, and it is zero, which the rotation library reads as its own
    default of 100, exactly when the configured size is positive and below one
    megabyte. *)
Theorem logger_options_sound (cfg : LogConfig) (name : string) (f : FSM) :
  wp (NewLogger cfg name) f (λ res tr, ∃ o, res = Done o ∧
  calls_of tr = (if decide (Log_File cfg = "") then [] else [MkdirAll (filepath_Dir (Log_File cfg)) 493]) ∧
  opt_Name o = name ∧ opt_JSONFormat o = Log_JSON cfg ∧
  (LevelFromString (Log_Level cfg) = NoLevel → opt_Level o = Info) ∧
  (LevelFromString (Log_Level cfg) ≠ NoLevel → opt_Level o = LevelFromString (Log_Level cfg)) ∧
  match opt_Output o with
  | None => Log_File cfg = ""
  | Some r =>
      rot_Filename r = Log_File cfg ∧ Log_File cfg ≠ "" ∧ 0 < rot_MaxBackups r ∧ 0 < rot_MaxAge r ∧
      (Log_MaxSize cfg <= 0 → rot_MaxSize r = 100) ∧
      (0 < Log_MaxSize cfg → rot_MaxSize r * 2 ^ 20 <= Log_MaxSize cfg < (rot_MaxSize r + 1) * 2 ^ 20) ∧
      (rot_MaxSize r = 0 ↔ 0 < Log_MaxSize cfg < 2 ^ 20)
  end).
Proof.
  apply wp_NewLogger. intros tr Hc%logger_run_calls. eexists. split; [done|].
  cbn [opt_Name opt_JSONFormat opt_Level opt_Output]. split; [exact Hc|]. split; [done|]. split; [done|].
  split; [intros ->; by rewrite decide_False by tauto|]. split; [intros Hl; by rewrite decide_True|].
  destruct (decide (Log_File cfg = "")) as [Hf|Hf]; [done|].
  cbn. unfold orDefault, Megabytes, default_MaxSize. change (Z.shiftl 1 20) with 1048576.
  change (Z.pow_pos 2 20) with 1048576.
  split_ifs; split_and!; try done; try lia; try (rewrite Z.quot_div_nonneg by lia; divlia).
Qed.
End Logging.

Example dirs : map filepath_Dir ["/var/log/raft.log"; "raft.log"; "/raft.log"; "a/./b//c.log"; "logs/"] =
  ["/var/log"; "."; "/"; "a/b"; "logs"].
Proof. vm_compute. reflexivity. Qed.
