(* ===== verification/Http.v ===== *)
(** * HTTP requests, responses and routing ([net/http] as the program uses it)

    Requests, the reply a client sees of the calls on a response writer, the
    helpers [http.Error] and [writeJSON], the routing of the paths registered by
    [API.Handler], and the interception of a handler's writes, which is how a
    wrapped [http.ResponseWriter] is modelled. *)

From S2P Require Import Prelude Utf8 Base64 Json GoJson Config Codec Fsm Runtime Url.
Local Open Scope Z_scope.

Record Request : Type := mkRequest {
  Method : string;
  req_URL : URL;
  Body : bytes;
}.

Definition MethodGet : string := "GET".
Definition MethodPut : string := "PUT".
Definition MethodPost : string := "POST".
Definition MethodDelete : string := "DELETE".

Definition StatusOK : Z := 200.
Definition StatusTemporaryRedirect : Z := 307.
Definition StatusBadRequest : Z := 400.
Definition StatusNotFound : Z := 404.
Definition StatusMethodNotAllowed : Z := 405.
Definition StatusInternalServerError : Z := 500.
Definition StatusServiceUnavailable : Z := 503.

(** ** Replies *)

(** What the client receives. *)
Record reply : Type := mkReply {
  reply_code : Z;
  reply_header : gmap string string;
  reply_body : bytes;
  (** the informational responses received before, with their headers *)
  reply_info : list (Z * gmap string string);
}.

(** The server's response writer. *)
Record writer : Type := mkWriter {
  wr_header : gmap string string;
  wr_sent : option (Z * gmap string string);
  wr_body : bytes;
  wr_info : list (Z * gmap string string);
}.

(** A code from 100 to 199 is informational, but for 101; the codes whose response
    has no body. *)
Definition informational (code : Z) : bool := (100 <=? code) && (code <=? 199) && negb (code =? 101).
Definition body_allowed (code : Z) : bool :=
  negb ((100 <=? code) && (code <=? 199) || (code =? 204) || (code =? 304)).

(** [WriteHeader] and [Write] of [net/http], for codes it accepts (from 100 to
    999): an informational code is sent at once, without the body headers, and the
    response goes on; the first other code is final, later ones are ignored; a
    [Write] without one sends 200; the headers are those set before. *)
Definition send_header (w : writer) (code : Z) : writer :=
  match wr_sent w with
  | Some _ => w
  | None =>
    if informational code then
      mkWriter (wr_header w) None (wr_body w)
        (wr_info w ++ [(code, delete "Content-Length" (delete "Transfer-Encoding" (wr_header w)))])
    else mkWriter (wr_header w) (Some (code, wr_header w)) (wr_body w) (wr_info w)
  end.
Definition write_body (w : writer) (b : bytes) : writer :=
  match wr_sent w with
  | Some (code, _) =>
    if body_allowed code then mkWriter (wr_header w) (wr_sent w) (wr_body w ++ b) (wr_info w) else w
  | None => w
  end.
Definition write_step (w : writer) (o : write_op) : writer :=
  match o with
  | SetHeader k v => mkWriter (<[k := v]> (wr_header w)) (wr_sent w) (wr_body w) (wr_info w)
  | DelHeader k => mkWriter (delete k (wr_header w)) (wr_sent w) (wr_body w) (wr_info w)
  | WriteHeader code => send_header w code
  | Write b => write_body (send_header w StatusOK) b
  end.
Definition finish (w : writer) : reply :=
  match wr_sent w with
  | Some (code, h) => mkReply code h (wr_body w) (wr_info w)
  | None => mkReply StatusOK (wr_header w) (wr_body w) (wr_info w)
  end.
Definition serve (ops : list write_op) : reply := finish (foldl write_step (mkWriter ∅ None [] []) ops).

(** ** Helpers *)

Definition newline : ascii := "010"%char.

(** [http.Error]. *)
Definition error_writes (msg : string) (code : Z) : list write_op :=
  [DelHeader "Content-Length"; SetHeader "Content-Type" "text/plain; charset=utf-8";
   SetHeader "X-Content-Type-Options" "nosniff"; WriteHeader code; Write (to_bytes msg ++ [newline])].

(** [writeJSON] of package api: the value, compact, and a newline. *)
Definition json_writes (code : Z) (v : json) : list write_op :=
  [SetHeader "Content-Type" "application/json"; WriteHeader code; Write (encode_line v)].

(** A [map[string]string] literal. *)
Definition strings_json (m : gmap string string) : json := map_json JStr m.

Section Writes.
  Context `{Env}.

Fixpoint tells (ops : list write_op) : M unit :=
    match ops with
    | [] => mret tt
    | o :: ops => _ ← tell (Out o); tells ops
    end.

Definition http_Error (msg : string) (code : Z) : M unit := tells (error_writes msg code).

Definition writeJSON (code : Z) (v : json) : M unit := tells (json_writes code v).

  (** Running a handler with a wrapped response writer: each call goes through
      the wrapper's state [R], which forwards what it chooses; everything else is
      unchanged, also when the handler panics. *)
Fixpoint rewrite_trace {R} (step : R → write_op → R * list write_op) (r : R) (tr : trace) : R * trace :=
    match tr with
    | [] => (r, [])
    | Out o :: tr =>
      let '(r1, os) := step r o in
      let '(r2, tr') := rewrite_trace step r1 tr in (r2, (Out <$> os) ++ tr')
    | x :: tr => let '(r2, tr') := rewrite_trace step r tr in (r2, x :: tr')
    end.
Definition with_writer {R A} (step : R → write_op → R * list write_op) (r0 : R) (m : M A) : M (R * A) :=
    λ s,
      let '(o, s') := m (mkSt (st_world s) (st_fsm s) []) in
      let '(r, tr) := rewrite_trace step r0 (st_trace s') in
      (match o with Done a => Done (r, a) | Panic => Panic end,
       mkSt (st_world s') (st_fsm s') (st_trace s ++ tr)).
End Writes.

(** ** Routing ([http.ServeMux] with the patterns of [API.Handler]) *)

Inductive route : Type :=
| RouteKV          (* /kv/ and everything below *)
| RouteKVList      (* /kv *)
| RouteStatus | RouteJoin | RouteRemove | RouteSnapshot
| RouteMetrics     (* when metrics are wired *)
| RouteNotFound
| RouteBadRequest  (* the request target [*] *)
| RouteClean (path : bytes). (* redirected to the cleaned path *)

(** A path segment as the routing tree compares it. *)
Definition seg_text (seg : bytes) : bytes := default seg (url_unescape false seg).

(** The match of a rooted path; patterns ending in a slash match every path below. *)
Definition match_path (metrics : bool) (path : bytes) : route :=
  match path with
  | _ :: rest =>
    match seg_text <$> split_on "/"%char rest with
    | [a] =>
      if decide (a = to_bytes "kv") then RouteKVList
      else if metrics && bool_decide (a = to_bytes "metrics") then RouteMetrics else RouteNotFound
    | a :: l =>
      if decide (a = to_bytes "kv") then RouteKV
      else if decide (a = to_bytes "cluster") then
        if decide (l = [to_bytes "status"]) then RouteStatus
        else if decide (l = [to_bytes "join"]) then RouteJoin
        else if decide (l = [to_bytes "remove"]) then RouteRemove
        else if decide (l = [to_bytes "snapshot"]) then RouteSnapshot else RouteNotFound
      else RouteNotFound
    | [] => RouteNotFound
    end
  | [] => RouteNotFound
  end.

Definition mux_route (metrics : bool) (r : Request) : route :=
  let path := to_bytes (EscapedPath (req_URL r)) in
  if decide (Opaque (req_URL r) = "" ∧ RequestURI (req_URL r) = "*") then RouteBadRequest
  else if decide (Method r = "CONNECT") then match_path metrics path
  else if decide (cleanPath path = path) then match_path metrics path
  else RouteClean (cleanPath path).

(** ** Lemmas *)

Section Lemmas.
  Context `{Env}.

Lemma wp_tells ops f (Q : outcome unit → trace → Prop) :
  Q (Done tt) (Out <$> ops) → wp (tells ops) f Q.
Proof.
  revert Q. induction ops as [|o ops IH]; intros Q HQ; cbn [tells]; [by wp_step|].
  wp_step. wp_step. apply IH. done.
Qed.

Lemma wp_http_Error msg code f (Q : outcome unit → trace → Prop) :
  Q (Done tt) (Out <$> error_writes msg code) → wp (http_Error msg code) f Q.
Proof. apply wp_tells. Qed.

Lemma wp_writeJSON code v f (Q : outcome unit → trace → Prop) :
  Q (Done tt) (Out <$> json_writes code v) → wp (writeJSON code v) f Q.
Proof. apply wp_tells. Qed.

Lemma rewrite_trace_events {R} (step : R → write_op → R * list write_op) r tr :
  events_of (rewrite_trace step r tr).2 = events_of tr ∧
  (Forall answered tr → Forall answered (rewrite_trace step r tr).2) ∧
  metrics_of (rewrite_trace step r tr).2 = metrics_of tr ∧
  calls_of (rewrite_trace step r tr).2 = calls_of tr.
Proof.
  assert (∀ os : list write_op, events_of (Out <$> os) = [] ∧ Forall answered (Out <$> os) ∧
            metrics_of (Out <$> os) = [] ∧ calls_of (Out <$> os) = []) as Hout.
  { induction os as [|o os (H1 & H2 & H3 & H4)]; [by split_and!|]. split_and!; try done. by constructor. }
  assert (∀ x tr tr', events_of tr' = events_of tr ∧ (Forall answered tr → Forall answered tr') ∧
            metrics_of tr' = metrics_of tr ∧ calls_of tr' = calls_of tr →
          events_of (x :: tr') = events_of (x :: tr) ∧ (Forall answered (x :: tr) → Forall answered (x :: tr')) ∧
            metrics_of (x :: tr') = metrics_of (x :: tr) ∧ calls_of (x :: tr') = calls_of (x :: tr)) as Hkeep.
  { intros x tr1 tr2 (H1 & H2 & H3 & H4). rewrite (events_of_cons x tr1), (events_of_cons x tr2), H1.
    unfold metrics_of, calls_of in *. cbn. rewrite H3, H4. split_and!; try done.
    intros [? ?]%Forall_cons. constructor; auto. }
  revert r. induction tr as [|x tr IH]; intros r; [done|]. destruct x as [c a evs|m|o]; cbn [rewrite_trace].
  - destruct (rewrite_trace step r tr) as [r2 tr2] eqn:E. apply Hkeep. specialize (IH r). by rewrite E in IH.
  - destruct (rewrite_trace step r tr) as [r2 tr2] eqn:E. apply Hkeep. specialize (IH r). by rewrite E in IH.
  - destruct (step r o) as [r1 os]. destruct (IH r1) as (H1 & H2 & H3 & H4).
    destruct (rewrite_trace step r1 tr) as [r2 tr2]. cbn [snd] in *.
    destruct (Hout os) as (O1 & O2 & O3 & O4).
    rewrite events_of_app, O1. unfold metrics_of, calls_of in *. rewrite !omap_app, O3, O4.
    split_and!; try done. intros [? ?]%Forall_cons. apply Forall_app. auto.
Qed.

Lemma wp_with_writer {R A} (step : R → write_op → R * list write_op) r0 (m : M A) f
    (Q : outcome (R * A) → trace → Prop) :
  wp m f (λ o tr,
    let '(r, tr') := rewrite_trace step r0 tr in
    Q (match o with Done a => Done (r, a) | Panic => Panic end) tr') →
  wp (with_writer step r0 m) f Q.
Proof.
  intros Hm s Hs. specialize (Hm (mkSt (st_world s) (st_fsm s) []) Hs). unfold with_writer.
  destruct (m _) as [o s']. destruct Hm as (tr & Ht & Hf & Ha & HQ). cbn in Ht. rewrite Ht.
  destruct (rewrite_trace_events step r0 tr) as (He & Hans & _ & _).
  destruct (rewrite_trace step r0 tr) as [r tr']. cbn [fst snd] in He, Hans |- *. cbn [st_trace st_fsm] in Hf |- *.
  exists tr'. rewrite He. auto.
Qed.

Lemma writes_of_app tr1 tr2 : writes_of (tr1 ++ tr2) = writes_of tr1 ++ writes_of tr2.
Proof. apply omap_app. Qed.

Lemma writes_of_called (c : call) (x : answer c) evs tr : writes_of (Called c x evs :: tr) = writes_of tr.
Proof. done. Qed.

Lemma writes_of_out ops : writes_of (Out <$> ops) = ops.
Proof. induction ops as [|o ops IH]; [done|]. unfold writes_of in *. cbn. by rewrite IH. Qed.
End Lemmas.

(** A code that ends the reply, and a body follows. *)
Definition plain_code (code : Z) : bool := negb (informational code) && body_allowed code.

Lemma serve_error msg code : plain_code code = true →
  serve (error_writes msg code) =
    mkReply code (<["X-Content-Type-Options" := "nosniff"]>
      (<["Content-Type" := "text/plain; charset=utf-8"]> ∅)) (to_bytes msg ++ [newline]) [].
Proof.
  intros [Hi%negb_true_iff Hb]%andb_true_iff. unfold serve, error_writes. cbn [foldl write_step send_header wr_sent].
  rewrite Hi. unfold write_body. cbn. by rewrite Hb.
Qed.

Lemma serve_json code v : plain_code code = true →
  serve (json_writes code v) = mkReply code {["Content-Type" := "application/json"]} (encode_line v) [].
Proof.
  intros [Hi%negb_true_iff Hb]%andb_true_iff. unfold serve, json_writes. cbn [foldl write_step send_header wr_sent].
  rewrite Hi. unfold write_body. cbn. by rewrite Hb.
Qed.
