(* ===== verification/Metrics.v ===== *)
(** * Instrumentation ([internal/metrics/metrics.go])

    The counters and histograms are Prometheus objects outside the program: an
    increment or an observation is a [Metric] of the trace. Modelled here: which
    metrics an operation records, the response-writer wrapper and the HTTP
    middleware, the status map and its integer parser. *)

From S2P Require Import Prelude Utf8 Base64 Json Decimal GoJson Config Codec Fsm Runtime RaftNode Url Http.
Local Open Scope Z_scope.

(** ** [strconv.ParseInt(s, 10, 64)] and [parseIntStat] *)

Definition max_int64 : Z := 2 ^ 63 - 1.
Definition min_int64 : Z := - 2 ^ 63.
Definition max_uint64 : Z := 2 ^ 64 - 1.

Inductive num_error : Type := ErrSyntax | ErrRange.

(** The digit loop of [ParseUint]: an out-of-range prefix is reported before the
    rest is read. *)
Fixpoint uint_loop (n : Z) (s : bytes) : Z * option num_error :=
  match s with
  | [] => (n, None)
  | c :: r =>
    if is_digit c then
      if max_uint64 / 10 + 1 <=? n then (max_uint64, Some ErrRange)
      else
        let n1 := n * 10 + (byte_val c - 48) in
        if max_uint64 <? n1 then (max_uint64, Some ErrRange) else uint_loop n1 r
    else (0, Some ErrSyntax)
  end.
Definition ParseUint (s : bytes) : Z * option num_error :=
  match s with [] => (0, Some ErrSyntax) | _ => uint_loop 0 s end.

Definition ParseInt (s : bytes) : Z * option num_error :=
  match s with
  | [] => (0, Some ErrSyntax)
  | c :: r =>
    let neg := bool_decide (c = "-"%char) in
    let s := if neg || bool_decide (c = "+"%char) then r else s in
    match ParseUint s with
    | (_, Some ErrSyntax) => (0, Some ErrSyntax)
    | (un, _) =>
      let cutoff := 2 ^ 63 in
      if negb neg && (cutoff <=? un) then (cutoff - 1, Some ErrRange)
      else if neg && (cutoff <? un) then (- cutoff, Some ErrRange)
      else ((if neg then - un else un), None)
    end
  end.

(** The error is dropped, the value kept. *)
Definition parseIntStat (s : string) : Z := (ParseInt (to_bytes s)).1.

(** ** Recording *)

(** [Metrics]: bound to a node and to its state machine; either reference may be
    nil. The registry and the vectors are the library's. *)
Record Metrics : Type := mkMetrics {
  met_node : option Node;
  met_fsm : bool;
}.

Section Record_.
  Context `{Env, MapOrder}.

  (** [ObserveKVOp], nil-safe. *)
Definition ObserveKVOp (m : option Metrics) (op : string) (err : option error) (duration : Z) : M unit :=
    match m with
    | None => mret tt
    | Some _ =>
      _ ← tell (Metric (KvOps op));
      _ ← match err with Some _ => tell (Metric (KvErrors op)) | None => mret tt end;
      if decide (op ∈ ["put"; "delete"]) then tell (Metric (ApplyDur op duration))
      else if decide (op ∈ ["get"; "list"]) then tell (Metric (ReadDur op duration))
      else mret tt
    end.

Definition ObserveSnapshot (m : option Metrics) : M unit :=
    match m with
    | None => mret tt
    | Some _ => tell (Metric Snapshots)
    end.

  (** [StatusMap]: the values as the encoder writes them. *)
Definition int_json (n : Z) : json := JNum (to_bytes (pretty n)).
Definition stat_json (stats : gmap string string) (k : string) : json :=
    int_json (parseIntStat (default "" (stats !! k))).
Definition StatusMap (m : option Metrics) : M (gmap string json) :=
    match m with
    | Some (mkMetrics (Some _) has_fsm) =>
      stats ← Stats;
      leader ← IsLeader;
      let out := <["last_snapshot_index" := stat_json stats "last_snapshot_index"]>
        (<["applied_index" := stat_json stats "applied_index"]>
        (<["commit_index" := stat_json stats "commit_index"]>
        (<["term" := stat_json stats "term"]>
        (<["peers" := stat_json stats "num_peers"]>
        (<["is_leader" := JBool leader]> ∅))))) in
      if has_fsm : bool then
        f ← get_fsm; mret (<["fsm_keys" := int_json (Z.of_nat (Len f))]> out)
      else mret out
    | _ => mret ∅
    end.

  (** ** The HTTP middleware *)

  (** [statusRecorder]: forwards everything but a second [WriteHeader]. *)
Record statusRecorder : Type := mkRecorder { rec_status : Z; rec_wrote : bool }.
Definition rec_step (r : statusRecorder) (o : write_op) : statusRecorder * list write_op :=
    match o with
    | WriteHeader code =>
      if rec_wrote r then (r, []) else (mkRecorder code true, [WriteHeader code])
    | Write b => (mkRecorder (rec_status r) true, [Write b])
    | o => (r, [o])
    end.

Definition HTTPMiddleware (m : option Metrics) (next : Request → M unit) (r : Request) : M unit :=
    start ← do_call Now;
    '(rec, _) ← with_writer rec_step (mkRecorder StatusOK false) (next r);
    match m with
    | None => mret tt
    | Some _ =>
      _ ← tell (Metric (HttpReqs (Method r) (pretty (rec_status rec))));
      stop ← do_call Now;
      tell (Metric (HttpDur (Method r) (stop - start)))
    end.
End Record_.

(** ** Lemmas: the recorder *)

(** The state the recorder is in after the writes of a handler, and what it
    forwarded. *)
Definition rec_run (r : statusRecorder) (ops : list write_op) : statusRecorder * list write_op :=
  foldl (λ '(r, out) o, let '(r', os) := rec_step r o in (r', out ++ os)) (r, []) ops.

Lemma rewrite_trace_writes `{Env} r tr :
  let '(r', tr') := rewrite_trace rec_step r tr in
  rec_run r (writes_of tr) = (r', writes_of tr').
Proof.
  assert (∀ ops r out, foldl (λ '(r, out) o, let '(r', os) := rec_step r o in (r', out ++ os)) (r, out) ops
            = (let '(r', os) := rec_run r ops in (r', out ++ os))) as Hout.
  { unfold rec_run. intros ops. induction ops as [|o ops IH] using rev_ind; intros r0 out;
      [cbn; by rewrite app_nil_r|]. rewrite !foldl_app, IH. cbn.
    destruct (foldl _ (r0, []) ops) as [r1 os]. cbn. destruct (rec_step r1 o). by rewrite app_assoc. }
  revert r. induction tr as [|x tr IH]; intros r; [done|]. destruct x as [c a evs|m|o]; cbn [rewrite_trace].
  - specialize (IH r). by destruct (rewrite_trace rec_step r tr).
  - specialize (IH r). by destruct (rewrite_trace rec_step r tr).
  - destruct (rec_step r o) as [r1 os] eqn:E. specialize (IH r1).
    destruct (rewrite_trace rec_step r1 tr) as [r2 tr2].
    rewrite writes_of_app, writes_of_out. change (writes_of (Out o :: tr)) with (o :: writes_of tr).
    unfold rec_run. cbn [foldl]. rewrite E. cbn [app]. rewrite Hout, IH. done.
Qed.

(** The recorder and the server's writer move together: the recorded status is
    the one already sent, or 200 while nothing was sent. *)
Definition rec_agrees (r : statusRecorder) (w : writer) : Prop :=
  match wr_sent w with
  | Some (code, _) => rec_wrote r = true ∧ rec_status r = code
  | None => rec_wrote r = false ∧ rec_status r = StatusOK
  end.

(** The write sends no informational response. *)
Definition no_info (o : write_op) : Prop :=
  match o with WriteHeader code => informational code = false | _ => True end.

Lemma rec_step_agrees r w o r' os :
  no_info o → rec_agrees r w → rec_step r o = (r', os) →
  rec_agrees r' (foldl write_step w os) ∧ foldl write_step w os = write_step w o.
Proof.
  intros Ho Hr E. unfold rec_agrees in *. destruct w as [h [[c hs]|] b i]; cbn in Hr; destruct Hr as [H1 H2];
    destruct o; cbn in Ho, E; rewrite ?H1, ?H2 in E; simplify_eq; cbn; unfold send_header, write_body; cbn;
    rewrite ?Ho; cbn; rewrite ?H1, ?H2; repeat case_match; simplify_eq/=; auto.
Qed.

Lemma rec_run_agrees ops r w r' os :
  Forall no_info ops → rec_agrees r w → rec_run r ops = (r', os) →
  rec_agrees r' (foldl write_step w os) ∧ foldl write_step w os = foldl write_step w ops.
Proof.
  intros Hops Hr. revert r' os Hops. induction ops as [|o ops IH] using rev_ind; intros r' os Hops E.
  - unfold rec_run in E. cbn in E. by simplify_eq.
  - apply Forall_app in Hops as [Hops [Ho _]%Forall_cons]. unfold rec_run in *. rewrite foldl_app in E. cbn in E.
    destruct (foldl _ (r, []) ops) as [r1 os1] eqn:E1. destruct (IH r1 os1 Hops eq_refl) as [Ha Hw].
    destruct (rec_step r1 o) as [r2 os2] eqn:E2. simplify_eq.
    destruct (rec_step_agrees _ _ _ _ _ Ho Ha E2) as [Ha2 Hw2].
    rewrite foldl_app. split; [exact Ha2|]. by rewrite Hw2, Hw, foldl_app.
Qed.

Lemma rec_run_status ops r os :
  Forall no_info ops → rec_run (mkRecorder StatusOK false) ops = (r, os) →
  serve os = serve ops ∧ rec_status r = reply_code (serve ops).
Proof.
  intros Hops E.
  destruct (rec_run_agrees ops (mkRecorder StatusOK false) (mkWriter ∅ None [] []) r os) as [Ha Hw]; [done..|].
  unfold serve. rewrite <-Hw. split; [done|]. unfold rec_agrees, finish in *.
  by destruct (wr_sent _) as [[c h]|]; destruct Ha.
Qed.

(** ** Lemmas: integers *)

Lemma uint_loop_spec n s : 0 ≤ n ≤ max_uint64 →
  let '(v, e) := uint_loop n s in
  0 ≤ v ≤ max_uint64 ∧ (e = Some ErrRange → v = max_uint64).
Proof.
  revert n. induction s as [|c s IH]; intros n Hn; cbn [uint_loop]; [done|].
  destruct (is_digit c) eqn:Hc; [|split; [unfold max_uint64; lia|done]].
  destruct (_ <=? n) eqn:E1; [split; [unfold max_uint64; lia|done]|].
  destruct (max_uint64 <? _) eqn:E2; [split; [unfold max_uint64; lia|done]|].
  apply IH. unfold is_digit in Hc. bool_props. lia.
Qed.

Lemma ParseInt_range s : min_int64 ≤ (ParseInt s).1 ≤ max_int64.
Proof.
  unfold ParseInt, min_int64, max_int64. destruct s as [|c r]; [cbn; lia|].
  cbv zeta. set (neg := bool_decide (c = "-"%char)). set (s := if _ || _ then _ else _).
  destruct (ParseUint s) as [un e] eqn:E.
  assert (0 ≤ un) as Hun.
  { unfold ParseUint in E. destruct s; [by simplify_eq/=|].
    pose proof (uint_loop_spec 0 (a :: s)) as Hs. rewrite E in Hs.
    destruct Hs as [? _]; [unfold max_uint64; lia|lia]. }
  destruct e as [[]|]; [cbn; lia| |]; destruct neg; cbn -[Z.pow Z.leb Z.ltb];
    split_ifs; cbn -[Z.pow]; lia.
Qed.

(** The digits [pretty] writes are read back by the loop. *)
Lemma uint_loop_pretty (x : N) s :
  uint_loop 0 (to_bytes (pretty_N_go x s)) =
    if Z.of_N x <=? max_uint64 then uint_loop (Z.of_N x) (to_bytes s) else (max_uint64, Some ErrRange).
Proof.
  revert s. induction (N.lt_wf_0 x) as [x _ IH]; intros s.
  destruct (decide (x = 0)%N) as [->|Hne]; [done|].
  rewrite pretty_N_go_step by lia. rewrite IH; [|apply N.div_lt; lia].
  change (to_bytes (String ?c s)) with (c :: to_bytes s). cbn [uint_loop].
  destruct (digit_char (x `mod` 10)) as [-> ->]; [apply N.mod_lt; lia|].
  rewrite N2Z.inj_div, N2Z.inj_mod. change (Z.of_N 10) with 10.
  assert (Z.of_N x / 10 * 10 + Z.of_N x `mod` 10 = Z.of_N x) as -> by divlia.
  destruct (Z.of_N x <=? max_uint64) eqn:E; bool_props.
  - split_ifs; unfold max_uint64 in *; done || divlia.
  - split_ifs; done || lia.
Qed.

Lemma ParseUint_pretty (x : N) :
  ParseUint (to_bytes (pretty x)) =
    if Z.of_N x <=? max_uint64 then (Z.of_N x, None) else (max_uint64, Some ErrRange).
Proof.
  unfold pretty, pretty_N. destruct (decide (x = 0)%N) as [->|Hne]; [done|].
  pose proof (uint_loop_pretty x "") as H. cbn [to_bytes String.list_ascii_of_string] in H.
  unfold ParseUint. destruct (to_bytes (pretty_N_go x "")) eqn:E; [|exact H].
  exfalso. cbn [uint_loop] in H. destruct (_ <=? _) in H; simplify_eq. lia.
Qed.

(** A decimal starts with a digit. *)
Lemma pretty_N_head (x : N) : ∃ c r, to_bytes (pretty x) = c :: r ∧ is_digit c = true.
Proof.
  pose proof (ParseUint_pretty x) as H. unfold ParseUint in H.
  destruct (to_bytes (pretty x)) as [|c r] eqn:E; [by destruct (_ <=? _) in H|].
  exists c, r. split; [done|]. cbn [uint_loop] in H. destruct (is_digit c); [done|].
  by destruct (_ <=? _) in H.
Qed.

Lemma ParseInt_pretty_N (x : N) :
  (ParseInt (to_bytes (pretty x))).1 = Z.min (Z.of_N x) max_int64 ∧
  (ParseInt ("-"%char :: to_bytes (pretty x))).1 = Z.max (- Z.of_N x) min_int64.
Proof.
  split.
  - destruct (pretty_N_head x) as (c & r & E & Hc). pose proof (ParseUint_pretty x) as H.
    rewrite E in *. unfold ParseInt. rewrite !bool_decide_eq_false_2 by (intros ->; done).
    cbn [orb negb andb]. rewrite H.
    destruct (Z.of_N x <=? max_uint64) eqn:E1; cbv beta iota; unfold max_int64, max_uint64 in *;
      split_ifs; cbn [fst]; lia.
  - unfold ParseInt. rewrite bool_decide_eq_true_2 by done. cbn [orb negb andb].
    rewrite ParseUint_pretty.
    destruct (Z.of_N x <=? max_uint64) eqn:E1; cbv beta iota; unfold min_int64, max_uint64 in *;
      split_ifs; cbn [fst]; lia.
Qed.

(** ** Properties *)

(** The integers of the status page are the library's decimals, saturated to
    64 bits: any text gives a 64-bit value, the decimal of [z] gives [z] clamped. *)
Theorem parseIntStat_clamps :
  (∀ s, min_int64 ≤ parseIntStat s ≤ max_int64) ∧
  (∀ z, parseIntStat (pretty z) = Z.max min_int64 (Z.min z max_int64)).
Proof.
  split; [intros s; apply ParseInt_range|]. intros [|x|x]; unfold parseIntStat.
  - done.
  - destruct (ParseInt_pretty_N (N.pos x)) as [H _]. cbn [Z.of_N] in H.
    change (pretty (Z.pos x)) with (pretty (N.pos x)). rewrite H.
    unfold min_int64, max_int64. lia.
  - destruct (ParseInt_pretty_N (N.pos x)) as [_ H]. cbn [Z.of_N] in H.
    change (to_bytes (pretty (Z.neg x))) with ("-"%char :: to_bytes (pretty (N.pos x))). rewrite H.
    unfold min_int64, max_int64. lia.
Qed.

Section Middleware.
  Context `{Env}.

(** C14: the middleware is transparent and its accounting is right for handlers
    that send codes [net/http] accepts and no informational response (1xx but 101): whatever such a handler
    writes (several [WriteHeader] calls, a body without one, nothing), the client
    gets the same reply, and the request is counted once under the status code the
    client saw; a handler that panics is not counted. It is not for the others: of a
    handler that sends 103 and then 500, the client gets the 500 without the
    middleware, a 200 with it, and the request is counted under 103. *)
Theorem middleware_transparent (met : Metrics) (next : Request → M unit) (r : Request) (f : FSM)
    (Q : outcome unit → trace → Prop) :
  (∀ g, wp (next r) g (λ o tr, Q o tr ∧
     ∀ code, WriteHeader code ∈ writes_of tr → code = 101 ∨ 200 ≤ code ≤ 999)) →
  wp (HTTPMiddleware (Some met) next r) f (λ o tr,
    ∃ tr0, Q o tr0 ∧
      serve (writes_of tr) = serve (writes_of tr0) ∧
      match o with
      | Done _ => ∃ d, metrics_of tr = metrics_of tr0 ++
          [HttpReqs (Method r) (pretty (reply_code (serve (writes_of tr0)))); HttpDur (Method r) d]
      | Panic => metrics_of tr = metrics_of tr0
      end) ∧
  wp (HTTPMiddleware (Some met) (λ _, tells [WriteHeader 103; WriteHeader 500]) r) f (λ _ tr,
    serve [WriteHeader 103; WriteHeader 500] = mkReply 500 ∅ [] [(103, ∅)] ∧
    serve (writes_of tr) = mkReply 200 ∅ [] [(103, ∅)] ∧
    ∃ d, metrics_of tr = [HttpReqs (Method r) "103"; HttpDur (Method r) d]).
Proof.
  intros Hnext. split.
  - unfold HTTPMiddleware. wp_step. wp_step. wp_step. apply wp_with_writer.
    eapply wp_mono; [apply Hnext|]. intros o tr0 Htr0 [HQ Hcodes].
    assert (Forall no_info (writes_of tr0)) as Hops.
    { apply Forall_forall. intros [| |code|] Hin; try done. apply Hcodes in Hin. unfold no_info, informational.
      destruct Hin as [->|Hin]; [done|]. destruct (100 <=? code), (code <=? 199) eqn:E; try done. bool_props. lia. }
    pose proof (rewrite_trace_writes (mkRecorder StatusOK false) tr0) as Hw.
    destruct (rewrite_trace_events rec_step (mkRecorder StatusOK false) tr0) as (_ & _ & Hm & _).
    destruct (rewrite_trace rec_step _ tr0) as [rec tr1]. cbn [snd] in Hm.
    apply rec_run_status in Hw as [Hserve Hcode]; [|done]. destruct o as [[]|].
    + wp_step. wp_step. wp_step. wp_step. wp_step. exists tr0. split; [done|].
      unfold metrics_of, writes_of in *. cbn. rewrite !omap_app. cbn. rewrite app_nil_r, Hserve, Hm, Hcode.
      split; [done|]. by eexists.
    + exists tr0. unfold metrics_of, writes_of in *. cbn. by rewrite Hserve, Hm.
  - unfold HTTPMiddleware. wp_step. wp_step. wp_step. apply wp_with_writer. apply wp_tells.
    cbn [fmap list_fmap rewrite_trace rec_step rec_wrote app]. wp_step. wp_step. wp_step. wp_step. wp_step.
    split_and!; [vm_compute; reflexivity..|]. by eexists.
Qed.
End Middleware.
