(* ===== verification/Collector.v ===== *)
(** * The instruments ([internal/metrics/metrics.go], [internal/metrics/collector.go])

    The counters and histograms [New] creates and registers, and the collector
    that reads the node and the state machine when the metrics are scraped. *)

From S2P Require Import Prelude Utf8 Base64 Json Decimal Float GoJson Config Codec Fsm Runtime RaftNode Url Http Metrics.
Local Open Scope Z_scope.

(** ** Counters and histograms *)

Definition namespace : string := "raft_meta".

Inductive instrument_kind : Type := CounterKind | HistogramKind.

#[export] Instance instrument_kind_eq_dec : EqDecision instrument_kind.
Proof. solve_decision. Defined.

(** A vector as [New] declares it; a counter without labels is a vector of none.
    The histograms use the library's default buckets. *)
Record instrument : Type := mkInstrument {
  in_kind : instrument_kind;
  in_name : string;
  in_help : string;
  in_labels : list string;
}.

#[export] Instance instrument_eq_dec : EqDecision instrument.
Proof. solve_decision. Defined.

Definition kvOps : instrument :=
  mkInstrument CounterKind "kv_ops_total" "Total KV operations by type." ["op"].
Definition kvErrors : instrument :=
  mkInstrument CounterKind "kv_op_errors_total" "Total KV operation errors by type." ["op"].
Definition applyDur : instrument :=
  mkInstrument HistogramKind "kv_apply_duration_seconds" "KV write (raft.Apply) duration." ["op"].
Definition readDur : instrument :=
  mkInstrument HistogramKind "kv_read_duration_seconds" "KV read (local FSM) duration." ["op"].
Definition snapshots : instrument :=
  mkInstrument CounterKind "snapshot_triggers_total" "Manual snapshot triggers via POST /cluster/snapshot." [].
Definition httpReqs : instrument :=
  mkInstrument CounterKind "http_requests_total" "HTTP requests by method and status code." ["method"; "code"].
Definition httpDur : instrument :=
  mkInstrument HistogramKind "http_request_duration_seconds" "HTTP request duration." ["method"].

(** The vector an observation is made on, and its label values. *)
Definition observed_on (m : metric) : instrument * list string :=
  match m with
  | KvOps op => (kvOps, [op])
  | KvErrors op => (kvErrors, [op])
  | ApplyDur op _ => (applyDur, [op])
  | ReadDur op _ => (readDur, [op])
  | Snapshots => (snapshots, [])
  | HttpReqs method code => (httpReqs, [method; code])
  | HttpDur method _ => (httpDur, [method])
  end.

(** ** The collector *)

(** [prometheus.Desc]: the full name and the help; no labels. *)
Record Desc : Type := mkDesc { desc_name : string; desc_help : string }.

#[export] Instance Desc_eq_dec : EqDecision Desc.
Proof. solve_decision. Defined.

Record stateCollector : Type := mkStateCollector {
  sc_node : option Node;
  sc_fsm : bool;
  sc_isLeader : Desc;
  sc_term : Desc;
  sc_commitIndex : Desc;
  sc_appliedIndex : Desc;
  sc_lastLogIndex : Desc;
  sc_lastSnapshotIndex : Desc;
  sc_fsmKeys : Desc;
  sc_peers : Desc;
}.

Definition newStateCollector (n : option Node) (f : bool) : stateCollector := {|
  sc_node := n;
  sc_fsm := f;
  sc_isLeader := mkDesc (namespace +:+ "_is_leader") "1 if this node is raft leader, else 0.";
  sc_term := mkDesc (namespace +:+ "_raft_term") "Current raft term.";
  sc_commitIndex := mkDesc (namespace +:+ "_commit_index") "Current raft commit index.";
  sc_appliedIndex := mkDesc (namespace +:+ "_applied_index") "Current raft applied index.";
  sc_lastLogIndex := mkDesc (namespace +:+ "_last_log_index") "Last raft log index.";
  sc_lastSnapshotIndex := mkDesc (namespace +:+ "_last_snapshot_index") "Last snapshot index.";
  sc_fsmKeys := mkDesc (namespace +:+ "_fsm_keys") "Number of keys in the FSM.";
  sc_peers := mkDesc (namespace +:+ "_peers") "Number of known voter peers (excluding self).";
|}.

(** What [Describe] sends, in order. *)
Definition Describe (c : stateCollector) : list Desc :=
  [sc_isLeader c; sc_term c; sc_commitIndex c; sc_appliedIndex c; sc_lastLogIndex c;
   sc_lastSnapshotIndex c; sc_fsmKeys c; sc_peers c].

(** The error is dropped, the value kept. *)
Definition parseFloat (s : string) : f64 := (ParseFloat (to_bytes s)).1.

Section Collect.
  Context `{Env}.

(** [stats[k]]: an absent key reads as the empty string. *)
Definition stat (stats : gmap string string) (k : string) : string := default "" (stats !! k).

(** [Collect]: the gauges it sends, in order. *)
Definition Collect (c : stateCollector) : M (list (Desc * f64)) :=
    match sc_node c with
    | None => mret []
    | Some _ =>
      stats ← Stats;
      leader ← IsLeader;
      let leaderVal := if leader : bool then of_int 1 else of_int 0 in
      let sent :=
        [(sc_isLeader c, leaderVal);
         (sc_term c, parseFloat (stat stats "term"));
         (sc_commitIndex c, parseFloat (stat stats "commit_index"));
         (sc_appliedIndex c, parseFloat (stat stats "applied_index"));
         (sc_lastLogIndex c, parseFloat (stat stats "last_log_index"));
         (sc_lastSnapshotIndex c, parseFloat (stat stats "last_snapshot_index"));
         (sc_peers c, parseFloat (stat stats "num_peers"))] in
      if sc_fsm c then
        f ← get_fsm; mret (sent ++ [(sc_fsmKeys c, of_int (Z.of_nat (Len f)))])
      else mret sent
    end.
End Collect.

(** ** Construction *)

(** [metrics.New]: the metrics, and what it registers: the vectors in order and
    the collector. *)
Record registration : Type := mkRegistration {
  reg_metrics : Metrics;
  reg_instruments : list instrument;
  reg_collector : stateCollector;
}.
Definition Metrics_New (n : option Node) (f : bool) : registration :=
  mkRegistration (mkMetrics n f)
    [kvOps; kvErrors; applyDur; readDur; snapshots; httpReqs; httpDur]
    (newStateCollector n f).

(** The full names under which the registry files them. *)
Definition registered_names (r : registration) : list string :=
  map (λ i, namespace +:+ "_" +:+ in_name i) (reg_instruments r) ++
  map desc_name (Describe (reg_collector r)).

(** ** Properties *)

Section Specs.
  Context `{Env}.

Lemma wp_Collect c f (Q : outcome (list (Desc * f64)) → trace → Prop) :
  (sc_node c = None → Q (Done []) []) →
  (∀ stats leader evs1 evs2, sc_node c ≠ None →
     Q (Done ([(sc_isLeader c, of_int (if bool_decide (leader = Leader) then 1 else 0));
               (sc_term c, parseFloat (stat stats "term"));
               (sc_commitIndex c, parseFloat (stat stats "commit_index"));
               (sc_appliedIndex c, parseFloat (stat stats "applied_index"));
               (sc_lastLogIndex c, parseFloat (stat stats "last_log_index"));
               (sc_lastSnapshotIndex c, parseFloat (stat stats "last_snapshot_index"));
               (sc_peers c, parseFloat (stat stats "num_peers"))] ++
              if sc_fsm c then [(sc_fsmKeys c, of_int (Z.of_nat (Len (deliver f (evs1 ++ evs2)))))] else []))
       [Called RaftStats stats evs1; Called RaftState_ leader evs2]) →
  wp (Collect c) f Q.
Proof.
  intros Hnil Hrun. unfold Collect. destruct (sc_node c) as [n|]; [|wp_step; by apply Hnil].
  unfold Stats. wp_step. wp_step. wp_step. apply wp_IsLeader. intros leader evs2. cbv zeta.
  specialize (Hrun ans leader evs evs2 ltac:(done)).
  assert (∀ b : bool, (if b then of_int 1 else of_int 0) = of_int (if b then 1 else 0)) as Hb by by intros [].
  rewrite Hb. destruct (sc_fsm c).
  - wp_step. wp_step. wp_step. unfold events_of. cbn. rewrite !app_nil_r, <-deliver_app. exact Hrun.
  - wp_step. exact Hrun.
Qed.
End Specs.

(** The statistics the collector exports, and the gauge of each. *)
Definition stat_gauges (c : stateCollector) : list (string * Desc) :=
  [("term", sc_term c); ("commit_index", sc_commitIndex c); ("applied_index", sc_appliedIndex c);
   ("last_log_index", sc_lastLogIndex c); ("last_snapshot_index", sc_lastSnapshotIndex c); ("num_peers", sc_peers c)].

Lemma pretty_Z_digits v : 0 ≤ v → to_bytes (pretty v) = digits_of v.
Proof. by destruct v as [|p|p]; [| |lia]. Qed.

(** A decimal below [2^53] is exported, and shown on the status page, as it is. *)
Lemma stat_decimal stats k v : stats !! k = Some (pretty v) → 0 ≤ v < 2 ^ 53 →
  parseFloat (stat stats k) = of_int v ∧ stat_json stats k = int_json v.
Proof.
  intros Hk Hv. unfold parseFloat, stat, stat_json, parseIntStat. rewrite Hk. cbn [default from_option id].
  split; [by rewrite pretty_Z_digits, ParseFloat_of_int by lia|].
  destruct (ParseInt_pretty_N (Z.to_N v)) as [H _]. fold (digits_of v) in H.
  rewrite pretty_Z_digits, H by lia. f_equal. unfold max_int64. lia.
Qed.

Section Theorems.
  Context `{Env}.

(** C30: the instruments are used as they are declared. No two of the vectors and
    gauges that [New] registers share a full name, so the registration is
    accepted; every observation of the program is made on a registered vector with
    as many label values as it has labels; and a scrape sends only gauges the
    collector describes, each at most once. *)
Theorem instruments_well_typed (n : option Node) (f : bool) :
  let r := Metrics_New n f in
  NoDup (registered_names r) ∧
  (∀ m, (observed_on m).1 ∈ reg_instruments r ∧
        length (observed_on m).2 = length (in_labels (observed_on m).1)) ∧
  (∀ g, wp (Collect (reg_collector r)) g (λ o tr, ∃ gauges, o = Done gauges ∧
          NoDup gauges.*1 ∧ gauges.*1 ⊆ Describe (reg_collector r))).
Proof.
  cbv zeta. split_and!.
  - refine (bool_decide_unpack _ _). vm_compute. exact I.
  - intros m. split; [|by destruct m]. unfold Metrics_New, reg_instruments.
    destruct m; cbn [observed_on fst]; refine (bool_decide_unpack _ _); vm_compute; exact I.
  - intros g. apply wp_Collect; [intros _; exists []; split_and!; [done|constructor|set_solver]|].
    intros stats leader evs1 evs2 _. eexists. split; [done|].
    unfold Metrics_New. cbn [reg_collector]. destruct f; cbn [sc_fsm newStateCollector app fmap list_fmap fst];
      (split; [refine (bool_decide_unpack _ _); vm_compute; exact I|unfold Describe; cbn; set_solver]).
Qed.

End Theorems.
