(* ===== verification/Store.v ===== *)
(** * The replicated store ([internal/store/store.go])

    Writes are encoded as commands and go through the log when this node leads;
    reads are answered by the local state machine. *)

From S2P Require Import Prelude Utf8 Base64 Json GoJson Config Codec Fsm Runtime Loopback RaftNode Url Http Metrics.
Local Open Scope Z_scope.

(** [Store]: the node, the timeout of writes, the metrics when wired. The state
    machine is in the monad. *)
Record Store : Type := mkStore {
  st_node : Node;
  st_applyTimeout : Z;
  st_metrics : option Metrics;
}.

Definition Store_New (n : Node) (applyTimeout : Z) : Store := mkStore n applyTimeout None.
Definition SetMetrics (s : Store) (m : option Metrics) : Store :=
  mkStore (st_node s) (st_applyTimeout s) m.

(** The commands of the four writes. *)
Definition put_command (key : string) (value : slice) : Command := mkCommand OpPut key value "" "" "".
Definition delete_command (key : string) : Command := mkCommand OpDelete key None "" "" "".
Definition add_peer_command (id raftAddr httpAddr : string) : Command :=
  mkCommand OpAddPeer "" None id raftAddr httpAddr.
Definition remove_peer_command (id : string) : Command := mkCommand OpRemovePeer "" None id "" "".

Section Store.
  Context `{Env, MapOrder}.

  (** The common body of the writes: leader check, encoding, [Apply]. *)
Definition submit (s : Store) (c : Command) : M (option error) :=
    leader ← IsLeader;
    if negb leader then mret (Some ErrNotLeader)
    else
      match EncodeCommand c with
      | Err err => mret (Some err)
      | Ok cmd => node_Apply cmd (st_applyTimeout s)
      end.

Definition put (s : Store) (key : string) (value : slice) : M (option error) := submit s (put_command key value).
Definition delete (s : Store) (key : string) : M (option error) := submit s (delete_command key).

  (** The frame around [Put], [Delete], [Get] and [List]: the time before, the
      operation, and when metrics are wired the time after and the record. *)
Definition observed {A} (s : Store) (op : string) (err_of : A → option error) (body : M A) : M A :=
    start ← do_call Now;
    a ← body;
    _ ← match st_metrics s with
        | Some m => stop ← do_call Now; ObserveKVOp (Some m) op (err_of a) (stop - start)
        | None => mret tt
        end;
    mret a.

Definition Put (s : Store) (key : string) (value : slice) : M (option error) :=
    observed s "put" (λ err, err) (put s key value).

Definition Delete (s : Store) (key : string) : M (option error) :=
    observed s "delete" (λ err, err) (delete s key).

Definition AddPeer (s : Store) (id raftAddr httpAddr : string) : M (option error) :=
    submit s (add_peer_command id raftAddr httpAddr).
Definition RemovePeer (s : Store) (id : string) : M (option error) := submit s (remove_peer_command id).

Definition Store_Get (s : Store) (key : string) : M (slice * bool) :=
    observed s "get" (λ _, None) (f ← get_fsm; mret (Get f key)).

Definition Store_List (s : Store) (prefix : string) : M (gmap string slice) :=
    observed s "list" (λ _, None) (f ← get_fsm; mret (List f prefix)).

Definition Store_LeaderAddr : M string := LeaderAddr.
End Store.

(** ** What the operations do *)

Section Specs.
  Context `{Env, MapOrder}.

  (** The possible runs of a write: without leadership nothing is proposed;
      otherwise the encoded command is proposed once and the library's answer is
      the result. *)
Inductive submitted (s : Store) (c : Command) : option error → trace → Prop :=
  | submitted_not_leader (state : RaftState) evs :
      state ≠ Leader → submitted s c (Some ErrNotLeader) [Called RaftState_ state evs]
  | submitted_proposed evs cmd err evs' :
      EncodeCommand c = Ok cmd →
      submitted s c err [Called RaftState_ Leader evs; Called (RaftApply cmd (st_applyTimeout s)) err evs'].

Lemma wp_submit s c f (Q : outcome (option error) → trace → Prop) :
  (∀ err tr, submitted s c err tr → Q (Done err) tr) → wp (submit s c) f Q.
Proof.
  intros HQ. unfold submit. wp_step. apply wp_IsLeader. intros st evs.
  destruct (decide (st = Leader)) as [->|Hne].
  - rewrite bool_decide_eq_true_2 by done. cbn [negb].
    destruct (decode_encode_command c) as (cmd & He & _). rewrite He. unfold node_Apply.
    wp_step. apply HQ. by constructor.
  - rewrite bool_decide_eq_false_2 by done. cbn [negb]. wp_step. apply HQ. by constructor.
Qed.

  (** The metrics of one operation. *)
Definition kv_metrics (m : option Metrics) (op : string) (write : bool) (err : option error) (d : Z) : list metric :=
    match m with
    | None => []
    | Some _ =>
      KvOps op :: (match err with Some _ => [KvErrors op] | None => [] end)
        ++ [if write then ApplyDur op d else ReadDur op d]
    end.

  (** The trace of an observed operation whose own trace is [tr]. *)
Inductive timed (m : option Metrics) (op : string) (write : bool) (err : option error)
    (t0 : Z) (evs0 : list fsm_event) (tr : trace) : trace → Prop :=
  | timed_unwired : m = None → timed m op write err t0 evs0 tr (Called Now t0 evs0 :: tr)
  | timed_wired t1 evs1 : m ≠ None →
      timed m op write err t0 evs0 tr
        (Called Now t0 evs0 :: tr ++ Called Now t1 evs1 :: (Metric <$> kv_metrics m op write err (t1 - t0))).

Lemma wp_ObserveKVOp m (op : string) (write : bool) err d f (Q : outcome unit → trace → Prop) :
  op ∈ (if write then ["put"; "delete"] else ["get"; "list"]) →
  Q (Done tt) (Metric <$> kv_metrics m op write err d) → wp (ObserveKVOp m op err d) f Q.
Proof.
  intros Hop HQ. unfold ObserveKVOp, kv_metrics in *. destruct m as [m|]; [|by wp_step].
  wp_step. wp_step. wp_step.
  assert (∀ tr, Q (Done tt) ([Metric (KvOps op)] ++ tr ++ [Metric (if write then ApplyDur op d else ReadDur op d)]) →
    wp (if decide (op ∈ ["put"; "delete"]) then tell (Metric (ApplyDur op d))
        else if decide (op ∈ ["get"; "list"]) then tell (Metric (ReadDur op d)) else mret tt)
      (deliver (deliver f (events_of [Metric (KvOps op)])) (events_of tr))
      (λ o2 tr2, Q o2 ([Metric (KvOps op)] ++ tr ++ tr2))) as Hlast.
  { intros tr HQ'. destruct write.
    - rewrite decide_True by done. wp_step. done.
    - rewrite decide_False by set_solver. rewrite decide_True by done. by wp_step. }
  destruct err as [e|]; [wp_step|wp_step]; by apply Hlast.
Qed.

Lemma wp_observed {A} s (op : string) (write : bool) err_of (body : M A) f (Q : outcome A → trace → Prop) :
  op ∈ (if write then ["put"; "delete"] else ["get"; "list"]) →
  (∀ g t0 evs, g = deliver f (events_of [Called Now t0 evs]) →
   wp body g (λ o tr, ∃ a, o = Done a ∧
     ∀ tr', timed (st_metrics s) op write (err_of a) t0 evs tr tr' → Q (Done a) tr')) →
  wp (observed s op err_of body) f Q.
Proof.
  intros Hop Hbody. unfold observed. wp_step. wp_step. wp_step.
  eapply wp_mono; [by eapply Hbody|]. intros o tr _ (x & -> & HQ). wp_step.
  destruct (st_metrics s) as [m|].
  - wp_step. wp_step. apply wp_ObserveKVOp with (write := write); [done|]. wp_step.
    rewrite app_nil_r. apply HQ. by apply timed_wired.
  - wp_step. wp_step. rewrite app_nil_r. apply HQ. by apply timed_unwired.
Qed.

Lemma wp_Put s key value f (Q : outcome (option error) → trace → Prop) :
  (∀ err tr t0 evs tr', submitted s (put_command key value) err tr →
     timed (st_metrics s) "put" true err t0 evs tr tr' → Q (Done err) tr') →
  wp (Put s key value) f Q.
Proof.
  intros HQ. apply wp_observed with (write := true); [set_solver|]. intros g t0 evs _.
  apply wp_submit. intros err tr Htr. eauto.
Qed.

Lemma wp_Delete s key f (Q : outcome (option error) → trace → Prop) :
  (∀ err tr t0 evs tr', submitted s (delete_command key) err tr →
     timed (st_metrics s) "delete" true err t0 evs tr tr' → Q (Done err) tr') →
  wp (Delete s key) f Q.
Proof.
  intros HQ. apply wp_observed with (write := true); [set_solver|]. intros g t0 evs _.
  apply wp_submit. intros err tr Htr. eauto.
Qed.

  (** A read sees the state after the events received before it. *)
Lemma wp_Store_Get s key f (Q : outcome (slice * bool) → trace → Prop) :
  (∀ t0 evs tr', timed (st_metrics s) "get" false None t0 evs [] tr' →
     Q (Done (Get (deliver f evs) key)) tr') →
  wp (Store_Get s key) f Q.
Proof.
  intros HQ. apply wp_observed with (write := false); [set_solver|]. intros g t0 evs ->.
  wp_step. wp_step. wp_step. unfold events_of. cbn. rewrite app_nil_r. eauto.
Qed.

Lemma wp_Store_List s prefix f (Q : outcome (gmap string slice) → trace → Prop) :
  (∀ t0 evs tr', timed (st_metrics s) "list" false None t0 evs [] tr' →
     Q (Done (List (deliver f evs) prefix)) tr') →
  wp (Store_List s prefix) f Q.
Proof.
  intros HQ. apply wp_observed with (write := false); [set_solver|]. intros g t0 evs ->.
  wp_step. wp_step. wp_step. unfold events_of. cbn. rewrite app_nil_r. eauto.
Qed.
End Specs.

(** ** Reading back a write *)

(** The event does not write to [k]. *)
Definition leaves (k : string) (e : fsm_event) : Prop :=
  match e with
  | EvApply log => writes_to k log = None
  | EvRestore _ => False
  end.

Lemma apply1_untouched f log k :
  writes_to k log = None → fsm_data (apply1 f log) !! k = fsm_data f !! k.
Proof.
  unfold writes_to, op_of_log. destruct (DecodeCommand (log_Data log)) as [c|e] eqn:E.
  - destruct (apply1_decoded f log c E) as [-> _]. unfold op_of_command.
    repeat case_decide; cbn; intros; simplify_eq; try done; by rewrite ?lookup_insert_ne, ?lookup_delete_ne.
  - intros _. unfold apply1. by rewrite (apply1_undecoded f log e E).
Qed.

Lemma deliver_untouched f evs k :
  Forall (leaves k) evs → fsm_data (deliver f evs) !! k = fsm_data f !! k.
Proof.
  revert f. induction evs as [|e evs IH]; intros f Hevs; [done|].
  apply Forall_cons in Hevs as [He Hevs]. cbn. rewrite IH by done.
  destruct e as [log|rc]; cbn in *; [by apply apply1_untouched|done].
Qed.

Lemma encoded_decodes c cmd : EncodeCommand c = Ok cmd → DecodeCommand cmd = Ok (coerce_command c).
Proof. destruct (decode_encode_command c) as (cmd' & He & Hd). rewrite He. congruence. Qed.

Lemma apply1_put f index cmd key value :
  EncodeCommand (put_command key value) = Ok cmd →
  fsm_data (apply1 f (mkLog index cmd)) !! coerce_string key = Some (append_nil value).
Proof.
  intros Hd%encoded_decodes. destruct (apply1_decoded f (mkLog index cmd) _ Hd) as [-> _]. rewrite decide_True by done.
  cbn. rewrite lookup_insert_eq. f_equal. apply append_nil_id, append_nil_never_empty.
Qed.

Lemma apply1_delete f index cmd key :
  EncodeCommand (delete_command key) = Ok cmd →
  fsm_data (apply1 f (mkLog index cmd)) !! coerce_string key = None.
Proof.
  intros Hd%encoded_decodes. destruct (apply1_decoded f (mkLog index cmd) _ Hd) as [-> _].
  rewrite decide_False, decide_True by done. cbn. by rewrite lookup_delete_eq.
Qed.

Lemma metrics_of_timed `{Env} m op write err t0 evs tr tr' :
  timed m op write err t0 evs tr tr' →
  ∃ d, metrics_of tr' = metrics_of tr ++ kv_metrics m op write err d.
Proof.
  assert (∀ l, metrics_of (Metric <$> l) = l) as Hm.
  { induction l as [|x l IH]; [done|]. unfold metrics_of in *. cbn. by rewrite IH. }
  intros [Hn|t1 evs1 Hn].
  - exists 0. rewrite Hn. cbn. by rewrite app_nil_r.
  - exists (t1 - t0). unfold metrics_of in *. cbn. rewrite omap_app. cbn. by rewrite Hm.
Qed.

Lemma calls_of_timed `{Env} m op write err t0 evs tr tr' :
  timed m op write err t0 evs tr tr' →
  calls_of tr' = Now :: calls_of tr ++ (match m with Some _ => [Now] | None => [] end).
Proof.
  assert (∀ l : list metric, calls_of (Metric <$> l) = []) as Hm.
  { induction l as [|x l IH]; [done|]. done. }
  intros [Hn|t1 evs1 Hn]; unfold calls_of in *; cbn.
  - rewrite Hn. by rewrite app_nil_r.
  - rewrite omap_app. cbn. rewrite Hm. by destruct m.
Qed.

(** The command of a write is in the log: its encoding is the entry that was
    proposed with the configured timeout, the library accepted that proposal, and
    the local state machine has applied the entry. *)
Definition committed `{Env} (s : Store) (c : Command) (cmd : bytes) (tr : trace) : Prop :=
  EncodeCommand c = Ok cmd ∧
  (∃ evs, Called (RaftApply cmd (st_applyTimeout s)) None evs ∈ tr) ∧
  ∃ index, EvApply (mkLog index cmd) ∈ events_of tr.

Lemma committed_app_l `{Env} s c cmd tr1 tr2 : committed s c cmd tr1 → committed s c cmd (tr1 ++ tr2).
Proof.
  intros (He & [evs Hc] & index & Hi). split_and!; [done|exists evs|exists index];
    rewrite ?events_of_app; apply elem_of_app; by left.
Qed.

Lemma committed_app_r `{Env} s c cmd tr1 tr2 : committed s c cmd tr2 → committed s c cmd (tr1 ++ tr2).
Proof.
  intros (He & [evs Hc] & index & Hi). split_and!; [done|exists evs|exists index];
    rewrite ?events_of_app; apply elem_of_app; by right.
Qed.

Lemma committed_timed `{Env} m op write err t0 evs s c cmd tr tr' :
  timed m op write err t0 evs tr tr' → committed s c cmd tr → committed s c cmd tr'.
Proof.
  intros [Hn|t1 evs1 Hn] Hc; [by apply (committed_app_r _ _ _ [_])|].
  apply (committed_app_r _ _ _ [_]). by apply committed_app_l.
Qed.

(** An accepted write is committed. *)
Lemma submitted_committed `{ApplyLaw} s c tr :
  submitted s c None tr → Forall answered tr → ∃ cmd, committed s c cmd tr.
Proof.
  intros Hs. inversion Hs as [|evs cmd err evs' He Herr]; subst.
  intros (_ & [(w & w' & Hw) _]%Forall_cons)%Forall_cons.
  destruct (apply_committed _ _ _ _ _ Hw) as (pre & index & post & ->).
  exists cmd. split_and!; [done|eexists; right; by left|]. exists index.
  rewrite !events_of_called. apply elem_of_app. right. apply elem_of_app. left. set_solver.
Qed.

Lemma events_of_metrics `{Env} l : events_of (Metric <$> l) = [].
Proof. by induction l. Qed.

Lemma timed_events `{Env} m op write err t0 evs tr tr' :
  timed m op write err t0 evs tr tr' → ∃ post, events_of tr' = evs ++ events_of tr ++ post.
Proof.
  intros [Hn|t1 evs1 Hn].
  - exists []. by rewrite app_nil_r.
  - exists evs1. rewrite (events_of_cons _ (tr ++ _)), events_of_app,
      (events_of_cons _ (Metric <$> _)), events_of_metrics.
    unfold events_of at 1 3. cbn. by rewrite !app_nil_r.
Qed.

Lemma timed_answered `{Env} m op write err t0 evs tr tr' :
  timed m op write err t0 evs tr tr' → Forall answered tr' → Forall answered tr.
Proof.
  intros [Hn|t1 evs1 Hn]; [by intros [_ ?]%Forall_cons|].
  by intros [_ [? _]%Forall_app]%Forall_cons.
Qed.

(** The discipline of a write: without leadership [ErrNotLeader] and no proposal;
    with it exactly one proposal, of an entry that decodes to the command, whose
    answer is the result. *)
Definition disciplined `{Env} (s : Store) (c : Command) (err : option error) (tr : trace) : Prop :=
  (∃ state evs, state ≠ Leader ∧ Called RaftState_ state evs ∈ tr ∧ err = Some ErrNotLeader ∧ proposals tr = []) ∨
  (∃ evs cmd evs', Called RaftState_ Leader evs ∈ tr ∧ DecodeCommand cmd = Ok (coerce_command c) ∧
     Called (RaftApply cmd (st_applyTimeout s)) err evs' ∈ tr ∧ proposals tr = [(cmd, st_applyTimeout s)]).

Lemma submitted_disciplined `{Env} s c err tr :
  submitted s c err tr → disciplined s c err tr ∧ metrics_of tr = [].
Proof.
  intros [st evs Hst|evs cmd err' evs' He]; (split; [|done]); [left|right].
  - exists st, evs. split_and!; try done. by left.
  - exists evs, cmd, evs'. split_and!; [by left|by apply encoded_decodes|by right; left|done].
Qed.

Lemma timed_disciplined `{Env} m op write err0 t0 evs s c err tr tr' :
  timed m op write err0 t0 evs tr tr' → disciplined s c err tr → disciplined s c err tr'.
Proof.
  intros Ht. assert (proposals tr' = proposals tr) as Hp.
  { unfold proposals. rewrite (calls_of_timed _ _ _ _ _ _ _ _ Ht). cbn. rewrite omap_app.
    destruct m; cbn; by rewrite app_nil_r. }
  assert (∀ x, x ∈ tr → x ∈ tr') as Hin.
  { intros x Hx. destruct Ht; right; [done|]. apply elem_of_app. by left. }
  unfold disciplined. rewrite Hp. intros [(st & ev & ? & ? & ?)|(ev & cmd & ev' & ? & ? & ? & ?)];
    [left; exists st, ev|right; exists ev, cmd, ev']; naive_solver.
Qed.

(** ** Properties *)

Section Properties.
  Context `{Env, MapOrder}.

(** C5: the discipline of writes, for put, delete and the two peer commands. A
    node that is not the leader answers [ErrNotLeader] and proposes nothing; a
    leader proposes exactly one entry, the encoding of the requested command, with
    the configured timeout, and returns the library's answer. A put or a delete is
    counted once, as an error exactly when it returned one. *)
Theorem write_discipline (s : Store) (f : FSM) (key : string) (value : slice) (id addr http : string) :
  wp (Put s key value) f (λ o tr, ∃ err d, o = Done err ∧ disciplined s (put_command key value) err tr ∧
      metrics_of tr = kv_metrics (st_metrics s) "put" true err d) ∧
  wp (Delete s key) f (λ o tr, ∃ err d, o = Done err ∧ disciplined s (delete_command key) err tr ∧
      metrics_of tr = kv_metrics (st_metrics s) "delete" true err d) ∧
  wp (AddPeer s id addr http) f (λ o tr, ∃ err, o = Done err ∧ metrics_of tr = [] ∧
      disciplined s (add_peer_command id addr http) err tr) ∧
  wp (RemovePeer s id) f (λ o tr, ∃ err, o = Done err ∧ metrics_of tr = [] ∧
      disciplined s (remove_peer_command id) err tr).
Proof.
  split_and!.
  - apply wp_Put. intros err tr t0 evs tr' [Hd Hm]%submitted_disciplined Ht.
    destruct (metrics_of_timed _ _ _ _ _ _ _ _ Ht) as [d Hd']. rewrite Hm in Hd'.
    exists err, d. split_and!; [done|by eapply timed_disciplined|done].
  - apply wp_Delete. intros err tr t0 evs tr' [Hd Hm]%submitted_disciplined Ht.
    destruct (metrics_of_timed _ _ _ _ _ _ _ _ Ht) as [d Hd']. rewrite Hm in Hd'.
    exists err, d. split_and!; [done|by eapply timed_disciplined|done].
  - apply wp_submit. intros err tr [Hd Hm]%submitted_disciplined. eauto.
  - apply wp_submit. intros err tr [Hd Hm]%submitted_disciplined. eauto.
Qed.

(** C6: an acknowledged write is visible. When [Put] returns no error, the
    encoding of this put was proposed, the library accepted it and the local state
    machine has applied it; and after every occurrence of that entry which no later
    event follows that writes the key, [Get] returns the value. After an
    acknowledged [Delete] it reports the key as missing. The key is the one the log
    carries: the requested key with invalid UTF-8 replaced. *)
Theorem acknowledged_write_visible `{!ApplyLaw} (s : Store) (f : FSM) (key : string) (value : slice) :
  wp (Put s key value) f (λ o tr, o = Done None →
    ∃ cmd, committed s (mkCommand "put" key value "" "" "") cmd tr ∧
      ∀ pre index post, events_of tr = pre ++ EvApply (mkLog index cmd) :: post →
        Forall (leaves (coerce_string key)) post →
        Get (deliver f (events_of tr)) (coerce_string key) = (append_nil value, true)) ∧
  wp (Delete s key) f (λ o tr, o = Done None →
    ∃ cmd, committed s (mkCommand "delete" key None "" "" "") cmd tr ∧
      ∀ pre index post, events_of tr = pre ++ EvApply (mkLog index cmd) :: post →
        Forall (leaves (coerce_string key)) post →
        Get (deliver f (events_of tr)) (coerce_string key) = (None, false)).
Proof.
  split.
  - eapply wp_mono; [apply wp_Put with (Q := λ o tr', ∃ err t0 evs tr, o = Done err ∧
      submitted s (put_command key value) err tr ∧ timed (st_metrics s) "put" true err t0 evs tr tr')|].
    { intros. repeat eexists; eauto. }
    intros o tr' Ha (err & t0 & evs & tr & -> & Hs & Ht) [= ->].
    destruct (submitted_committed s _ tr Hs) as [cmd Hc]; [by eapply timed_answered|].
    exists cmd. split; [by eapply committed_timed|]. intros pre index post -> Hpost.
    unfold Get. rewrite deliver_app. cbn [deliver foldl deliver1]. fold deliver.
    rewrite deliver_untouched, (apply1_put _ _ _ _ _ (proj1 Hc)) by done.
    by rewrite append_nil_id by apply append_nil_never_empty.
  - eapply wp_mono; [apply wp_Delete with (Q := λ o tr', ∃ err t0 evs tr, o = Done err ∧
      submitted s (delete_command key) err tr ∧ timed (st_metrics s) "delete" true err t0 evs tr tr')|].
    { intros. repeat eexists; eauto. }
    intros o tr' Ha (err & t0 & evs & tr & -> & Hs & Ht) [= ->].
    destruct (submitted_committed s _ tr Hs) as [cmd Hc]; [by eapply timed_answered|].
    exists cmd. split; [by eapply committed_timed|]. intros pre index post -> Hpost.
    unfold Get. rewrite deliver_app. cbn [deliver foldl deliver1]. fold deliver.
    by rewrite deliver_untouched, (apply1_delete _ _ _ _ (proj1 Hc)) by done.
Qed.
End Properties.

(** Witness: a leader that stores ["v"] under ["/k"]. *)
Lemma acknowledged_write_visible_witness :
  let s := mkStore (mkNode (mkConfig "n1" "127.0.0.1:7001" "127.0.0.1:8001" "d" [] (mkSnapshotConfig "inmem" "" 0)
             (mkLogStoreConfig "") (mkLogConfig "" "" false 0 0 0) (mkRaftConfig 0 0 0 0) (mkDebugConfig "") true) 5) 5 None in
  let v := Some (to_bytes "v") in
  (@Put loop_lib loop_env s "/k" v (start leader_world New)).1 = Done None ∧
  @wp loop_lib loop_env _ (@Put loop_lib loop_env s "/k" v) New (λ o tr, o = Done None →
    ∃ cmd, @committed loop_lib loop_env s (mkCommand "put" "/k" v "" "" "") cmd tr ∧
      ∀ pre index post, events_of tr = pre ++ EvApply (mkLog index cmd) :: post →
        Forall (leaves (coerce_string "/k")) post →
        Get (deliver New (events_of tr)) (coerce_string "/k") = (append_nil v, true)).
Proof.
  intros s v. split; [vm_compute; reflexivity|].
  exact (proj1 (@acknowledged_write_visible loop_lib loop_env loop_law s New "/k" v)).
Defined.
