(* ===== verification/Api.v ===== *)
(** * The HTTP API ([internal/api/api.go])

    The handlers of [/kv/], [/kv] and [/cluster/...] over the store and the node,
    the redirect to the leader, the status fan-out, and the handler that routes
    and instruments them. *)

From S2P Require Import Prelude Utf8 Base64 Json Decimal Float FloatText GoJson Config Codec Fsm Runtime Loopback RaftNode Url Http Metrics Store.
Local Open Scope Z_scope.

(** [API]. *)
Record API : Type := mkAPI {
  api_store : Store;
  api_node : Node;
  api_metrics : option Metrics;
}.

(** ** Request bodies *)

(** [kvBody]. *)
Definition set_kv_field (f : string) (j : json) (v : string) : option string :=
  if decide (f = "value") then decode_string v j else Some v.
Definition kvBody_of_json (j : json) : option string := decode_struct ["value"] set_kv_field "" j.

(** [memberBody]. *)
Record memberBody : Type := mkMember { mb_ID : string; mb_Addr : string; mb_HTTPAddr : string }.
Definition set_member_field (f : string) (j : json) (b : memberBody) : option memberBody :=
  let '(mkMember id addr http) := b in
  if decide (f = "id") then s ← decode_string id j; Some (mkMember s addr http)
  else if decide (f = "addr") then s ← decode_string addr j; Some (mkMember id s http)
  else if decide (f = "httpAddr") then s ← decode_string http j; Some (mkMember id addr s)
  else Some b.
Definition memberBody_of_json (j : json) : option memberBody :=
  decode_struct ["id"; "addr"; "httpAddr"] set_member_field (mkMember "" "" "") j.

(** [json.NewDecoder(r.Body).Decode(&b)]: an empty body is [io.EOF]. *)
Inductive decoded (A : Type) : Type :=
| DecodedEOF
| DecodeError
| Decoded (a : A).
Arguments DecodedEOF {A}.
Arguments DecodeError {A}.
Arguments Decoded {A} a.

Definition decode_body {A} (of_json : json → option A) (body : bytes) : decoded A :=
  match decode_stream body with
  | StreamEOF => DecodedEOF
  | StreamError => DecodeError
  | StreamValue j => match of_json j with Some a => Decoded a | None => DecodeError end
  end.

(** ** Values of unknown shape

    Decoding into [interface{}] and encoding again: an object becomes a map, so
    its keys are sorted and a repeated key keeps its last value; a number becomes
    a [float64], and is written as its shortest text. *)

Definition last_entries {V} (m : list (string * V)) : gmap string V :=
  foldl (λ out '(k, v), <[k := v]> out) ∅ m.

Fixpoint any_json (j : json) : option json :=
  match j with
  | JNum lit => JNum <$> float64_text lit
  | JArr l =>
    JArr <$> (fix go l := match l with
                          | [] => Some []
                          | x :: l => y ← any_json x; ys ← go l; Some (y :: ys)
                          end) l
  | JObj m =>
    (λ m, map_json (λ j, j) (last_entries m)) <$>
      (fix go m := match m with
                   | [] => Some []
                   | (k, x) :: m => y ← any_json x; ys ← go m; Some ((k, y) :: ys)
                   end) m
  | _ => Some j
  end.

Section Handlers.
  Context `{Env, MapOrder}.

  (** ** Redirects and errors *)

Definition redirectToLeader (a : API) (r : option Request) : M unit :=
    leader ← LeaderAddr;
    if decide (leader = "") then
      http_Error "no leader (election in progress)" StatusServiceUnavailable
    else
      httpAddr ← HTTPAddrForRaft (api_node a) leader;
      let httpAddr := if decide (httpAddr = "") then leader else httpAddr in
      let uri := match r with Some r => RequestURI (req_URL r) | None => "/" end in
      _ ← tell (Out (SetHeader "Location" ("http://" +:+ httpAddr +:+ uri)));
      writeJSON StatusTemporaryRedirect (strings_json {["leader" := httpAddr]}).

Definition writeWriteError (a : API) (r : Request) (err : error) : M unit :=
    if errors_Is err ErrNotLeader then redirectToLeader a (Some r)
    else http_Error (Error err) StatusInternalServerError.

  (** [err == nil] on a write, and the answer. *)
Definition status_json (s : string) : json := strings_json {["status" := s]}.

  (** ** Keys and values *)

  (** [strings.TrimPrefix(r.URL.Path, "/kv")]. *)
Definition kv_key (path : string) : string :=
    if HasPrefix path "/kv" then of_bytes (drop 3 (to_bytes path)) else path.

Definition handleKV (a : API) (r : Request) : M unit :=
    let key := kv_key (Path (req_URL r)) in
    if decide (key = "" ∨ key = "/") then http_Error "key required" StatusBadRequest
    else if decide (Method r = MethodPut ∨ Method r = MethodPost) then
      let write (value : string) :=
        err ← Put (api_store a) key (Some (to_bytes value));
        match err with
        | Some err => writeWriteError a r err
        | None => writeJSON StatusOK (status_json "ok")
        end in
      match decode_body kvBody_of_json (Body r) with
      | DecodeError => http_Error "bad body" StatusBadRequest
      | DecodedEOF => write ""
      | Decoded value => write value
      end
    else if decide (Method r = MethodDelete) then
      err ← Delete (api_store a) key;
      match err with
      | Some err => writeWriteError a r err
      | None => writeJSON StatusOK (status_json "ok")
      end
    else if decide (Method r = MethodGet) then
      redirect ← (if decide (Query_Get (req_URL r) "consistent" = "true")
                  then leader ← IsLeader; mret (negb leader) else mret false);
      if redirect : bool then redirectToLeader a (Some r)
      else
        '(v, ok) ← Store_Get (api_store a) key;
        if ok : bool then writeJSON StatusOK (strings_json {["value" := of_bytes (contents v)]})
        else http_Error "not found" StatusNotFound
    else http_Error "method not allowed" StatusMethodNotAllowed.

Definition handleKVList (a : API) (r : Request) : M unit :=
    if decide (Method r ≠ MethodGet) then http_Error "method not allowed" StatusMethodNotAllowed
    else
      let prefix := Query_Get (req_URL r) "prefix" in
      redirect ← (if decide (Query_Get (req_URL r) "consistent" = "true")
                  then leader ← IsLeader; mret (negb leader) else mret false);
      if redirect : bool then redirectToLeader a (Some r)
      else
        items ← Store_List (api_store a) prefix;
        let out := foldl (λ out '(k, v), <[k := of_bytes (contents v)]> out) ∅ (map_range items) in
        writeJSON StatusOK (strings_json out).

  (** ** Status *)

Definition localStatus (a : API) : M (gmap string json) :=
    stats ← Stats;
    state ← State;
    leader ← LeaderAddr;
    let out := <["stats" := strings_json stats]>
      (<["leader" := JStr leader]>
      (<["state" := JStr (RaftState_String state)]>
      (<["nodeID" := JStr (ID (api_node a))]> ∅))) in
    match api_metrics a with
    | None => mret out
    | Some m =>
      sm ← StatusMap (Some m);
      mret (foldl (λ out '(k, v), <[k := v]> out) out (map_range sm))
    end.

  (** [fetchPeerStatus]: what it makes of the response, and the request. The map
      is nil when the body is [null]. *)
Definition peer_status (httpAddr : string) (resp : result error http_response) :
      result error (option (gmap string json)) :=
    match resp with
    | Err err => Err err
    | Ok resp =>
      if decide (resp_StatusCode resp ≠ StatusOK) then
        Err (ErrText ("peer " +:+ httpAddr +:+ ": status " +:+ pretty (resp_StatusCode resp)))
      else
        let failed err := Err (ErrWrap ("peer " +:+ httpAddr +:+ ": decode") err) in
        match decode_stream (resp_Body resp) with
        | StreamEOF => failed (ErrLib "EOF")
        | StreamError => failed (decode_error (resp_Body resp))
        | StreamValue j =>
          match decode_map JNull (λ _, any_json) None j with
          | Some out => Ok out
          | None => failed (decode_error (resp_Body resp))
          end
        end
    end.
Definition status_url (httpAddr : string) : string := "http://" +:+ httpAddr +:+ "/cluster/status".
Definition fetchPeerStatus (httpAddr : string) : M (result error (option (gmap string json))) :=
    resp ← do_call (HttpGet (status_url httpAddr));
    mret (peer_status httpAddr resp).

Definition unreachable (msg : string) : json :=
    map_json (λ j, j) (<["error" := JStr msg]> {["reachable" := JBool false]}).

  (** One iteration of the fan-out loop; writing to a nil map panics. *)
Definition status_of_peer (a : API) (nodes : gmap string json) (peer : string * string) : M (gmap string json) :=
    let '(id, httpAddr) := peer in
    if decide (id = ID (api_node a)) then mret nodes
    else if decide (httpAddr = "") then
      mret (<[id := unreachable "peer http address not configured"]> nodes)
    else
      resp ← fetchPeerStatus httpAddr;
      match resp with
      | Err err => mret (<[id := unreachable (Error err)]> nodes)
      | Ok None => panic
      | Ok (Some peer) => mret (<[id := map_json (λ j, j) (<["reachable" := JBool true]> peer)]> nodes)
      end.

Fixpoint status_of_peers (a : API) (nodes : gmap string json) (peers : list (string * string)) : M (gmap string json) :=
    match peers with
    | [] => mret nodes
    | p :: peers => nodes ← status_of_peer a nodes p; status_of_peers a nodes peers
    end.

Definition handleFullStatus (a : API) (r : Request) : M unit :=
    self ← localStatus a;
    let nodes := {[ID (api_node a) := map_json (λ j, j) (<["reachable" := JBool true]> self)]} in
    peers ← PeerHTTPAddrs (api_node a);
    nodes ← status_of_peers a nodes (map_range peers);
    writeJSON StatusOK (JObj [("nodes", map_json (λ j, j) nodes)]).

Definition handleClusterStatus (a : API) (r : Request) : M unit :=
    if decide (Query_Get (req_URL r) "full" = "true") then handleFullStatus a r
    else st ← localStatus a; writeJSON StatusOK (map_json (λ j, j) st).

  (** ** Membership and snapshots *)

Definition handleJoin (a : API) (r : Request) : M unit :=
    if decide (Method r ≠ MethodPost) then http_Error "method not allowed" StatusMethodNotAllowed
    else
      leader ← IsLeader;
      if negb leader then redirectToLeader a (Some r)
      else
        match decode_body memberBody_of_json (Body r) with
        | DecodedEOF | DecodeError => http_Error "bad body" StatusBadRequest
        | Decoded b =>
          err ← AddVoter (api_node a) (mb_ID b) (mb_Addr b);
          match err with
          | Some err => http_Error (Error err) StatusInternalServerError
          | None =>
            err ← (if decide (mb_HTTPAddr b ≠ "")
                   then AddPeer (api_store a) (mb_ID b) (mb_Addr b) (mb_HTTPAddr b) else mret None);
            match err with
            | Some err => http_Error (Error err) StatusInternalServerError
            | None => writeJSON StatusOK (status_json "added")
            end
          end
        end.

Definition handleRemove (a : API) (r : Request) : M unit :=
    if decide (Method r ≠ MethodPost) then http_Error "method not allowed" StatusMethodNotAllowed
    else
      leader ← IsLeader;
      if negb leader then redirectToLeader a (Some r)
      else
        match decode_body memberBody_of_json (Body r) with
        | DecodedEOF | DecodeError => http_Error "bad body" StatusBadRequest
        | Decoded b =>
          err ← RemoveServer (api_node a) (mb_ID b);
          match err with
          | Some err => http_Error (Error err) StatusInternalServerError
          | None =>
            err ← RemovePeer (api_store a) (mb_ID b);
            match err with
            | Some err => http_Error (Error err) StatusInternalServerError
            | None => writeJSON StatusOK (status_json "removed")
            end
          end
        end.

Definition handleSnapshot (a : API) (r : Request) : M unit :=
    if decide (Method r ≠ MethodPost) then http_Error "method not allowed" StatusMethodNotAllowed
    else
      err ← node_Snapshot;
      match err with
      | Some err => http_Error (Error err) StatusInternalServerError
      | None =>
        _ ← ObserveSnapshot (api_metrics a);
        writeJSON StatusOK (status_json "snapshot taken")
      end.

  (** ** The handler

      The exposition of the metrics and the redirect to a cleaned path are the
      libraries'. *)
  Context (PrometheusHandler : Request → M unit) (redirect_clean : bytes → Request → M unit).

Definition serve_mux (a : API) (r : Request) : M unit :=
    match mux_route (bool_decide (api_metrics a ≠ None)) r with
    | RouteKV => handleKV a r
    | RouteKVList => handleKVList a r
    | RouteStatus => handleClusterStatus a r
    | RouteJoin => handleJoin a r
    | RouteRemove => handleRemove a r
    | RouteSnapshot => handleSnapshot a r
    | RouteMetrics => PrometheusHandler r
    | RouteNotFound => http_Error "404 page not found" StatusNotFound
    | RouteBadRequest => tell (Out (WriteHeader StatusBadRequest))
    | RouteClean path => redirect_clean path r
    end.

Definition Handler (a : API) : Request → M unit :=
    match api_metrics a with
    | Some m => HTTPMiddleware (Some m) (serve_mux a)
    | None => serve_mux a
    end.
End Handlers.

(** ** Lemmas: values of unknown shape *)

(** Values that decoding and encoding leave alone. *)
Definition settled (j : json) : Prop := any_json j = Some j.

Lemma any_items_settled l :
  Forall settled l →
  (fix go l := match l with
               | [] => Some []
               | x :: l => y ← any_json x; ys ← go l; Some (y :: ys)
               end) l = Some l.
Proof. induction 1 as [|x l Hx _ IH]; [done|]. rewrite Hx. cbn [mbind option_bind]. by rewrite IH. Qed.

Lemma any_members_settled (m : list (string * json)) :
  Forall (λ kv, settled kv.2) m →
  (fix go m := match m with
               | [] => Some []
               | (k, x) :: m => y ← any_json x; ys ← go m; Some ((k, y) :: ys)
               end) m = Some m.
Proof. induction 1 as [|[k x] m Hx _ IH]; [done|]. cbn [snd] in Hx. rewrite Hx. cbn [mbind option_bind]. by rewrite IH. Qed.

Lemma last_entries_foldl {V} (m : list (string * V)) :
  last_entries m = foldl (λ o kv, <[kv.1 := kv.2]> o) ∅ m.
Proof.
  unfold last_entries. generalize (∅ : gmap string V). induction m as [|[k v] m IH]; intros o; [done|]. apply IH.
Qed.

Lemma last_entries_sorted {V} (M : gmap string V) : last_entries (sorted_entries M) = M.
Proof.
  rewrite last_entries_foldl, foldl_insert_map by apply NoDup_sorted_entries.
  by rewrite (right_id_L ∅ (∪)), list_to_map_sorted_entries.
Qed.

Lemma last_entries_elem {V} (m : list (string * V)) k v : last_entries m !! k = Some v → (k, v) ∈ m.
Proof.
  induction m as [|[k' v'] m IH] using rev_ind; [done|]. unfold last_entries. rewrite foldl_app. cbn.
  intros [[-> ->]|[_ H]]%lookup_insert_Some; apply elem_of_app; [right; by left|left; by apply IH].
Qed.

Lemma map_pairs_id {V} (l : list (string * V)) : map (λ kv, (kv.1, kv.2)) l = l.
Proof. induction l as [|[k v] l IH]; [done|]. cbn. by rewrite IH. Qed.

Lemma any_json_settled j : ∀ j', any_json j = Some j' → settled j'.
Proof.
  induction j as [| | | |l IH|m IH] using json_ind'; intros j' H; try by injection H as <-.
  - cbn in H. destruct (float64_text l) as [txt|] eqn:E; [|done]. injection H as <-.
    apply float64_text_reads in E as [_ E]. unfold settled. cbn. by rewrite E.
  - cbn [any_json] in H. apply fmap_Some in H as (l' & H & ->).
    unfold settled. cbn [any_json]. rewrite any_items_settled; [done|].
    revert l' H. induction IH as [|x l Hx _ IH]; intros l' H; [by injection H as <-|].
    apply bind_Some in H as (y & Hy & H). apply bind_Some in H as (ys & Hys & H). injection H as <-.
    constructor; [by apply Hx|by apply IH].
  - cbn [any_json] in H. apply fmap_Some in H as (m' & H & ->).
    assert (Forall (λ kv, settled kv.2) m') as Hm'.
    { revert m' H. induction IH as [|[k x] m Hx _ IH]; intros m' H; [by injection H as <-|].
      apply bind_Some in H as (y & Hy & H). apply bind_Some in H as (ys & Hys & H). injection H as <-.
      constructor; [by apply Hx|by apply IH]. }
    unfold settled, map_json. cbn [any_json].
    rewrite map_pairs_id, any_members_settled.
    + cbn [fmap option_fmap option_map]. unfold map_json. by rewrite last_entries_sorted, map_pairs_id.
    + apply Forall_forall. intros [k v] Hkv%elem_of_sorted_entries%last_entries_elem.
      by eapply Forall_forall in Hm'; [|exact Hkv].
Qed.

Lemma peer_status_settled `{Env, MapOrder} httpAddr resp out :
  peer_status httpAddr (Ok resp) = Ok (Some out) → map_Forall (λ _, settled) out.
Proof.
  unfold peer_status. case_decide; [done|]. destruct (decode_stream (resp_Body resp)) as [| |j] eqn:Ej; [done..|].
  destruct (decode_map JNull (λ _, any_json) None j) as [out'|] eqn:E; [|done]. intros [= ->].
  destruct j as [| | | | |m]; try done. unfold decode_map in E. apply fmap_Some in E as (out2 & E & [= ->]).
  apply decode_stream_valid in Ej. cbn [json_valid] in Ej.
  eapply (decode_entries_inv (λ _, settled)); [|exact Ej|apply map_Forall_empty|exact E].
  intros k j v _ _ Hv. by eapply any_json_settled.
Qed.

(** What a value of unknown shape may become on its way through a node, stated
    without the decoder: the same constants and strings, numbers that denote the
    same [float64], arrays element by element, and of an object the last value of
    each key, the keys sorted. *)
Fixpoint last_member {V} (k : string) (m : list (string * V)) : option V :=
  match m with
  | [] => None
  | (k', v) :: m =>
    match last_member k m with
    | Some w => Some w
    | None => if decide (k' = k) then Some v else None
    end
  end.

Inductive relays : json → json → Prop :=
| relays_null : relays JNull JNull
| relays_bool b : relays (JBool b) (JBool b)
| relays_str s : relays (JStr s) (JStr s)
| relays_num lit txt : ParseFloat txt = ParseFloat lit → relays (JNum lit) (JNum txt)
| relays_arr l l' : Forall2 relays l l' → relays (JArr l) (JArr l')
| relays_obj m (out : gmap string json) :
    (∀ k, is_Some (out !! k) ↔ is_Some (last_member k m)) →
    (∀ k v v', last_member k m = Some v → out !! k = Some v' → relays v v') →
    relays (JObj m) (map_json (λ j, j) out).

(** Every number of the value is within the range of a [float64]. *)
Inductive readable : json → Prop :=
| readable_null : readable JNull
| readable_bool b : readable (JBool b)
| readable_str s : readable (JStr s)
| readable_num lit neg m e : ParseFloat lit = (Fin neg m e, None) → readable (JNum lit)
| readable_arr l : Forall readable l → readable (JArr l)
| readable_obj m : Forall readable m.*2 → readable (JObj m).

Lemma last_entries_lookup {V} (m : list (string * V)) k : last_entries m !! k = last_member k m.
Proof.
  assert (∀ out, foldl (λ o kv, <[kv.1 := kv.2]> o) out m !! k =
    match last_member k m with Some v => Some v | None => (out : gmap string V) !! k end) as H.
  { induction m as [|[k' v] m IH]; intros out; [done|]. cbn [foldl last_member fst snd]. rewrite IH.
    destruct (last_member k m); [done|]. case_decide as Hk.
    - rewrite Hk. apply lookup_insert_eq.
    - by apply lookup_insert_ne. }
  rewrite last_entries_foldl, H. by destruct (last_member k m).
Qed.

(** The members of an object, relayed one by one. *)
Definition relayed_members (m m' : list (string * json)) : Prop :=
  Forall2 (λ kv kv', kv.1 = kv'.1 ∧ any_json kv.2 = Some kv'.2) m m'.

Lemma last_member_relayed k m m' : relayed_members m m' →
  match last_member k m with
  | Some v => ∃ v', any_json v = Some v' ∧ last_member k m' = Some v'
  | None => last_member k m' = None
  end.
Proof.
  induction 1 as [|[k1 v] [k2 v'] m m' [Hk Hv] _ IH]; [done|]. cbn in Hk, Hv |- *. subst k2.
  destruct (last_member k m) as [w|].
  - destruct IH as (w' & Hw & ->). eauto.
  - rewrite IH. case_decide; eauto.
Qed.

Lemma any_members_relayed m m' :
  (fix go m := match m with
               | [] => Some []
               | (k, x) :: m => y ← any_json x; ys ← go m; Some ((k, y) :: ys)
               end) m = Some m' → relayed_members m m'.
Proof.
  revert m'. induction m as [|[k x] m IH]; intros m' H; [injection H as <-; constructor|].
  apply bind_Some in H as (y & Hy & H). apply bind_Some in H as (ys & Hys & H). injection H as <-.
  constructor; [done|by apply IH].
Qed.

Lemma any_items_relayed l l' :
  (fix go l := match l with
               | [] => Some []
               | x :: l => y ← any_json x; ys ← go l; Some (y :: ys)
               end) l = Some l' → Forall2 (λ x x', any_json x = Some x') l l'.
Proof.
  revert l'. induction l as [|x l IH]; intros l' H; [injection H as <-; constructor|].
  apply bind_Some in H as (y & Hy & H). apply bind_Some in H as (ys & Hys & H). injection H as <-.
  constructor; [done|by apply IH].
Qed.

Lemma last_member_elem {V} k (m : list (string * V)) v : last_member k m = Some v → (k, v) ∈ m.
Proof. rewrite <-last_entries_lookup. apply last_entries_elem. Qed.

Lemma any_json_relays j : ∀ j', any_json j = Some j' → relays j j'.
Proof.
  induction j as [| | | |l IH|m IH] using json_ind'; intros j' H; try (injection H as <-; constructor).
  - cbn in H. destruct (float64_text l) as [txt|] eqn:E; [|done]. injection H as <-.
    apply float64_text_reads in E as [E _]. by constructor.
  - cbn [any_json] in H. apply fmap_Some in H as (l' & H & ->). constructor.
    apply any_items_relayed in H. induction H as [|x y l l' Hx _ IHl]; [constructor|].
    apply Forall_cons in IH as [IHx IH]. constructor; auto.
  - cbn [any_json] in H. apply fmap_Some in H as (m' & H & ->). apply any_members_relayed in H. constructor.
    + intros k. rewrite last_entries_lookup. pose proof (last_member_relayed k _ _ H) as Hk.
      destruct (last_member k m) as [v|]; [destruct Hk as (v' & _ & ->)|rewrite Hk]; by rewrite ?is_Some_alt.
    + intros k v v' Hv. rewrite last_entries_lookup. pose proof (last_member_relayed k _ _ H) as Hk.
      rewrite Hv in Hk. destruct Hk as (v1 & Hv1 & ->). intros [= <-].
      rewrite Forall_forall in IH. by apply (IH (k, v)); [apply last_member_elem|].
Qed.

Lemma float64_text_readable lit neg m e : ParseFloat lit = (Fin neg m e, None) → is_Some (float64_text lit).
Proof.
  intros E. destruct (float_json_reads neg m e) as (txt & H & _); [by eapply ParseFloat_canonical|].
  unfold float64_text. rewrite E, H. eauto.
Qed.

Lemma any_json_readable j : readable j → is_Some (any_json j).
Proof.
  induction j as [| | | |l IH|m IH] using json_ind'; intros H; try (eexists; reflexivity).
  - inversion H as [| | |lit neg m e E| |]; subst. cbn. by apply fmap_is_Some, (float64_text_readable _ neg m e).
  - inversion H as [| | | |l0 Hl|]; subst. cbn [any_json]. apply fmap_is_Some. clear H.
    induction IH as [|x l Hx _ IHl]; [by eexists|]. apply Forall_cons in Hl as [H1 H2].
    destruct (Hx H1) as [y Hy], (IHl H2) as [ys Hys]. exists (y :: ys). cbn. by rewrite Hy, Hys.
  - inversion H as [| | | | |m0 Hm]; subst. cbn [any_json]. apply fmap_is_Some. clear H.
    induction IH as [|[k x] m Hx _ IHm]; [by eexists|]. cbn in Hx, Hm. apply Forall_cons in Hm as [H1 H2].
    destruct (Hx H1) as [y Hy], (IHm H2) as [ys Hys]. exists ((k, y) :: ys). cbn. by rewrite Hy, Hys.
Qed.

(** Decoding an object into a map of values of unknown shape. *)
Lemma decode_entries_any m out out' :
  decode_entries JNull (λ _, any_json) m out = Some out' →
  ∀ k, match last_member k m with
       | Some v => ∃ v', any_json v = Some v' ∧ out' !! k = Some v'
       | None => out' !! k = out !! k
       end.
Proof.
  revert out. induction m as [|[k' v] m IH]; intros out H k; [by injection H as <-|].
  cbn [decode_entries] in H. apply bind_Some in H as (v' & Hv & H). cbn [last_member].
  specialize (IH _ H k). destruct (last_member k m) as [w|]; [done|]. case_decide as Hk.
  - subst k'. rewrite IH, lookup_insert_eq. eauto.
  - by rewrite IH, lookup_insert_ne.
Qed.

Lemma decode_entries_readable m out :
  Forall readable m.*2 → is_Some (decode_entries JNull (λ _, any_json) m out).
Proof.
  revert out. induction m as [|[k v] m IH]; intros out H; [by eexists|].
  cbn in H. apply Forall_cons in H as [H1 H2]. cbn [decode_entries].
  destruct (any_json_readable v H1) as [v' ->]. by apply IH.
Qed.

(** ** What the handlers do *)

Section Specs.
  Context `{Env, MapOrder}.

  (** The address a redirect names: the leader's HTTP address, its raft address
      when no HTTP address is known. *)
Definition leader_http (cfg : Config) (g : FSM) (leader : string) : string :=
    let h := http_addr_for_raft cfg g leader in if decide (h = "") then leader else h.

Definition redirect_to (a : API) (uri : string) (g : FSM) (leader : string) : list write_op :=
    if decide (leader = "") then error_writes "no leader (election in progress)" StatusServiceUnavailable
    else
      let h := leader_http (node_cfg (api_node a)) g leader in
      SetHeader "Location" ("http://" +:+ h +:+ uri)
        :: json_writes StatusTemporaryRedirect (strings_json {["leader" := h]}).
Definition redirect_writes (a : API) (r : Request) : FSM → string → list write_op :=
    redirect_to a (RequestURI (req_URL r)).

Lemma wp_redirectToLeader a r f (Q : outcome unit → trace → Prop) :
  (∀ (leader : string) evs, Q (Done tt)
     (Called RaftLeader leader evs ::
       (Out <$> redirect_to a (match r with Some r => RequestURI (req_URL r) | None => "/" end)
                  (deliver f evs) leader))) →
  wp (redirectToLeader a r) f Q.
Proof.
  intros HQ. unfold redirectToLeader, LeaderAddr. wp_step. wp_step.
  rename ans into leader. specialize (HQ leader evs). unfold redirect_to, leader_http in HQ.
  destruct (decide (leader = "")).
  - apply wp_http_Error. exact HQ.
  - wp_step. apply wp_http_addr_for_raft. wp_step. wp_step. apply wp_writeJSON. unfold events_of in *. cbn in *.
    by rewrite app_nil_r.
Qed.

  (** Replies to a failed write. *)
Inductive write_error_run (a : API) (r : Request) (f : FSM) (err : error) : trace → Prop :=
  | we_redirect leader evs : errors_Is err ErrNotLeader = true →
      write_error_run a r f err (Called RaftLeader leader evs :: (Out <$> redirect_writes a r (deliver f evs) leader))
  | we_error : errors_Is err ErrNotLeader = false →
      write_error_run a r f err (Out <$> error_writes (Error err) StatusInternalServerError).

Lemma wp_writeWriteError a r err f (Q : outcome unit → trace → Prop) :
  (∀ tr, write_error_run a r f err tr → Q (Done tt) tr) → wp (writeWriteError a r err) f Q.
Proof.
  intros HQ. unfold writeWriteError. destruct (errors_Is err ErrNotLeader) eqn:E.
  - apply wp_redirectToLeader. intros. apply HQ. by apply we_redirect.
  - apply wp_http_Error. apply HQ. by apply we_error.
Qed.

  (** A put through the API: the store's run and the reply to its result. *)
Inductive kv_write_run (a : API) (r : Request) (f : FSM) (op : string) (c : Command) : option error → trace → Prop :=
  | kw_ok t0 evs tr tr' : submitted (api_store a) c None tr →
      timed (st_metrics (api_store a)) op true None t0 evs tr tr' →
      kv_write_run a r f op c None (tr' ++ (Out <$> json_writes StatusOK (status_json "ok")))
  | kw_error err t0 evs tr tr' tre : submitted (api_store a) c (Some err) tr →
      timed (st_metrics (api_store a)) op true (Some err) t0 evs tr tr' →
      write_error_run a r (deliver f (events_of tr')) err tre →
      kv_write_run a r f op c (Some err) (tr' ++ tre).

Lemma wp_handleKV_put a r f value (Q : outcome unit → trace → Prop) :
  kv_key (Path (req_URL r)) ≠ "" → kv_key (Path (req_URL r)) ≠ "/" →
  (Method r = MethodPut ∨ Method r = MethodPost) →
  (decode_body kvBody_of_json (Body r) = Decoded value ∨
   value = "" ∧ decode_body kvBody_of_json (Body r) = DecodedEOF) →
  (∀ err tr, kv_write_run a r f "put" (put_command (kv_key (Path (req_URL r))) (Some (to_bytes value))) err tr →
     Q (Done tt) tr) →
  wp (handleKV a r) f Q.
Proof.
  intros Hk1 Hk2 Hm Hb HQ. unfold handleKV. rewrite decide_False by tauto. rewrite decide_True by done.
  assert (∀ v, v = value → wp (
        err ← Put (api_store a) (kv_key (Path (req_URL r))) (Some (to_bytes v));
        match err with
        | Some err => writeWriteError a r err
        | None => writeJSON StatusOK (status_json "ok")
        end) f Q) as Hw.
  { intros v ->. wp_step. apply wp_Put. intros err tr t0 evs tr' Hs Ht. destruct err as [err|].
    - apply wp_writeWriteError. intros tre Hre. apply (HQ (Some err)). by eapply kw_error.
    - apply wp_writeJSON. apply (HQ None). by eapply kw_ok. }
  destruct Hb as [->|[-> ->]]; by apply Hw.
Qed.

Lemma wp_handleKV_delete a r f (Q : outcome unit → trace → Prop) :
  kv_key (Path (req_URL r)) ≠ "" → kv_key (Path (req_URL r)) ≠ "/" → Method r = MethodDelete →
  (∀ err tr, kv_write_run a r f "delete" (delete_command (kv_key (Path (req_URL r)))) err tr → Q (Done tt) tr) →
  wp (handleKV a r) f Q.
Proof.
  intros Hk1 Hk2 Hm HQ. unfold handleKV. rewrite decide_False by tauto. rewrite Hm.
  rewrite decide_False by (by intros [|]). rewrite decide_True by done.
  wp_step. apply wp_Delete. intros err tr t0 evs tr' Hs Ht. destruct err as [err|].
  - apply wp_writeWriteError. intros tre Hre. apply (HQ (Some err)). by eapply kw_error.
  - apply wp_writeJSON. apply (HQ None). by eapply kw_ok.
Qed.

  (** The reply to a read that is served locally. *)
Definition get_writes (g : FSM) (key : string) : list write_op :=
    match Get g key with
    | (v, true) => json_writes StatusOK (strings_json {["value" := of_bytes (contents v)]})
    | (_, false) => error_writes "not found" StatusNotFound
    end.

  (** A read: redirected when it must be consistent and this node does not lead,
      served from the local state otherwise. *)
Inductive kv_get_run (a : API) (r : Request) (f : FSM) : trace → Prop :=
  | kg_redirect state evs leader evs' :
      Query_Get (req_URL r) "consistent" = "true" → state ≠ Leader →
      kv_get_run a r f (Called RaftState_ state evs :: Called RaftLeader leader evs'
        :: (Out <$> redirect_writes a r (deliver f (evs ++ evs')) leader))
  | kg_local tr0 t0 evs tr :
      (Query_Get (req_URL r) "consistent" ≠ "true" ∧ tr0 = [] ∨
       Query_Get (req_URL r) "consistent" = "true" ∧ ∃ evs0, tr0 = [Called RaftState_ Leader evs0]) →
      timed (st_metrics (api_store a)) "get" false None t0 evs [] tr →
      kv_get_run a r f (tr0 ++ tr ++
        (Out <$> get_writes (deliver f (events_of tr0 ++ evs)) (kv_key (Path (req_URL r))))).

Lemma wp_handleKV_get a r f (Q : outcome unit → trace → Prop) :
  kv_key (Path (req_URL r)) ≠ "" → kv_key (Path (req_URL r)) ≠ "/" → Method r = MethodGet →
  (∀ tr, kv_get_run a r f tr → Q (Done tt) tr) →
  wp (handleKV a r) f Q.
Proof.
  intros Hk1 Hk2 Hm HQ. unfold handleKV. rewrite decide_False by tauto. rewrite Hm.
  rewrite decide_False by (by intros [|]). rewrite decide_False by done. rewrite decide_True by done.
  assert (∀ tr0, (Query_Get (req_URL r) "consistent" ≠ "true" ∧ tr0 = [] ∨
       Query_Get (req_URL r) "consistent" = "true" ∧ ∃ evs0, tr0 = [Called RaftState_ Leader evs0]) →
    wp ('(v, ok) ← Store_Get (api_store a) (kv_key (Path (req_URL r)));
        if ok : bool then writeJSON StatusOK (strings_json {["value" := of_bytes (contents v)]})
        else http_Error "not found" StatusNotFound) (deliver f (events_of tr0))
      (λ o tr, Q o (tr0 ++ tr))) as Hlocal.
  { intros tr0 Htr0. wp_step. apply wp_Store_Get. intros t0 evs tr Ht.
    pose proof (HQ _ (kg_local a r f tr0 t0 evs tr Htr0 Ht)) as HQ'. unfold get_writes in HQ'.
    rewrite deliver_app in HQ'.
    destruct (Get _ _) as [v [|]]; [apply wp_writeJSON|apply wp_http_Error]; exact HQ'. }
  wp_step. destruct (decide (Query_Get (req_URL r) "consistent" = "true")) as [Hc|Hc].
  - wp_step. apply wp_IsLeader. intros st evs. wp_step.
    destruct (decide (st = Leader)) as [->|Hst].
    + rewrite bool_decide_eq_true_2 by done. cbn [negb]. apply (Hlocal [Called RaftState_ Leader evs]). eauto.
    + rewrite bool_decide_eq_false_2 by done. cbn [negb].
      apply wp_redirectToLeader. intros leader evs'.
      pose proof (HQ _ (kg_redirect a r f st evs leader evs' Hc Hst)) as HQ'.
      unfold events_of. cbn. by rewrite app_nil_r, <-deliver_app.
  - wp_step. apply (Hlocal []). auto.
Qed.
End Specs.

(** ** What a client sees of the traces *)

Lemma writes_of_timed `{Env} m op write err t0 evs tr tr' :
  timed m op write err t0 evs tr tr' → writes_of tr' = writes_of tr.
Proof.
  assert (∀ l : list metric, writes_of (Metric <$> l) = []) as Hm.
  { induction l as [|x l IH]; [done|]. done. }
  intros [Hn|t1 evs1 Hn]; unfold writes_of in *; cbn; [done|].
  rewrite omap_app. cbn. by rewrite Hm, app_nil_r.
Qed.

Lemma events_of_out `{Env} ops : events_of (Out <$> ops) = [].
Proof. by induction ops. Qed.

Lemma calls_of_out `{Env} ops : calls_of (Out <$> ops) = [].
Proof. by induction ops. Qed.

Lemma proposals_app `{Env} tr1 tr2 : proposals (tr1 ++ tr2) = proposals tr1 ++ proposals tr2.
Proof. unfold proposals. by rewrite calls_of_app, omap_app. Qed.

Lemma proposals_out `{Env} ops : proposals (Out <$> ops) = [].
Proof. unfold proposals. by rewrite calls_of_out. Qed.

Lemma writes_of_submitted `{Env} s c err tr : submitted s c err tr → writes_of tr = [].
Proof. by intros []. Qed.

Lemma serve_redirect `{MapOrder} a uri g leader :
  serve (redirect_to a uri g leader) =
    if decide (leader = "") then serve (error_writes "no leader (election in progress)" StatusServiceUnavailable)
    else
      let h := leader_http (node_cfg (api_node a)) g leader in
      mkReply StatusTemporaryRedirect
        (<["Content-Type" := "application/json"]> {["Location" := "http://" +:+ h +:+ uri]})
        (encode_line (strings_json {["leader" := h]})) [].
Proof. unfold redirect_to. by destruct (decide (leader = "")). Qed.

(** The status code of the reply to a write tells its result. *)
Lemma kv_write_reply `{Env, MapOrder} a r f op c err tr :
  kv_write_run a r f op c err tr →
  match err with
  | None => serve (writes_of tr) = serve (json_writes StatusOK (status_json "ok"))
  | Some e =>
    if errors_Is e ErrNotLeader then
      ∃ (leader : string) evs, Called RaftLeader leader evs ∈ tr ∧
        serve (writes_of tr) = serve (redirect_writes a r (deliver f (events_of tr)) leader)
    else serve (writes_of tr) = serve (error_writes (Error e) StatusInternalServerError)
  end.
Proof.
  intros [t0 evs tr0 tr' Hs Ht|e t0 evs tr0 tr' tre Hs Ht He].
  - by rewrite writes_of_app, (writes_of_timed _ _ _ _ _ _ _ _ Ht), (writes_of_submitted _ _ _ _ Hs), writes_of_out.
  - rewrite writes_of_app, (writes_of_timed _ _ _ _ _ _ _ _ Ht), (writes_of_submitted _ _ _ _ Hs).
    destruct He as [leader evs' Hn|Hn]; rewrite Hn; [|by rewrite writes_of_out].
    exists leader, evs'. split; [apply elem_of_app; right; by left|].
    rewrite writes_of_called, writes_of_out. do 2 f_equal.
    rewrite events_of_app, deliver_app, events_of_cons, events_of_out, app_nil_r.
    unfold events_of. cbn. by rewrite app_nil_r.
Qed.

Lemma redirect_code `{MapOrder} a r g leader :
  let c := reply_code (serve (redirect_writes a r g leader)) in
  c = StatusServiceUnavailable ∨ c = StatusTemporaryRedirect.
Proof. cbv zeta. unfold redirect_writes. rewrite serve_redirect. case_decide; auto. Qed.

Lemma kv_write_ok `{Env, MapOrder} a r f op c err tr :
  kv_write_run a r f op c err tr → reply_code (serve (writes_of tr)) = StatusOK → err = None.
Proof.
  intros Hr Hc. pose proof (kv_write_reply _ _ _ _ _ _ _ Hr) as Hrep. destruct err as [e|]; [|done].
  exfalso. destruct (errors_Is e ErrNotLeader).
  - destruct Hrep as (leader & evs & _ & Hrep). rewrite Hrep in Hc.
    destruct (redirect_code a r (deliver f (events_of tr)) leader) as [Hc'|Hc']; cbv zeta in Hc'; by rewrite Hc in Hc'.
  - by rewrite Hrep in Hc.
Qed.

Lemma kv_write_committed `{ApplyLaw, MapOrder} a r f op c tr :
  kv_write_run a r f op c None tr → Forall answered tr → ∃ cmd, committed (api_store a) c cmd tr.
Proof.
  intros Hr Ha. inversion Hr as [t0 evs tr0 tr' Hs Ht|]; subst. apply Forall_app in Ha as [Ha _].
  destruct (submitted_committed _ _ _ Hs) as [cmd Hc]; [by eapply timed_answered|].
  exists cmd. apply committed_app_l. by eapply committed_timed.
Qed.

(** What a client decodes of the reply to a read is the value stored. *)
Lemma value_reply_decodes v : valid_string v = true →
  decode_body kvBody_of_json (encode_line (strings_json {["value" := v]})) = Decoded v.
Proof.
  intros Hv. unfold decode_body, encode_line.
  change (strings_json _) with (JObj [("value", JStr v)]). rewrite decode_stream_print.
  - change (coerce_json _) with (JObj [("value", JStr (coerce_string v))]).
    by rewrite coerce_string_valid by done.
  - split; [|unfold max_depth; cbn; lia]. done.
Qed.

Lemma kvBody_valid body v : decode_body kvBody_of_json body = Decoded v → valid_string v = true.
Proof.
  unfold decode_body. destruct (decode_stream body) as [| |j] eqn:E; try done.
  apply decode_stream_valid in E. destruct (kvBody_of_json j) as [s|] eqn:Es; [|done]. intros [= <-].
  revert Es. unfold kvBody_of_json. apply (decode_struct_inv (λ s, valid_string s = true)); [|done|done].
  intros g j' x x' Hj Hx. unfold set_kv_field. case_decide; [|by intros [= <-]].
  intros Hd. eapply decode_string_valid; eauto.
Qed.

(** The requested key is present. *)
Definition has_key (r : Request) : Prop :=
  kv_key (Path (req_URL r)) ≠ "" ∧ kv_key (Path (req_URL r)) ≠ "/".

(** The value a put request carries, [None] for a body that is refused; an empty
    body carries the empty value. *)
Definition put_value (r : Request) : option string :=
  match decode_body kvBody_of_json (Body r) with
  | Decoded v => Some v
  | DecodedEOF => Some ""
  | DecodeError => None
  end.

Section Properties.
  Context `{Env, MapOrder}.

Lemma wp_put_value a r f value (Q : outcome unit → trace → Prop) :
  has_key r → (Method r = MethodPut ∨ Method r = MethodPost) → put_value r = Some value →
  (∀ err tr, kv_write_run a r f "put" (put_command (kv_key (Path (req_URL r))) (Some (to_bytes value))) err tr →
     Q (Done tt) tr) →
  wp (handleKV a r) f Q.
Proof.
  intros [Hk1 Hk2] Hm Hv HQ. apply wp_handleKV_put with (value := value); try done.
  unfold put_value in Hv. destruct (decode_body _ _); simplify_eq; auto.
Qed.

Lemma put_value_valid r v : put_value r = Some v → valid_string v = true.
Proof.
  unfold put_value. destruct (decode_body _ _) eqn:E; intros; simplify_eq; [done|]. by eapply kvBody_valid.
Qed.

(** The reply to a local read of a key holding [v]. *)
Lemma get_writes_value g key v :
  fsm_data g !! key = Some (append_nil (Some (to_bytes v))) →
  get_writes g key = json_writes StatusOK (strings_json {["value" := v]}).
Proof.
  intros Hk. unfold get_writes, Get. rewrite Hk. rewrite !append_nil_contents. cbn [contents].
  by rewrite of_to_bytes.
Qed.

(** C3: a value written through the API is read back. When a PUT or POST is
    answered 200, the encoding of that put was proposed, the library accepted it
    and the local state machine has applied it; and after every occurrence of that
    entry which no later event follows that writes the key, a GET of the same path
    answers 200, and a client decoding its body finds the value that was sent. *)
Theorem put_get_roundtrip `{!ApplyLaw} (a : API) (rput rget : Request) (value : string) (f : FSM) :
  has_key rput → (Method rput = MethodPut ∨ Method rput = MethodPost) → put_value rput = Some value →
  Path (req_URL rget) = Path (req_URL rput) → Method rget = MethodGet →
  Query_Get (req_URL rget) "consistent" ≠ "true" →
  valid_string (kv_key (Path (req_URL rput))) = true →
  let key := kv_key (Path (req_URL rput)) in
  wp (handleKV a rput) f (λ o tr, reply_code (serve (writes_of tr)) = StatusOK →
    ∃ cmd, committed (api_store a) (mkCommand "put" key (Some (to_bytes value)) "" "" "") cmd tr ∧
      ∀ pre index post, events_of tr = pre ++ EvApply (mkLog index cmd) :: post →
        Forall (leaves key) post →
        wp (handleKV a rget) (deliver f (events_of tr)) (λ o' tr', Forall (leaves key) (events_of tr') →
          o' = Done tt ∧ reply_code (serve (writes_of tr')) = StatusOK ∧
          decode_body kvBody_of_json (reply_body (serve (writes_of tr'))) = Decoded value)).
Proof.
  intros Hk Hm Hv Hpath Hget Hcons Hvalid key.
  eapply wp_mono; [apply (wp_put_value a rput f value) with (Q := λ o tr, ∃ err,
    kv_write_run a rput f "put" (put_command key (Some (to_bytes value))) err tr)|]; [done..|eauto|].
  intros o tr Ha [err Hr] Hcode. rewrite (kv_write_ok _ _ _ _ _ _ _ Hr Hcode) in Hr.
  destruct (kv_write_committed _ _ _ _ _ _ Hr Ha) as [cmd Hcmd].
  exists cmd. split; [exact Hcmd|]. intros pre index post Hevs Hpost.
  assert (fsm_data (deliver f (events_of tr)) !! key = Some (append_nil (Some (to_bytes value)))) as Hkey.
  { rewrite Hevs, deliver_app. cbn. rewrite deliver_untouched by done.
    rewrite <-(coerce_string_valid key) by done. apply apply1_put, Hcmd. }
  destruct Hk as [Hk1 Hk2]. apply wp_handleKV_get; rewrite ?Hpath; try done.
  intros tr' Hg Hleaves. inversion Hg as [|tr0 t0 evs tr1 Hc Ht]; subst; [done|].
  destruct Hc as [[_ ->]|[? _]]; [|done]. cbn [app] in *. rewrite Hpath in *.
  assert (Forall (leaves key) evs) as Hevs0.
  { rewrite events_of_app in Hleaves. apply Forall_app in Hleaves as [Hl _].
    destruct (timed_events _ _ _ _ _ _ _ _ Ht) as [post' Hpost']. rewrite Hpost' in Hl.
    by apply Forall_app in Hl as [? _]. }
  rewrite writes_of_app, (writes_of_timed _ _ _ _ _ _ _ _ Ht), writes_of_out.
  change (kv_key (Path (req_URL rput))) with key.
  change (events_of []) with ([] : list fsm_event). cbn [app].
  rewrite (get_writes_value _ _ value) by (by rewrite deliver_untouched).
  split_and!; [done|done|]. change (writes_of []) with ([] : list write_op). cbn [app].
  rewrite serve_json by done. apply value_reply_decodes. by eapply put_value_valid.
Qed.

(** C4: the reply to a write tells the client what happened. 200 means the
    library accepted the one proposal made; on a node that does not lead nothing
    is proposed and the client is redirected to the leader (503 when there is
    none); any other error of the library is a 500 with its text. *)
Theorem write_replies (a : API) (r : Request) (f : FSM) (value : string) :
  has_key r → put_value r = Some value ∨ Method r = MethodDelete →
  Method r ∈ [MethodPut; MethodPost; MethodDelete] →
  let key := kv_key (Path (req_URL r)) in
  let c := if decide (Method r = MethodDelete) then delete_command key else put_command key (Some (to_bytes value)) in
  wp (handleKV a r) f (λ o tr, o = Done tt ∧ ∃ err, disciplined (api_store a) c err tr ∧
    match err with
    | None => serve (writes_of tr) = serve (json_writes StatusOK (status_json "ok"))
    | Some e =>
      if errors_Is e ErrNotLeader then
        ∃ (leader : string) evs, Called RaftLeader leader evs ∈ tr ∧
          serve (writes_of tr) = serve (redirect_writes a r (deliver f (events_of tr)) leader)
      else serve (writes_of tr) = serve (error_writes (Error e) StatusInternalServerError)
    end).
Proof.
  intros Hk Hv Hm key c.
  assert (∀ op c err tr, kv_write_run a r f op c err tr → disciplined (api_store a) c err tr) as Hd.
  { intros op c' err tr Hr.
    assert (∀ tr1 tr2, disciplined (api_store a) c' err tr1 → proposals tr2 = [] →
              disciplined (api_store a) c' err (tr1 ++ tr2)) as Happ.
    { intros tr1 tr2 Hd Hp. unfold disciplined in *. rewrite proposals_app, Hp, app_nil_r. set_solver. }
    destruct Hr as [t0 evs tr0 tr' Hs Ht|e t0 evs tr0 tr' tre Hs Ht He].
    - apply Happ; [|apply proposals_out]. eapply timed_disciplined; [done|]. by apply submitted_disciplined in Hs as [? _].
    - apply Happ; [|destruct He as [leader evs' Hn|Hn]; [|apply proposals_out]].
      2: { change (?x :: ?l) with ([x] ++ l). by rewrite proposals_app, proposals_out. }
      eapply timed_disciplined; [done|]. by apply submitted_disciplined in Hs as [? _]. }
  unfold c. destruct (decide (Method r = MethodDelete)) as [Hdel|Hdel].
  - destruct Hk. apply wp_handleKV_delete; try done. intros err tr Hr. split; [done|]. exists err.
    split; [by eapply Hd|by eapply kv_write_reply].
  - destruct Hv as [Hv|]; [|done]. apply (wp_put_value a r f value); [done| |done|].
    { rewrite !elem_of_cons, elem_of_nil in Hm. destruct Hm as [?|[?|[?|[]]]]; auto. done. }
    intros err tr Hr. split; [done|]. exists err. split; [by eapply Hd|by eapply kv_write_reply].
Qed.

(** C10: a redirect preserves the resource. With a known leader the reply is a 307
    to [http://] the leader's HTTP address (its raft address when no HTTP address
    is known) followed by a request target from which the leader reads the same
    path and the same query, marked when it was; without one it is a 503 and no
    [Location]. A request whose target is opaque ([x:y]) is redirected to the opaque
    part, which is no rooted path, and a call without a request to the root. *)
Theorem redirect_preserves_resource (a : API) (r : option Request) (f : FSM) :
  wp (redirectToLeader a r) f (λ o tr, o = Done tt ∧
    ∃ (leader : string) evs, calls_of tr = [RaftLeader] ∧ Called RaftLeader leader evs ∈ tr ∧
      let rep := serve (writes_of tr) in
      if decide (leader = "") then
        reply_code rep = StatusServiceUnavailable ∧ reply_header rep !! "Location" = None
      else
        reply_code rep = StatusTemporaryRedirect ∧
        ∃ target,
          reply_header rep !! "Location" =
            Some ("http://" +:+ leader_http (node_cfg (api_node a)) (deliver f evs) leader +:+ target) ∧
          match r with
          | None => target = "/"
          | Some r =>
            let u := req_URL r in
            if decide (Opaque u = "") then
              ∃ path query, cut "?"%char (to_bytes target) = (path, query) ∧
                url_unescape false path = Some (to_bytes (if decide (Path u = "") then "/" else Path u)) ∧
                default [] query = to_bytes (RawQuery u) ∧
                (query ≠ None ↔ ForceQuery u = true ∨ RawQuery u ≠ "")
            else target = (if String.prefix "//" (Opaque u) then Scheme u +:+ ":" else "") +:+ Opaque u +:+
                          (if ForceQuery u || negb (bool_decide (RawQuery u = "")) then "?" +:+ RawQuery u else "")
          end).
Proof.
  apply wp_redirectToLeader. intros leader evs. split; [done|]. exists leader, evs.
  split_and!; [change (?x :: ?l) with ([x] ++ l); by rewrite calls_of_app, calls_of_out|by left|].
  rewrite writes_of_called, writes_of_out, serve_redirect.
  destruct (decide (leader = "")); cbv zeta; [done|]. cbn [reply_code reply_header].
  split; [done|]. eexists. split; [done|]. destruct r as [r|]; [|done].
  destruct (decide (Opaque (req_URL r) = "")) as [Ho|Ho].
  - destruct (RequestURI_read (req_URL r) Ho) as (path & Hcut & Hp). eexists path, _. split_and!; [exact Hcut|exact Hp|..].
    + destruct (ForceQuery (req_URL r)); [done|]. cbn [orb].
      destruct (bool_decide_reflect (RawQuery (req_URL r) = "")) as [->|]; done.
    + destruct (ForceQuery (req_URL r)); [by split; auto|]. cbn [orb].
      destruct (bool_decide_reflect (RawQuery (req_URL r) = "")) as [->|]; split; naive_solver.
  - unfold RequestURI. rewrite decide_False by done.
    destruct (String.prefix "//" _), (_ || _); by rewrite ?string_app_nil_r, ?string_app_assoc.
Qed.

(** C11: reads. A GET of a key with [consistent=true] on a node that does not lead
    is redirected and never answered from the local state; every other GET makes
    no proposal and answers the value the local state machine holds, or 404, at the
    moment of the read: after the role check of a consistent read and the reading of
    the clock, and before any later call. *)
Theorem read_replies (a : API) (r : Request) (f : FSM) :
  has_key r → Method r = MethodGet →
  wp (handleKV a r) f (λ o tr, o = Done tt ∧ proposals tr = [] ∧
    ((Query_Get (req_URL r) "consistent" = "true" ∧
      (∃ state evs, state ≠ Leader ∧ Called RaftState_ state evs ∈ tr) ∧
      ∃ (leader : string), serve (writes_of tr) = serve (redirect_writes a r (deliver f (events_of tr)) leader)) ∨
     ((Query_Get (req_URL r) "consistent" = "true" → ∃ evs, Called RaftState_ Leader evs ∈ tr) ∧
      ∃ tr1 tr2, tr = tr1 ++ tr2 ∧
        calls_of tr1 = (if decide (Query_Get (req_URL r) "consistent" = "true") then [RaftState_] else []) ++ [Now] ∧
        let key := kv_key (Path (req_URL r)) in
        let rep := serve (writes_of tr) in
        match fsm_data (deliver f (events_of tr1)) !! key with
        | Some v => reply_code rep = StatusOK ∧
            reply_body rep = encode_line (JObj [("value", JStr (of_bytes (contents v)))])
        | None => rep = serve (error_writes "not found" StatusNotFound)
        end))).
Proof.
  intros [Hk1 Hk2] Hm. apply wp_handleKV_get; try done. intros tr Hr. split; [done|].
  destruct Hr as [st evs leader evs' Hc Hst|tr0 t0 evs tr Hc Ht].
  - split; [change (?x :: ?y :: ?l) with ([x; y] ++ l); by rewrite proposals_app, proposals_out|].
    left. split; [done|]. split; [exists st, evs; split; [done|by left]|].
    exists leader. rewrite !writes_of_called, writes_of_out.
    by rewrite !events_of_called, events_of_out, app_nil_r.
  - assert (proposals tr0 = [] ∧ writes_of tr0 = []) as [Hp0 Hw0] by (by destruct Hc as [[_ ->]|[_ [? ->]]]).
    split.
    + rewrite !proposals_app, Hp0, proposals_out. unfold proposals.
      rewrite (calls_of_timed _ _ _ _ _ _ _ _ Ht). by destruct (st_metrics _).
    + right. split.
      { intros Hq. destruct Hc as [[? _]|[_ [evs0 ->]]]; [done|]. exists evs0. by left. }
      assert (∃ tr2, tr = Called Now t0 evs :: tr2) as [tr2 Htr2] by (destruct Ht; eauto).
      exists (tr0 ++ [Called Now t0 evs]), (tr2 ++ (Out <$> get_writes (deliver f (events_of tr0 ++ evs)) (kv_key (Path (req_URL r))))).
      split; [by rewrite Htr2, <-!app_assoc|]. split.
      { rewrite calls_of_app. f_equal. by destruct Hc as [[? ->]|[? [? ->]]]; case_decide. }
      cbv zeta. rewrite !writes_of_app, Hw0, (writes_of_timed _ _ _ _ _ _ _ _ Ht), writes_of_out.
      rewrite events_of_app, (events_of_called Now), app_nil_r. change (writes_of []) with ([] : list write_op). cbn [app].
      unfold get_writes, Get. destruct (fsm_data _ !! _) as [v|]; [|done]. rewrite serve_json by done. split; [done|].
      by rewrite append_nil_contents.
Qed.

(** C22: requests that are refused have no effect: a missing key, a body that is
    not JSON, an unsupported method. The reply is a 405 when a key is given and the
    method is none of the four, a 400 otherwise, and the node is not consulted. *)
Theorem refused_requests_have_no_effect (a : API) (r : Request) (f : FSM) :
  (¬ has_key r ∨
   Method r ∈ [MethodPut; MethodPost] ∧ put_value r = None ∨
   Method r ∉ [MethodPut; MethodPost; MethodDelete; MethodGet]) →
  wp (handleKV a r) f (λ o tr, o = Done tt ∧ calls_of tr = [] ∧
    (reply_code (serve (writes_of tr)) = StatusBadRequest ∧ (¬ has_key r ∨ Method r ∈ [MethodPut; MethodPost]) ∨
     reply_code (serve (writes_of tr)) = StatusMethodNotAllowed ∧ has_key r ∧
       Method r ∉ [MethodPut; MethodPost; MethodDelete; MethodGet])).
Proof.
  intros Hr. unfold handleKV.
  destruct (decide (kv_key (Path (req_URL r)) = "" ∨ kv_key (Path (req_URL r)) = "/")) as [Hk|Hk].
  { apply wp_http_Error. rewrite calls_of_out, writes_of_out. unfold has_key. do 2 (split; [done|]).
    left. split; [done|]. tauto. }
  assert (has_key r) as Hkey by (unfold has_key; tauto). destruct Hr as [|Hr]; [done|].
  rewrite !elem_of_cons, elem_of_nil in Hr. unfold put_value in Hr.
  destruct (decide (Method r = MethodPut ∨ Method r = MethodPost)) as [Hm|Hm].
  { assert (decode_body kvBody_of_json (Body r) = DecodeError) as ->.
    { destruct Hr as [[_ Hr]|Hr]; [by destruct (decode_body _ _)|tauto]. }
    apply wp_http_Error. rewrite calls_of_out, writes_of_out, !elem_of_cons. do 2 (split; [done|]).
    left. split; [done|tauto]. }
  rewrite !decide_False by (tauto || intros ?; tauto).
  apply wp_http_Error. rewrite calls_of_out, writes_of_out, !elem_of_cons, !elem_of_nil. do 2 (split; [done|]).
  right. split; [done|]. split; [done|]. tauto.
Qed.
End Properties.

(** C32: what a node relays of a peer's status, for every answer of the peer. A
    request that failed, a status other than 200 and a body that is not a JSON
    object or [null] are errors that name the peer; [null] gives the nil map; an
    object gives the map that has exactly its keys, each with its last value as
    [relays] describes: the same [float64] for every number. It does so whenever no
    number exceeds a [float64]. What has been relayed once is relayed unchanged by
    the next node: decoding and encoding it again is the identity. *)
Theorem peer_status_stable `{Env, MapOrder} (httpAddr : string) (resp : result error http_response) :
  match resp with
  | Err e => peer_status httpAddr resp = Err e
  | Ok (mkResponse code body) =>
    if decide (code = 200) then
      match decode_stream body with
      | StreamValue (JObj m) =>
        (Forall readable m.*2 → ∃ out, peer_status httpAddr resp = Ok (Some out)) ∧
        (∀ o, peer_status httpAddr resp = Ok o → ∃ out, o = Some out ∧ ∀ k,
           match last_member k m, out !! k with
           | Some v, Some v' => relays v v' ∧ any_json v' = Some v'
           | None, None => True
           | _, _ => False
           end)
      | StreamValue JNull => peer_status httpAddr resp = Ok None
      | _ => ∃ e, peer_status httpAddr resp = Err (ErrWrap ("peer " +:+ httpAddr +:+ ": decode") e)
      end
    else peer_status httpAddr resp = Err (ErrText ("peer " +:+ httpAddr +:+ ": status " +:+ pretty code))
  end.
Proof.
  destruct resp as [[code body]|e]; [|done]. unfold peer_status. cbn [resp_StatusCode resp_Body].
  destruct (decide (code = 200)) as [->|Hc]; [|by rewrite decide_True].
  rewrite decide_False by (intros Hne; by apply Hne). cbv zeta.
  destruct (decode_stream body) as [| |[| | | | |m]] eqn:Ej; try (eexists; reflexivity); try done.
  cbn [decode_map]. change (default ∅ (None : option (gmap string json))) with (∅ : gmap string json). split.
  - intros Hm. destruct (decode_entries_readable m ∅ Hm) as [out ->]. by exists out.
  - intros o. destruct (decode_entries JNull _ m ∅) as [out|] eqn:E; [|done]. intros [= <-]. exists out.
    split; [done|]. intros k. pose proof (decode_entries_any _ _ _ E k) as Hk.
    destruct (last_member k m) as [v|]; [|by rewrite Hk].
    destruct Hk as (v' & Hv & ->). split; [by apply any_json_relays|by eapply any_json_settled].
Qed.
