(* ===== verification/Cluster.v ===== *)
(** * The cluster endpoints of the API

    Theorems about [/cluster/status], [/cluster/join], [/cluster/remove],
    [/cluster/snapshot] and the key listing of [/kv]; their handlers are in
    [Api]. *)

From S2P Require Import Prelude Utf8 Base64 Json GoJson Config Codec Fsm Runtime Loopback RaftNode Url Http Metrics Store Api.
Local Open Scope Z_scope.

(** ** Status fan-out *)

Section Status.
  Context `{Env, MapOrder}.

  (** The entry of a peer in the full status; [None] is the write to a nil map. *)
Definition status_entry (httpAddr : string) (resp : result error http_response) : option json :=
    match peer_status httpAddr resp with
    | Err err => Some (map_json (λ j, j) {["reachable" := JBool false; "error" := JStr (Error err)]})
    | Ok None => None
    | Ok (Some m) => Some (map_json (λ j, j) (<["reachable" := JBool true]> m))
    end.

  (** The answers of the peers of a list recorded in a trace. *)
Definition asked (tr : trace) (addr : string) (resp : result error http_response) : Prop :=
    ∃ evs, Called (HttpGet ("http://" +:+ addr +:+ "/cluster/status")) resp evs ∈ tr.

Lemma asked_app tr1 tr2 addr resp : asked (tr1 ++ tr2) addr resp ↔ asked tr1 addr resp ∨ asked tr2 addr resp.
Proof. unfold asked. setoid_rewrite elem_of_app. naive_solver. Qed.

  (** The requests of a complete loop: one for each peer but this node. *)
Definition requests (self : string) (peers : list (string * string)) : list call :=
    (λ p, HttpGet ("http://" +:+ p.2 +:+ "/cluster/status")) <$> filter (λ p, p.1 ≠ self) peers.

Lemma requests_self self addr peers : requests self ((self, addr) :: peers) = requests self peers.
Proof. unfold requests. rewrite filter_cons, decide_False; [done|]. cbn. tauto. Qed.

Lemma requests_other self id addr peers :
  id ≠ self → requests self ((id, addr) :: peers) = HttpGet (status_url addr) :: requests self peers.
Proof. intros Hne. unfold requests. by rewrite filter_cons, decide_True. Qed.

  (** What the loop leaves for each node. *)
Definition fanned_out (self : string) (peers : list (string * string)) (nodes nodes' : gmap string json) (tr : trace) : Prop :=
    (∀ id, (∀ addr, (id, addr) ∈ peers → id = self) → nodes' !! id = nodes !! id) ∧
    (∀ id addr, (id, addr) ∈ peers → id ≠ self →
       ∃ resp e, asked tr addr resp ∧ status_entry addr resp = Some e ∧ nodes' !! id = Some e).

  (** A peer of the list answered [null]. *)
Definition answered_null (peers : list (string * string)) (tr : trace) : Prop :=
    ∃ id addr resp, (id, addr) ∈ peers ∧ asked tr addr resp ∧ status_entry addr resp = None.

Lemma fanned_out_self self addr peers nodes nodes' tr :
  fanned_out self peers nodes nodes' tr → fanned_out self ((self, addr) :: peers) nodes nodes' tr.
Proof.
  intros [H3 H4]. split.
  - intros id Hid. apply H3. intros addr' Hin. apply (Hid addr'). by right.
  - intros id addr' [[= -> ->]|Hin]%elem_of_cons Hns; [done|]. by apply H4.
Qed.

Lemma fanned_out_cons self id addr peers nodes nodes' resp evs e tr :
  id ≠ self → id ∉ peers.*1 → status_entry addr resp = Some e →
  fanned_out self peers (<[id := e]> nodes) nodes' tr →
  fanned_out self ((id, addr) :: peers) nodes nodes' ([Called (HttpGet (status_url addr)) resp evs] ++ tr).
Proof.
  intros Hself Hid He [H3 H4]. split.
  - intros id' Hid'. rewrite H3, lookup_insert_ne; [done| |].
    + intros <-. apply Hself, (Hid' addr). by left.
    + intros addr' Hin. apply (Hid' addr'). by right.
  - intros id' addr' [[= -> ->]|Hin]%elem_of_cons Hns.
    + exists resp, e. rewrite asked_app. split_and!; [left; exists evs; by left|done|].
      rewrite H3; [apply lookup_insert_eq|]. intros addr' Hin. exfalso. apply Hid.
      apply list_elem_of_fmap. by exists (id, addr').
    + destruct (H4 id' addr' Hin Hns) as (resp' & e' & ? & ? & ?). exists resp', e'. rewrite asked_app. auto.
Qed.

Lemma answered_null_cons p peers tr0 tr :
  answered_null peers tr → answered_null (p :: peers) (tr0 ++ tr).
Proof.
  intros (id & addr & resp & Hin & Hask & He). exists id, addr, resp. rewrite asked_app.
  split_and!; [by right|by right|done].
Qed.

Lemma wp_status_of_peers a nodes peers f (Q : outcome (gmap string json) → trace → Prop) :
  let self := ID (api_node a) in
  NoDup peers.*1 → (∀ id addr, (id, addr) ∈ peers → addr ≠ "") →
  (∀ nodes' tr, fanned_out self peers nodes nodes' tr → writes_of tr = [] →
     calls_of tr = requests self peers → Q (Done nodes') tr) →
  (∀ tr, answered_null peers tr → writes_of tr = [] →
     calls_of tr `prefix_of` requests self peers → Q Panic tr) →
  wp (status_of_peers a nodes peers) f Q.
Proof.
  cbv zeta. revert nodes f Q. induction peers as [|[id addr] peers IH]; intros nodes f Q Hnd Haddr HQ HP; cbn [status_of_peers].
  { wp_step. apply HQ; [split; [done|]|done..]. intros id addr Hin. by apply elem_of_nil in Hin. }
  apply NoDup_cons in Hnd as [Hid Hnd].
  assert (∀ id addr, (id, addr) ∈ peers → addr ≠ "") as Haddr' by (intros; eapply Haddr; by right).
  assert (addr ≠ "") as Hne by (eapply Haddr; by left).
  wp_step. unfold status_of_peer. destruct (decide (id = ID (api_node a))) as [->|Hself].
  - wp_step. rewrite requests_self in *. apply IH; try done.
    + intros nodes' tr Hf. by apply HQ, fanned_out_self.
    + intros tr Hn. by apply HP, (answered_null_cons _ _ []).
  - rewrite decide_False by done. unfold fetchPeerStatus. do 4 wp_step. rename ans into resp.
    rewrite requests_other in * by done.
    assert (∀ e, status_entry addr resp = Some e → wp (status_of_peers a (<[id := e]> nodes) peers)
      (deliver f (events_of [Called (HttpGet (status_url addr)) resp evs]))
      (λ o tr, Q o ([Called (HttpGet (status_url addr)) resp evs] ++ tr))) as Hstep.
    { intros e He. apply IH; try done.
      - intros nodes' tr Hf Hw Hc. apply HQ; [by eapply fanned_out_cons|by rewrite writes_of_app, Hw|].
        by rewrite calls_of_app, Hc.
      - intros tr Hn Hw Hc. apply HP; [by apply answered_null_cons|by rewrite writes_of_app, Hw|].
        rewrite calls_of_app. by apply prefix_cons. }
    unfold status_entry in Hstep. destruct (peer_status addr resp) as [[m|]|e] eqn:E.
    + wp_step. apply (Hstep _ eq_refl).
    + wp_step. apply HP; [|done|by apply prefix_cons, prefix_nil].
      exists id, addr, resp. split_and!; [by left|exists evs; by left|]. unfold status_entry. by rewrite E.
    + wp_step. apply (Hstep _ eq_refl).
Qed.
End Status.

(** Copying entries under other keys leaves an entry alone. *)
Lemma copy_absent {V} (l : list (string * V)) (out : gmap string V) k :
  k ∉ l.*1 → foldl (λ out '(k, v), <[k := v]> out) out l !! k = out !! k.
Proof.
  revert out. induction l as [|[k' v] l IH]; intros out Hk; [done|]. cbn in Hk |- *.
  rewrite not_elem_of_cons in Hk. rewrite IH by tauto. apply lookup_insert_ne. naive_solver.
Qed.

Section LocalStatus.
  Context `{Env, MapOrder}.

  (** The calls a node's own status makes. *)
Definition reads_node (tr : trace) : Prop :=
    writes_of tr = [] ∧ ∀ c, c ∈ calls_of tr → c ∈ [RaftStats; RaftState_; RaftLeader].

Lemma reads_node_app tr1 tr2 : reads_node tr1 → reads_node tr2 → reads_node (tr1 ++ tr2).
Proof.
  intros [Hw1 Hc1] [Hw2 Hc2]. split; [by rewrite writes_of_app, Hw1, Hw2|].
  intros c. rewrite calls_of_app, elem_of_app. naive_solver.
Qed.

Lemma reads_node_called (c : call) (x : answer c) evs :
  c ∈ [RaftStats; RaftState_; RaftLeader] → reads_node [Called c x evs].
Proof. intros Hc. split; [done|]. intros c' [->|Hc']%elem_of_cons; [done|by apply elem_of_nil in Hc']. Qed.

  (** The keys of the node's own description. *)
Definition own_keys : list string := ["nodeID"; "state"; "leader"; "stats"].

  (** What the metrics add is listed under other keys. *)
Lemma wp_StatusMap m f (Q : outcome (gmap string json) → trace → Prop) :
  (∀ out tr, reads_node tr → (∀ k, k ∈ own_keys → out !! k = None) → Q (Done out) tr) → wp (StatusMap m) f Q.
Proof.
  intros HQ. assert (reads_node []) as Hnil by (split; [done|intros c Hc; by apply elem_of_nil in Hc]).
  unfold StatusMap. destruct m as [[[n|] has_fsm]|]; [|wp_step; by apply HQ..].
  wp_step. unfold Stats. wp_step. wp_step. apply wp_IsLeader. intros st evs'.
  assert (reads_node ([Called RaftStats ans evs] ++ [Called RaftState_ st evs'])) as Hreads.
  { apply reads_node_app; apply reads_node_called; rewrite !elem_of_cons; auto. }
  destruct has_fsm; [wp_step; wp_step|]; wp_step; (apply HQ; [exact Hreads|]);
    intros k Hk; unfold own_keys in Hk; rewrite !elem_of_cons, elem_of_nil in Hk;
    destruct Hk as [->|[->|[->|[->|[]]]]]; done.
Qed.

  (** What a node says of itself, from the library's answers in the trace. *)
Definition self_report (a : API) (tr : trace) (out : gmap string json) : Prop :=
    ∃ (stats : gmap string string) (state : RaftState) (leader : string),
      (∃ evs, Called RaftStats stats evs ∈ tr) ∧ (∃ evs, Called RaftState_ state evs ∈ tr) ∧
      (∃ evs, Called RaftLeader leader evs ∈ tr) ∧
      out !! "nodeID" = Some (JStr (cfg_NodeID (node_cfg (api_node a)))) ∧
      out !! "state" = Some (JStr (RaftState_String state)) ∧
      out !! "leader" = Some (JStr leader) ∧ out !! "stats" = Some (strings_json stats).

Lemma wp_localStatus a f (Q : outcome (gmap string json) → trace → Prop) :
  (∀ out tr, reads_node tr → self_report a tr out → Q (Done out) tr) → wp (localStatus a) f Q.
Proof.
  intros HQ. unfold localStatus, Stats, State, LeaderAddr. do 6 wp_step.
  rename ans into stats, ans0 into st, ans1 into leader.
  set (tr0 := [Called RaftStats stats evs] ++ [Called RaftState_ st evs0] ++ [Called RaftLeader leader evs1]).
  assert (reads_node tr0) as Hreads.
  { repeat apply reads_node_app; apply reads_node_called; rewrite !elem_of_cons; auto. }
  assert (∀ (out : gmap string json) tr, (∀ k, k ∈ own_keys → out !! k = (<["stats" := strings_json stats]>
      (<["leader" := JStr leader]> (<["state" := JStr (RaftState_String st)]>
      (<["nodeID" := JStr (ID (api_node a))]> (∅ : gmap string json))))) !! k) → self_report a (tr0 ++ tr) out) as Hself.
  { intros out tr Hout. exists stats, st, leader. unfold tr0.
    split_and!; [exists evs; by left|exists evs0; right; by left|exists evs1; do 2 right; by left|..];
      rewrite Hout; try done; unfold own_keys; rewrite !elem_of_cons; tauto. }
  destruct (api_metrics a) as [m|].
  - wp_step. apply wp_StatusMap. intros sm tr Htr Hsm. wp_step. rewrite app_nil_r.
    apply HQ; [exact (reads_node_app _ _ Hreads Htr)|]. apply Hself. intros k Hk.
    apply copy_absent. rewrite map_range_perm. intros ([k' v] & -> & Hkv)%list_elem_of_fmap.
    apply elem_of_map_to_list in Hkv. by rewrite Hsm in Hkv.
  - wp_step. apply HQ; [exact Hreads|]. rewrite <-(app_nil_r [_; _; _]). by apply (Hself _ []).
Qed.
End LocalStatus.

(** ** Reading back a membership change *)

(** The event does not touch the dynamic peer [id]. *)
Definition leaves_peer (id : string) (e : fsm_event) : Prop :=
  match e with
  | EvApply log => match op_of_log log with
                   | SAddPeer p => Peer_ID p ≠ id
                   | SRemovePeer id' => id' ≠ id
                   | _ => True
                   end
  | EvRestore _ => False
  end.

Lemma apply1_leaves_peer f log id :
  leaves_peer id (EvApply log) → fsm_peers (apply1 f log) !! id = fsm_peers f !! id.
Proof.
  unfold leaves_peer, op_of_log. destruct (DecodeCommand (log_Data log)) as [c|e] eqn:E.
  - destruct (apply1_decoded f log c E) as [-> _]. unfold op_of_command.
    repeat case_decide; cbn; intros; simplify_eq; try done;
      by rewrite ?lookup_insert_ne, ?lookup_delete_ne.
  - intros _. unfold apply1. by rewrite (apply1_undecoded f log e E).
Qed.

Lemma deliver_leaves_peer f evs id :
  Forall (leaves_peer id) evs → fsm_peers (deliver f evs) !! id = fsm_peers f !! id.
Proof.
  revert f. induction evs as [|e evs IH]; intros f Hevs; [done|].
  apply Forall_cons in Hevs as [He Hevs]. cbn. rewrite IH by done.
  destruct e as [log|rc]; [by apply apply1_leaves_peer|done].
Qed.

Lemma apply1_add_peer f index cmd id addr http :
  id ≠ "" → valid_string id = true → valid_string addr = true → valid_string http = true →
  EncodeCommand (add_peer_command id addr http) = Ok cmd →
  fsm_peers (apply1 f (mkLog index cmd)) !! id = Some (mkPeer id addr http).
Proof.
  intros Hne H1 H2 H3 Hd%encoded_decodes. destruct (apply1_decoded f (mkLog index cmd) _ Hd) as [-> _].
  unfold coerce_command, add_peer_command. cbn. rewrite !coerce_string_valid by done.
  repeat case_decide; try done; cbn; by rewrite lookup_insert_eq.
Qed.

Lemma memberBody_valid body b :
  decode_body memberBody_of_json body = Decoded b →
  valid_string (mb_ID b) = true ∧ valid_string (mb_Addr b) = true ∧ valid_string (mb_HTTPAddr b) = true.
Proof.
  unfold decode_body. destruct (decode_stream body) as [| |j] eqn:E; try done.
  apply decode_stream_valid in E. destruct (memberBody_of_json j) as [b'|] eqn:Eb; [|done]. intros [= <-].
  revert Eb. unfold memberBody_of_json.
  apply (decode_struct_inv (λ b, valid_string (mb_ID b) = true ∧ valid_string (mb_Addr b) = true ∧
    valid_string (mb_HTTPAddr b) = true)); [|done|done].
  intros g j' x x' Hj (H1 & H2 & H3). unfold set_member_field. destruct x as [i ad ht]; cbn in *.
  repeat case_decide; [..|by intros [= <-]]; intros (s & Hs & [= <-])%bind_Some; cbn;
    apply decode_string_valid in Hs; auto.
Qed.

(** ** Membership *)

Section Membership.
  Context `{Env, MapOrder}.

  (** The library's answer to the membership change of a request body. *)
Definition member_call (add : bool) (n : Node) (b : memberBody) (e : option error) (evs : list fsm_event) : obs :=
    if add then Called (RaftAddVoter (mb_ID b) (mb_Addr b) 0 (node_membershipTimeout n)) e evs
    else Called (RaftRemoveServer (mb_ID b) 0 (node_membershipTimeout n)) e evs.

  (** The entry that follows an accepted change: none when a voter is added
      without an HTTP address. *)
Definition follow_up (add : bool) (b : memberBody) : option Command :=
    if add then
      if decide (mb_HTTPAddr b = "") then None else Some (add_peer_command (mb_ID b) (mb_Addr b) (mb_HTTPAddr b))
    else Some (remove_peer_command (mb_ID b)).

Definition done_status (add : bool) : string := if add then "added" else "removed".

Definition submitted_opt (s : Store) (c : option Command) (err : option error) (tr : trace) : Prop :=
    match c with
    | Some c => submitted s c err tr
    | None => err = None ∧ tr = []
    end.

  (** The runs of [handleJoin] and [handleRemove]. *)
Inductive member_run (add : bool) (a : API) (r : Request) (f : FSM) : trace → Prop :=
  | mr_method : Method r ≠ MethodPost →
      member_run add a r f (Out <$> error_writes "method not allowed" StatusMethodNotAllowed)
  | mr_redirect (state : RaftState) evs (leader : string) evs' :
      Method r = MethodPost → state ≠ Leader →
      member_run add a r f ([Called RaftState_ state evs; Called RaftLeader leader evs'] ++
        (Out <$> redirect_writes a r (deliver f (evs ++ evs')) leader))
  | mr_body evs : Method r = MethodPost → (∀ b, decode_body memberBody_of_json (Body r) ≠ Decoded b) →
      member_run add a r f ([Called RaftState_ Leader evs] ++ (Out <$> error_writes "bad body" StatusBadRequest))
  | mr_refused evs b e evs' : Method r = MethodPost → decode_body memberBody_of_json (Body r) = Decoded b →
      member_run add a r f ([Called RaftState_ Leader evs; member_call add (api_node a) b (Some e) evs'] ++
        (Out <$> error_writes (Error e) StatusInternalServerError))
  | mr_accepted evs b evs' err tr : Method r = MethodPost → decode_body memberBody_of_json (Body r) = Decoded b →
      submitted_opt (api_store a) (follow_up add b) err tr →
      member_run add a r f ([Called RaftState_ Leader evs; member_call add (api_node a) b None evs'] ++ tr ++
        (Out <$> match err with
                 | Some e => error_writes (Error e) StatusInternalServerError
                 | None => json_writes StatusOK (status_json (done_status add))
                 end)).

Definition member_handler (add : bool) : API → Request → M unit := if add then handleJoin else handleRemove.

Lemma wp_member_reply add a r f evs b evs' err tr (Q : outcome unit → trace → Prop) g :
  Method r = MethodPost → decode_body memberBody_of_json (Body r) = Decoded b →
  submitted_opt (api_store a) (follow_up add b) err tr →
  (∀ tr, member_run add a r f tr → Q (Done tt) tr) →
  wp (match err with
      | Some err => http_Error (Error err) StatusInternalServerError
      | None => writeJSON StatusOK (status_json (done_status add))
      end) g (λ o tr', Q o ([Called RaftState_ Leader evs; member_call add (api_node a) b None evs'] ++ tr ++ tr')).
Proof.
  intros Hm Hb Hs HQ. pose proof (HQ _ (mr_accepted add a r f evs b evs' err tr Hm Hb Hs)) as HQ'.
  destruct err; [apply wp_http_Error|apply wp_writeJSON]; exact HQ'.
Qed.

Lemma wp_member add a r f (Q : outcome unit → trace → Prop) :
  (∀ tr, member_run add a r f tr → Q (Done tt) tr) → wp (member_handler add a r) f Q.
Proof.
  intros HQ. assert (∀ evs, decode_body memberBody_of_json (Body r) ∈ [DecodedEOF; DecodeError] → Method r = MethodPost →
    wp (http_Error "bad body" StatusBadRequest) (deliver f (events_of [Called RaftState_ Leader evs]))
      (λ o tr, Q o ([Called RaftState_ Leader evs] ++ tr))) as Hbad.
  { intros evs Hb Hm. apply wp_http_Error, HQ, mr_body; [done|]. intros b Hb'. rewrite Hb' in Hb.
    rewrite !elem_of_cons, elem_of_nil in Hb. by destruct Hb as [|[|]]. }
  destruct (decide (Method r = MethodPost)) as [Hm|Hm].
  2: { destruct add; unfold member_handler, handleJoin, handleRemove; rewrite decide_True by done;
       by apply wp_http_Error, HQ, mr_method. }
  destruct add; unfold member_handler, handleJoin, handleRemove; rewrite decide_False by tauto;
    wp_step; apply wp_IsLeader; intros st evs;
    (destruct (decide (st = Leader)) as [->|Hst];
     [rewrite bool_decide_eq_true_2 by done|rewrite bool_decide_eq_false_2 by done]); cbn [negb].
  2,4: apply wp_redirectToLeader; intros leader evs';
       pose proof (HQ _ (mr_redirect _ a r f st evs leader evs' Hm Hst)) as HQ';
       rewrite deliver_app in HQ'; unfold events_of; cbn; rewrite app_nil_r; exact HQ'.
  - destruct (decode_body memberBody_of_json (Body r)) as [| |b] eqn:Hb;
      [apply Hbad; [rewrite !elem_of_cons; auto|done]..|].
    unfold AddVoter. wp_step. wp_step. destruct ans as [e|].
    + apply wp_http_Error. apply (HQ _ (mr_refused true a r f evs b e evs0 Hm Hb)).
    + wp_step. pose proof (wp_member_reply true a r f evs b evs0) as Hreply.
      destruct (decide (mb_HTTPAddr b ≠ "")) as [Hh|Hh].
      * unfold AddPeer. apply wp_submit. intros err tr Hs.
        apply (Hreply err tr Q); [done..| |done]. unfold follow_up. by rewrite decide_False.
      * wp_step. apply (Hreply None [] Q); [done..| |done]. unfold follow_up.
        rewrite decide_True; [done|]. by destruct (decide (mb_HTTPAddr b = "")).
  - destruct (decode_body memberBody_of_json (Body r)) as [| |b] eqn:Hb;
      [apply Hbad; [rewrite !elem_of_cons; auto|done]..|].
    unfold RemoveServer. wp_step. wp_step. destruct ans as [e|].
    + apply wp_http_Error. apply (HQ _ (mr_refused false a r f evs b e evs0 Hm Hb)).
    + wp_step. unfold RemovePeer. apply wp_submit. intros err tr Hs.
      by apply (wp_member_reply false a r f evs b evs0 err tr Q).
Qed.
End Membership.

Section Properties.
  Context `{Env, MapOrder}.

(** C8: the full status covers the cluster. A 200 reply lists this node, with its
    own description marked reachable, and exactly the peers of the merged peer
    table as the node knows it when it starts asking: after its own description,
    before the first request. Each other peer was asked once at its own local
    endpoint (never recursively, never this node), and its entry is its status
    marked reachable, or the reason it is not. The only way not to answer is a peer
    whose status is [null]: the handler then panics and writes nothing. *)
Theorem full_status_covers_cluster (a : API) (r : Request) (f : FSM) :
  Query_Get (req_URL r) "full" = "true" →
  wp (handleClusterStatus a r) f (λ o tr,
    ∃ self tr0 tr1 tr2, tr = tr0 ++ tr1 ++ tr2 ∧ reads_node tr0 ∧ self_report a tr0 self ∧ calls_of tr2 = [] ∧
      let me := cfg_NodeID (node_cfg (api_node a)) in
      let peers := peer_http_addrs (node_cfg (api_node a)) (deliver f (events_of tr0)) in
      match o with
      | Done _ => calls_of tr1 = requests me (map_range peers) ∧
          ∃ nodes : gmap string json,
          serve (writes_of tr) = serve (json_writes StatusOK (JObj [("nodes", map_json (λ j, j) nodes)])) ∧
          nodes !! me = Some (map_json (λ j, j) (<["reachable" := JBool true]> self)) ∧
          ∀ id, id ≠ me →
            match peers !! id with
            | Some addr => ∃ resp e, asked tr1 addr resp ∧ status_entry addr resp = Some e ∧ nodes !! id = Some e
            | None => nodes !! id = None
            end
      | Panic => writes_of tr = [] ∧ calls_of tr1 `prefix_of` requests me (map_range peers) ∧
          answered_null (map_range peers) tr1
      end).
Proof.
  intros Hfull. unfold handleClusterStatus. rewrite decide_True by done. unfold handleFullStatus.
  wp_step. apply wp_localStatus. intros self tr0 [Hw0 Hc0] Hself. wp_step. apply wp_PeerHTTPAddrs.
  set (g := deliver f (events_of tr0)). set (peers := peer_http_addrs (node_cfg (api_node a)) g).
  wp_step. apply wp_status_of_peers.
  - rewrite map_range_perm. apply NoDup_fst_map_to_list.
  - intros id addr. rewrite map_range_perm, elem_of_map_to_list. apply peer_http_addrs_nonempty.
  - intros nodes tr1 [Hkeep Hentry] Hw1 Hc1. apply wp_writeJSON.
    exists self, tr0, tr1, (Out <$> json_writes StatusOK (JObj [("nodes", map_json (λ j, j) nodes)])).
    split_and!; [done..|apply calls_of_out|done|]. exists nodes.
    rewrite !writes_of_app, Hw0, Hw1, writes_of_out. split_and!; [done| |].
    + rewrite Hkeep by done. by rewrite lookup_singleton_eq.
    + intros id Hid. change (deliver f (events_of tr0)) with g. fold peers. destruct (peers !! id) as [addr|] eqn:E.
      * apply Hentry; [|done]. by rewrite map_range_perm, elem_of_map_to_list.
      * rewrite Hkeep, lookup_singleton_ne; [done..|].
        intros addr. rewrite map_range_perm, elem_of_map_to_list. congruence.
  - intros tr1 Hn Hw1 Hc1. exists self, tr0, tr1, []. rewrite !app_nil_r.
    rewrite writes_of_app, Hw0, Hw1. by split_and!.
Qed.

(** C7: membership changes are ordered. For [/cluster/join] ([add]) and
    [/cluster/remove]: the peer-table entry is proposed only after the library
    accepted the configuration change of the same request; a 200 means that this
    node led, the change was accepted, and the entry, if the request needs one,
    too; a node that does not lead asks for no change and redirects. *)
Theorem membership_order (add : bool) (a : API) (r : Request) (f : FSM) :
  wp (member_handler add a r) f (λ o tr, o = Done tt ∧
    (proposals tr ≠ [] → ∃ b evs tr1 tr2 c cmd,
       decode_body memberBody_of_json (Body r) = Decoded b ∧
       tr = tr1 ++ member_call add (api_node a) b None evs :: tr2 ∧ proposals tr1 = [] ∧
       follow_up add b = Some c ∧ DecodeCommand cmd = Ok (coerce_command c) ∧
       proposals tr2 = [(cmd, st_applyTimeout (api_store a))]) ∧
    (reply_code (serve (writes_of tr)) = StatusOK → Method r = MethodPost ∧
       ∃ b evs evs', decode_body memberBody_of_json (Body r) = Decoded b ∧
         Called RaftState_ Leader evs ∈ tr ∧ member_call add (api_node a) b None evs' ∈ tr ∧
         ∀ c, follow_up add b = Some c → disciplined (api_store a) c None tr) ∧
    (∀ b e evs, member_call add (api_node a) b e evs ∈ tr → ∃ evs', Called RaftState_ Leader evs' ∈ tr)).
Proof.
  apply wp_member. intros tr Hr. split; [done|].
  assert (∀ b e evs evs0, proposals [Called RaftState_ Leader evs0; member_call add (api_node a) b e evs] = []) as Hmem by (by destruct add).
  assert (∀ b e evs evs0, writes_of [Called RaftState_ Leader evs0; member_call add (api_node a) b e evs] = []) as Hmemw by (by destruct add).
  assert (∀ b e evs (ops : list write_op), member_call add (api_node a) b e evs ∉ Out <$> ops) as Hmemo.
  { intros b e evs ops (x & Hx & _)%list_elem_of_fmap. by destruct add. }
  destruct Hr as [Hm|st evs leader evs' Hm Hst|evs Hm Hb|evs b e evs' Hm Hb|evs b evs' err tr Hm Hb Hs].
  - rewrite proposals_out, writes_of_out. split_and!; [done|done|]. intros b e evs Hin. by apply Hmemo in Hin.
  - rewrite proposals_app, proposals_out, writes_of_app, writes_of_out. split_and!; [done| |].
    + intros Hcode. change (reply_code (serve (redirect_writes a r (deliver f (evs ++ evs')) leader)) = StatusOK) in Hcode.
      by destruct (redirect_code a r (deliver f (evs ++ evs')) leader) as [Hc|Hc]; rewrite Hcode in Hc.
    + intros b e evs1. rewrite elem_of_app, !elem_of_cons, elem_of_nil.
      intros [[Hx|[Hx|[]]]|Hx%Hmemo]; [by destruct add..|done].
  - rewrite proposals_app, proposals_out, writes_of_app, writes_of_out. split_and!; [done|done|].
    intros b e evs1 _. exists evs. by left.
  - rewrite proposals_app, proposals_out, Hmem.
    rewrite writes_of_app, writes_of_out, Hmemw.
    split_and!; [done|done|]. intros _ _ _ _. exists evs. by left.
  - split_and!; [| |intros _ _ _ _; exists evs; by left].
    + rewrite !proposals_app, proposals_out, app_nil_r, Hmem. cbn [app proposals]. intros Hp.
      destruct (follow_up add b) as [c|] eqn:Hf; cbn in Hs; [|by destruct Hs as [_ ->]].
      destruct Hs as [st evs1 Hst|evs1 cmd err evs2 He]; [done|].
      eexists b, evs', [Called RaftState_ Leader evs], _, c, cmd. split_and!; [done|done|done|done| |].
      * by apply encoded_decodes.
      * by rewrite proposals_app, proposals_out.
    + intros Hcode. split; [done|]. exists b, evs, evs'. split_and!; [done|by left|right; by left|].
      intros c Hc. rewrite Hc in Hs. cbn in Hs. rewrite !writes_of_app, writes_of_out, Hmemw in Hcode.
      rewrite (writes_of_submitted _ _ _ _ Hs) in Hcode. cbn [app] in Hcode.
      destruct err as [e|]; [done|]. apply submitted_disciplined in Hs as [Hd _]. revert Hd. unfold disciplined.
      rewrite !proposals_app, proposals_out, Hmem, app_nil_r. cbn [app].
      intros [(st & ev & _ & _ & [=] & _)|(ev & cmd & ev' & H3 & H4 & H5 & H6)]. right. exists ev, cmd, ev'.
      split_and!; [|done| |done]; (do 2 right; apply elem_of_app; by left).
Qed.

(** C13: a peer that joined is known. When a join with a node ID and an HTTP
    address is answered 200, the encoding of the peer entry was proposed, the
    library accepted it and the local state machine has applied it; and after every
    occurrence of that entry which no later event follows that touches the peer,
    this node's peer table holds the addresses given and the full status will ask
    the peer there. *)
Theorem joined_peer_known `{!ApplyLaw} (a : API) (r : Request) (f : FSM) (b : memberBody) :
  decode_body memberBody_of_json (Body r) = Decoded b → mb_ID b ≠ "" → mb_HTTPAddr b ≠ "" →
  wp (handleJoin a r) f (λ o tr, reply_code (serve (writes_of tr)) = StatusOK →
    ∃ cmd, committed (api_store a)
        (mkCommand "addPeer" "" None (mb_ID b) (mb_Addr b) (mb_HTTPAddr b)) cmd tr ∧
      ∀ pre index post, events_of tr = pre ++ EvApply (mkLog index cmd) :: post →
        Forall (leaves_peer (mb_ID b)) post →
        let g := deliver f (events_of tr) in
        fsm_peers g !! mb_ID b = Some (mkPeer (mb_ID b) (mb_Addr b) (mb_HTTPAddr b)) ∧
        (wf g → peer_http_addrs (node_cfg (api_node a)) g !! mb_ID b = Some (mb_HTTPAddr b))).
Proof.
  intros Hb Hid Hh. destruct (memberBody_valid _ _ Hb) as (V1 & V2 & V3).
  eapply wp_mono; [apply (wp_member true a r f (λ o tr, member_run true a r f tr)); auto|].
  intros o tr Ha Hr Hcode.
  destruct Hr as [Hm|st evs leader evs' Hm Hst|evs Hm Hb'|evs b' e evs' Hm Hb'|evs b' evs' err tr Hm Hb' Hs].
  - by rewrite writes_of_out in Hcode.
  - rewrite writes_of_app, writes_of_out in Hcode. exfalso.
    change (reply_code (serve (redirect_writes a r (deliver f (evs ++ evs')) leader)) = StatusOK) in Hcode.
    by destruct (redirect_code a r (deliver f (evs ++ evs')) leader) as [Hc|Hc]; rewrite Hcode in Hc.
  - by rewrite writes_of_app, writes_of_out in Hcode.
  - by rewrite writes_of_app, writes_of_out in Hcode.
  - rewrite Hb in Hb'. injection Hb' as <-. unfold follow_up in Hs. rewrite decide_False in Hs by done. cbn in Hs.
    rewrite !writes_of_app, writes_of_out, (writes_of_submitted _ _ _ _ Hs) in Hcode.
    destruct err as [e|]; [done|]. apply Forall_app in Ha as [_ [Ha _]%Forall_app].
    destruct (submitted_committed _ _ _ Hs Ha) as [cmd Hcmd]. exists cmd. split.
    { apply committed_app_r. by apply committed_app_l. }
    intros pre index post Hevs Hpost.
    assert (fsm_peers (deliver f (pre ++ EvApply (mkLog index cmd) :: post)) !! mb_ID b =
      Some (mkPeer (mb_ID b) (mb_Addr b) (mb_HTTPAddr b))) as Hp.
    { rewrite deliver_app. cbn [deliver foldl]. rewrite deliver_leaves_peer by done.
      apply apply1_add_peer; [done..|exact (proj1 Hcmd)]. }
    rewrite <-Hevs in Hp. split; [exact Hp|]. intros Hwf. rewrite peer_http_addrs_lookup, Hp by done.
    cbn. by rewrite decide_True.
Qed.

(** C21: a manual snapshot works on any node: the handler asks the library for one
    snapshot, whatever the node's role, proposes nothing, and answers 200 exactly
    when the library took it; only then is the trigger counted. *)
Theorem snapshot_endpoint (a : API) (r : Request) (f : FSM) :
  wp (handleSnapshot a r) f (λ o tr, o = Done tt ∧ proposals tr = [] ∧
    if decide (Method r = MethodPost) then
      ∃ err evs, calls_of tr = [RaftSnapshot] ∧ Called RaftSnapshot err evs ∈ tr ∧
        metrics_of tr = match err, api_metrics a with None, Some _ => [Snapshots] | _, _ => [] end ∧
        serve (writes_of tr) = match err with
                               | None => serve (json_writes StatusOK (status_json "snapshot taken"))
                               | Some e => serve (error_writes (Error e) StatusInternalServerError)
                               end
    else calls_of tr = [] ∧ reply_code (serve (writes_of tr)) = StatusMethodNotAllowed).
Proof.
  unfold handleSnapshot. destruct (decide (Method r = MethodPost)) as [Hm|Hm].
  - rewrite decide_False by tauto. unfold node_Snapshot. wp_step. wp_step.
    assert (∀ ops, metrics_of (Out <$> ops) = []) as Hmo by (by induction ops).
    assert (∀ err evs ms ops, ms = match err, api_metrics a with None, Some _ => [Snapshots] | _, _ => [] end →
      ops = match err with None => json_writes StatusOK (status_json "snapshot taken")
                         | Some e => error_writes (Error e) StatusInternalServerError end →
      let tr := [Called RaftSnapshot err evs] ++ (Metric <$> ms) ++ (Out <$> ops) in
      Done tt = Done tt ∧ proposals tr = [] ∧ ∃ err evs, calls_of tr = [RaftSnapshot] ∧ Called RaftSnapshot err evs ∈ tr ∧
        metrics_of tr = match err, api_metrics a with None, Some _ => [Snapshots] | _, _ => [] end ∧
        serve (writes_of tr) = match err with
                               | None => serve (json_writes StatusOK (status_json "snapshot taken"))
                               | Some e => serve (error_writes (Error e) StatusInternalServerError)
                               end) as Hrun.
    { intros err evs' ms ops -> -> tr. unfold tr. rewrite !proposals_app, !calls_of_app, proposals_out, calls_of_out.
      split; [done|]. split; [by destruct err, (api_metrics a)|]. exists err, evs'.
      rewrite !writes_of_app, writes_of_out. unfold metrics_of in *. rewrite !omap_app, Hmo.
      split_and!; [by destruct err, (api_metrics a)|by left|by destruct err, (api_metrics a)|by destruct err, (api_metrics a)]. }
    destruct ans as [e|].
    + apply wp_http_Error. by apply (Hrun (Some e) evs []).
    + unfold ObserveSnapshot. wp_step. destruct (api_metrics a) as [m|]; wp_step; apply wp_writeJSON.
      * by apply (Hrun None evs [Snapshots]).
      * by apply (Hrun None evs []).
  - rewrite decide_True by done. apply wp_http_Error. rewrite proposals_out, calls_of_out, writes_of_out.
    by split_and!.
Qed.

(** The loop that copies the listing into strings. *)
Lemma list_loop g prefix :
  foldl (λ (out : gmap string string) '(k, v), <[k := of_bytes (contents v)]> out) ∅ (map_range (List g prefix))
  = map_imap (λ k v, if HasPrefix k prefix then Some (of_bytes (contents v)) else None) (fsm_data g).
Proof.
  erewrite (range_loop (λ _ v, Some (of_bytes (contents v)))); [|by intros ???|apply map_range_perm].
  apply map_eq. intros k. rewrite List_spec, !map_lookup_imap.
  destruct (fsm_data g !! k) as [v|]; [|done]. cbn. destruct (HasPrefix k prefix); [|done]. cbn.
  by rewrite append_nil_contents.
Qed.

(** C12: a listing shows the keys with the prefix and their values, as the local
    state machine holds them at the moment of the read, and nothing else; on a node
    that does not lead a consistent listing is redirected. *)
Theorem list_replies (a : API) (r : Request) (f : FSM) :
  Method r = MethodGet →
  wp (handleKVList a r) f (λ o tr, o = Done tt ∧
    ((Query_Get (req_URL r) "consistent" = "true" ∧
      (∃ state evs, state ≠ Leader ∧ Called RaftState_ state evs ∈ tr) ∧
      ∃ (leader : string), serve (writes_of tr) = serve (redirect_writes a r (deliver f (events_of tr)) leader)) ∨
     ((Query_Get (req_URL r) "consistent" = "true" → ∃ evs, Called RaftState_ Leader evs ∈ tr) ∧
      ∃ tr1 tr2, tr = tr1 ++ tr2 ∧
        calls_of tr1 = (if decide (Query_Get (req_URL r) "consistent" = "true") then [RaftState_] else []) ++ [Now] ∧
        ∃ listing : gmap string string,
          (∀ k, listing !! k =
             if String.prefix (Query_Get (req_URL r) "prefix") k
             then (λ v, of_bytes (contents v)) <$> fsm_data (deliver f (events_of tr1)) !! k else None) ∧
          serve (writes_of tr) = serve (json_writes StatusOK (map_json JStr listing))))).
Proof.
  intros Hm. unfold handleKVList. rewrite decide_False by tauto. cbv zeta.
  set (local := items ← Store_List (api_store a) (Query_Get (req_URL r) "prefix"); _).
  assert (∀ tr0, writes_of tr0 = [] →
    wp local (deliver f (events_of tr0)) (λ o tr, o = Done tt ∧
      ∃ tr1 tr2, tr0 ++ tr = tr1 ++ tr2 ∧ calls_of tr1 = calls_of tr0 ++ [Now] ∧
        ∃ listing : gmap string string,
          (∀ k, listing !! k =
             if String.prefix (Query_Get (req_URL r) "prefix") k
             then (λ v, of_bytes (contents v)) <$> fsm_data (deliver f (events_of tr1)) !! k else None) ∧
          serve (writes_of (tr0 ++ tr)) = serve (json_writes StatusOK (map_json JStr listing)))) as Hlocal.
  { intros tr0 Hw0. unfold local. wp_step. apply wp_Store_List. intros t0 evs tr' Ht.
    apply wp_writeJSON. split; [done|].
    assert (∃ tr2, tr' = Called Now t0 evs :: tr2) as [tr2 Htr2] by (destruct Ht; eauto).
    eexists (tr0 ++ [Called Now t0 evs]), _. split; [by rewrite Htr2, <-!app_assoc|].
    split; [by rewrite calls_of_app|].
    rewrite list_loop, <-deliver_app, !writes_of_app, Hw0, (writes_of_timed _ _ _ _ _ _ _ _ Ht), writes_of_out.
    eexists. split; [|done]. intros k. rewrite map_lookup_imap, events_of_app, (events_of_called Now), app_nil_r.
    unfold HasPrefix. destruct (fsm_data _ !! k); cbn; by destruct (String.prefix _ _). }
  wp_step. destruct (decide (Query_Get (req_URL r) "consistent" = "true")) as [Hc|Hc].
  - wp_step. apply wp_IsLeader. intros st evs. wp_step. destruct (decide (st = Leader)) as [->|Hst].
    + rewrite bool_decide_eq_true_2 by done. cbn [negb].
      eapply wp_mono; [by apply (Hlocal [Called RaftState_ Leader evs])|].
      intros o tr _ [-> Htr]. split; [done|]. right. split; [intros _; exists evs; by left|exact Htr].
    + rewrite bool_decide_eq_false_2 by done. cbn [negb]. apply wp_redirectToLeader. intros leader evs'.
      split; [done|]. left. split; [done|]. split; [exists st, evs; split; [done|by left]|].
      exists leader. rewrite !writes_of_called, writes_of_out, !events_of_called, events_of_out, app_nil_r.
      rewrite deliver_app. unfold events_of. cbn. by rewrite app_nil_r.
  - wp_step. eapply wp_mono; [by apply (Hlocal [])|].
    intros o tr _ [-> Htr]. split; [done|]. right. split; [done|exact Htr].
Qed.
End Properties.
