(* ===== verification/Debug.v ===== *)
(** * The debug server ([internal/debug/debug.go])

    The routing of the profiling endpoints, which are served on a port of their
    own. The endpoints themselves are the library's. *)

From S2P Require Import Prelude Utf8 Base64 Json GoJson Config Codec Fsm Runtime Url Http.
Local Open Scope Z_scope.

(** The handlers of package [pprof]. *)
Inductive pprof : Type := Index | Cmdline | Profile | Symbol | Trace.

Inductive debug_route : Type :=
| Pprof (h : pprof)
| DebugSlash                     (* redirected to the path with a slash *)
| DebugNotFound
| DebugBadRequest                (* the request target [*] *)
| DebugClean (path : bytes).     (* redirected to the cleaned path *)

(** The match of a rooted path. *)
Definition debug_match (path : bytes) : debug_route :=
  match path with
  | _ :: rest =>
    match seg_text <$> split_on "/"%char rest with
    | a :: b :: l =>
      if decide (a = to_bytes "debug" ∧ b = to_bytes "pprof") then
        match l with
        | [] => DebugSlash
        | _ =>
          if decide (l = [to_bytes "cmdline"]) then Pprof Cmdline
          else if decide (l = [to_bytes "profile"]) then Pprof Profile
          else if decide (l = [to_bytes "symbol"]) then Pprof Symbol
          else if decide (l = [to_bytes "trace"]) then Pprof Trace
          else Pprof Index
        end
      else DebugNotFound
    | _ => DebugNotFound
    end
  | [] => DebugNotFound
  end.

Definition debug_mux (r : Request) : debug_route :=
  let path := to_bytes (EscapedPath (req_URL r)) in
  if decide (Opaque (req_URL r) = "" ∧ RequestURI (req_URL r) = "*") then DebugBadRequest
  else if decide (Method r = "CONNECT") then debug_match path
  else
    match debug_match (cleanPath path) with
    | DebugSlash => DebugSlash
    | route => if decide (cleanPath path = path) then route else DebugClean (cleanPath path)
    end.

(** [NewHTTPServer]: where it listens and what it serves. *)
Record http_server : Type := mkServer { srv_Addr : string; srv_Handler : Request → debug_route }.
Definition NewHTTPServer (addr : string) : http_server := mkServer addr debug_mux.

(** ** Lemmas *)

Lemma debug_match_api metrics path :
  debug_match path ≠ DebugNotFound → match_path metrics path = RouteNotFound.
Proof.
  unfold debug_match, match_path. destruct path as [|c rest]; [done|].
  destruct (seg_text <$> split_on "/"%char rest) as [|a [|b l]]; [done|done|].
  destruct (decide (a = to_bytes "debug" ∧ b = to_bytes "pprof")) as [[-> ->]|]; [|done]. intros _.
  by rewrite !decide_False.
Qed.

(** ** Properties *)

(** C31: profiling and business traffic are apart. A request that the debug server
    answers, or redirects to a slash, is unknown to the API, whatever metrics it
    serves; conversely the debug server knows no request that the API routes to a
    handler. Each profiling endpoint is served at its path, the index for the rest
    of the subtree. *)
Theorem debug_isolated (addr : string) (metrics : bool) :
  let srv := srv_Handler (NewHTTPServer addr) in
  (∀ r, (∃ h, srv r = Pprof h) → mux_route metrics r = RouteNotFound) ∧
  (∀ r, (mux_route metrics r ∈ [RouteKV; RouteKVList; RouteStatus; RouteJoin; RouteRemove; RouteSnapshot; RouteMetrics]) →
        srv r = DebugNotFound) ∧
  (∀ m b, m ≠ "CONNECT" → map (λ p, srv (mkRequest m (path_url p "") b))
     ["/debug/pprof/"; "/debug/pprof/heap"; "/debug/pprof/cmdline"; "/debug/pprof/profile"; "/debug/pprof/symbol";
      "/debug/pprof/trace"; "/debug/pprof"; "/debug/../metrics"; "/metrics"]
     = [Pprof Index; Pprof Index; Pprof Cmdline; Pprof Profile; Pprof Symbol; Pprof Trace; DebugSlash;
        DebugClean (to_bytes "/metrics"); DebugNotFound]).
Proof.
  cbv zeta. cbn [NewHTTPServer srv_Handler]. split_and!.
  - intros r [h Hr]. unfold debug_mux, mux_route in *. cbv zeta in *.
    destruct (decide (_ ∧ RequestURI _ = "*")); [done|]. destruct (decide (Method r = "CONNECT")).
    + apply debug_match_api. by rewrite Hr.
    + destruct (decide (cleanPath _ = _)) as [E|]; [|by destruct (debug_match _)].
      apply debug_match_api. rewrite <-E. intros Hn. by rewrite Hn in Hr.
  - intros r Hr. unfold debug_mux, mux_route in *. cbv zeta in *.
    destruct (decide (_ ∧ RequestURI _ = "*")); [set_solver|].
    assert (∀ path, match_path metrics path ≠ RouteNotFound → debug_match path = DebugNotFound) as Hother.
    { intros path Hm. destruct (debug_match path) eqn:E; try done; destruct Hm; apply debug_match_api; by rewrite E. }
    destruct (decide (Method r = "CONNECT")).
    + apply Hother. intros Hn. rewrite Hn in Hr. set_solver.
    + destruct (decide (cleanPath _ = _)) as [E|]; [|set_solver].
      rewrite E, Hother; [done|]. intros Hn. rewrite Hn in Hr. set_solver.
  - intros m b Hm. unfold debug_mux. cbn [map req_URL Method]. rewrite !(decide_False (P := m = "CONNECT")) by done.
    vm_compute. reflexivity.
Qed.
