(* ===== verification/Server.v ===== *)
(** * The server process and the command line
    ([internal/server/server.go], [internal/debug/debug.go], [cmd/raft-meta/main.go])

    Wiring a logger, a node, its store, metrics and API together; serving until a
    listener fails or a signal arrives; bootstrapping; and the dispatch of the
    subcommands with their exit codes. *)

From S2P Require Import Prelude Utf8 Base64 Json GoJson Config Codec Fsm Runtime Loopback RaftNode Url Http Metrics Store Api Lifecycle Recovery Logging.
Local Open Scope Z_scope.

Section Server.
  Context `{Env, LogLib} (go_quote : string → string).

Definition apply_timeout (cfg : Config) : Z :=
    if 0 <? Raft_ApplyTimeout (cfg_Raft cfg) then Raft_ApplyTimeout (cfg_Raft cfg) else 5 * second.

  (** The API of a running node: store and metrics share the node and its state
      machine. *)
Definition wire (cfg : Config) (n : node_state) : API :=
    let m := mkMetrics (Some (ns_node n)) true in
    mkAPI (SetMetrics (Store_New (ns_node n) (apply_timeout cfg)) (Some m)) (ns_node n) (Some m).

  (** The debug server listens only when an address is configured. *)
Definition debug_addr (cfg : Config) : option string :=
    if decide (Debug_Addr (cfg_Debug cfg) ≠ "") then Some (Debug_Addr (cfg_Debug cfg)) else None.

  (** [debugSrv.Shutdown], when there is a debug server. *)
Definition stop_debug (cfg : Config) : M unit :=
    match debug_addr cfg with Some _ => do_call (StopServer DebugListener) | None => mret tt end.

  (** [Run]; the deferred shutdown of the node runs on both exits and its error is
      dropped. *)
Definition Run (cfg : Config) : M (option error) :=
    logger ← NewLogger (cfg_Log cfg) (cfg_NodeID cfg);
    r ← Node_New go_quote cfg;
    match r with
    | Err err => mret (Some (ErrWrap "raftnode" err))
    | Ok n =>
      _ ← do_call (Listen HTTPListener (cfg_HTTPAddr cfg));
      _ ← match debug_addr cfg with Some addr => do_call (Listen DebugListener addr) | None => mret tt end;
      ended ← do_call AwaitEnd;
      res ← match ended with
            | ListenError _ err => mret (Some err)
            | Interrupted =>
              _ ← do_call (StopServer HTTPListener);
              _ ← stop_debug cfg;
              mret None
            end;
      _ ← Shutdown n;
      mret res
    end.

  (** [Init]: the error, or the line it prints. *)
Definition Init (cfg : Config) : M (result error string) :=
    logger ← NewLogger (cfg_Log cfg) (cfg_NodeID cfg +:+ "-init");
    r ← Node_New go_quote cfg;
    match r with
    | Err err => mret (Err err)
    | Ok n =>
      e ← BootstrapCluster (ns_node n);
      let res := match e with
                 | Some err => Err (ErrWrap "bootstrap" err)
                 | None => Ok ("cluster bootstrapped with " +:+ pretty (length (cfg_Peers cfg)) +:+
                               " peers on node " +:+ cfg_NodeID cfg)
                 end in
      _ ← Shutdown n;
      mret res
    end.

  (** ** The command line *)

  (** Parsing of the flags by package [flag] with [ExitOnError], for the single
      flag [-config]: the value, or the exit code of the parser. *)
Definition strip_dashes (arg : bytes) : option bytes :=
    match arg with
    | c1 :: c2 :: r =>
      if decide (c1 = "-"%char) then
        if decide (c2 = "-"%char) then Some r else Some (c2 :: r)
      else None
    | _ => None
    end.
Fixpoint parse_flags (config : string) (args : list string) : string + Z :=
    match args with
    | [] => inl config
    | arg :: rest =>
      match strip_dashes (to_bytes arg) with
      | None => inl config
      | Some [] => inl config
      | Some (c :: r) =>
        if decide (c = "-"%char ∨ c = "="%char) then inr 2
        else
          let '(name, value) := cut "="%char (c :: r) in
          if decide (name = to_bytes "config") then
            match value with
            | Some v => parse_flags (of_bytes v) rest
            | None => match rest with
                      | v :: rest => parse_flags v rest
                      | [] => inr 2
                      end
            end
          else if decide (name = to_bytes "help" ∨ name = to_bytes "h") then inr 0 else inr 2
      end
    end.

  (** What the process leaves: exit code, standard output, standard error. What
      package [flag] prints is not recorded. *)
Record exit : Type := mkExit { exit_code : Z; exit_stdout : string; exit_stderr : string }.

  (** A printed line. *)
Definition println (s : string) : string := s +:+ String newline "".

Definition usage : string := println "usage: raft-meta {init|start|reset|recover} -config <path>".

Definition fails (err : error) : exit := mkExit 1 "" (println ("error: " +:+ Error err)).

  (** [main] on [os.Args[1:]]. *)
Definition main (load : string → result error Config) (args : list string) : M exit :=
    match args with
    | [] => mret (mkExit 2 "" usage)
    | sub :: rest =>
      match parse_flags "" rest with
      | inr code => mret (mkExit code "" "")
      | inl configPath =>
        if decide (configPath = "") then mret (mkExit 2 "" (println "error: -config required"))
        else
          match load configPath with
          | Err err => mret (fails err)
          | Ok cfg =>
            if decide (sub = "init") then
              r ← Init cfg;
              mret (match r with Err err => fails err | Ok line => mkExit 0 (println line) "" end)
            else if decide (sub = "start") then
              e ← Run cfg;
              mret (match e with Some err => fails err | None => mkExit 0 "" "" end)
            else if decide (sub = "reset") then
              e ← Reset (cfg_DataDir cfg);
              mret (match e with
                    | Some err => fails err
                    | None => mkExit 0 (println ("data directory cleared: " +:+ cfg_DataDir cfg)) ""
                    end)
            else if decide (sub = "recover") then
              e ← RecoverClusterSingle go_quote cfg;
              mret (match e with
                    | Some err => fails err
                    | None => mkExit 0 (println ("cluster recovered to single-node: " +:+ cfg_NodeID cfg)) ""
                    end)
            else mret (mkExit 2 "" usage)
          end
      end
    end.
End Server.

(** ** Lemmas *)

(** Reading a trace that consists of given calls. *)
Ltac only_calls_inv :=
  repeat match goal with
  | H : Forall2 _ (_ :: _) _ |- _ => apply Forall2_cons_inv_l in H as (? & ? & (? & ? & ->) & H & ->)
  | H : Forall2 _ [] _ |- _ => apply Forall2_nil_inv_l in H as ->
  end.

Section Specs.
  Context `{Env, LogLib} (go_quote : string → string).

  (** The servers of a configuration, in the order they start. *)
Definition servers_of (cfg : Config) : list (listener * string) :=
    [(HTTPListener, cfg_HTTPAddr cfg)] ++
    (if decide (Debug_Addr (cfg_Debug cfg) = "") then [] else [(DebugListener, Debug_Addr (cfg_Debug cfg))]).

  (** The trace makes exactly these calls and does nothing else. *)
Definition only_calls (cs : list call) (tr : trace) : Prop := Forall2 (λ c o, ∃ a evs, o = Called c a evs) cs tr.

Lemma only_calls_calls cs tr : only_calls cs tr → calls_of tr = cs.
Proof.
  induction 1 as [|c o cs tr (a & evs & ->) _ IH]; [done|]. change (?x :: tr) with ([x] ++ tr).
  by rewrite calls_of_app, IH.
Qed.

  (** The runs of [Run]. *)
Inductive server_run (cfg : Config) : option error → trace → Prop :=
  | sv_new e trl trn : logger_run (cfg_Log cfg) trl → new_run cfg (Err e) trn →
      server_run cfg (Some (ErrWrap "raftnode" e)) (trl ++ trn)
  | sv_failed n l err evs trl trn trs tre : logger_run (cfg_Log cfg) trl → new_run cfg (Ok n) trn →
      only_calls ((λ s, Listen s.1 s.2) <$> servers_of cfg) trs → shutdown_run n tre →
      server_run cfg (Some err) (trl ++ trn ++ trs ++ [Called AwaitEnd (ListenError l err) evs] ++ tre)
  | sv_stopped n evs trl trn trs trq tre : logger_run (cfg_Log cfg) trl → new_run cfg (Ok n) trn →
      only_calls ((λ s, Listen s.1 s.2) <$> servers_of cfg) trs →
      only_calls ((λ s, StopServer s.1) <$> servers_of cfg) trq → shutdown_run n tre →
      server_run cfg None (trl ++ trn ++ trs ++ [Called AwaitEnd Interrupted evs] ++ trq ++ tre).

Lemma wp_Shutdown_run n f (Q : outcome (option error * node_state) → trace → Prop) :
  ns_raft n = true → (∀ r tr, shutdown_run n tr → Q (Done r) tr) → wp (Shutdown n) f Q.
Proof.
  intros Hr HQ. apply wp_Shutdown; [congruence|]. intros e1 e2 e3 evs1 evs2 evs3 _. apply HQ. by repeat eexists.
Qed.

  (** The end of a run whose servers have started. *)
Lemma wp_await cfg n trl trn trs f (Q : outcome (option error) → trace → Prop) :
  logger_run (cfg_Log cfg) trl → new_run cfg (Ok n) trn →
  only_calls ((λ s, Listen s.1 s.2) <$> servers_of cfg) trs →
  (∀ res tr, server_run cfg res tr → Q (Done res) tr) →
  wp (ended ← do_call AwaitEnd;
      res ← match ended with
            | ListenError _ err => mret (Some err)
            | Interrupted =>
              _ ← do_call (StopServer HTTPListener);
              _ ← stop_debug cfg;
              mret None
            end;
      _ ← Shutdown n;
      mret res) f (λ o tr, Q o (trl ++ trn ++ trs ++ tr)).
Proof.
  intros Hl Hn Hs HQ. pose proof (new_run_ok _ _ _ Hn) as (_ & _ & Hraft & _). wp_step. wp_step.
  destruct ans as [l err|].
  - wp_step. wp_step. wp_step. apply wp_Shutdown_run; [done|]. intros r tre Hd. wp_step.
    rewrite app_nil_r. apply HQ. by apply (sv_failed _ n).
  - do 3 wp_step. wp_step. unfold stop_debug, debug_addr.
    assert (∀ trq g, only_calls ((λ s, StopServer s.1) <$> servers_of cfg) trq →
      wp (_ ← Shutdown n; mret (None : option error)) g
        (λ o tr, Q o (trl ++ trn ++ trs ++ [Called AwaitEnd Interrupted evs] ++ trq ++ tr))) as Hend.
    { intros trq g Hq. wp_step. apply wp_Shutdown_run; [done|]. intros r tre Hd. wp_step.
      rewrite app_nil_r. apply HQ. by apply (sv_stopped _ n). }
    destruct (decide (Debug_Addr (cfg_Debug cfg) ≠ "")) as [Hd|Hd]; do 2 wp_step.
    + eapply wp_mono; [apply (Hend [Called (StopServer HTTPListener) ans evs0; Called (StopServer DebugListener) ans0 evs1])|].
      { unfold servers_of. rewrite decide_False by done. repeat constructor; by eexists _, _. }
      intros o tr _ HQ'. exact HQ'.
    + eapply wp_mono; [apply (Hend [Called (StopServer HTTPListener) ans evs0])|].
      { unfold servers_of. rewrite decide_True by (destruct (decide (Debug_Addr (cfg_Debug cfg) = "")); tauto).
        repeat constructor; by eexists _, _. }
      intros o tr _ HQ'. exact HQ'.
Qed.

Lemma wp_Run cfg f (Q : outcome (option error) → trace → Prop) :
  (∀ res tr, server_run cfg res tr → Q (Done res) tr) → wp (Run go_quote cfg) f Q.
Proof.
  intros HQ. unfold Run. wp_step. apply wp_NewLogger. intros trl Hl. wp_step. apply wp_Node_New. intros r trn Hn.
  destruct r as [n|e]; [|wp_step; rewrite app_nil_r; apply HQ; by constructor].
  do 3 wp_step. unfold debug_addr. destruct (decide (Debug_Addr (cfg_Debug cfg) ≠ "")) as [Hd|Hd]; wp_step.
  - eapply wp_mono;
      [apply (wp_await cfg n trl trn [Called (Listen HTTPListener (cfg_HTTPAddr cfg)) ans evs;
         Called (Listen DebugListener (Debug_Addr (cfg_Debug cfg))) ans0 evs0]); [done..| |exact HQ]|].
    { unfold servers_of. rewrite decide_False by done. repeat constructor; by eexists _, _. }
    intros o tr _ HQ'. exact HQ'.
  - eapply wp_mono;
      [apply (wp_await cfg n trl trn [Called (Listen HTTPListener (cfg_HTTPAddr cfg)) ans evs]); [done..| |exact HQ]|].
    { unfold servers_of. rewrite decide_True by (destruct (decide (Debug_Addr (cfg_Debug cfg) = "")); tauto).
      repeat constructor; by eexists _, _. }
    intros o tr _ HQ'. exact HQ'.
Qed.

  (** The runs of [Init]. *)
Inductive init_run (cfg : Config) : option error → trace → Prop :=
  | in_new e trl trn : logger_run (cfg_Log cfg) trl → new_run cfg (Err e) trn → init_run cfg (Some e) (trl ++ trn)
  | in_booted n e evs trl trn tre : logger_run (cfg_Log cfg) trl → new_run cfg (Ok n) trn → shutdown_run n tre →
      init_run cfg
        (match e with
         | Some err => if errors_Is err ErrCantBootstrap then None else Some (ErrWrap "bootstrap" err)
         | None => None
         end)
        (trl ++ trn ++ [Called (RaftBootstrap ((λ p, mkServer (Peer_ID p) (Peer_Addr p)) <$> cfg_Peers cfg)) e evs] ++ tre).

Definition bootstrapped (cfg : Config) : string :=
    "cluster bootstrapped with " +:+ pretty (length (cfg_Peers cfg)) +:+ " peers on node " +:+ cfg_NodeID cfg.

Lemma wp_Init cfg f (Q : outcome (result error string) → trace → Prop) :
  (∀ e tr, init_run cfg e tr →
     Q (Done (match e with Some err => Err err | None => Ok (bootstrapped cfg) end)) tr) →
  wp (Init go_quote cfg) f Q.
Proof.
  intros HQ. unfold Init. wp_step. apply wp_NewLogger. intros trl Hl. wp_step. apply wp_Node_New. intros r trn Hn.
  destruct r as [n|e]; [|wp_step; rewrite app_nil_r; apply (HQ (Some e)); by constructor].
  pose proof (new_run_ok _ _ _ Hn) as (_ & _ & Hraft & Hnode & _). unfold BootstrapCluster. do 5 wp_step.
  apply wp_Shutdown_run; [done|]. intros r tre Hd. wp_step. rewrite app_nil_r.
  rewrite Hnode. cbn [node_cfg].
  pose proof (HQ _ _ (in_booted cfg n ans evs trl trn tre Hl Hn Hd)) as HQ'.
  destruct ans as [err|]; [destruct (errors_Is err ErrCantBootstrap)|]; exact HQ'.
Qed.

  (** What the starting and the stopping of the servers hold. *)
Lemma started_holds cfg trs held : only_calls ((λ s, Listen s.1 s.2) <$> servers_of cfg) trs →
  holds held trs = (Listening <$> reverse (servers_of cfg).*1) ++ held.
Proof.
  unfold servers_of. destruct (decide _); cbn [fmap list_fmap app]; intros Hs;
    unfold only_calls in Hs; only_calls_inv; done.
Qed.

  (** Stopping them releases their sockets and leaves the node's resources. *)
Lemma stopped_holds cfg trq n : only_calls ((λ s, StopServer s.1) <$> servers_of cfg) trq →
  holds ((Listening <$> reverse (servers_of cfg).*1) ++ node_resources n) trq = node_resources n.
Proof.
  unfold servers_of, node_resources. destruct (decide _); cbn [fmap list_fmap app]; intros Hs;
    unfold only_calls in Hs; only_calls_inv; by destruct (ns_closer n).
Qed.

  (** A failed server holds no socket. *)
Lemma failed_holds cfg l err evs n :
  holds ((Listening <$> reverse (servers_of cfg).*1) ++ node_resources n) [Called AwaitEnd (ListenError l err) evs]
  = (Listening <$> filter (λ l', l' ≠ l) (reverse (servers_of cfg).*1)) ++ node_resources n.
Proof.
  unfold servers_of, node_resources. destruct (decide _), l, (ns_closer n); reflexivity.
Qed.

  (** Calls that rewrite or erase persistent state. *)
Definition erases (c : call) : bool := match c with RemoveAll _ => true | _ => false end.
Definition reforms (c : call) : bool :=
    match c with RecoverCluster _ _ | BootstrapFresh _ _ => true | _ => false end.
Definition harmless (tr : trace) : Prop :=
    Forall (λ c, erases c = false ∧ reforms c = false) (calls_of tr).

Lemma harmless_app tr1 tr2 : harmless tr1 → harmless tr2 → harmless (tr1 ++ tr2).
Proof. unfold harmless. rewrite calls_of_app. intros. by apply Forall_app. Qed.

Lemma harmless_calls cs tr :
  only_calls cs tr → Forall (λ c, erases c = false ∧ reforms c = false) cs → harmless tr.
Proof. unfold harmless. by intros ->%only_calls_calls. Qed.

Lemma new_run_harmless cfg r tr : new_run cfg r tr → harmless tr.
Proof. intros Hr%new_run_calls. eapply Forall_impl; [exact Hr|]. by intros []. Qed.

Lemma logger_run_harmless cfg tr : logger_run cfg tr → harmless tr.
Proof. unfold harmless. intros ->%logger_run_calls. case_decide; by repeat constructor. Qed.

Lemma shutdown_run_harmless n tr : shutdown_run n tr → harmless tr.
Proof. unfold harmless. intros ->%shutdown_run_calls. destruct (ns_closer n); by repeat constructor. Qed.

Lemma server_run_harmless cfg res tr : server_run cfg res tr → harmless tr.
Proof.
  intros [e trl trn Hl Hn|n l err evs trl trn trs tre Hl Hn Hs Hd|n evs trl trn trs trq tre Hl Hn Hs Hq Hd];
    repeat apply harmless_app; eauto using logger_run_harmless, new_run_harmless, shutdown_run_harmless;
    try (by repeat constructor); eapply harmless_calls; eauto; apply Forall_fmap, Forall_true; done.
Qed.

Lemma init_run_harmless cfg res tr : init_run cfg res tr → harmless tr.
Proof.
  intros [e trl trn Hl Hn|n e evs trl trn tre Hl Hn Hd];
    repeat apply harmless_app; eauto using logger_run_harmless, new_run_harmless, shutdown_run_harmless;
    by repeat constructor.
Qed.

Lemma reset_run_reforms dir e tr : reset_run dir e tr → Forall (λ c, reforms c = false) (calls_of tr).
Proof.
  assert (∀ names tr, removed dir names tr → Forall (λ c, reforms c = false) (calls_of tr)) as Hr.
  { intros names tr'. induction 1 as [|name o names tr' (evs & ->) _ IH]; [constructor|].
    change (calls_of (?x :: tr')) with (calls_of ([x] ++ tr')). rewrite calls_of_app. by constructor. }
  intros [evs|err evs|names evs tr' Ht|pre name post err evs evs' tr' Ht];
    change (?x :: ?l) with ([x] ++ l); rewrite ?calls_of_app, ?Forall_app; split_and?; eauto; by repeat constructor.
Qed.

Lemma recovery_run_erases cfg e tr : recovery_run cfg e tr → Forall (λ c, erases c = false) (calls_of tr).
Proof.
  assert (∀ r tr, snaps_run (cfg_Snapshot cfg) (cfg_DataDir cfg) r tr → Forall (λ c, erases c = false) (calls_of tr)) as Hsn
    by (intros ?? []; by repeat constructor).
  intros [e' evs|e' evs evs'|e' tr' c evs evs' evs'' Hr]; [by repeat constructor..|].
  rewrite !calls_of_app, !Forall_app. split_and!; [by repeat constructor| |by repeat constructor].
  destruct Hr; rewrite ?calls_of_app, ?Forall_app; split_and?; eauto; by repeat constructor.
Qed.

Lemma parse_flags_code config args code : parse_flags config args = inr code → code ∈ [0; 2].
Proof.
  remember (length args) as n eqn:Hn. revert config args Hn.
  induction (lt_wf n) as [n _ IH]. intros config [|arg rest] ->; [done|]. cbn [parse_flags].
  destruct (strip_dashes (to_bytes arg)) as [[|c r]|]; [done| |done].
  destruct (decide _); [intros [= <-]; set_solver|]. destruct (cut "="%char (c :: r)) as [name value].
  destruct (decide (name = _)); [|destruct (decide _); intros [= <-]; set_solver].
  destruct value as [v|]; [eapply IH; [|done]; cbn; lia|].
  destruct rest as [|v rest]; [intros [= <-]; set_solver|]. eapply IH; [|done]. cbn. lia.
Qed.


Lemma parse_flags_config p :
  parse_flags "" ["-config"; p] = inl p ∧ parse_flags "" ["--config"; p] = inl p ∧
  parse_flags "" ["-config=" +:+ p] = inl p ∧ parse_flags "" [] = inl "" ∧
  parse_flags "" ["-config"] = inr 2 ∧ parse_flags "" ["-conf"; p] = inr 2.
Proof.
  split_and!; try reflexivity. cbn [parse_flags]. rewrite to_bytes_app.
  change (parse_flags (of_bytes (to_bytes p)) [] = inl p). by rewrite of_to_bytes.
Qed.

(** C35: the server process releases what it opened, but for two paths. [Run]
    first creates the directory of the log file, if any, and builds the node. When
    that fails it reports the error and serves nothing, and what the construction
    opened stays held. Otherwise it starts the API server, and the profiling server
    when it has an address, and waits. On a signal it stops both servers, shuts the
    node down, returns no error and holds nothing. When a server fails it shuts the
    node down and returns that error, without stopping the other server, which is
    all that is left. *)
Theorem run_releases (cfg : Config) (f : FSM) :
  let debug := Debug_Addr (cfg_Debug cfg) in
  let logger := if decide (Log_File (cfg_Log cfg) = "") then [] else [MkdirAll (filepath_Dir (Log_File (cfg_Log cfg))) 493] in
  let listens := [Listen HTTPListener (cfg_HTTPAddr cfg)] ++ (if decide (debug = "") then [] else [Listen DebugListener debug]) in
  let stops := [StopServer HTTPListener] ++ (if decide (debug = "") then [] else [StopServer DebugListener]) in
  wp (Run go_quote cfg) f (λ o tr, ∃ res trl trn, o = Done res ∧ calls_of trl = logger ∧
    ((∃ e, tr = trl ++ trn ∧ new_run cfg (Err e) trn ∧ res = Some (ErrWrap "raftnode" e) ∧
        holds [] tr = (if existsb opens_file trn then [StoreFile] else []) ++
                      (if existsb opens_transport trn then [Transport] else [])) ∨
     (∃ n ended evs trs, tr = trl ++ trn ++ trs ∧ new_run cfg (Ok n) trn ∧ Called AwaitEnd ended evs ∈ trs ∧
        let shutdown := [RaftShutdown] ++ (if existsb opens_file trn then [CloseStore] else []) ++ [CloseTransport] in
        match ended with
        | Interrupted => res = None ∧ holds [] tr = [] ∧ calls_of trs = listens ++ [AwaitEnd] ++ stops ++ shutdown
        | ListenError l e => res = Some e ∧ calls_of trs = listens ++ [AwaitEnd] ++ shutdown ∧
            holds [] tr = match l with
                          | HTTPListener => if decide (debug = "") then [] else [Listening DebugListener]
                          | DebugListener => [Listening HTTPListener]
                          end
        end))).
Proof.
  intros debug logger listens stops.
  assert ((λ s, Listen s.1 s.2) <$> servers_of cfg = listens) as Hlis.
  { unfold servers_of, listens. fold debug. by destruct (decide (debug = "")). }
  assert ((λ s, StopServer s.1) <$> servers_of cfg = stops) as Hsto.
  { unfold servers_of, stops. fold debug. by destruct (decide (debug = "")). }
  apply wp_Run. intros res tr Hr.
  destruct Hr as [e trl trn Hl Hn|n l err evs trl trn trs tre Hl Hn Hs Hd|n evs trl trn trs trq tre Hl Hn Hs Hq Hd];
    [exists (Some (ErrWrap "raftnode" e)), trl, trn|exists (Some err), trl, trn|exists None, trl, trn];
    (split; [done|]; split; [by apply logger_run_calls|]); [left|right..].
  - exists e. rewrite holds_app, (logger_run_holds _ _ _ Hl). split_and!; [done..|]. by apply (new_run_holds cfg (Err e)).
  - pose proof (new_run_ok _ _ _ Hn) as (Ho & Hc & _). eexists n, (ListenError l err), evs, _.
    split_and!; [done|done|set_solver|]. cbv zeta. split_and!; [done| |].
    + by rewrite !calls_of_app, (only_calls_calls _ _ Hs), Hlis, (shutdown_run_calls _ _ Hd), Hc.
    + rewrite !holds_app, (logger_run_holds _ _ _ Hl), (new_run_holds _ _ _ Hn), Ho, (started_holds _ _ _ Hs).
      rewrite failed_holds, (shutdown_run_holds _ _ _ Hd). unfold servers_of. fold debug.
      by destruct (decide (debug = "")), l.
  - pose proof (new_run_ok _ _ _ Hn) as (Ho & Hc & _). eexists n, Interrupted, evs, _.
    split_and!; [done|done|set_solver|]. cbv zeta. split_and!; [done| |].
    + rewrite !holds_app, (logger_run_holds _ _ _ Hl), (new_run_holds _ _ _ Hn), Ho, (started_holds _ _ _ Hs).
      change (holds ?h [Called AwaitEnd Interrupted evs]) with h.
      rewrite (stopped_holds _ _ _ Hq). apply (shutdown_run_holds n tre [] Hd).
    + by rewrite !calls_of_app, (only_calls_calls _ _ Hs), Hlis, (only_calls_calls _ _ Hq), Hsto, (shutdown_run_calls _ _ Hd), Hc.
Qed.

End Specs.
