(* ===== verification/Harness.v ===== *)
(** * The in-process test cluster ([testharness/cluster.go], [testharness/reset_shim.go])

    Several nodes in one process, over in-memory transports that have to be
    connected pairwise. The raft instances share a world; each instance makes its
    own calls to the library and has its own state machine. *)

From S2P Require Import Prelude Utf8 Base64 Json GoJson Config Codec Fsm Runtime RaftNode Url Lifecycle Recovery Http Metrics Store.
Local Open Scope Z_scope.

(** The world of the raft instances, numbered in the order of their creation: the
    calls an instance makes, the clock and the sleep of the process. *)
Class Instances `{RaftLib} : Type := {
  Net : Type;
  instance_handle (k : nat) (c : call) : Net → answer c * list fsm_event * Net;
  time_Now : Net → Z * Net;
  time_Sleep : Z → Net → Net;
}.

(** What one instance sees: an environment of its own, over the shared world. *)
Definition instance_env `{Instances} (k : nat) : Env := {| World := Net; handle := instance_handle k |}.

(** [t.Fatalf] ends the test. *)
Inductive ended (A : Type) : Type :=
| Returned (a : A)
| Fatalf (msg : string).
Arguments Returned {A} a.
Arguments Fatalf {A} msg.

Section Harness.
  Context `{Instances, MapOrder} (go_quote : string → string).

  (** [testharness.Node]: [hn_instance] is the identity of its raft instance and
      of its transport; the state machine [hn_fsm] is held by the node alone. *)
Record HNode : Type := mkHNode {
  hn_ID : string;
  hn_Raft : node_state;
  hn_instance : nat;
  hn_fsm : FSM;
  hn_Store : Store;
  hn_cfg : Config;
}.

(** What the cluster does to the library, in order. *)
Inductive hobs : Type :=
| HCall (k : nat) (c : call)
| HConnect (k : nat) (addr : string) (peer : nat).  (* k's transport learns peer's *)

Record Cluster : Type := mkCluster {
  cl_nodes : gmap string HNode;
  cl_order : list string;
  cl_next : nat;
  cl_net : Net;
  cl_log : list hobs;
}.

(** Running code of an instance with its state machine. *)
Definition run_instance {A} (k : nat) (m : @M _ (instance_env k) A) (f : FSM) (c : Cluster) :
    outcome A * FSM * Cluster :=
  let '(o, s) := m (@mkSt _ (instance_env k) (cl_net c) f []) in
  (o, st_fsm s,
   mkCluster (cl_nodes c) (cl_order c) (cl_next c) (st_world s)
     (cl_log c ++ map (HCall k) (@calls_of _ (st_trace s)))).

Definition set_node (id : string) (n : HNode) (c : Cluster) : Cluster :=
  mkCluster (<[id := n]> (cl_nodes c)) (cl_order c) (cl_next c) (cl_net c) (cl_log c).
Definition log_connects (l : list hobs) (c : Cluster) : Cluster :=
  mkCluster (cl_nodes c) (cl_order c) (cl_next c) (cl_net c) (cl_log c ++ l).

(** Running code of a node, which keeps its state machine. *)
Definition run_node {A} (n : HNode) (m : @M _ (instance_env (hn_instance n)) A) (c : Cluster) :
    outcome A * Cluster :=
  let '(o, f, c) := run_instance (hn_instance n) m (hn_fsm n) c in
  (o, set_node (hn_ID n) (mkHNode (hn_ID n) (hn_Raft n) (hn_instance n) f (hn_Store n) (hn_cfg n)) c).

(** ** Configurations *)

Definition node_id (i : nat) : string := "n" +:+ pretty (i + 1)%nat.
Definition loopback (port : Z) : string := "127.0.0.1:" +:+ pretty port.
Definition node_peer (i : nat) : Peer := mkPeer (node_id i) (loopback (7400 + Z.of_nat i + 1)) "".
Definition node_config (n i : nat) : Config :=
  mkConfig (node_id i) (loopback (7400 + Z.of_nat i + 1)) (loopback (8400 + Z.of_nat i + 1)) "" (map node_peer (seq 0 n))
    (mkSnapshotConfig "inmem" "" 0) (mkLogStoreConfig "") (mkLogConfig "" "" false 0 0 0)
    (mkRaftConfig 0 0 0 0) (mkDebugConfig "") true.

(** ** Starting nodes *)

Inductive boot_error : Type := BootNew (err : error) | BootBootstrap (err : error).

(** The part [NewCluster] and [RestartNode] share: construct, bootstrap. *)
Definition boot (k : nat) (cfg : Config) : @M _ (instance_env k) (result boot_error node_state) :=
  r ← Node_New go_quote cfg;
  match r with
  | Err err => mret (Err (BootNew err))
  | Ok n =>
    e ← BootstrapCluster (ns_node n);
    mret (match e with Some err => Err (BootBootstrap err) | None => Ok n end)
  end.

(** A fresh instance for [id]; the message prefixes are the callers'. *)
Definition start_node (on_new on_bootstrap : string) (id : string) (cfg : Config) (c : Cluster) :
    ended HNode * Cluster :=
  let k := cl_next c in
  let c := mkCluster (cl_nodes c) (cl_order c) (S k) (cl_net c) (cl_log c) in
  let '(o, f, c) := run_instance k (boot k cfg) New c in
  match o with
  | Done (Ok n) => (Returned (mkHNode id n k f (Store_New (ns_node n) (2 * second)) cfg), c)
  | Done (Err (BootNew err)) => (Fatalf (on_new +:+ id +:+ ": " +:+ Error err), c)
  | Done (Err (BootBootstrap err)) => (Fatalf (on_bootstrap +:+ id +:+ ": " +:+ Error err), c)
  | Panic => (Fatalf "panic", c)
  end.

Definition add_node (n : HNode) (c : Cluster) : Cluster :=
  mkCluster (<[hn_ID n := n]> (cl_nodes c)) (cl_order c ++ [hn_ID n]) (cl_next c) (cl_net c) (cl_log c).

Fixpoint new_nodes (size : nat) (idx : list nat) (c : Cluster) : ended unit * Cluster :=
  match idx with
  | [] => (Returned tt, c)
  | i :: idx =>
    match start_node "new node " "bootstrap " (node_id i) (node_config size i) c with
    | (Fatalf msg, c) => (Fatalf msg, c)
    | (Returned n, c) => new_nodes size idx (add_node n c)
    end
  end.

(** ** Transports *)

(** The type assertion to an in-memory transport. *)
Definition inmem_transport (n : HNode) : option nat :=
  if cfg_UseInmemTransport (hn_cfg n) then Some (hn_instance n) else None.

(** The inner and the outer loop of [connectTransports]. *)
Definition connect_to (c : Cluster) (i ta : nat) (j : nat) (b : string) : list hobs :=
  if decide (i = j) then []
  else match cl_nodes c !! b with
       | None => []
       | Some nb => match inmem_transport nb with
                    | None => []
                    | Some tb => [HConnect ta (cfg_RaftAddr (hn_cfg nb)) tb]
                    end
       end.
Definition connect_from (c : Cluster) (i : nat) (a : string) : list hobs :=
  match cl_nodes c !! a with
  | None => []
  | Some na => match inmem_transport na with
               | None => []
               | Some ta => concat (imap (connect_to c i ta) (cl_order c))
               end
  end.
Definition connectTransports (c : Cluster) : Cluster :=
  log_connects (concat (imap (connect_from c) (cl_order c))) c.

Definition NewCluster (net : Net) (n : nat) : ended unit * Cluster :=
  match new_nodes n (seq 0 n) (mkCluster ∅ [] 0 net []) with
  | (Fatalf msg, c) => (Fatalf msg, c)
  | (Returned _, c) => (Returned tt, connectTransports c)
  end.

(** ** Operations *)

Definition IDs (c : Cluster) : list string := cl_order c.
Definition Cluster_Node (c : Cluster) (id : string) : option HNode := cl_nodes c !! id.

Definition HIsLeader (n : HNode) (c : Cluster) : bool * Cluster :=
  let '(o, c) := run_node n (@IsLeader _ (instance_env (hn_instance n))) c in
  (match o with Done b => b | Panic => false end, c).

(** The first node, in the order of creation, that says it leads. *)
Fixpoint find_leader (ids : list string) (c : Cluster) : option string * Cluster :=
  match ids with
  | [] => (None, c)
  | id :: ids =>
    match cl_nodes c !! id with
    | None => find_leader ids c
    | Some n =>
      let '(leads, c) := HIsLeader n c in
      if leads then (Some id, c) else find_leader ids c
    end
  end.
Definition LeaderID (c : Cluster) : string * Cluster :=
  let '(id, c) := find_leader (cl_order c) c in (default "" id, c).

Definition set_net (net : Net) (c : Cluster) : Cluster :=
  mkCluster (cl_nodes c) (cl_order c) (cl_next c) net (cl_log c).

(** The polls of [WaitForLeader]; [None] when the fuel runs out. *)
Fixpoint wait_loop (fuel : nat) (deadline : Z) (c : Cluster) : option (string * Cluster) :=
  let '(now, net) := time_Now (cl_net c) in
  let c := set_net net c in
  if now <? deadline then
    match find_leader (cl_order c) c with
    | (Some id, c) => Some (id, c)
    | (None, c) =>
      match fuel with
      | O => None
      | S fuel => wait_loop fuel deadline (set_net (time_Sleep (20 * millisecond) (cl_net c)) c)
      end
    end
  else Some ("", c).
Definition WaitForLeader (fuel : nat) (c : Cluster) : option (string * Cluster) :=
  let '(now, net) := time_Now (cl_net c) in
  wait_loop fuel (now + 5 * second) (set_net net c).

Definition shutdown_raft (n : HNode) (c : Cluster) : Cluster :=
  let '(o, f, c) := run_instance (hn_instance n) (@Shutdown _ (instance_env (hn_instance n)) (hn_Raft n)) (hn_fsm n) c in
  let r := match o with Done (_, r) => r | Panic => hn_Raft n end in
  set_node (hn_ID n) (mkHNode (hn_ID n) r (hn_instance n) f (hn_Store n) (hn_cfg n)) c.

Definition ShutdownNode (id : string) (c : Cluster) : Cluster :=
  match cl_nodes c !! id with Some n => shutdown_raft n c | None => c end.

Definition RestartNode (id : string) (c : Cluster) : ended unit * Cluster :=
  match cl_nodes c !! id with
  | None => (Returned tt, c)
  | Some old =>
    let c := shutdown_raft old c in
    match start_node "restart " "restart bootstrap " id (hn_cfg old) c with
    | (Fatalf msg, c) => (Fatalf msg, c)
    | (Returned n, c) =>
      let c := set_node id n c in
      (Returned tt, if cfg_UseInmemTransport (hn_cfg old) then connectTransports c else c)
    end
  end.

Definition ShutdownAll (c : Cluster) : Cluster :=
  foldl (λ c '(_, n), shutdown_raft n c) c (map_range (cl_nodes c)).

(** [resetForTest] and its shim, on the node's own instance. *)
Definition raftnodeReset (k : nat) (dir : string) : @M _ (instance_env k) (option error) :=
  @Reset _ (instance_env k) dir.
Definition resetForTest (n : HNode) : @M _ (instance_env (hn_instance n)) (option error) :=
  raftnodeReset (hn_instance n) (cfg_DataDir (hn_cfg n)).
End Harness.

(** ** What stays the same *)

Section Lemmas.
  Context `{Instances, MapOrder} (go_quote : string → string).

(** The identity of a node, its instance and its configuration. *)
Definition hstatic (n : HNode) : string * nat * Config := (hn_ID n, hn_instance n, hn_cfg n).
Definition statics (c : Cluster) : gmap string (string * nat * Config) := hstatic <$> cl_nodes c.

(** What each transport knows: the last peer connected for an address. Closing an
    in-memory transport disconnects it from all its peers, and so does the shutdown
    of its raft instance, which closes the transport itself. *)
Definition closes_transport (c : call) : bool :=
  match c with CloseTransport | RaftShutdown => true | _ => false end.
Definition route_step (m : gmap (nat * string) nat) (o : hobs) : gmap (nat * string) nat :=
  match o with
  | HConnect k addr peer => <[(k, addr) := peer]> m
  | HCall k c => if closes_transport c then filter (λ r, r.1.1 ≠ k) m else m
  end.
Definition routes (log : list hobs) : gmap (nat * string) nat := foldl route_step ∅ log.

(** The transport of the instance was not closed. *)
Definition running (log : list hobs) (k : nat) : Prop :=
  HCall k CloseTransport ∉ log ∧ HCall k RaftShutdown ∉ log.

Lemma running_app log l k : running (log ++ l) k → running log k.
Proof. unfold running. set_solver. Qed.

(** Calls leave the routes of the instances that still run. *)
Lemma routes_calls log (cs : list (nat * call)) k a :
  running (log ++ map (λ x, HCall x.1 x.2) cs) k →
  routes (log ++ map (λ x, HCall x.1 x.2) cs) !! (k, a) = routes log !! (k, a).
Proof.
  induction cs as [|[k' x] cs IH] using rev_ind; [by rewrite app_nil_r|].
  rewrite map_app, app_assoc. cbn [map fst snd]. intros Hr. rewrite <-(IH (running_app _ _ _ Hr)).
  unfold routes at 1. rewrite foldl_app. cbn [foldl route_step]. fold (routes (log ++ map (λ x, HCall x.1 x.2) cs)).
  destruct (closes_transport x) eqn:Ex; [|done].
  assert (k' ≠ k) as Hk by (intros ->; destruct x; try done; unfold running in Hr; set_solver).
  rewrite map_lookup_filter. destruct (routes _ !! (k, a)) as [t|]; [|done]. cbn.
  by rewrite option_guard_True by congruence.
Qed.

(** A step that changes neither the nodes' identities nor makes connections: what
    it adds to the log is calls. *)
Record framed (c c' : Cluster) : Prop := mkFramed {
  fr_statics : statics c' = statics c;
  fr_order : cl_order c' = cl_order c;
  fr_next : cl_next c' = cl_next c;
  fr_log : ∃ cs : list (nat * call), cl_log c' = cl_log c ++ map (λ x, HCall x.1 x.2) cs;
}.

#[export] Instance framed_preorder : PreOrder framed.
Proof.
  split; [intros c; split; try done; exists []; by rewrite app_nil_r|].
  intros c1 c2 c3 [? ? ? [cs1 E1]] [? ? ? [cs2 E2]]. split; [congruence..|].
  exists (cs1 ++ cs2). by rewrite E2, E1, map_app, app_assoc.
Qed.

Lemma run_instance_framed {A} k (m : @M _ (instance_env k) A) f c :
  let '(_, _, c') := run_instance k m f c in framed c c' ∧ cl_nodes c' = cl_nodes c.
Proof.
  unfold run_instance. destruct (m _) as [o s]. split; [|done]. split; try done. eexists (map (pair k) _). cbn [cl_log]. by rewrite map_map.
Qed.

Lemma set_node_framed id n n' c :
  cl_nodes c !! id = Some n → hstatic n' = hstatic n → framed c (set_node id n' c).
Proof.
  intros Hn Hs. split; [|done|done|by exists []; rewrite app_nil_r]. unfold statics, set_node. cbn [cl_nodes]. rewrite fmap_insert, Hs.
  apply insert_id. by rewrite lookup_fmap, Hn.
Qed.

(** The nodes of a cluster are filed under their names. *)
Definition filed (c : Cluster) : Prop := ∀ id n, cl_nodes c !! id = Some n → hn_ID n = id.

Lemma filed_statics c : filed c ↔ ∀ id s, statics c !! id = Some s → s.1.1 = id.
Proof.
  unfold filed, statics. split.
  - intros Hf id s. rewrite lookup_fmap. intros (n & Hn & ->)%fmap_Some. by apply Hf.
  - intros Hf id n Hn. apply (Hf id (hstatic n)). by rewrite lookup_fmap, Hn.
Qed.

Lemma framed_filed c c' : framed c c' → filed c → filed c'.
Proof. intros [Hs _ _ _]. by rewrite !filed_statics, Hs. Qed.

Lemma shutdown_framed id n c : filed c → cl_nodes c !! id = Some n → framed c (shutdown_raft n c).
Proof.
  intros Hf Hn. unfold shutdown_raft.
  pose proof (run_instance_framed (hn_instance n) (@Shutdown _ (instance_env (hn_instance n)) (hn_Raft n)) (hn_fsm n) c) as Hr.
  destruct (run_instance _ _ _ _) as [[o f] c1]. destruct Hr as [Hr Hnodes].
  transitivity c1; [done|]. rewrite (Hf _ _ Hn). apply set_node_framed with n; [by rewrite Hnodes|].
  unfold hstatic. by rewrite (Hf _ _ Hn).
Qed.

(** Asking a node whether it leads is one call of its instance. *)
Lemma HIsLeader_spec id n c :
  filed c → cl_nodes c !! id = Some n →
  let '(a, evs, net) := instance_handle (hn_instance n) RaftState_ (cl_net c) in
  ∃ c', HIsLeader n c = (bool_decide (a = Leader), c') ∧ framed c c' ∧ cl_net c' = net.
Proof.
  intros Hf Hn. unfold HIsLeader, run_node.
  pose proof (run_instance_framed (hn_instance n) (@IsLeader _ (instance_env (hn_instance n))) (hn_fsm n) c) as Hr.
  unfold run_instance, IsLeader, do_call, mbind, M_bind, mret, M_ret in *. cbn [st_world st_fsm st_trace handle instance_env] in *.
  destruct (instance_handle (hn_instance n) RaftState_ (cl_net c)) as [[a evs] net].
  cbn [st_world st_fsm st_trace] in *. destruct Hr as [Hr Hnodes]. eexists. split; [done|]. split; [|done].
  transitivity (mkCluster (cl_nodes c) (cl_order c) (cl_next c) net
                  (cl_log c ++ map (HCall (hn_instance n)) (@calls_of _ [@Called _ RaftState_ a evs]))); [done|].
  rewrite (Hf _ _ Hn). apply set_node_framed with n; [done|]. unfold hstatic. by rewrite (Hf _ _ Hn).
Qed.

Lemma find_leader_framed ids c : filed c → framed c (find_leader ids c).2.
Proof.
  revert c. induction ids as [|id ids IH]; intros c Hf; [done|]. cbn [find_leader].
  destruct (cl_nodes c !! id) as [n|] eqn:Hn; [|by apply IH].
  pose proof (HIsLeader_spec id n c Hf Hn) as Hs. destruct (instance_handle _ _ _) as [[a evs] net].
  destruct Hs as (c' & -> & Hfr & _). destruct (bool_decide (a = Leader)); [done|].
  transitivity c'; [done|]. apply IH. by eapply framed_filed.
Qed.

Lemma set_net_framed net c : framed c (set_net net c).
Proof. split; try done. exists []. by rewrite app_nil_r. Qed.

Lemma wait_loop_framed fuel deadline c r c' :
  filed c → wait_loop fuel deadline c = Some (r, c') → framed c c'.
Proof.
  revert c. induction fuel as [|fuel IH]; intros c Hf; cbn [wait_loop];
    destruct (time_Now (cl_net c)) as [now net]; pose proof (set_net_framed net c) as Hs;
    (destruct (now <? deadline); [|by intros [= _ <-]]);
    pose proof (find_leader_framed (cl_order (set_net net c)) (set_net net c) (framed_filed _ _ Hs Hf)) as Hl;
    destruct (find_leader _ _) as [[id|] c1]; cbn [snd] in Hl; try done;
    try (intros [= _ <-]; by transitivity (set_net net c)).
  intros Hw. transitivity c1; [by transitivity (set_net net c)|].
  etransitivity; [apply set_net_framed|]. eapply IH; [|exact Hw].
  eapply framed_filed; [|exact Hf]. transitivity c1; [by transitivity (set_net net c)|apply set_net_framed].
Qed.
End Lemmas.

(** ** Connecting *)

Section Connecting.
  Context `{Instances, MapOrder} (go_quote : string → string).

(** The nodes made so far: named in order, each with the configuration of its
    place and an instance of its own. *)
Record good (size k : nat) (c : Cluster) : Prop := mkGood {
  g_order : cl_order c = map node_id (seq 0 k);
  g_size : (k ≤ size)%nat;
  g_dom : ∀ id, is_Some (statics c !! id) ↔ id ∈ cl_order c;
  g_node : ∀ id s, statics c !! id = Some s →
    ∃ i, id = node_id i ∧ s.1.1 = id ∧ s.2 = node_config size i ∧ (s.1.2 < cl_next c)%nat;
  g_inst : ∀ id1 id2 s1 s2, statics c !! id1 = Some s1 → statics c !! id2 = Some s2 → s1.1.2 = s2.1.2 → id1 = id2;
}.

(** The transports of [live] nodes know the current transport of every other node. *)
Definition connected (live : nat → Prop) (c : Cluster) : Prop := ∀ id1 id2 s1 s2,
  statics c !! id1 = Some s1 → statics c !! id2 = Some s2 → id1 ≠ id2 → live s1.1.2 →
  routes (cl_log c) !! (s1.1.2, cfg_RaftAddr s2.2) = Some s2.1.2.
Definition live_connected (c : Cluster) : Prop := connected (running (cl_log c)) c.

Lemma good_framed size k c c' : framed c c' → good size k c → good size k c'.
Proof. intros [E1 E2 E3 E4] [G1 G2 G3 G4 G5]. split; rewrite ?E1, ?E2, ?E3; done. Qed.

Lemma connected_framed c c' : framed c c' → live_connected c → live_connected c'.
Proof.
  intros [E1 E2 E3 [cs E4]] Hc id1 id2 s1 s2. rewrite E1, E4. intros Hs1 Hs2 Hne Hlive.
  rewrite routes_calls by done. apply (Hc id1 id2); [done..|]. by eapply running_app.
Qed.

Lemma good_filed size k c : good size k c → filed c.
Proof. intros Hg. apply filed_statics. intros id s Hs. by destruct (g_node _ _ _ Hg id s Hs) as (i & ? & ? & _). Qed.

Lemma node_id_inj i j : node_id i = node_id j → i = j.
Proof.
  unfold node_id. intros E. apply (f_equal to_bytes) in E. rewrite !to_bytes_app in E.
  apply app_inv_head in E. apply (inj to_bytes) in E. apply (inj (pretty (A := nat))) in E. lia.
Qed.

Lemma node_addr_inj size i j :
  cfg_RaftAddr (node_config size i) = cfg_RaftAddr (node_config size j) → i = j.
Proof.
  unfold node_config, loopback. cbn [cfg_RaftAddr]. intros E. apply (f_equal to_bytes) in E.
  rewrite !to_bytes_app in E. apply app_inv_head in E. apply (inj to_bytes) in E. apply (inj (pretty (A := Z))) in E. lia.
Qed.

(** The connections made last decide. *)
Lemma routes_connects log (l : list hobs) k a t :
  (∀ o, o ∈ l → ∃ k' a' t', o = HConnect k' a' t') →
  HConnect k a t ∈ l → (∀ t', HConnect k a t' ∈ l → t' = t) → routes (log ++ l) !! (k, a) = Some t.
Proof.
  unfold routes. rewrite foldl_app. generalize (foldl route_step ∅ log) as m. intros m Hall Hin Huniq.
  induction l as [|o l IH] using rev_ind; [by apply not_elem_of_nil in Hin|].
  rewrite foldl_app. cbn [foldl]. destruct (Hall o) as (k' & a' & t' & ->); [apply elem_of_app; right; by left|].
  cbn [route_step]. destruct (decide ((k', a') = (k, a))) as [[= -> ->]|Hne].
  - rewrite lookup_insert_eq. f_equal. apply Huniq, elem_of_app. right. by left.
  - rewrite lookup_insert_ne by done. apply elem_of_app in Hin as [Hin|Hin].
    + apply IH; [|done|]; intros; [apply Hall|apply Huniq]; apply elem_of_app; by left.
    + apply list_elem_of_singleton in Hin. congruence.
Qed.

(** What [connectTransports] connects: the pairs of different places. *)
Lemma elem_of_connects c o :
  o ∈ concat (imap (connect_from c) (cl_order c)) ↔
  ∃ i j a b na nb ta tb, cl_order c !! i = Some a ∧ cl_order c !! j = Some b ∧ i ≠ j ∧
    cl_nodes c !! a = Some na ∧ cl_nodes c !! b = Some nb ∧
    inmem_transport na = Some ta ∧ inmem_transport nb = Some tb ∧
    o = HConnect ta (cfg_RaftAddr (hn_cfg nb)) tb.
Proof.
  rewrite list_elem_of_In, in_concat. split.
  - intros (l & Hl & Ho). apply list_elem_of_In, elem_of_lookup_imap in Hl as (i & a & -> & Hi).
    unfold connect_from in Ho. destruct (cl_nodes c !! a) as [na|] eqn:Ha; [|done].
    destruct (inmem_transport na) as [ta|] eqn:Hta; [|done].
    apply in_concat in Ho as (l & Hl & Ho). apply list_elem_of_In, elem_of_lookup_imap in Hl as (j & b & -> & Hj).
    unfold connect_to in Ho. case_decide; [done|]. destruct (cl_nodes c !! b) as [nb|] eqn:Hb; [|done].
    destruct (inmem_transport nb) as [tb|] eqn:Htb; [|done]. destruct Ho as [<-|[]].
    by exists i, j, a, b, na, nb, ta, tb.
  - intros (i & j & a & b & na & nb & ta & tb & Hi & Hj & Hij & Ha & Hb & Hta & Htb & ->).
    exists (connect_from c i a). split.
    { apply list_elem_of_In, elem_of_lookup_imap. by exists i, a. }
    unfold connect_from. rewrite Ha, Hta. apply in_concat. exists (connect_to c i ta j b). split.
    { apply list_elem_of_In, elem_of_lookup_imap. by exists j, b. }
    unfold connect_to. rewrite decide_False, Hb, Htb by done. by left.
Qed.

Lemma connectTransports_same c :
  statics (connectTransports c) = statics c ∧ cl_order (connectTransports c) = cl_order c ∧
  cl_next (connectTransports c) = cl_next c.
Proof. done. Qed.

Lemma good_connect size k c : good size k c → good size k (connectTransports c).
Proof. intros [G1 G2 G3 G4 G5]. by split. Qed.

Lemma statics_node c id s : statics c !! id = Some s → ∃ n, cl_nodes c !! id = Some n ∧ hstatic n = s.
Proof. unfold statics. rewrite lookup_fmap. intros (n & Hn & ->)%fmap_Some. by exists n. Qed.

(** In a good cluster connecting reaches every ordered pair. *)
Lemma connected_connect live size k c : good size k c → connected live (connectTransports c).
Proof.
  intros Hg id1 id2 s1 s2 Hs1 Hs2 Hne _. destruct (connectTransports_same c) as (E & _ & _). rewrite E in Hs1, Hs2. clear E.
  assert (∀ id s, statics c !! id = Some s → ∃ i n, cl_order c !! i = Some id ∧ cl_nodes c !! id = Some n ∧
            hstatic n = s ∧ inmem_transport n = Some s.1.2) as Hplace.
  { intros id s Hs. assert (id ∈ cl_order c) as [i Hi]%list_elem_of_lookup by (apply (g_dom _ _ _ Hg); by eexists).
    destruct (statics_node c id s Hs) as (n & Hn & <-). destruct (g_node _ _ _ Hg id _ Hs) as (j & _ & _ & Hcfg & _).
    exists i, n. split_and!; try done. unfold inmem_transport. cbn in Hcfg. by rewrite Hcfg. }
  destruct (Hplace _ _ Hs1) as (i & n1 & Hi & Hn1 & E1 & T1). destruct (Hplace _ _ Hs2) as (j & n2 & Hj & Hn2 & E2 & T2).
  unfold connectTransports, log_connects. cbn [cl_log]. apply routes_connects.
  - intros o (? & ? & ? & ? & ? & ? & ? & ? & ? & ? & ? & ? & ? & ? & ? & ->)%elem_of_connects. by eexists _, _, _.
  - apply elem_of_connects. exists i, j, id1, id2, n1, n2, s1.1.2, s2.1.2. split_and!; try done; [congruence|].
    by rewrite <-E2.
  - intros t' (i' & j' & a & b & na & nb & ta & tb & Hi' & Hj' & _ & Ha & Hb & _ & Htb & [= _ Haddr ->])%elem_of_connects.
    assert (statics c !! b = Some (hstatic nb)) as Hsb by (unfold statics; by rewrite lookup_fmap, Hb).
    destruct (g_node _ _ _ Hg _ _ Hsb) as (x & -> & _ & Hx & _).
    destruct (g_node _ _ _ Hg _ _ Hs2) as (y & Ey & _ & Hy & _). cbn [hstatic snd] in Hx.
    rewrite Hx, Hy in Haddr. apply node_addr_inj in Haddr as ->. rewrite <-Ey, Hn2 in Hb. injection Hb as <-. congruence.
Qed.
End Connecting.

(** ** Growing and restarting *)

Section Growing.
  Context `{Instances, MapOrder} (go_quote : string → string).

(** A started node is a fresh instance, with a store on it; nothing else changes. *)
Lemma start_node_spec on_new on_boot id cfg c :
  match start_node go_quote on_new on_boot id cfg c with
  | (Returned n, c') =>
      hstatic n = (id, cl_next c, cfg) ∧ ns_node (hn_Raft n) = st_node (hn_Store n) ∧
      statics c' = statics c ∧ cl_order c' = cl_order c ∧ cl_next c' = S (cl_next c)
  | (Fatalf _, _) => True
  end.
Proof.
  unfold start_node. set (c0 := mkCluster _ _ _ _ _).
  pose proof (run_instance_framed (cl_next c) (boot go_quote (cl_next c) cfg) New c0) as Hr.
  destruct (run_instance _ _ _ _) as [[o f] c1]. destruct Hr as [[E1 E2 E3 E4] _].
  destruct o as [[n|[err|err]]|]; [|done..]. by rewrite E1, E2, E3.
Qed.

Lemma elem_of_places k i : node_id i ∈ map node_id (seq 0 k) ↔ (i < k)%nat.
Proof.
  rewrite list_elem_of_In, in_map_iff. split.
  - intros (j & E%node_id_inj & Hj%in_seq). lia.
  - intros Hi. exists i. split; [done|]. apply in_seq. lia.
Qed.

(** Adding the next node, and replacing a node by a fresh one. *)
Lemma good_insert size k c c' id i n :
  good size k c → id = node_id i → hstatic n = (id, cl_next c, node_config size i) →
  statics c' = statics c → cl_next c' = S (cl_next c) →
  (i < k ∧ cl_order c' = cl_order c ∨ i = k ∧ k < size ∧ cl_order c' = cl_order c ++ [id])%nat →
  good size (if decide (i < k)%nat then k else S k)
    (mkCluster (<[id := n]> (cl_nodes c')) (cl_order c') (cl_next c') (cl_net c') (cl_log c')).
Proof.
  intros [G1 G2 G3 G4 G5] -> Hn Es En Ho.
  assert (statics (mkCluster (<[node_id i := n]> (cl_nodes c')) (cl_order c') (cl_next c') (cl_net c') (cl_log c'))
          = <[node_id i := hstatic n]> (statics c)) as E.
  { unfold statics at 1. cbn [cl_nodes]. by rewrite fmap_insert, <-Es. }
  split; rewrite ?E; cbn [cl_order cl_next]; rewrite ?En.
  - destruct Ho as [[Hi ->]|(-> & Hi & ->)]; [by rewrite decide_True|].
    rewrite decide_False by lia. by rewrite G1, seq_S, map_app.
  - case_decide; lia.
  - intros id. rewrite lookup_insert_is_Some, G3. destruct Ho as [[Hi ->]|(-> & Hi & ->)].
    + rewrite G1. split; [intros [<-|[_ ?]]; [by apply elem_of_places|done]|].
      intros Hid. destruct (decide (node_id i = id)); [by left|by right].
    + rewrite elem_of_app, list_elem_of_singleton. split; [intros [<-|[_ ?]]; auto|].
      intros Hid. destruct (decide (node_id k = id)); [by left|right]. split; [done|]. by destruct Hid.
  - intros id s [[<- <-]|[Hne Hs]]%lookup_insert_Some.
    + exists i. rewrite Hn. cbn. split_and!; done || lia.
    + destruct (G4 id s Hs) as (j & ? & ? & ? & ?). exists j. split_and!; done || lia.
  - intros id1 id2 s1 s2 [[<- <-]|[Hne1 Hs1]]%lookup_insert_Some [[<- <-]|[Hne2 Hs2]]%lookup_insert_Some Heq.
    + done.
    + destruct (G4 id2 s2 Hs2) as (? & _ & _ & _ & Hlt). rewrite <-Heq, Hn in Hlt. cbn in Hlt. lia.
    + destruct (G4 id1 s1 Hs1) as (? & _ & _ & _ & Hlt). rewrite Heq, Hn in Hlt. cbn in Hlt. lia.
    + by eapply G5.
Qed.

Lemma new_nodes_good size len : ∀ k c,
  good size k c → (k + len ≤ size)%nat →
  match new_nodes go_quote size (seq k len) c with
  | (Returned _, c') => good size (k + len) c'
  | (Fatalf _, _) => True
  end.
Proof.
  induction len as [|len IH]; intros k c Hg Hle; cbn [seq new_nodes]; [by rewrite Nat.add_0_r|].
  pose proof (start_node_spec "new node " "bootstrap " (node_id k) (node_config size k) c) as Hs.
  destruct (start_node _ _ _ _ _ _) as [[n|msg] c1]; [|done].
  destruct Hs as (Hn & _ & Es & Eo & En). rewrite <-Nat.add_succ_comm. apply IH; [|lia].
  assert (hn_ID n = node_id k) as Hid by (by injection Hn). unfold add_node. rewrite Hid.
  pose proof (good_insert size k c (mkCluster (cl_nodes c1) (cl_order c1 ++ [node_id k]) (cl_next c1) (cl_net c1) (cl_log c1))
                (node_id k) k n Hg eq_refl Hn Es En) as Hins.
  rewrite decide_False in Hins by lia. apply Hins. right. cbn. rewrite Eo. split_and!; done || lia.
Qed.

Lemma good_empty size net : good size 0 (mkCluster ∅ [] 0 net []).
Proof.
  assert (statics (mkCluster ∅ [] 0 net []) = ∅) as E by apply fmap_empty.
  split; rewrite ?E; cbn [cl_order]; [done|lia| |by intros ? ?|by intros ? ? ? ?].
  intros id. rewrite lookup_empty. split; [by intros []|by intros ?%elem_of_nil].
Qed.

Lemma NewCluster_good net size c :
  NewCluster go_quote net size = (Returned tt, c) → good size size c ∧ ∀ live, connected live c.
Proof.
  unfold NewCluster. intros Hc.
  pose proof (new_nodes_good size size 0 _ (good_empty size net) ltac:(lia)) as Hn.
  destruct (new_nodes _ _ _ _) as [[[]|msg] c1]; [|done]. injection Hc as <-.
  split; [by apply good_connect|intros live; by eapply connected_connect].
Qed.

Lemma RestartNode_good size c id c' :
  good size size c → RestartNode go_quote id c = (Returned tt, c') →
  good size size c' ∧ (c' = c ∧ cl_nodes c !! id = None ∨ ∀ live, connected live c').
Proof.
  intros Hg. unfold RestartNode. destruct (cl_nodes c !! id) as [old|] eqn:Hold; [|intros [= <-]; auto].
  pose proof (shutdown_framed id old c (good_filed _ _ _ Hg) Hold) as Hfr.
  pose proof (good_framed _ _ _ _ Hfr Hg) as Hg1. set (c1 := shutdown_raft old c) in *.
  assert (statics c !! id = Some (hstatic old)) as Hs by (unfold statics; by rewrite lookup_fmap, Hold).
  destruct (g_node _ _ _ Hg _ _ Hs) as (i & -> & _ & Hcfg & _). cbn [hstatic snd] in Hcfg.
  pose proof (start_node_spec "restart " "restart bootstrap " (node_id i) (hn_cfg old) c1) as Hst.
  destruct (start_node _ _ _ _ _ _) as [[n|msg] c2]; [|done]. destruct Hst as (Hn & _ & Es & Eo & En).
  rewrite Hcfg in *. cbn [node_config cfg_UseInmemTransport]. intros [= <-].
  assert (good size size (set_node (node_id i) n c2)) as Hg2.
  { assert (i < size)%nat as Hi.
    { apply elem_of_places. rewrite <-(g_order _ _ _ Hg). apply (g_dom _ _ _ Hg). by eexists. }
    pose proof (good_insert size size c1 c2 (node_id i) i n Hg1 eq_refl Hn Es En) as Hins.
    rewrite decide_True in Hins by done. apply Hins. by left. }
  split; [by apply good_connect|right; intros live; by eapply connected_connect].
Qed.

Lemma shutdown_all_framed c : filed c → framed c (ShutdownAll c).
Proof.
  intros Hf. unfold ShutdownAll.
  assert (∀ l c', framed c c' → (∀ id n, (id, n) ∈ l → hn_ID n = id ∧ is_Some (statics c !! id) ∧ statics c !! id = Some (hstatic n)) →
            framed c (foldl (λ c '(_, n), shutdown_raft n c) c' l)) as Hfold.
  { intros l. induction l as [|[id n] l IH]; intros c' Hfr Hl; [done|]. cbn [foldl]. apply IH; [|intros; apply Hl; by right].
    destruct (Hl id n) as (Hid & _ & Hs); [by left|]. transitivity c'; [done|].
    assert (statics c' !! id = Some (hstatic n)) as Hs' by (by rewrite (fr_statics _ _ Hfr)).
    destruct (statics_node _ _ _ Hs') as (n' & Hn' & Heq). unfold shutdown_raft.
    pose proof (run_instance_framed (hn_instance n) (@Shutdown _ (instance_env (hn_instance n)) (hn_Raft n)) (hn_fsm n) c') as Hr.
    destruct (run_instance _ _ _ _) as [[o f] c1]. destruct Hr as [Hr Hnodes]. transitivity c1; [done|].
    rewrite Hid. apply set_node_framed with n'; [by rewrite Hnodes|]. rewrite Heq. unfold hstatic. cbn. by rewrite Hid. }
  apply Hfold; [done|]. intros id n Hin. rewrite map_range_perm in Hin. apply elem_of_map_to_list in Hin.
  assert (statics c !! id = Some (hstatic n)) as Hs by (unfold statics; by rewrite lookup_fmap, Hin).
  split_and!; [by apply Hf|by eexists|done].
Qed.
End Growing.

(** ** The clock *)

(** Time does not go back, and a sleep lasts at least as long as asked (the
    documentation of package [time], monotonic readings). *)
Class ClockLaw `{Instances} : Type := {
  clock : Net → Z;
  now_reads w : clock w ≤ (time_Now w).1 ≤ clock (time_Now w).2;
  sleep_lasts d w : 0 ≤ d → clock w + d ≤ clock (time_Sleep d w);
  call_lasts k c w : clock w ≤ clock (instance_handle k c w).2;
}.

Section Waiting.
  Context `{Instances, MapOrder, !ClockLaw}.

(** That [id] was asked last and answered that it leads. *)
Definition answered_leader (id : string) (c' : Cluster) : Prop :=
  ∃ n net evs, cl_nodes c' !! id = Some n ∧
    instance_handle (hn_instance n) RaftState_ net = (Leader, evs, cl_net c').

Lemma framed_instance c c' id n : framed c c' → cl_nodes c !! id = Some n →
  ∃ n', cl_nodes c' !! id = Some n' ∧ hn_instance n' = hn_instance n.
Proof.
  intros Hfr Hn. assert (statics c' !! id = Some (hstatic n)) as Hs.
  { rewrite (fr_statics _ _ Hfr). unfold statics. by rewrite lookup_fmap, Hn. }
  destruct (statics_node _ _ _ Hs) as (n' & Hn' & [= _ Hi _]). by exists n'.
Qed.

Lemma find_leader_spec ids c : filed c →
  let '(o, c') := find_leader ids c in
  clock (cl_net c) ≤ clock (cl_net c') ∧ ∀ id, o = Some id → id ∈ ids ∧ answered_leader id c'.
Proof.
  revert c. induction ids as [|id ids IH]; intros c Hf; cbn [find_leader]; [split; [lia|done]|].
  assert (∀ c1, framed c c1 → clock (cl_net c) ≤ clock (cl_net c1) →
    let '(o, c') := find_leader ids c1 in
    clock (cl_net c) ≤ clock (cl_net c') ∧ ∀ id0, o = Some id0 → id0 ∈ id :: ids ∧ answered_leader id0 c') as Hrest.
  { intros c1 Hfr Hle. specialize (IH c1 (framed_filed _ _ Hfr Hf)). destruct (find_leader ids c1) as [o c'].
    destruct IH as [Hc Ho]. split; [lia|]. intros id0 E. destruct (Ho id0 E). split; [by right|done]. }
  destruct (cl_nodes c !! id) as [n|] eqn:Hn; [|by apply Hrest].
  pose proof (HIsLeader_spec id n c Hf Hn) as Hs. pose proof (call_lasts (hn_instance n) RaftState_ (cl_net c)) as Hl.
  destruct (instance_handle _ _ _) as [[a evs] net] eqn:E. destruct Hs as (c1 & -> & Hfr & Hnet). cbn [snd] in Hl.
  destruct (bool_decide (a = Leader)) eqn:Ha; [|apply Hrest; [done|by rewrite Hnet]].
  bool_props. subst a. rewrite Hnet. split; [done|]. intros id0 [= <-]. split; [by left|].
  destruct (framed_instance _ _ _ _ Hfr Hn) as (n' & Hn' & Hi).
  exists n', (cl_net c), evs. by rewrite Hi, Hnet.
Qed.

(** With fuel for the time that is left the loop ends. *)
Lemma wait_loop_ends fuel deadline c :
  filed c → deadline ≤ clock (cl_net c) + 20 * millisecond * Z.of_nat fuel →
  ∃ r c', wait_loop fuel deadline c = Some (r, c') ∧
    (r = "" ∧ deadline ≤ clock (cl_net c') ∨ r ∈ cl_order c ∧ answered_leader r c').
Proof.
  revert c. induction fuel as [|fuel IH]; intros c Hf Hle; cbn [wait_loop];
    pose proof (now_reads (cl_net c)) as Hnow; destruct (time_Now (cl_net c)) as [now net]; cbn [fst snd] in Hnow;
    destruct (now <? deadline) eqn:Hlt; bool_props; try lia;
    try (eexists _, _; split; [done|]; left; split; [done|]; cbn [cl_net set_net]; lia).
  pose proof (find_leader_spec (cl_order (set_net net c)) (set_net net c) Hf) as Hs.
  pose proof (find_leader_framed (cl_order (set_net net c)) (set_net net c) Hf) as Hfr.
  destruct (find_leader _ _) as [[id|] c1]; cbn [snd] in Hfr; destruct Hs as [Hc Hid].
  - eexists _, _. split; [done|]. right. by apply Hid.
  - pose proof (sleep_lasts (20 * millisecond) (cl_net c1) ltac:(done)) as Hsleep.
    set (c2 := set_net (time_Sleep (20 * millisecond) (cl_net c1)) c1).
    destruct (IH c2) as (r & c' & Hw & Hr).
    + eapply framed_filed; [|exact Hf]. transitivity (set_net net c); [apply set_net_framed|].
      transitivity c1; [done|apply set_net_framed].
    + cbn [c2 cl_net set_net] in *. lia.
    + exists r, c'. split; [done|]. destruct Hr as [?|[Hr ?]]; [by left|right]. split; [|done].
      cbn [c2 cl_order set_net] in Hr. by rewrite (fr_order _ _ Hfr) in Hr.
Qed.
End Waiting.

(** ** Properties *)

Section Theorems.
  Context `{Instances, MapOrder} (go_quote : string → string).

(** The clusters a test can have: made by [NewCluster], then restarts that
    succeed, shutdowns, questions and waits in any order. *)
Inductive reachable (size : nat) : Cluster → Prop :=
| reach_new net c : NewCluster go_quote net size = (Returned tt, c) → reachable size c
| reach_restart c id c' : reachable size c → RestartNode go_quote id c = (Returned tt, c') → reachable size c'
| reach_shutdown c id : reachable size c → reachable size (ShutdownNode id c)
| reach_all c : reachable size c → reachable size (ShutdownAll c)
| reach_leader c : reachable size c → reachable size (LeaderID c).2
| reach_wait fuel c r c' : reachable size c → WaitForLeader fuel c = Some (r, c') → reachable size c'.

Lemma reachable_good size c : reachable size c → good size size c ∧ live_connected c.
Proof.
  assert (∀ c c', framed c c' → good size size c ∧ live_connected c → good size size c' ∧ live_connected c') as Hfr.
  { intros c1 c2 Hfr [Hg Hc]. split; [by eapply good_framed|by eapply connected_framed]. }
  induction 1 as [net c Hn|c id c' _ [IH1 IH2] Hr|c id _ IH|c _ IH|c _ IH|fuel c r c' _ IH Hw].
  - apply NewCluster_good in Hn as [Hg Hc]. split; [done|apply Hc].
  - destruct (RestartNode_good _ _ _ _ _ IH1 Hr) as [Hg [[-> _]|Hc]]; [done|]. split; [done|apply Hc].
  - unfold ShutdownNode. destruct (cl_nodes c !! id) as [n|] eqn:Hn; [|done].
    eapply Hfr; [|exact IH]. eapply shutdown_framed; [eapply good_filed, IH|exact Hn].
  - eapply Hfr; [|exact IH]. eapply shutdown_all_framed, good_filed, IH.
  - eapply Hfr; [|exact IH]. unfold LeaderID. pose proof (find_leader_framed (cl_order c) c (good_filed _ _ _ (proj1 IH))) as Hl.
    by destruct (find_leader _ _).
  - eapply Hfr; [|exact IH]. unfold WaitForLeader in Hw. destruct (time_Now (cl_net c)) as [now net].
    transitivity (set_net net c); [apply set_net_framed|].
    eapply wait_loop_framed; [|exact Hw]. eapply framed_filed; [apply set_net_framed|]. eapply good_filed, IH.
Qed.

(** The transport of node [i] knows the current transport of node [j] under its
    address. *)
Definition knows (size : nat) (c : Cluster) (i j : nat) : Prop := ∀ ni nj,
  Cluster_Node c (node_id i) = Some ni → Cluster_Node c (node_id j) = Some nj →
  routes (cl_log c) !! (hn_instance ni, cfg_RaftAddr (node_config size j)) = Some (hn_instance nj).

Lemma connected_knows live size c i j : good size size c → connected live c → i ≠ j →
  (∀ ni, Cluster_Node c (node_id i) = Some ni → live (hn_instance ni)) → knows size c i j.
Proof.
  intros Hg Hconn Hij Hlive ni nj Hni Hnj. unfold Cluster_Node in *.
  assert (∀ x n, cl_nodes c !! node_id x = Some n → statics c !! node_id x = Some (hstatic n)) as Hst.
  { intros x n Hn. unfold statics. by rewrite lookup_fmap, Hn. }
  assert (node_id i ≠ node_id j) as Hne by (by intros E%node_id_inj).
  pose proof (Hconn _ _ _ _ (Hst _ _ Hni) (Hst _ _ Hnj) Hne (Hlive _ Hni)) as Hroute.
  destruct (g_node _ _ _ Hg _ _ (Hst _ _ Hnj)) as (k & Ek%node_id_inj & _ & Hcfg & _). subst k.
  by rewrite Hcfg in Hroute.
Qed.

(** C25: a test cluster keeps its shape. Whatever a test does to a cluster of [size]
    nodes, [IDs] lists the nodes in the order of creation, each of them is there
    with the configuration of its place, no two share an instance, and the
    transport of every node that was not shut down knows the current transport of
    every other node under its address, also after nodes were restarted with fresh
    transports. Right after the creation of a cluster and after every restart of
    one of its nodes, all transports know each other, those of nodes shut down
    before the restart too. *)
Theorem cluster_connected (size : nat) (c : Cluster) :
  reachable size c →
  IDs c = map node_id (seq 0 size) ∧
  (∀ i, (i < size)%nat → ∃ n, Cluster_Node c (node_id i) = Some n ∧ hn_ID n = node_id i ∧ hn_cfg n = node_config size i) ∧
  (∀ i j ni nj, i ≠ j → Cluster_Node c (node_id i) = Some ni → Cluster_Node c (node_id j) = Some nj →
     hn_instance ni ≠ hn_instance nj) ∧
  (∀ i j ni, i ≠ j → Cluster_Node c (node_id i) = Some ni → running (cl_log c) (hn_instance ni) → knows size c i j) ∧
  (∀ net c0 i j, NewCluster go_quote net size = (Returned tt, c0) → i ≠ j → knows size c0 i j) ∧
  (∀ id c' i j, id ∈ IDs c → RestartNode go_quote id c = (Returned tt, c') → i ≠ j → knows size c' i j).
Proof.
  intros Hr. destruct (reachable_good size c Hr) as [Hg Hconn]. split_and!; [apply (g_order _ _ _ Hg)| | | | |].
  - intros i Hi. destruct (proj2 (g_dom _ _ _ Hg (node_id i))) as [s Hs].
    { rewrite (g_order _ _ _ Hg). by apply elem_of_places. }
    destruct (statics_node _ _ _ Hs) as (n & Hn & <-).
    destruct (g_node _ _ _ Hg _ _ Hs) as (j & Ej%node_id_inj & Hid & Hcfg & _). subst j. by exists n.
  - intros i j ni nj Hij Hni Hnj E. unfold Cluster_Node in *.
    assert (∀ x n, cl_nodes c !! node_id x = Some n → statics c !! node_id x = Some (hstatic n)) as Hst.
    { intros x n Hn. unfold statics. by rewrite lookup_fmap, Hn. }
    apply Hij. apply node_id_inj. eapply (g_inst _ _ _ Hg); [by apply Hst|by apply Hst|done].
  - intros i j ni Hij Hni Hlive. eapply connected_knows; [exact Hg|exact Hconn|done|].
    intros ni' Hni'. rewrite Hni in Hni'. by injection Hni' as <-.
  - intros net c0 i j Hc0 Hij. destruct (NewCluster_good _ _ _ _ Hc0) as [Hg0 Hall].
    by apply (connected_knows (λ _, True)).
  - intros id c' i j Hid Hc' Hij. destruct (RestartNode_good _ _ _ _ _ Hg Hc') as [Hg' [[_ Hnone]|Hall]].
    + apply (g_dom _ _ _ Hg) in Hid as [s Hs]. destruct (statics_node _ _ _ Hs) as (n & Hn & _). congruence.
    + by apply (connected_knows (λ _, True)).
Qed.

(** C26: waiting for a leader ends. Whatever the instances answer, [WaitForLeader]
    returns after at most 250 sleeps: with the name of a node of the cluster that
    has just answered that it leads, or with the empty string once five seconds
    have passed. *)
Theorem WaitForLeader_terminates `{!ClockLaw} (size : nat) (c : Cluster) :
  reachable size c →
  ∃ r c', WaitForLeader 250 c = Some (r, c') ∧
    (r = "" ∧ clock (cl_net c) + 5 * second ≤ clock (cl_net c') ∨ r ∈ IDs c ∧ answered_leader r c').
Proof.
  intros Hr. destruct (reachable_good size c Hr) as [Hg _]. unfold WaitForLeader.
  pose proof (now_reads (cl_net c)) as Hnow. destruct (time_Now (cl_net c)) as [now net]. cbn [fst snd] in Hnow.
  destruct (wait_loop_ends 250 (now + 5 * second) (set_net net c)) as (r & c' & Hw & Hr').
  - eapply framed_filed; [apply set_net_framed|by eapply good_filed].
  - cbn [cl_net set_net]. change (20 * millisecond * Z.of_nat 250) with (5 * second). lia.
  - exists r, c'. split; [done|]. destruct Hr' as [[-> ?]|?]; [left; split; [done|lia]|by right].
Qed.
End Theorems.
