(* ===== verification/Examples.v ===== *)
(** * Concrete runs

    A three-node configuration, a few requests, and the theorems of the store, the
    metrics and the API applied to them in the loopback environment. *)

From S2P Require Import Prelude Utf8 Base64 Json GoJson Config Codec Fsm Runtime Loopback RaftNode Url Http Metrics Store Api Cluster Lifecycle Harness.
Local Open Scope Z_scope.

Definition sample_peers : list Peer :=
  [mkPeer "n1" "127.0.0.1:7001" "127.0.0.1:8001"; mkPeer "n2" "127.0.0.1:7002" "127.0.0.1:8002"].
Definition sample_config : Config :=
  mkConfig "n1" "127.0.0.1:7001" "127.0.0.1:8001" "data" sample_peers
    (mkSnapshotConfig "file" "" 3) (mkLogStoreConfig "") (mkLogConfig "" "" false 0 0 0)
    (mkRaftConfig 0 0 0 0) (mkDebugConfig "") false.
Definition sample_node : Node := mkNode sample_config 5000000000.
Definition sample_metrics : Metrics := mkMetrics (Some sample_node) true.
Definition sample_api : API :=
  mkAPI (SetMetrics (Store_New sample_node 5000000000) (Some sample_metrics)) sample_node (Some sample_metrics).

Definition request (method path query body : string) : Request :=
  mkRequest method (path_url path query) (to_bytes body).

(** JSON text with single quotes for double quotes. *)
Definition quoted (s : string) : bytes :=
  map (λ c, if decide (c = "'"%char) then dquote else c) (to_bytes s).

Definition put_k : Request := mkRequest "PUT" (path_url "/kv/k" "") (quoted "{'value':'v'}").
Definition get_k : Request := request "GET" "/kv/k" "" "".
Definition bad_put : Request := request "PUT" "/kv/k" "" "{".
Definition list_all : Request := request "GET" "/kv" "prefix=/" "".
Definition full_status : Request := request "GET" "/cluster/status" "full=true" "".
Definition join_n3 : Request :=
  mkRequest "POST" (path_url "/cluster/join" "")
    (quoted "{'id':'n3','addr':'127.0.0.1:7003','httpAddr':'127.0.0.1:8003'}").

(** The reply a run writes. *)
Definition reply_of {A} (m : @M loop_lib loop_env A) (w : loop_world) (f : FSM) : reply :=
  serve (@writes_of loop_lib (@st_trace loop_lib loop_env (m (start w f)).2)).

(** Instances that each run in a loopback world of their own, and a clock. *)
Definition loop_instances : @Instances loop_lib := {|
  Net := gmap nat loop_world * Z;
  instance_handle k c '(ws, t) :=
    let '(a, evs, w) := loop_handle c (default follower_world (ws !! k)) in (a, evs, (<[k := w]> ws, t));
  time_Now '(ws, t) := (t, (ws, t));
  time_Sleep d '(ws, t) := (ws, t + d);
|}.
Program Definition loop_clock : @ClockLaw loop_lib loop_instances := {| clock := snd |}.
Next Obligation. intros [ws t]. cbn. lia. Qed.
Next Obligation. intros d [ws t] Hd. cbn. lia. Qed.
Next Obligation. intros k c [ws t]. cbn. destruct (loop_handle _ _) as [[a evs] w]. cbn. lia. Qed.

#[local] Existing Instances loop_lib loop_env loop_law key_order loop_instances.

(** A put on a leader and on a follower. *)
Example put_on_leader :
  reply_code (reply_of (handleKV sample_api put_k) leader_world New) = 200.
Proof. vm_compute. reflexivity. Qed.
Example put_on_follower :
  reply_code (reply_of (handleKV sample_api put_k)
    (mkLoop false "127.0.0.1:7002" 0 ∅ [] ∅ 0) New) = 307.
Proof. vm_compute. reflexivity. Qed.

(** A peer whose status is the JSON value [null] makes the fan-out panic. *)
Example null_status_panics :
  (handleClusterStatus sample_api full_status
     (start (mkLoop true "127.0.0.1:7001" 0 ∅ []
        {["http://127.0.0.1:8002/cluster/status" := mkResponse 200 (to_bytes "null")]} 0) New)).1 = Panic.
Proof. vm_compute. reflexivity. Qed.

(** A configuration that is accepted, and a node that cannot be built from it: the
    store file and the transport stay open. *)
Definition s3_config : Config :=
  mkConfig "n1" "127.0.0.1:7001" "127.0.0.1:8001" "data" sample_peers
    (mkSnapshotConfig "s3" "" 3) (mkLogStoreConfig "") (mkLogConfig "" "" false 0 0 0)
    (mkRaftConfig 0 0 0 0) (mkDebugConfig "") false.
Example failed_construction_leaks :
  validate s3_config = None ∧
  holds [] (st_trace (Node_New (λ s, s) s3_config (start leader_world New)).2) = [StoreFile; Transport].
Proof. vm_compute. split; reflexivity. Qed.

(** ** Witnesses *)

Lemma middleware_transparent_witness :
  let Q o tr := o = Done tt ∧ tr = Out <$> error_writes "gone" 410 in
  let next (_ : Request) := http_Error "gone" 410 in
  (∀ g, wp (next get_k) g (λ o tr, Q o tr ∧ ∀ code, WriteHeader code ∈ writes_of tr → code = 101 ∨ 200 ≤ code ≤ 999)) ∧
  wp (HTTPMiddleware (Some sample_metrics) next get_k) New (λ o tr,
    ∃ tr0, Q o tr0 ∧
      serve (writes_of tr) = serve (writes_of tr0) ∧
      match o with
      | Done _ => ∃ d, metrics_of tr = metrics_of tr0 ++
          [HttpReqs (Method get_k) (pretty (reply_code (serve (writes_of tr0)))); HttpDur (Method get_k) d]
      | Panic => metrics_of tr = metrics_of tr0
      end).
Proof.
  intros Q next.
  assert (∀ g, wp (next get_k) g (λ o tr, Q o tr ∧
    ∀ code, WriteHeader code ∈ writes_of tr → code = 101 ∨ 200 ≤ code ≤ 999)) as Hnext.
  { intros g. unfold next. apply wp_http_Error. split; [by split|]. rewrite writes_of_out. intros code Hin.
    unfold error_writes in Hin. rewrite !elem_of_cons, elem_of_nil in Hin.
    destruct Hin as [Hc|[Hc|[Hc|[Hc|[Hc|[]]]]]]; try discriminate Hc. injection Hc as ->. lia. }
  split; [exact Hnext|]. exact (proj1 (middleware_transparent sample_metrics next get_k New Q Hnext)).
Defined.

Lemma put_get_roundtrip_witness :
  has_key put_k ∧ put_value put_k = Some "v" ∧
  reply_code (reply_of (handleKV sample_api put_k) leader_world New) = StatusOK ∧
  wp (handleKV sample_api put_k) New (λ o tr, reply_code (serve (writes_of tr)) = StatusOK →
    ∃ cmd, committed (api_store sample_api)
        (mkCommand "put" (kv_key (Path (req_URL put_k))) (Some (to_bytes "v")) "" "" "") cmd tr).
Proof.
  assert (has_key put_k) as Hk by (by split).
  assert (put_value put_k = Some "v") as Hv by (vm_compute; reflexivity).
  split_and!; [done|done|vm_compute; reflexivity|].
  assert (Query_Get (req_URL get_k) "consistent" ≠ "true") as Hq by (vm_compute; done).
  assert (valid_string (kv_key (Path (req_URL put_k))) = true) as Hvalid by (vm_compute; reflexivity).
  eapply wp_mono;
    [exact (put_get_roundtrip sample_api put_k get_k "v" New Hk (or_introl eq_refl) Hv eq_refl eq_refl Hq Hvalid)|].
  intros o tr _ H Hcode. destruct (H Hcode) as (cmd & Hc & _). exists cmd. exact Hc.
Defined.

Lemma write_replies_witness :
  has_key put_k ∧
  wp (handleKV sample_api put_k) New (λ o tr, o = Done tt ∧
    ∃ err, disciplined (api_store sample_api) (put_command "/k" (Some (to_bytes "v"))) err tr).
Proof.
  assert (has_key put_k) as Hk by (by split). split; [done|].
  assert (put_value put_k = Some "v") as Hv by (vm_compute; reflexivity).
  assert (Method put_k ∈ [MethodPut; MethodPost; MethodDelete]) as Hm by (left; done).
  eapply wp_mono; [exact (write_replies sample_api put_k New "v" Hk (or_introl Hv) Hm)|].
  intros o tr _ (Ho & err & Hd & _). split; [exact Ho|]. exists err. exact Hd.
Defined.

Lemma read_replies_witness :
  has_key get_k ∧ wp (handleKV sample_api get_k) New (λ o tr, o = Done tt ∧ proposals tr = []).
Proof.
  assert (has_key get_k) as Hk by (by split). split; [done|].
  eapply wp_mono; [exact (read_replies sample_api get_k New Hk eq_refl)|].
  intros o tr _ (Ho & Hp & _). by split.
Defined.

Lemma refused_requests_have_no_effect_witness :
  put_value bad_put = None ∧ wp (handleKV sample_api bad_put) New (λ o tr, o = Done tt ∧ calls_of tr = [] ∧
    (reply_code (serve (writes_of tr)) = StatusBadRequest ∧ (¬ has_key bad_put ∨ Method bad_put ∈ [MethodPut; MethodPost]) ∨
     reply_code (serve (writes_of tr)) = StatusMethodNotAllowed ∧ has_key bad_put ∧
       Method bad_put ∉ [MethodPut; MethodPost; MethodDelete; MethodGet])).
Proof.
  assert (put_value bad_put = None) as Hv by (vm_compute; reflexivity). split; [exact Hv|].
  assert (Method bad_put ∈ [MethodPut; MethodPost]) as Hm by (left; done).
  exact (refused_requests_have_no_effect sample_api bad_put New (or_intror (or_introl (conj Hm Hv)))).
Defined.

Lemma full_status_covers_cluster_witness :
  Query_Get (req_URL full_status) "full" = "true" ∧
  wp (handleClusterStatus sample_api full_status) New (λ o tr, ∃ tr0 tr1 tr2, tr = tr0 ++ tr1 ++ tr2 ∧
    (o = Done tt → calls_of tr1 =
       requests "n1" (map_range (peer_http_addrs sample_config (deliver New (events_of tr0)))))).
Proof.
  assert (Query_Get (req_URL full_status) "full" = "true") as Hq by (vm_compute; reflexivity).
  split; [exact Hq|].
  eapply wp_mono; [exact (full_status_covers_cluster sample_api full_status New Hq)|].
  intros o tr _ (self & tr0 & tr1 & tr2 & Htr & _ & _ & _ & Ho). exists tr0, tr1, tr2. split; [exact Htr|].
  intros ->. exact (proj1 Ho).
Defined.

Lemma joined_peer_known_witness :
  let b := mkMember "n3" "127.0.0.1:7003" "127.0.0.1:8003" in
  decode_body memberBody_of_json (Body join_n3) = Decoded b ∧
  reply_code (reply_of (handleJoin sample_api join_n3) leader_world New) = StatusOK ∧
  wp (handleJoin sample_api join_n3) New (λ o tr, reply_code (serve (writes_of tr)) = StatusOK →
    ∃ cmd, committed (api_store sample_api)
        (mkCommand "addPeer" "" None "n3" "127.0.0.1:7003" "127.0.0.1:8003") cmd tr).
Proof.
  intros b. assert (decode_body memberBody_of_json (Body join_n3) = Decoded b) as Hb by (vm_compute; reflexivity).
  split_and!; [exact Hb|vm_compute; reflexivity|].
  assert (mb_ID b ≠ "") as Hi by done. assert (mb_HTTPAddr b ≠ "") as Hh by done.
  eapply wp_mono; [exact (joined_peer_known sample_api join_n3 New b Hb Hi Hh)|].
  intros o tr _ H Hcode. destruct (H Hcode) as (cmd & Hc & _). exists cmd. exact Hc.
Defined.

Lemma list_replies_witness :
  Method list_all = MethodGet ∧
  reply_code (reply_of (handleKVList sample_api list_all) leader_world New) = StatusOK ∧
  wp (handleKVList sample_api list_all) New (λ o tr, o = Done tt).
Proof.
  assert (Method list_all = MethodGet) as Hm by reflexivity.
  split_and!; [exact Hm|vm_compute; reflexivity|].
  eapply wp_mono; [exact (list_replies sample_api list_all New Hm)|].
  intros o tr _ [Ho _]. exact Ho.
Defined.

(** A peer's answer whose term is written [1.50]. *)
Definition odd_status : http_response := mkResponse StatusOK (quoted "{'term':1.50,'is_leader':true}").

Definition odd_out : gmap string json := <["term" := JNum (to_bytes "1.5")]> {["is_leader" := JBool true]}.

Example odd_status_relayed : peer_status "127.0.0.1:8002" (Ok odd_status) = Ok (Some odd_out).
Proof. vm_compute. reflexivity. Qed.

(** ** A cluster of three, one node restarted *)

Definition quiet : gmap nat loop_world * Z := (∅, 0).
Definition cluster3 : @Cluster loop_lib loop_instances := (@NewCluster loop_lib loop_instances (λ s, s) quiet 3).2.
Definition cluster3' : @Cluster loop_lib loop_instances := (RestartNode (λ s, s) "n2" cluster3).2.

Lemma cluster3_reachable : reachable (λ s, s) 3 cluster3 ∧ reachable (λ s, s) 3 cluster3'.
Proof.
  assert (reachable (λ s, s) 3 cluster3) as H.
  { apply (@reach_new loop_lib loop_instances _ _ _ quiet). unfold cluster3. rewrite (surjective_pairing (NewCluster _ _ _)) at 1.
    apply pair_equal_spec. split; [vm_compute; reflexivity|reflexivity]. }
  split; [exact H|]. apply (reach_restart _ _ cluster3 "n2"); [exact H|].
  unfold cluster3'. rewrite (surjective_pairing (RestartNode _ _ _)) at 1.
  apply pair_equal_spec. split; [vm_compute; reflexivity|reflexivity].
Qed.

Lemma cluster_connected_witness :
  reachable (λ s, s) 3 cluster3' ∧ hn_instance <$> Cluster_Node cluster3' "n2" = Some 3%nat ∧
  IDs cluster3' = ["n1"; "n2"; "n3"].
Proof.
  split; [exact (proj2 cluster3_reachable)|]. split; [vm_compute; reflexivity|].
  exact (proj1 (cluster_connected (λ s, s) 3 cluster3' (proj2 cluster3_reachable))).
Defined.

(** A node that is shut down knows nobody any more; the others still know it. *)
Example shutdown_disconnects :
  let log := cl_log (ShutdownNode "n1" cluster3) in
  routes log !! (0%nat, "127.0.0.1:7402") = None ∧ routes log !! (1%nat, "127.0.0.1:7401") = Some 0%nat.
Proof. vm_compute. split; reflexivity. Qed.

Lemma WaitForLeader_terminates_witness :
  ∃ r c', WaitForLeader 250 cluster3 = Some (r, c') ∧
    (r = "" ∧ @clock _ _ loop_clock (cl_net cluster3) + 5 * second ≤ @clock _ _ loop_clock (cl_net c') ∨
     r ∈ IDs cluster3 ∧ answered_leader r c').
Proof.
  exact (@WaitForLeader_terminates _ _ _ (λ s, s) loop_clock 3 cluster3 (proj1 cluster3_reachable)).
Defined.
